(* ===== verification/_CoqProject ===== *)
-Q . S2P
Prelude.v
GoStrings.v
ApiTypes.v
ApiMemory.v
DeepCopy.v
DeepCopyTheorems.v
Validation.v
Json.v
JsonText.v
RouterWorld.v
Router.v
RouterDemo.v
RouterProps.v
Pipeline.v
RouterSpec.v
RouterTheorems.v
NestedPipes.v
GraphJson.v
GraphTyping.v
Interleave.v
InterleaveTheorems.v
HttpWriter.v
RouterHttp.v
RouterHttpTheorems.v
RouterTimeout.v
RouterTimeoutTheorems.v
Certificates.v
CryptoDemo.v
Kube.v
Manager.v
ManagerTheorems.v
Controller.v
ControllerProps.v
ControllerTheorems.v
RouterManifest.v
ManifestDemo.v
GarbageCollection.v
StepAddresses.v
GraphMemory.v
Deployment.v
Float64.v
ExporterStats.v
Metrics.v
Collectors.v
Accesses.v
Goroutines.v
ContainerRounds.v
Registry.v
ExporterSystem.v
ExporterTheorems.v
MetricsTheorems.v
CollectorRounds.v
ExporterMain.v
