(* ===== verification/Prelude.v ===== *)
(** * GenAIInfra: a verification library for the Go programs of the repository

    The repository runs generative-AI pipelines on Kubernetes.  Three Go
    programs hold its logic, and this library models them.

    - The GMConnector controller (microservices-connector/api, internal,
      cmd/main.go).  A GMConnector resource describes a graph: nodes, each a
      Sequence, a Switch or an Ensemble of steps, each step a service or another
      node.  The webhook validates a resource at admission; the controller
      creates the deployments and services the steps name, records them in the
      annotations of the resource's status, deletes those that a later version
      of the graph no longer uses, and starts a router with the graph in its
      configuration.  At its start it makes the webhook's certificate and the
      configuration by which the API server calls the webhook.
    - The graph router (cmd/router/main.go).  It serves HTTP: a request is sent
      through the graph, from the node "root", and the last response is relayed
      to the client; two more handlers adapt chat and dataprep requests.
    - The memory bandwidth exporter (kubernetes-addons).  An NRI plugin queues
      messages about containers; the collectors of containers, classes and the
      node read resctrl and cgroup files, turn two readings into rates, and a
      Prometheus scrape reads the metrics.

    ** The files, and what they model

    Prelude: this header; the ways a Go call ends ([outcome]: a value, a panic,
    no fuel left) and programs over an explicit state ([prog S A], a state monad
    whose state survives a panic), with the calculus used to reason on them:
    [post] (postconditions), [keeps] (a relation between first and last state),
    [prog_le] (more fuel changes nothing) and [prog_eq] as relations closed under
    binds ([ProgRel]), [total] (fuel suffices), the bind of fallible calls
    ([try_bind], [x ←? p; k]), the hint database [prog] and the tactic
    [prog_walk].

    GoStrings: package strings and strconv on byte strings, with the round trips
    split/join and parse/format.  Float64: Go's float64 on the Standard
    Library's executable IEEE 754 model.

    ApiTypes (api/v1alpha3/gmconnector_types.go): the data of a resource, as
    values.  ApiMemory: the same data in Go's memory, a heap of maps and arrays,
    slices and references, with the interface [Stored] (references, typing,
    value) of every API type.  DeepCopy, DeepCopyTheorems
    (api/v1alpha3/zz_generated.deepcopy.go): the generated methods on this heap.
    Validation (api/v1alpha3/validating_webhook.go): every check and the three
    admission entry points.
    GraphTyping: the enumerations of the resource's schema, typed graphs, and
    [strict_routeStep], routing without the code's defaults.

    Json: decoded JSON values and the interface [JsonCodec] of encoding/json,
    with its laws in [JsonCodecLaws]; JsonText: an instance on text, proved to
    satisfy them, which the witnesses run on.  GraphJson: the JSON of the API
    types, from their struct tags, and its round trip.

    RouterWorld (the readers and calls of cmd/router/main.go): response bodies
    as readers in a shared store (drained by reading, closed by reference), and
    [RouterEnv]: gjson, the HTTP client, the scheduler.
    Router (cmd/router/main.go, isSuccessFul to routeStep): the three handlers
    and the recursion through the graph.
    Pipeline: the specification of the router.  [vroute] has no store: a body
    is a value, the state is the list of calls, Sequence and Switch are two
    policies of one pipeline; [refines_routeStep] is the refinement.
    RouterProps: fuel, well-formed results, related recursions.
    RouterSpec: the three kinds of nodes, proved on [vroute].
    RouterDemo: a concrete environment and graphs for the witnesses.
    RouterTheorems: the properties of the router and of the graphs the webhook
    lets through.
    NestedPipes: Sequences and Switches whose steps are services or again nodes,
    as one pipe through the services below.
    Interleave, InterleaveTheorems (handleEnsemblePipeline): the goroutines of an
    Ensemble and its collecting loop as a step relation, one action of one
    goroutine at a time, and its relation to the sequential run of Router.
    HttpWriter: net/http's response writer.
    RouterHttp (cmd/router/main.go, prepareErrorResponse to initializeRoutes):
    the copy loop and the time-out of mcGraphHandler, the dataprep, UI and asset
    handlers, the table of routes.
    RouterHttpTheorems: what a client of these handlers sees.
    RouterTimeout, RouterTimeoutTheorems (mcGraphHandler): the handler and its
    goroutine, the channel and the one minute context as a step relation, one
    action on the response or one read of the body at a time.

    Kube: the objects of the cluster, the requests made to the API server and
    [KubeEnv], everything the controller calls outside the repository (the
    server's answers depend on the requests made before).
    Controller (internal/controller/gmconnector_controller.go): the manifest
    table, the configuration of a step's resources, the retry loop, the records,
    the router, the status, Reconcile, the event filters and their registration.
    ControllerProps, ControllerTheorems: its lemmas and properties.
    GarbageCollection, StepAddresses: the resources of a graph and the addresses
    of its steps, computed from the graph and the manifests alone, against what
    Reconcile records and sets, and what it tells a step of its downstream
    services.  GraphMemory: recordResource on the heap of ApiMemory, where the
    graph is shared by reference.
    Deployment: the controller and the router together: the router's main, which
    decodes the graph that reconcileRouterService wrote.
    Certificates (internal/controller/cert.go): the CA and the certificate, with
    the crypto packages and the clock behind [CryptoEnv] and their documented
    behaviour in [CryptoLaws]; CryptoDemo: an instance of both.
    Manager, ManagerTheorems (internal/controller/webhook_config.go,
    api/v1alpha3/groupversion_info.go, cmd/main.go): the webhook configuration,
    the registration of the API's types, the start of the manager with the
    options its flags give it, the log level handler.

    ExporterStats (collector/common.go, info.go): reading, parsing, rates, tasks
    files.  Metrics (collector/info.go): the descriptions of the metrics.
    Collectors (collector/{container,class,node}_collector.go,
    info/container.go, plugin/hook-injector.go): the collectors, the container
    collector as a step relation over messages, timers and process scans; the
    handlers of the plugin and its channel.  Accesses: goroutines as programs
    that access shared variables, alone and in a pool, and their races.
    Goroutines (collector/container_collector.go), CollectorRounds
    (collector/{class,node}_collector.go): the goroutines of the three collectors
    as such programs, and what they do interleaved.
    Registry (collector/collector.go): the collectors as objects in a store
    behind the interface [Collector], the flags, the cache of created
    collectors, a scrape.  ExporterSystem: the plugin, the channel and the
    container collector as one system, against the specification [expected] of
    the containers to track.  ExporterMain
    (cmd/main.go, Run of the plugin): the metrics handler with its filters, and
    main.  ExporterTheorems, MetricsTheorems: the properties of ExporterStats
    and Collectors, and of the metrics of a scrape.

    ** What the theorems show

    Routing (C1 to C14, C31, C32).  [routeStep] refines [vroute] on every graph
    (C1) and its results are well formed (C32); the webhook accepts exactly the
    graphs whose steps have known names, existing nodes, fresh service names and
    a root (C2), and these never read an absent node or an unknown type (C14);
    routing ends on graphs without a cycle of node references (C3), which the
    webhook does not exclude (C5).  Nested Sequences pass
    responses on as one pipe (C6), a Sequence stops at a failed hard step (C7), a
    Switch follows every step whose condition holds (C8), an Ensemble computes the reference merge (C10), unless a call is
    refused (C13).  The sequential run of its goroutines is one of the
    interleavings (C9); no interleaving blocks (C12) and all give the response of
    the merge (C11).  The merge with the request's parameters (C31).
    From the controller to the router (C4, C21): the addresses a reconciliation
    sets (C21), and that the router it configures serves the stored graph and
    calls every step at its address (C4).
    The memory of a graph (C15, C16): recording a resource through references
    does what it does on values, when no two references are equal (C15), and the
    generated copies are isolated from their originals (C16).
    The controller (C22, C23, C36, C37): an update deletes exactly the resources
    the new graph does not have (C22), the status line (C23), the retry loop
    (C36), the quoting of the router's configuration (C37).
    The manager (C28): a started manager's webhook is trusted for a year.
    The HTTP handlers (C33 to C35): a body is relayed whole (C33), the dataprep
    form (C34), the chat payload (C35).
    The time-out (C17 to C20): what the client of a timed out request gets (C17),
    that the handler can always return (C18), the races with its goroutine (C19),
    and that without a time-out the execution is the sequential run (C20).
    The exporter (C24 to C27, C29, C30, C38 to C40): the tracked containers are
    those announced (C24), the operations of the collectors are the atomic runs
    of their goroutines (C25), which race on the maps of the container and of the
    class collector (C26) and mix rounds in the scrapes of the node (C27), every
    scrape is answered (C29) with metrics that fit their descriptions and differ
    from each other (C30), the rates (C38), the plugin's bounded channel (C39), the hooks
    that make the monitor groups (C40).
    Lemmas beside them show smaller behaviours, defects among them.

    ** Fuel and bounds

    [routeStep] takes fuel because its recursion follows the graph: more than
    the rank of the node is enough when the references have no cycle (C3), and
    no fuel is otherwise (C5).  The copy loop of mcGraphHandler runs on
    [copy_fuel], computed from the body it reads (Lemma mcGraphHandler_terminates).  The retry loop runs on
    [apply_fuel] = 601: a 100 ms ticker ticks at most 600 times before a one
    minute timer ([Timers], Lemma applyResourceToK8s_terminates).  Counters are 64-bit with wrap-around, process
    ids 32-bit, the plugin's channel holds [chanSize] = 100 messages.  An
    execution of an Ensemble with n steps makes at most 4 n + 2 moves (C12).

    ** What is a parameter

    Go's map enumeration (any permutation of the entries, [GoRange]), the
    scheduler of the Ensemble's goroutines (any permutation of them; in Router
    each runs to its end before the next and the choice of a [select] is free, in
    Interleave any of them moves), JSON, gjson, the HTTP client and the backends,
    the API server, YAML and templates, the methods of apimachinery's ObjectMeta,
    ListMeta and Time ([MetaCopy], with their contract in [MetaLaws]),
    controller-runtime's treatment of nil event filters, the crypto packages, the
    NRI stub and its hook manager, promhttp, the file system and the clock.

    ** What is not modelled

    Log lines and durations, the random part of a timer's interval and the
    interval itself (a round may come at any time); request headers that are only
    logged; the reverse proxy and the multipart encoding; the interleaving inside
    the execution of one step (a call, or a nested node) of an Ensemble, which
    would need the readers of several executions at once; a write that net/http
    makes while the goroutine of another request runs; a map that grows while it
    is ranged over (Go leaves open whether the new entry is seen; Goroutines and
    CollectorRounds take a range as one access and show the race); the parsing of
    the flags and the set-up of the loggers, which are the libraries'; the
    helpers of the end-to-end tests (they run kubectl and make), Helm charts and
    scripts (not Go).

    ** Order of the work

    The router's core, the webhook, the HTTP handlers, the controller and the
    exporter were done in this order, then the interleaved Ensemble, the types
    of graphs, the webhook's configuration and certificates, the exporter as a
    system with its entry point, and the controller together with the router;
    then the graph in memory with its generated copies, the time-out of the graph
    handler, the goroutines of the container collector, the resources of a graph
    and the addresses of its steps, the options of the manager; last nested nodes
    as pipes, the goroutines of the class and the node collector, the failures of
    reading and writing single files. *)

From stdpp Require Export base gmap strings list fin_maps pretty numbers option sorting.

(** String concatenation reduces on a literal first argument. *)
#[global] Arguments String.append !_ _ : simpl nomatch.

(** ** Go errors, panics and divergence *)

(** A Go [error] value, represented by the text its [Error()] method returns.
    Errors whose identity matters to the code (Kubernetes' "not found") have
    their own type in the file that uses them. *)
Abbreviation error := string (only parsing).

(** How a Go call ends: it returns a value, it panics, or the recursion of the
    model runs out of fuel (only possible when the Go recursion is unbounded or
    the fuel is too small; each fuelled function has a theorem that says how
    much is enough). *)
Inductive outcome (A : Type) : Type :=
  | Done (a : A)
  | Panic (msg : string)
  | OutOfFuel.
Arguments Done {_} _.
Arguments Panic {_} _.
Arguments OutOfFuel {_}.

#[global] Instance Done_inj {A} : Inj (=) (=) (@Done A).
Proof. by intros a b [= ->]. Qed.

(** The runtime panic messages the modelled code can raise. *)
Definition nil_deref : string := "invalid memory address or nil pointer dereference".
Definition nil_map_write : string := "assignment to entry in nil map".
Definition bad_type_assertion : string := "interface conversion".
Definition index_out_of_range : string := "index out of range".

(** ** Programs over an explicit state *)

(** A Go function that reads and writes the state [S]; a panic keeps the state
    it was raised in. *)
Definition prog (S A : Type) : Type := S → S * outcome A.

#[global] Instance prog_ret {S} : MRet (prog S) := λ A a s, (s, Done a).
#[global] Instance prog_bind {S} : MBind (prog S) := λ A B k p s,
  match p s with
  | (s', Done a) => k a s'
  | (s', Panic m) => (s', Panic m)
  | (s', OutOfFuel) => (s', OutOfFuel)
  end.

Definition panic {S A} (m : string) : prog S A := λ s, (s, Panic m).
Definition out_of_fuel {S A} : prog S A := λ s, (s, OutOfFuel).
Definition gets {S A} (f : S → A) : prog S A := λ s, (s, Done (f s)).
Definition modify {S} (f : S → S) : prog S unit := λ s, (f s, Done tt).

(** A Go expression that can panic, without effect. *)
Definition lift_outcome {S A} (o : outcome A) : prog S A := λ s, (s, o).

Lemma run_ret {S A} (a : A) (s : S) : (mret a : prog S A) s = (s, Done a).
Proof. done. Qed.

Lemma run_bind_Done {S A B} (p : prog S A) (k : A → prog S B) s s' a :
  p s = (s', Done a) → (p ≫= k) s = k a s'.
Proof. intros H. unfold mbind, prog_bind. by rewrite H. Qed.

Lemma run_bind_Panic {S A B} (p : prog S A) (k : A → prog S B) s s' m :
  p s = (s', Panic m) → (p ≫= k) s = (s', Panic m).
Proof. intros H. unfold mbind, prog_bind. by rewrite H. Qed.

Lemma run_bind_OutOfFuel {S A B} (p : prog S A) (k : A → prog S B) s s' :
  p s = (s', OutOfFuel) → (p ≫= k) s = (s', OutOfFuel).
Proof. intros H. unfold mbind, prog_bind. by rewrite H. Qed.

Lemma bind_assoc {S A B C} (p : prog S A) (k : A → prog S B) (l : B → prog S C) s :
  ((p ≫= k) ≫= l) s = (p ≫= λ a, k a ≫= l) s.
Proof. unfold mbind, prog_bind. by destruct (p s) as [s' [a|m|]]. Qed.

Lemma run_bind_inv {S A B} (p : prog S A) (k : A → prog S B) s s' b :
  (p ≫= k) s = (s', Done b) → ∃ s1 a, p s = (s1, Done a) ∧ k a s1 = (s', Done b).
Proof.
  unfold mbind, prog_bind. destruct (p s) as [s1 [a|m|]]; [|done..]. intros H. by exists s1, a.
Qed.

(** *** Go's "if err != nil return" *)

(** A call whose error ends the caller with the error [f] makes of it. *)
Definition try_bind {S A B} (f : error → error) (p : prog S (error + A))
    (k : A → prog S (error + B)) : prog S (error + B) :=
  r ← p; match r with inl e => mret (inl (f e)) | inr a => k a end.

Declare Scope prog_scope.
Delimit Scope prog_scope with prog.
Notation "x ←? p ; k" := (try_bind (λ e, e) p (λ x, k))
  (at level 20, p at level 100, k at level 200, only parsing) : prog_scope.
Notation "x ←? p 'wrapped' f ; k" := (try_bind f p (λ x, k))
  (at level 20, p at level 100, f at level 100, k at level 200, only parsing) : prog_scope.

Lemma try_bind_inr {S A B} f (p : prog S (error + A)) (k : A → prog S (error + B)) s s' b :
  try_bind f p k s = (s', Done (inr b)) →
  ∃ s1 a, p s = (s1, Done (inr a)) ∧ k a s1 = (s', Done (inr b)).
Proof.
  unfold try_bind. intros (s1 & [e|a] & Hp & Hk)%run_bind_inv; [by injection Hk|]. by exists s1, a.
Qed.

(** *** Postconditions of programs *)

(** [post p Q s]: running [p] from [s] ends in a state and an outcome that
    satisfy [Q]. *)
Definition post {S A} (p : prog S A) (Q : S → outcome A → Prop) (s : S) : Prop :=
  Q (p s).1 (p s).2.

Lemma post_intro {S A} (p : prog S A) (Q : S → outcome A → Prop) s :
  Q (p s).1 (p s).2 → post p Q s.
Proof. done. Qed.

Lemma post_mono {S A} (p : prog S A) (Q Q' : S → outcome A → Prop) s :
  post p Q s → (∀ s' o, Q s' o → Q' s' o) → post p Q' s.
Proof. unfold post. auto. Qed.

Lemma post_ret {S A} (a : A) (Q : S → outcome A → Prop) s :
  Q s (Done a) → post (mret a) Q s.
Proof. done. Qed.

Lemma post_bind {S A B} (p : prog S A) (k : A → prog S B) (Q : S → outcome B → Prop) s :
  post p (λ s' o, match o with
                  | Done a => post (k a) Q s'
                  | Panic m => Q s' (Panic m)
                  | OutOfFuel => Q s' OutOfFuel
                  end) s →
  post (p ≫= k) Q s.
Proof.
  unfold post, mbind, prog_bind. destruct (p s) as [s' [a|m|]]; simpl; done.
Qed.

(** [keeps R p]: whatever the state, [p] moves it along [R]. *)
Definition keeps {S A} (R : relation S) (p : prog S A) : Prop := ∀ s, R s (p s).1.

Lemma keeps_ret {S A} (R : relation S) `{!Reflexive R} (a : A) : keeps R (mret a : prog S A).
Proof. intros s. simpl. reflexivity. Qed.

Lemma keeps_bind {S A B} (R : relation S) `{!Transitive R} (p : prog S A) (k : A → prog S B) :
  keeps R p → (∀ a, keeps R (k a)) → keeps R (p ≫= k).
Proof.
  intros Hp Hk s. specialize (Hp s). unfold mbind, prog_bind.
  destruct (p s) as [s' [a|m|]]; simpl in *; [|done|done].
  etrans; [exact Hp|apply Hk].
Qed.

(** *** Approximation

    [prog_le p q]: [q] agrees with [p] wherever [p] does not run out of fuel. *)
Definition prog_le {S A} (p q : prog S A) : Prop := ∀ s, (p s).2 = OutOfFuel ∨ p s = q s.

#[global] Instance prog_le_preorder {S A} : PreOrder (@prog_le S A).
Proof.
  split.
  - intros p s. by right.
  - intros p q r Hpq Hqr s. destruct (Hpq s) as [?|E]; [by left|].
    rewrite E. apply Hqr.
Qed.

Lemma prog_le_out_of_fuel {S A} (p : prog S A) : prog_le out_of_fuel p.
Proof. intros s. by left. Qed.

Lemma prog_le_bind {S A B} (p q : prog S A) (k l : A → prog S B) :
  prog_le p q → (∀ a, prog_le (k a) (l a)) → prog_le (p ≫= k) (q ≫= l).
Proof.
  intros Hpq Hkl s. unfold mbind, prog_bind. destruct (Hpq s) as [E|<-].
  - left. destruct (p s) as [s' o]; simpl in E; by subst.
  - destruct (p s) as [s' [a|m|]]; [|by right..]. apply Hkl.
Qed.

(** *** Compatible relations

    A relation on programs that contains equality and is closed under binds:
    what is proved of a handler for every such relation holds of
    approximation and of pointwise equality. *)
Class ProgRel (R : ∀ {S A}, prog S A → prog S A → Prop) := {
  rel_refl {S A} (p : prog S A) : R p p;
  rel_bind {S A B} (p q : prog S A) (k l : A → prog S B) :
    R p q → (∀ a, R (k a) (l a)) → R (p ≫= k) (q ≫= l)
}.

#[global] Instance prog_le_rel : ProgRel (@prog_le).
Proof. split; [reflexivity|by intros; apply prog_le_bind]. Qed.

(** Pointwise equality. *)
Definition prog_eq {S A} (p q : prog S A) : Prop := ∀ s, p s = q s.

#[global] Instance prog_eq_rel : ProgRel (@prog_eq).
Proof.
  split; [done|]. intros S A B p q k l Hp Hk s. unfold mbind, prog_bind. rewrite Hp.
  destruct (q s) as [s' [a|m|]]; [apply Hk|done|done].
Qed.

(** [total p]: [p] never runs out of fuel. *)
Definition total {S A} (p : prog S A) : Prop := ∀ s, (p s).2 ≠ OutOfFuel.

Lemma total_ret {S A} (a : A) : total (mret a : prog S A).
Proof. done. Qed.

Lemma total_bind {S A B} (p : prog S A) (k : A → prog S B) :
  total p → (∀ a, total (k a)) → total (p ≫= k).
Proof.
  intros Hp Hk s. specialize (Hp s). unfold mbind, prog_bind.
  destruct (p s) as [s' [a|m|]]; simpl in *; [apply Hk|done|done].
Qed.

(** ** Lists *)

(** Visiting a list by its indices. *)
Lemma omap_seq_lookup {A B} (f : A → B) (l : list A) :
  omap (λ i, f <$> l !! i) (seq 0 (length l)) = f <$> l.
Proof.
  assert (∀ n k (l' : list A), n + length l' = length l → drop n l = l' → k = length l' →
    omap (λ i, f <$> l !! i) (seq n k) = f <$> l') as Hgen.
  { intros n k l'. revert n k. induction l' as [|x l' IH]; intros n k Hlen Hd ->; [done|].
    assert (l !! n = Some x) as Hx.
    { by rewrite <- (Nat.add_0_r n), <- lookup_drop, Hd. }
    csimpl. rewrite Hx. csimpl. f_equal. apply IH; [simpl in Hlen; lia| |done].
    rewrite (drop_S l x n Hx) in Hd. by simplify_eq. }
  by apply Hgen.
Qed.

Lemma list_alter_at {A} (f : A → A) (l : list A) i x :
  l !! i = Some x → alter f i l = <[i := f x]> l.
Proof.
  revert i. induction l as [|y l IH]; intros [|i] Hi; simplify_eq/=; [done|].
  f_equal. by apply IH.
Qed.

Lemma fmap_list_bind {A B C} (f : B → C) (g : A → list B) (l : list A) :
  f <$> (l ≫= g) = l ≫= (λ x, f <$> g x).
Proof. induction l as [|x l IH]; [done|]. csimpl. by rewrite fmap_app, IH. Qed.

(** ** Ranges over maps

    Go's enumeration of a map: every entry once, in some order. *)
Class GoRange := {
  range {A} : gmap string A → list (string * A);
  range_perm {A} (m : gmap string A) : range m ≡ₚ map_to_list m
}.

Lemma range_empty `{GoRange} {A} : range (∅ : gmap string A) = [].
Proof. apply Permutation_nil_r. by rewrite range_perm, map_to_list_empty. Qed.

Lemma range_singleton `{GoRange} {A} k (x : A) : range {[k := x]} = [(k, x)].
Proof. apply Permutation_singleton_r. by rewrite range_perm, map_to_list_singleton. Qed.

Lemma elem_of_range `{GoRange} {A} (m : gmap string A) k x : (k, x) ∈ range m ↔ m !! k = Some x.
Proof. by rewrite range_perm, elem_of_map_to_list. Qed.

(** An enumeration, for the concrete instances. *)
Definition list_range : GoRange :=
  {| range A m := map_to_list m; range_perm A m := Permutation_refl _ |}.

Create HintDb prog discriminated.
#[export] Hint Resolve keeps_ret keeps_bind prog_le_out_of_fuel total_ret total_bind : prog.

(** Walk down a program built from binds, conditionals and matches, closing the
    leaves with the hints of [prog]. *)
Ltac prog_walk_with leaf :=
  repeat first
    [ solve [leaf]
    | lazymatch goal with
      | |- keeps _ (_ ≫= _) => apply keeps_bind; [apply _| |intros ?]
      | |- total (_ ≫= _) => apply total_bind; [|intros ?]
      | |- ?R _ _ (_ ≫= _) (_ ≫= _) => apply (@rel_bind R _); [|intros ?]
      end
    | case_match
    | case_decide ].
Ltac prog_walk := prog_walk_with ltac:(eauto with prog typeclass_instances).
