(* ===== verification/GoStrings.v ===== *)
(** * The Go string functions the code uses

    strings.Split, Index, Contains, ContainsAny, Replace(All), Join, TrimSpace
    and slicing, and strconv's integer conversions, on byte strings
    ([String.string], a byte per [ascii]).  Lemmas: splitting a joined list of
    pieces gives the pieces back, and parsing a formatted integer gives the
    integer back. *)

From Stdlib Require Import Ascii.
From S2P Require Import Prelude.

#[local] Open Scope string_scope.

(** ** Slicing, searching *)

(** [s[:n]] and [s[n:]] for [n <= len(s)]. *)
Fixpoint str_take (n : nat) (s : string) : string :=
  match n, s with
  | S n', String c s' => String c (str_take n' s')
  | _, _ => EmptyString
  end.

Fixpoint str_drop (n : nat) (s : string) : string :=
  match n, s with
  | S n', String _ s' => str_drop n' s'
  | _, _ => s
  end.

(** [strings.HasPrefix]. *)
Fixpoint has_prefix (p s : string) : bool :=
  match p, s with
  | EmptyString, _ => true
  | String a p', String b s' => if decide (a = b) then has_prefix p' s' else false
  | String _ _, EmptyString => false
  end.

(** [strings.Index]: the first position where [sep] occurs ([None] for -1). *)
Fixpoint str_index (s sep : string) : option nat :=
  if has_prefix sep s then Some 0
  else match s with
       | EmptyString => None
       | String _ s' => S <$> str_index s' sep
       end.

Definition str_contains (s sep : string) : bool := bool_decide (is_Some (str_index s sep)).

(** [strings.ContainsAny] for a one byte set. *)
Fixpoint contains_byte (s : string) (c : ascii) : bool :=
  match s with
  | EmptyString => false
  | String a s' => if decide (a = c) then true else contains_byte s' c
  end.

(** ** Split and Join *)

(** [skip] counts the bytes of a separator already matched. *)
Fixpoint split_go (sep : string) (skip : nat) (s : string) : string * list string :=
  match s with
  | EmptyString => ("", [])
  | String c s' =>
      match skip with
      | S k => split_go sep k s'
      | 0 =>
          if has_prefix sep (String c s')
          then let '(h, t) := split_go sep (String.length sep - 1) s' in ("", h :: t)
          else let '(h, t) := split_go sep 0 s' in (String c h, t)
      end
  end.

(** [strings.Split(s, sep)] for a non-empty [sep]: never empty. *)
Definition split (s sep : string) : list string :=
  let '(h, t) := split_go sep 0 s in h :: t.

(** [strings.Join]. *)
Fixpoint join (l : list string) (sep : string) : string :=
  match l with
  | [] => ""
  | [x] => x
  | x :: l' => x +:+ sep +:+ join l' sep
  end.

(** [strings.ReplaceAll(s, old, new)] for a non-empty [old]. *)
Definition replace_all (s old new : string) : string := join (split s old) new.

(** [strings.Replace(s, old, new, n)], [n >= 0], for a non-empty [old]. *)
Fixpoint join_first (n : nat) (l : list string) (old new : string) : string :=
  match l with
  | [] => ""
  | [x] => x
  | x :: l' =>
      match n with
      | 0 => x +:+ old +:+ join_first 0 l' old new
      | S n' => x +:+ new +:+ join_first n' l' old new
      end
  end.
Definition replace_n (s old new : string) (n : nat) : string :=
  join_first n (split s old) old new.

(** ** TrimSpace *)

Definition bytes (l : list nat) : string :=
  foldr (λ n s, String (ascii_of_nat n) s) "" l.

(** The UTF-8 encodings of the runes of [unicode.IsSpace]. *)
Definition go_spaces : list string :=
  bytes <$>
    [[9]; [10]; [11]; [12]; [13]; [32]; [194; 133]; [194; 160]; [225; 154; 128];
     [226; 128; 128]; [226; 128; 129]; [226; 128; 130]; [226; 128; 131]; [226; 128; 132];
     [226; 128; 133]; [226; 128; 134]; [226; 128; 135]; [226; 128; 136]; [226; 128; 137];
     [226; 128; 138]; [226; 128; 168]; [226; 128; 169]; [226; 128; 175]; [226; 129; 159];
     [227; 128; 128]].

(** The length of a space at the start of [s], if there is one. *)
Definition space_width (s : string) : option nat :=
  String.length <$> head (filter (λ p, has_prefix p s = true) go_spaces).

(** Drop the leading spaces; [skip] counts the bytes of one being dropped. *)
Fixpoint trim_left_go (skip : nat) (s : string) : string :=
  match s with
  | EmptyString => ""
  | String _ s' =>
      match skip with
      | S k => trim_left_go k s'
      | 0 => match space_width s with
             | Some (S w) => trim_left_go w s'
             | _ => s
             end
      end
  end.

(** Is [s] a (possibly empty) run of spaces? *)
Definition all_spaces (s : string) : bool := bool_decide (trim_left_go 0 s = "").

(** Drop the longest suffix that is a run of spaces. *)
Fixpoint trim_right (s : string) : string :=
  if all_spaces s then ""
  else match s with
       | EmptyString => ""
       | String c s' => String c (trim_right s')
       end.

(** [strings.TrimSpace] *)
Definition trim_space (s : string) : string := trim_right (trim_left_go 0 s).

(** ** strconv *)

(** [strconv.NumError]'s two causes. *)
Inductive num_error := ErrSyntax | ErrRange.

#[global] Instance num_error_eq_dec : EqDecision num_error.
Proof. solve_decision. Defined.

Definition digit_val (c : ascii) : option Z :=
  let n := Z.of_nat (nat_of_ascii c) in
  if bool_decide (48 <= n <= 57)%Z then Some (n - 48)%Z else None.

(** The digit loop of [strconv.ParseUint] in base 10: it stops at the first
    byte that is not a digit, or at the first prefix above [max]. *)
Fixpoint parse_uint_loop (max n : Z) (s : string) : Z * option num_error :=
  match s with
  | EmptyString => (n, None)
  | String c s' =>
      match digit_val c with
      | None => (0, Some ErrSyntax)%Z
      | Some d =>
          let n1 := (10 * n + d)%Z in
          if bool_decide (max < n1)%Z then (max, Some ErrRange)
          else parse_uint_loop max n1 s'
      end
  end.

(** [strconv.ParseUint(s, 10, bits)] *)
Definition parse_uint (bits : Z) (s : string) : Z * option num_error :=
  match s with
  | EmptyString => (0%Z, Some ErrSyntax)
  | _ => parse_uint_loop (2 ^ bits - 1) 0 s
  end.

(** [strconv.ParseInt(s, 10, bits)] *)
Definition parse_int (bits : Z) (s : string) : Z * option num_error :=
  match s with
  | EmptyString => (0%Z, Some ErrSyntax)
  | String c s' =>
      let neg := bool_decide (c = "-"%char) in
      let rest := if bool_decide (c = "+"%char ∨ c = "-"%char) then s' else s in
      match parse_uint bits rest with
      | (_, Some ErrSyntax) => (0%Z, Some ErrSyntax)
      | (un, _) =>
          let cutoff := (2 ^ (bits - 1))%Z in
          if bool_decide (neg = false ∧ cutoff <= un)%Z then ((cutoff - 1)%Z, Some ErrRange)
          else if bool_decide (neg = true ∧ cutoff < un)%Z then ((- cutoff)%Z, Some ErrRange)
          else (if neg then (- un)%Z else un, None)
      end
  end.

(** [strconv.Atoi] on a 64 bit platform. *)
Definition atoi (s : string) : Z * option num_error := parse_int 64 s.

(** [strconv.FormatInt(n, 10)], [strconv.Itoa], [%d]. *)
Definition itoa (n : Z) : string := pretty n.

(** [strconv.Quote], [%q]: escapes for quotes, backslashes and control bytes;
    bytes from 128 on are left as they are, as for printable UTF-8. *)
Definition hex_digit (n : nat) : ascii := ascii_of_nat (if decide (n < 10) then 48 + n else 87 + n).
Definition quote_byte (c : ascii) : string :=
  let n := nat_of_ascii c in
  if decide (n = 34 ∨ n = 92) then bytes [92; n]
  else if decide (n = 7) then bytes [92; 97] else if decide (n = 8) then bytes [92; 98]
  else if decide (n = 9) then bytes [92; 116] else if decide (n = 10) then bytes [92; 110]
  else if decide (n = 11) then bytes [92; 118] else if decide (n = 12) then bytes [92; 102]
  else if decide (n = 13) then bytes [92; 114]
  else if decide (n < 32 ∨ n = 127)
  then bytes [92; 120] +:+ String (hex_digit (n / 16)) (String (hex_digit (n mod 16)) "")
  else String c "".
Fixpoint quote_bytes (s : string) : string :=
  match s with EmptyString => "" | String c s' => quote_byte c +:+ quote_bytes s' end.
Definition go_quote (s : string) : string := bytes [34] +:+ quote_bytes s +:+ bytes [34].

Example go_quote_line : go_quote (bytes [49; 34; 10]) = bytes [34; 49; 92; 34; 92; 110; 34].
Proof. reflexivity. Qed.

(** The text of a [*strconv.NumError] of [fn]. *)
Definition num_error_text (fn s : string) (e : num_error) : string :=
  "strconv." +:+ fn +:+ ": parsing " +:+ go_quote s +:+ ": " +:+
  match e with ErrSyntax => "invalid syntax" | ErrRange => "value out of range" end.

(** ** Lemmas: strings *)

Lemma str_app_assoc (a b c : string) : a +:+ (b +:+ c) = (a +:+ b) +:+ c.
Proof. induction a as [|x a IH]; simpl; [done|]. by f_equal. Qed.

Lemma str_app_nil_r (a : string) : a +:+ "" = a.
Proof. induction a as [|x a IH]; simpl; [done|]. by f_equal. Qed.

Lemma has_prefix_refl_app (p s : string) : has_prefix p (p +:+ s) = true.
Proof. induction p as [|a p IH]; simpl; [done|]. by rewrite decide_True. Qed.

(** The byte [c] does not occur in [s]. *)
Definition no_byte (c : ascii) (s : string) : Prop := contains_byte s c = false.

#[global] Instance no_byte_dec c s : Decision (no_byte c s).
Proof. unfold no_byte. apply _. Defined.

Lemma no_byte_cons c a s : no_byte c (String a s) ↔ a ≠ c ∧ no_byte c s.
Proof. unfold no_byte. simpl. case_decide; intuition congruence. Qed.

Lemma no_byte_app c s t : no_byte c (s +:+ t) ↔ no_byte c s ∧ no_byte c t.
Proof.
  induction s as [|a s IH]; simpl.
  - unfold no_byte; simpl; tauto.
  - rewrite !no_byte_cons, IH. tauto.
Qed.

(** *** Splitting at a one byte separator *)

Lemma split_go_no_byte c s :
  no_byte c s → split_go (String c "") 0 s = (s, []).
Proof.
  induction s as [|a s IH]; [done|]. intros [Hne Hs]%no_byte_cons.
  cbn [split_go has_prefix]. rewrite decide_False by congruence. by rewrite IH.
Qed.

Lemma split_go_app c x s :
  no_byte c x →
  split_go (String c "") 0 (x +:+ String c s) =
    (x, let '(h, t) := split_go (String c "") 0 s in h :: t).
Proof.
  induction x as [|a x IH]; simpl.
  - intros _. rewrite decide_True by done. simpl. by destruct (split_go _ 0 s).
  - intros [Hne Hx]%no_byte_cons. rewrite decide_False by congruence. by rewrite IH.
Qed.

Lemma split_app c x s :
  no_byte c x → split (x +:+ String c s) (String c "") = x :: split s (String c "").
Proof. intros H. unfold split. rewrite split_go_app by done. by destruct (split_go _ 0 s). Qed.

Lemma split_no_byte c s : no_byte c s → split s (String c "") = [s].
Proof. intros H. unfold split. by rewrite split_go_no_byte. Qed.

(** Splitting undoes joining, when no piece holds the separator. *)
Lemma split_join c l :
  l ≠ [] → Forall (no_byte c) l → split (join l (String c "")) (String c "") = l.
Proof.
  intros Hne Hl. induction Hl as [|x l Hx Hl IH]; [done|].
  destruct l as [|y l].
  - simpl. by apply split_no_byte.
  - change (join (x :: y :: l) (String c "")) with (x +:+ String c (join (y :: l) (String c ""))).
    rewrite split_app by done. f_equal. by apply IH.
Qed.

(** *** Joining undoes splitting, for any separator *)

Lemma split_go_skip sep k s :
  split_go sep k s = split_go sep 0 (str_drop k s).
Proof.
  revert s. induction k as [|k IH]; intros s; [done|].
  destruct s as [|c s]; [done|]. cbn [split_go str_drop]. apply IH.
Qed.

Lemma has_prefix_drop p s :
  has_prefix p s = true → s = p +:+ str_drop (String.length p) s.
Proof.
  revert s. induction p as [|a p IH]; intros s; [done|].
  destruct s as [|b s]; simpl; [done|]. case_decide as E; [|done].
  intros H. subst. f_equal. by apply IH.
Qed.

Lemma join_cons_nonempty x l sep : l ≠ [] → join (x :: l) sep = x +:+ sep +:+ join l sep.
Proof. by destruct l. Qed.

Lemma join_head_cons c h t sep : join (String c h :: t) sep = String c (join (h :: t) sep).
Proof. by destruct t. Qed.

Lemma join_split_len n s sep :
  sep ≠ "" → String.length s <= n →
  (let '(h, t) := split_go sep 0 s in join (h :: t) sep) = s.
Proof.
  intros Hsep. revert s. induction n as [|n IH]; intros s Hlen.
  { destruct s; simpl in *; [done|lia]. }
  destruct s as [|c s]; [done|]. cbn [split_go].
  destruct (has_prefix sep (String c s)) eqn:Hp.
  - destruct sep as [|a sep]; [done|].
    pose proof (has_prefix_drop _ _ Hp) as Hs. simpl in Hs. injection Hs as Hac Hs.
    cbn [String.length]. rewrite Nat.sub_succ, Nat.sub_0_r, split_go_skip.
    specialize (IH (str_drop (String.length sep) s)).
    destruct (split_go (String a sep) 0 (str_drop (String.length sep) s)) as [h t].
    rewrite join_cons_nonempty by done. cbn [String.append]. subst a. f_equal.
    rewrite IH; [done|].
    assert (∀ k u, String.length (str_drop k u) <= String.length u) as Hle.
    { clear. induction k as [|k IHk]; intros [|x u]; simpl; try lia. specialize (IHk u). lia. }
    specialize (Hle (String.length sep) s). simpl in Hlen. lia.
  - simpl in Hlen. specialize (IH s ltac:(lia)).
    destruct (split_go sep 0 s) as [h t]. rewrite join_head_cons. by f_equal.
Qed.

Lemma join_split s sep : sep ≠ "" → join (split s sep) sep = s.
Proof.
  intros H. pose proof (join_split_len (String.length s) s sep H (le_n _)) as E.
  unfold split. by destruct (split_go sep 0 s).
Qed.

Lemma has_prefix_app p s : has_prefix p (p +:+ s) = true.
Proof. induction p as [|c p IH]; [done|]. simpl. by rewrite decide_True. Qed.

Lemma str_contains_app a x b : str_contains (a +:+ x +:+ b) x = true.
Proof.
  unfold str_contains. apply bool_decide_eq_true.
  induction a as [|c a [n E]].
  - exists 0. change ("" +:+ x +:+ b) with (x +:+ b). destruct (x +:+ b) eqn:E; simpl;
      by rewrite <- E, has_prefix_app.
  - change (String c a +:+ x +:+ b) with (String c (a +:+ x +:+ b)). simpl. rewrite E.
    case_match; by eexists.
Qed.

Lemma str_contains_inv s x : str_contains s x = true → ∃ a b, s = a +:+ x +:+ b.
Proof.
  unfold str_contains. rewrite bool_decide_eq_true. induction s as [|c s IH]; simpl.
  - destruct (has_prefix x "") eqn:E; [|by intros []]. intros _. exists "", "".
    apply has_prefix_drop in E. by destruct x.
  - destruct (has_prefix x (String c s)) eqn:E.
    + intros _. exists "". eexists. by apply has_prefix_drop in E.
    + destruct (str_index s x) as [n|]; [|by intros []].
      destruct IH as (a & b & ->); [done|]. intros _. by exists (String c a), b.
Qed.

Lemma str_contains_prefix s p q : str_contains s (p +:+ q) = true → str_contains s p = true.
Proof.
  intros (a & b & ->)%str_contains_inv. rewrite <- str_app_assoc. apply str_contains_app.
Qed.

(** The parts of a split string occur in it. *)
Lemma join_contains l x sep : x ∈ l → ∃ a b, join l sep = a +:+ x +:+ b.
Proof.
  induction 1 as [x l|x y l Hx (a & b & E)].
  - destruct l as [|y l]; [exists "", ""; by rewrite str_app_nil_r|].
    by exists "", (sep +:+ join (y :: l) sep).
  - destruct l as [|z l]; [by apply elem_of_nil in Hx|].
    exists (y +:+ sep +:+ a), b. change (join (y :: z :: l) sep) with (y +:+ sep +:+ join (z :: l) sep).
    by rewrite E, !str_app_assoc.
Qed.

Lemma split_contains s sep x : sep ≠ "" → x ∈ split s sep → str_contains s x = true.
Proof.
  intros Hs Hx. destruct (join_contains _ _ sep Hx) as (a & b & E).
  rewrite join_split in E by done. rewrite E. apply str_contains_app.
Qed.

Lemma split_not_nil s sep : split s sep ≠ [].
Proof. unfold split. by destruct (split_go sep 0 s). Qed.

(** ** Lemmas: integers *)

Lemma digit_cases (d : N) : (d < 10)%N → d ∈ [0; 1; 2; 3; 4; 5; 6; 7; 8; 9]%N.
Proof.
  intros Hd.
  assert (d = 0 ∨ d = 1 ∨ d = 2 ∨ d = 3 ∨ d = 4 ∨ d = 5 ∨ d = 6 ∨ d = 7 ∨ d = 8 ∨ d = 9)%N
    as Hds by lia.
  rewrite !elem_of_cons. tauto.
Qed.

Lemma digit_val_char (d : N) : (d < 10)%N → digit_val (pretty_N_char d) = Some (Z.of_N d).
Proof.
  intros Hd%digit_cases. rewrite !elem_of_cons, elem_of_nil in Hd.
  by destruct_or!; subst.
Qed.

Lemma parse_uint_loop_app max n s t :
  parse_uint_loop max n (s +:+ t) =
    match parse_uint_loop max n s with
    | (m, None) => parse_uint_loop max m t
    | r => r
    end.
Proof.
  revert n. induction s as [|c s IH]; intros n; [done|]. simpl.
  destruct (digit_val c); [|done]. case_bool_decide; [done|]. apply IH.
Qed.

(** Reading back the digits [pretty] writes. *)
Lemma pretty_N_go_app x s : pretty_N_go x s = pretty_N_go x "" +:+ s.
Proof.
  revert s. induction (N.lt_wf_0 x) as [x _ IH]; intros s.
  destruct (decide (x = 0%N)) as [->|Hx]; [by rewrite !pretty_N_go_0|].
  rewrite (pretty_N_go_step x s), (pretty_N_go_step x "") by lia.
  pose proof (IH (x `div` 10)%N ltac:(apply N.div_lt; lia)) as IH'.
  rewrite (IH' (String _ s)), (IH' (String _ "")).
  by rewrite <- str_app_assoc.
Qed.

Lemma parse_uint_loop_pretty_go max x :
  (Z.of_N x <= max)%Z → parse_uint_loop max 0 (pretty_N_go x "") = (Z.of_N x, None).
Proof.
  induction (N.lt_wf_0 x) as [x _ IH]; intros Hmax.
  destruct (decide (x = 0%N)) as [->|Hx]; [by rewrite pretty_N_go_0|].
  rewrite pretty_N_go_step by lia. rewrite pretty_N_go_app, parse_uint_loop_app.
  assert ((x `div` 10) < x)%N as Hlt by (apply N.div_lt; lia).
  rewrite IH by (done || lia). simpl.
  rewrite digit_val_char by (apply N.mod_lt; lia).
  assert (10 * Z.of_N (x `div` 10) + Z.of_N (x `mod` 10) = Z.of_N x)%Z as ->.
  { pose proof (N.div_mod' x 10). lia. }
  rewrite bool_decide_false by lia. done.
Qed.

Lemma pretty_N_go_not_empty x : x ≠ 0%N → pretty_N_go x "" ≠ "".
Proof.
  intros Hx. rewrite pretty_N_go_step by lia. rewrite pretty_N_go_app.
  by destruct (pretty_N_go _ "").
Qed.

Lemma pretty_N_not_empty (x : N) : pretty x ≠ "".
Proof.
  unfold pretty, pretty_N. case_decide; [done|]. by apply pretty_N_go_not_empty.
Qed.

Lemma parse_uint_pretty bits (x : N) :
  (Z.of_N x < 2 ^ bits)%Z → parse_uint bits (pretty x) = (Z.of_N x, None).
Proof.
  intros Hx. unfold parse_uint. pose proof (pretty_N_not_empty x) as Hne.
  destruct (pretty x : string) as [|c s] eqn:E; [done|]. rewrite <- E. clear E Hne.
  unfold pretty, pretty_N. case_decide as Hz.
  - subst. assert (0 <= 2 ^ bits - 1)%Z as Hm by lia. revert Hm.
    generalize (2 ^ bits - 1)%Z. intros m Hm. simpl.
    assert (10 * 0 + (Z.of_nat (nat_of_ascii "0"%char) - 48) = 0)%Z as -> by done.
    rewrite bool_decide_false by lia. done.
  - apply parse_uint_loop_pretty_go. lia.
Qed.

Lemma pretty_N_no_sign (x : N) c s : pretty x = String c s → c ≠ "+"%char ∧ c ≠ "-"%char.
Proof.
  intros E.
  pose proof (Z.pow_gt_lin_r 2 (Z.of_N x + 1) ltac:(lia) ltac:(lia)) as Hpow.
  pose proof (parse_uint_pretty (Z.of_N x + 1) x ltac:(lia)) as H.
  rewrite E in H. by split; intros ->.
Qed.

Lemma parse_int_pretty_N bits (x : N) :
  (1 <= bits)%Z → (Z.of_N x < 2 ^ (bits - 1))%Z →
  parse_int bits (pretty x) = (Z.of_N x, None).
Proof.
  intros Hb Hx. unfold parse_int.
  assert (2 ^ bits = 2 * 2 ^ (bits - 1))%Z as Hpow.
  { rewrite <- Z.pow_succ_r by lia. f_equal. lia. }
  destruct (pretty x) as [|c s] eqn:E; [by destruct (pretty_N_not_empty x)|].
  destruct (pretty_N_no_sign _ _ _ E) as [Hp Hm].
  rewrite (bool_decide_false (_ ∨ _)) by tauto. rewrite (bool_decide_false (c = _)) by done.
  rewrite <- E, parse_uint_pretty by lia.
  rewrite !bool_decide_false by (lia || intros [? ?]; (done || lia)). done.
Qed.

(** [strconv.Atoi] undoes [strconv.Itoa] on 64 bit integers. *)
Lemma atoi_itoa (n : Z) : (- 2 ^ 63 <= n < 2 ^ 63)%Z → atoi (itoa n) = (n, None).
Proof.
  intros Hn. unfold atoi, itoa. destruct n as [|p|p].
  - by vm_compute.
  - apply (parse_int_pretty_N 64 (N.pos p)); simpl in *; lia.
  - change (pretty (Z.neg p)) with (String "-" (pretty (N.pos p))).
    unfold parse_int. rewrite (bool_decide_true (_ ∨ _)) by tauto.
    rewrite (bool_decide_true (_ = _)) by done.
    rewrite parse_uint_pretty by (simpl in *; lia).
    rewrite !bool_decide_false by (simpl in *; intros [? ?]; (done || lia)). done.
Qed.

Lemma digit_char_no_byte (x : N) c :
  Forall (λ d, pretty_N_char d ≠ c) [0; 1; 2; 3; 4; 5; 6; 7; 8; 9]%N →
  no_byte c (pretty_N_go x "").
Proof.
  intros Hc. induction (N.lt_wf_0 x) as [x _ IH].
  destruct (decide (x = 0%N)) as [->|Hx]; [by rewrite pretty_N_go_0|].
  rewrite pretty_N_go_step, pretty_N_go_app by lia. apply no_byte_app. split.
  - apply IH, N.div_lt; lia.
  - apply no_byte_cons. split; [|done].
    pose proof (N.mod_lt x 10 ltac:(lia)) as Hlt.
    rewrite Forall_forall in Hc. by apply Hc, digit_cases.
Qed.

(** A formatted natural number holds decimal digits only. *)
Lemma itoa_nat_no_byte (n : nat) c :
  Forall (λ d, pretty_N_char d ≠ c) [0; 1; 2; 3; 4; 5; 6; 7; 8; 9]%N →
  no_byte c (itoa (Z.of_nat n)).
Proof.
  intros Hc. unfold itoa. destruct n as [|n].
  - apply no_byte_cons. split; [|done]. by inversion Hc.
  - change (pretty (Z.of_nat (S n))) with (pretty (N.pos (Pos.of_succ_nat n))).
    by apply digit_char_no_byte.
Qed.

(** ** Lemmas: digits and spaces *)

Definition digit_chars : list ascii := pretty_N_char <$> [0; 1; 2; 3; 4; 5; 6; 7; 8; 9]%N.

Fixpoint all_digits (s : string) : Prop :=
  match s with EmptyString => True | String c s' => c ∈ digit_chars ∧ all_digits s' end.

Lemma all_digits_app s t : all_digits s → all_digits t → all_digits (s +:+ t).
Proof. induction s as [|c s IH]; simpl; [done|]. intros [? ?] ?. auto. Qed.

Lemma all_digits_pretty_go x : all_digits (pretty_N_go x "").
Proof.
  induction (N.lt_wf_0 x) as [x _ IH].
  destruct (decide (x = 0%N)) as [->|Hx]; [by rewrite pretty_N_go_0|].
  rewrite pretty_N_go_step, pretty_N_go_app by lia. apply all_digits_app.
  - apply IH, N.div_lt; lia.
  - split; [|done]. unfold digit_chars. apply list_elem_of_fmap_2, digit_cases.
    pose proof (N.mod_lt x 10). lia.
Qed.

(** A formatted natural number consists of digits. *)
Lemma all_digits_itoa (n : nat) : all_digits (itoa (Z.of_nat n)).
Proof.
  unfold itoa. destruct n as [|n]; [split; [by left|done]|].
  change (pretty (Z.of_nat (S n))) with (pretty (N.pos (Pos.of_succ_nat n))).
  apply all_digits_pretty_go.
Qed.

Lemma itoa_nat_not_empty (n : nat) : itoa (Z.of_nat n) ≠ "".
Proof.
  unfold itoa. destruct n as [|n]; [done|].
  change (pretty (Z.of_nat (S n))) with (pretty (N.pos (Pos.of_succ_nat n))).
  apply pretty_N_not_empty.
Qed.

(** No space starts with a digit. *)
Lemma space_width_digit c s : c ∈ digit_chars → space_width (String c s) = None.
Proof.
  intros Hc. unfold digit_chars in Hc. simpl in Hc.
  repeat (apply elem_of_cons in Hc as [->|Hc]; [reflexivity|]). by apply elem_of_nil in Hc.
Qed.

Lemma trim_left_digits s : all_digits s → trim_left_go 0 s = s.
Proof. destruct s as [|c s]; [done|]. intros [Hc _]. cbn [trim_left_go]. by rewrite space_width_digit. Qed.

Lemma trim_right_digits s : all_digits s → trim_right s = s.
Proof.
  induction s as [|c s IH]; [done|]. intros Hs. cbn [trim_right]. unfold all_spaces.
  rewrite (trim_left_digits _ Hs), bool_decide_false by done. by rewrite (IH (proj2 Hs)).
Qed.

Lemma trim_space_digits s : all_digits s → trim_space s = s.
Proof. intros Hs. unfold trim_space. by rewrite trim_left_digits, trim_right_digits. Qed.

(** Reading back a formatted number at any width that holds it. *)
Lemma parse_int_itoa_nat bits (n : nat) :
  (1 <= bits)%Z → (Z.of_nat n < 2 ^ (bits - 1))%Z → parse_int bits (itoa (Z.of_nat n)) = (Z.of_nat n, None).
Proof.
  intros Hb Hn. pose proof (parse_int_pretty_N bits (N.of_nat n) Hb) as Hp.
  rewrite nat_N_Z in Hp. specialize (Hp Hn). unfold itoa. by destruct n.
Qed.
