(* ===== verification/ApiTypes.v ===== *)
(** * The GMConnector API types

    The data of the custom resource: api/v1alpha3/gmconnector_types.go.
    Field names are those of the Go structs; where two structs share a field
    name the second carries a prefix.  A Go slice or map field whose nil and
    empty values the code can tell apart ([reflect.DeepEqual], [!= nil]) is an
    [option], with an accessor that reads a nil one as empty, as [range],
    [len] and indexing do. *)

From S2P Require Import Prelude.

(** ** Executors and steps *)

Record GMCTarget := mkGMCTarget {
  ServiceName : string;
  NameSpace : string;
  Config : option (gmap string string);
  IsDownstreamService : bool
}.

Record Executor := mkExecutor {
  exec_NodeName : string;
  exec_InternalService : GMCTarget;
  exec_ExternalService : string
}.

(** [StepDependencyType] and its two constants. *)
Definition Soft : string := "Soft".
Definition Hard : string := "Hard".

Record Step := mkStep {
  StepName : string;
  StepExecutor : Executor;
  Data : string;
  Condition : string;
  Dependency : string;
  ServiceURL : string
}.

(** [Executor] is embedded in [Step]: its fields are promoted. *)
Definition NodeName (s : Step) : string := exec_NodeName (StepExecutor s).
Definition InternalService (s : Step) : GMCTarget := exec_InternalService (StepExecutor s).
Definition ExternalService (s : Step) : string := exec_ExternalService (StepExecutor s).

(** [s.ServiceURL = url] *)
Definition set_ServiceURL (url : string) (s : Step) : Step :=
  mkStep (StepName s) (StepExecutor s) (Data s) (Condition s) (Dependency s) url.

(** A lookup in a possibly nil [map[string]string]: the zero value is "". *)
Definition map_get (m : option (gmap string string)) (k : string) : string :=
  default "" (default ∅ m !! k).

(** ** Routers *)

(** [RouterType] and its constants. *)
Definition Sequence : string := "Sequence".
Definition Ensemble : string := "Ensemble".
Definition Switch : string := "Switch".

Record Router := mkRouter {
  RouterType : string;
  StepsSlice : option (list Step)
}.

Definition Steps (r : Router) : list Step := default [] (StepsSlice r).

(** The zero value of [Router], which indexing [Nodes] with an absent key gives. *)
Definition zero_Router : Router := mkRouter "" None.

Record RouterConfig := mkRouterConfig {
  rc_Name : string;
  rc_ServiceName : string;
  rc_NameSpace : string;
  rc_Config : option (gmap string string)
}.

(** ** The resource *)

Record GMConnectorSpec := mkSpec {
  NodesMap : option (gmap string Router);
  SpecRouterConfig : RouterConfig
}.

Definition Nodes (s : GMConnectorSpec) : gmap string Router := default ∅ (NodesMap s).

(** [spec.Nodes[name]] *)
Definition node_at (s : GMConnectorSpec) (name : string) : Router :=
  default zero_Router (Nodes s !! name).

(** [ConditionType] and its two constants. *)
Definition ConnectorSuccess : string := "Success".
Definition ConnectorFailed : string := "Failed".

(** A [metav1.Time], in nanoseconds; the zero value is 0. *)
Abbreviation Time := Z (only parsing).

Record GMConnectorCondition := mkCondition {
  cond_Type : string;
  cond_Message : string;
  cond_Reason : string;
  LastUpdateTime : Time
}.

(** The observed state. *)
Record GMConnectorStatus := mkStatus {
  status_Condition : GMConnectorCondition;
  Status : string;
  AccessURL : string;
  AnnotationsMap : option (gmap string string)
}.

Definition Annotations (s : GMConnectorStatus) : gmap string string :=
  default ∅ (AnnotationsMap s).

Definition zero_Condition : GMConnectorCondition := mkCondition "" "" "" 0.
Definition zero_Status : GMConnectorStatus := mkStatus zero_Condition "" "" None.

(** The fields of [metav1.TypeMeta] and [metav1.ObjectMeta] the code reads. *)
Record TypeMeta := mkTypeMeta { APIVersion : string; Kind : string }.

Record ObjectMeta := mkObjectMeta {
  Name : string;
  Namespace : string;
  Labels : option (gmap string string);
  DeletionTimestamp : option Z;
  ResourceVersion : string
}.

Record GMConnector := mkGMConnector {
  gmc_TypeMeta : TypeMeta;
  gmc_ObjectMeta : ObjectMeta;
  Spec : GMConnectorSpec;
  gmc_Status : GMConnectorStatus
}.

(** The fields of [metav1.ListMeta], and the list a client reads. *)
Record ListMeta := mkListMeta {
  lm_ResourceVersion : string;
  Continue : string;
  RemainingItemCount : option Z
}.

Record GMConnectorList := mkGMConnectorList {
  list_TypeMeta : TypeMeta;
  list_ListMeta : ListMeta;
  ItemsSlice : option (list GMConnector)
}.

(** ** Decidable equality *)

#[global] Instance GMCTarget_eq_dec : EqDecision GMCTarget.
Proof. solve_decision. Defined.
#[global] Instance Executor_eq_dec : EqDecision Executor.
Proof. solve_decision. Defined.
#[global] Instance Step_eq_dec : EqDecision Step.
Proof. solve_decision. Defined.
#[global] Instance Router_eq_dec : EqDecision Router.
Proof. solve_decision. Defined.
#[global] Instance RouterConfig_eq_dec : EqDecision RouterConfig.
Proof. solve_decision. Defined.
#[global] Instance GMConnectorSpec_eq_dec : EqDecision GMConnectorSpec.
Proof. solve_decision. Defined.
#[global] Instance TypeMeta_eq_dec : EqDecision TypeMeta.
Proof. solve_decision. Defined.
#[global] Instance ObjectMeta_eq_dec : EqDecision ObjectMeta.
Proof. solve_decision. Defined.
#[global] Instance GMConnectorCondition_eq_dec : EqDecision GMConnectorCondition.
Proof. solve_decision. Defined.
#[global] Instance GMConnectorStatus_eq_dec : EqDecision GMConnectorStatus.
Proof. solve_decision. Defined.
#[global] Instance GMConnector_eq_dec : EqDecision GMConnector.
Proof. solve_decision. Defined.

(** ** Lemmas *)

Lemma Steps_zero_Router : Steps zero_Router = [].
Proof. done. Qed.

Lemma node_at_Some s name r : Nodes s !! name = Some r → node_at s name = r.
Proof. intros H. unfold node_at. by rewrite H. Qed.

Lemma node_at_None s name : Nodes s !! name = None → node_at s name = zero_Router.
Proof. intros H. unfold node_at. by rewrite H. Qed.

Lemma set_ServiceURL_NodeName url s : NodeName (set_ServiceURL url s) = NodeName s.
Proof. done. Qed.

Lemma set_ServiceURL_InternalService url s :
  InternalService (set_ServiceURL url s) = InternalService s.
Proof. done. Qed.
