(* ===== verification/ApiMemory.v ===== *)
(** * The API types in memory

    ApiTypes has the data of a resource as values.  In Go its maps and slices
    are references, and two structs can share them.  This file has the layout:
    a heap of maps, arrays and numbers, and the structs of
    api/v1alpha3/gmconnector_types.go with references in the place of maps and
    slices.  The class [Stored] relates a struct in memory with the value it
    represents, with the references it holds ([refs]) and with their being
    valid ([typed]); its laws say that a struct depends on the cells of its
    references only. *)

From S2P Require Import Prelude ApiTypes.

(** ** Layout *)

Abbreviation loc := nat (only parsing).

(** A slice header: the array, the offset of the first element in it, the
    number of elements. *)
Record slice := mkSlice { s_array : loc; s_off : nat; s_len : nat }.

Record MTarget := mkMTarget {
  mt_ServiceName : string; mt_NameSpace : string;
  mt_Config : option loc; mt_IsDownstreamService : bool
}.
Record MExecutor := mkMExecutor {
  me_NodeName : string; me_InternalService : MTarget; me_ExternalService : string
}.
Record MStep := mkMStep {
  ms_StepName : string; ms_Executor : MExecutor; ms_Data : string;
  ms_Condition : string; ms_Dependency : string; ms_ServiceURL : string
}.
Record MRouter := mkMRouter { mr_RouterType : string; mr_Steps : option slice }.
Record MRouterConfig := mkMRouterConfig {
  mrc_Name : string; mrc_ServiceName : string; mrc_NameSpace : string; mrc_Config : option loc
}.
Record MSpec := mkMSpec { mp_Nodes : option loc; mp_RouterConfig : MRouterConfig }.
Record MStatus := mkMStatus {
  mt_Condition : GMConnectorCondition; mt_Status : string; mt_AccessURL : string;
  mt_Annotations : option loc
}.
Record MObjectMeta := mkMObjectMeta {
  mo_Name : string; mo_Namespace : string; mo_Labels : option loc;
  mo_DeletionTimestamp : option loc; mo_ResourceVersion : string
}.
Record MGMConnector := mkMGMConnector {
  mg_TypeMeta : TypeMeta; mg_ObjectMeta : MObjectMeta; mg_Spec : MSpec; mg_Status : MStatus
}.
Record MListMeta := mkMListMeta {
  ml_ResourceVersion : string; ml_Continue : string; ml_RemainingItemCount : option loc
}.
Record MList := mkMList {
  ml_TypeMeta : TypeMeta; ml_ListMeta : MListMeta; ml_Items : option slice
}.

(** The zero values [make] fills an array with. *)
Definition zero_MStep : MStep :=
  mkMStep "" (mkMExecutor "" (mkMTarget "" "" None false) "") "" "" "" "".
Definition zero_MGMConnector : MGMConnector :=
  mkMGMConnector (mkTypeMeta "" "") (mkMObjectMeta "" "" None None "")
    (mkMSpec None (mkMRouterConfig "" "" "" None)) (mkMStatus zero_Condition "" "" None).

(** What a reference points to: a [map[string]string], a [map[string]Router],
    an array of a slice, an [int64] or a [metav1.Time]. *)
Inductive cell :=
  | CStrings (m : gmap string string)
  | CNodes (m : gmap string MRouter)
  | CSteps (l : list MStep)
  | CItems (l : list MGMConnector)
  | CNumber (n : Z).

Abbreviation heap := (gmap nat cell) (only parsing).

Definition get_strings (c : cell) : option (gmap string string) :=
  match c with CStrings m => Some m | _ => None end.
Definition get_nodes (c : cell) : option (gmap string MRouter) :=
  match c with CNodes m => Some m | _ => None end.
Definition get_steps (c : cell) : option (list MStep) :=
  match c with CSteps l => Some l | _ => None end.
Definition get_items (c : cell) : option (list MGMConnector) :=
  match c with CItems l => Some l | _ => None end.
Definition get_number (c : cell) : option Z :=
  match c with CNumber n => Some n | _ => None end.

(** ** What a struct in memory represents *)

Class Stored (M V : Type) := {
  view : heap → M → V;
  refs : heap → M → list loc;
  typed : heap → M → Prop
}.
#[global] Hint Mode Stored ! - : typeclass_instances.

(** The references of [m] point to the same cells in both heaps. *)
Definition agree `{Stored M V} (m : M) (h h' : heap) : Prop :=
  ∀ l, l ∈ refs h m → h' !! l = h !! l.

Class StoredLaws (M V : Type) `{Stored M V} := {
  view_frame h h' (m : M) : agree m h h' → view h' m = view h m;
  refs_frame h h' (m : M) : agree m h h' → refs h' m = refs h m;
  typed_frame h h' (m : M) : agree m h h' → typed h m → typed h' m;
  refs_live h (m : M) l : typed h m → l ∈ refs h m → is_Some (h !! l)
}.

(** Data without references. *)
Definition plain {A} : Stored A A :=
  {| view _ a := a; refs _ _ := []; typed _ _ := True |}.

#[global] Instance string_stored : Stored string string := plain.
#[global] Instance number_stored : Stored Z Z := plain.

Lemma plain_laws {A} : @StoredLaws A A plain.
Proof. split; try done. by intros h m l _ Hl%not_elem_of_nil. Qed.
#[global] Instance string_stored_laws : StoredLaws string string := plain_laws.
#[global] Instance number_stored_laws : StoredLaws Z Z := plain_laws.

(** Sequences and maps of stored values. *)
#[global] Instance list_stored `{Stored M V} : Stored (list M) (list V) := {|
  view h ms := view h <$> ms;
  refs h ms := mjoin (refs h <$> ms);
  typed h ms := Forall (typed h) ms
|}.

#[global] Instance map_stored `{Stored M V} : Stored (gmap string M) (gmap string V) := {|
  view h m := view h <$> m;
  refs h m := mjoin (refs h <$> (map_to_list m).*2);
  typed h m := Forall (typed h) (map_to_list m).*2
|}.

(** Two parts of a struct. *)
#[global] Instance pair_stored `{Stored M V} `{Stored M2 V2} : Stored (M * M2) (V * V2) := {|
  view h p := (view h p.1, view h p.2);
  refs h p := refs h p.1 ++ refs h p.2;
  typed h p := typed h p.1 ∧ typed h p.2
|}.

(** A reference to a cell of one kind; nil is [None]. *)
Section reference.
Context `{Stored M V} (get : cell → option M).

Definition load (h : heap) (l : loc) : option M := h !! l ≫= get.

Definition view_ref (h : heap) (r : option loc) : option V := view h <$> (r ≫= load h).
Definition refs_ref (h : heap) (r : option loc) : list loc :=
  match r with
  | None => []
  | Some l => l :: match load h l with Some m => refs h m | None => [] end
  end.
Definition typed_ref (h : heap) (r : option loc) : Prop :=
  match r with
  | None => True
  | Some l => match load h l with Some m => typed h m | None => False end
  end.
End reference.

(** The elements a slice shows of its array. *)
Definition window {A} (s : slice) (l : list A) : list A := take (s_len s) (drop (s_off s) l).

Section slices.
Context `{Stored M V} (get : cell → option (list M)).

Definition elements (h : heap) (s : slice) : option (list M) := window s <$> load get h (s_array s).

Definition view_slice (h : heap) (s : option slice) : option (list V) :=
  view h <$> (s ≫= elements h).
Definition refs_slice (h : heap) (s : option slice) : list loc :=
  match s with
  | None => []
  | Some s => s_array s :: match elements h s with Some l => refs h l | None => [] end
  end.
Definition typed_slice (h : heap) (s : option slice) : Prop :=
  match s with
  | None => True
  | Some s => match elements h s with
              | Some l => length l = s_len s ∧ typed h l
              | None => False
              end
  end.
End slices.

(** As instances; they are named where they are used, since the kind of the cell
    is not in the type. *)
Definition ref_stored `{Stored M V} (get : cell → option M) : Stored (option loc) (option V) :=
  {| view := view_ref get; refs := refs_ref get; typed := typed_ref get |}.
Definition slice_stored `{Stored M V} (get : cell → option (list M))
    : Stored (option slice) (option (list V)) :=
  {| view := view_slice get; refs := refs_slice get; typed := typed_slice get |}.

(** A struct whose references are those of its [parts]. *)
Definition derived {P W} (st : Stored P W) {S V} (parts : S → P) (build : S → W → V)
    : Stored S V := {|
  view h s := build s (view h (parts s));
  refs h s := refs h (parts s);
  typed h s := typed h (parts s)
|}.

Definition both {M V M2 V2} (st : Stored M V) (st2 : Stored M2 V2) : Stored (M * M2) (V * V2) :=
  pair_stored.

(** ** The structs *)

#[global] Instance target_stored : Stored MTarget GMCTarget :=
  derived (ref_stored get_strings) mt_Config
    (λ t c, mkGMCTarget (mt_ServiceName t) (mt_NameSpace t) c (mt_IsDownstreamService t)).

#[global] Instance executor_stored : Stored MExecutor Executor :=
  derived target_stored me_InternalService
    (λ e t, mkExecutor (me_NodeName e) t (me_ExternalService e)).

#[global] Instance step_stored : Stored MStep Step :=
  derived executor_stored ms_Executor
    (λ s e, mkStep (ms_StepName s) e (ms_Data s) (ms_Condition s) (ms_Dependency s)
              (ms_ServiceURL s)).

#[global] Instance router_stored : Stored MRouter Router :=
  derived (slice_stored get_steps) mr_Steps (λ r l, mkRouter (mr_RouterType r) l).

#[global] Instance router_config_stored : Stored MRouterConfig RouterConfig :=
  derived (ref_stored get_strings) mrc_Config
    (λ rc c, mkRouterConfig (mrc_Name rc) (mrc_ServiceName rc) (mrc_NameSpace rc) c).

#[global] Instance spec_stored : Stored MSpec GMConnectorSpec :=
  derived (both (ref_stored get_nodes) router_config_stored) (λ s, (mp_Nodes s, mp_RouterConfig s))
    (λ _ p, mkSpec p.1 p.2).

#[global] Instance status_stored : Stored MStatus GMConnectorStatus :=
  derived (ref_stored get_strings) mt_Annotations
    (λ s a, mkStatus (mt_Condition s) (mt_Status s) (mt_AccessURL s) a).

#[global] Instance meta_stored : Stored MObjectMeta ObjectMeta :=
  derived (both (ref_stored get_strings) (ref_stored get_number))
    (λ m, (mo_Labels m, mo_DeletionTimestamp m))
    (λ m p, mkObjectMeta (mo_Name m) (mo_Namespace m) p.1 p.2 (mo_ResourceVersion m)).

#[global] Instance connector_stored : Stored MGMConnector GMConnector :=
  derived (both meta_stored (both spec_stored status_stored)) (λ g, (mg_ObjectMeta g, (mg_Spec g, mg_Status g)))
    (λ g p, mkGMConnector (mg_TypeMeta g) p.1 p.2.1 p.2.2).

#[global] Instance list_meta_stored : Stored MListMeta ListMeta :=
  derived (ref_stored get_number) ml_RemainingItemCount
    (λ m n, mkListMeta (ml_ResourceVersion m) (ml_Continue m) n).

#[global] Instance connectors_stored : Stored MList GMConnectorList :=
  derived (both list_meta_stored (slice_stored get_items)) (λ l, (ml_ListMeta l, ml_Items l))
    (λ l p, mkGMConnectorList (ml_TypeMeta l) p.1 p.2).

(** ** The laws *)

Lemma agree_app `{Stored M V} (m : M) h h' l1 l2 :
  refs h m = l1 ++ l2 → agree m h h' →
  (∀ l, l ∈ l1 → h' !! l = h !! l) ∧ (∀ l, l ∈ l2 → h' !! l = h !! l).
Proof. unfold agree. intros ->. set_solver. Qed.

#[global] Instance list_stored_laws `{StoredLaws M V} : StoredLaws (list M) (list V).
Proof.
  assert (∀ h h' (ms : list M), agree ms h h' → Forall (λ m, agree m h h') ms) as Hall.
  { intros h h' ms Ha. apply Forall_forall. intros m Hm l Hl. apply Ha. simpl.
    apply list_elem_of_join. exists (refs h m). split; [done|by apply list_elem_of_fmap_2]. }
  split; intros h.
  - intros h' ms Ha%Hall. apply Forall_fmap_ext_1. eapply Forall_impl; [exact Ha|].
    apply view_frame.
  - intros h' ms Ha%Hall. simpl. f_equal. apply Forall_fmap_ext_1.
    eapply Forall_impl; [exact Ha|]. apply refs_frame.
  - intros h' ms Ha%Hall Ht. simpl in *. rewrite Forall_forall in *.
    intros m Hm. apply (typed_frame h); auto.
  - intros ms l Ht (ls & Hl & (m & -> & Hm)%list_elem_of_fmap)%list_elem_of_join. simpl in *.
    rewrite Forall_forall in Ht. by apply (refs_live h m); [apply Ht|].
Qed.

#[global] Instance map_stored_laws `{StoredLaws M V} : StoredLaws (gmap string M) (gmap string V).
Proof.
  split; intros h.
  - intros h' m Ha. apply map_eq. intros k. simpl. rewrite !lookup_fmap.
    destruct (m !! k) as [x|] eqn:E; [|done]. simpl. f_equal. apply view_frame.
    intros l Hl. apply Ha. simpl. apply list_elem_of_join. exists (refs h x). split; [done|].
    apply list_elem_of_fmap_2, (list_elem_of_fmap_2 snd _ (k, x)). by apply elem_of_map_to_list.
  - intros h' m. exact (refs_frame (V := list V) h h' (map_to_list m).*2).
  - intros h' m. exact (typed_frame (V := list V) h h' (map_to_list m).*2).
  - intros m l. exact (refs_live (V := list V) h (map_to_list m).*2 l).
Qed.

#[global] Instance pair_stored_laws `{StoredLaws M V, StoredLaws M2 V2} :
  StoredLaws (M * M2) (V * V2).
Proof.
  split; intros h.
  - intros h' [m n] [H1' H2']%(agree_app _ _ _ (refs h m) (refs h n)); [|done]. simpl.
    f_equal; by apply view_frame.
  - intros h' [m n] [H1' H2']%(agree_app _ _ _ (refs h m) (refs h n)); [|done]. simpl.
    f_equal; by apply refs_frame.
  - intros h' [m n] [H1' H2']%(agree_app _ _ _ (refs h m) (refs h n)); [|done].
    intros [Hm Hn]. split; [exact (typed_frame h h' m H1' Hm)|exact (typed_frame h h' n H2' Hn)].
  - intros [m n] l [Hm Hn] [Hl|Hl]%elem_of_app;
      [exact (refs_live h m l Hm Hl)|exact (refs_live h n l Hn Hl)].
Qed.

Lemma derived_laws {P W} (st : Stored P W) {S V} (parts : S → P) (build : S → W → V) :
  StoredLaws P W → @StoredLaws S V (derived st parts build).
Proof.
  intros [Hv Hr Ht Hl]. split; simpl; intros h.
  - intros h' m Ha. f_equal. by apply Hv.
  - intros h' m Ha. by apply Hr.
  - intros h' m Ha. by apply Ht.
  - intros m l. apply Hl.
Qed.

Lemma load_agree {M} (get : cell → option M) h h' l :
  h' !! l = h !! l → load get h' l = load get h l.
Proof. unfold load. by intros ->. Qed.

Lemma ref_stored_laws `{StoredLaws M V} (get : cell → option M) :
  @StoredLaws _ _ (ref_stored get).
Proof.
  assert (∀ h h' l, @agree _ _ (ref_stored get) (Some l) h h' →
    load get h' l = load get h l ∧
    ∀ m, load get h l = Some m → agree m h h') as Ha.
  { intros h h' l Ha. pose proof (Ha l (list_elem_of_here _ _)) as E. split; [by apply load_agree|].
    intros m Hm l' Hl'. apply Ha. simpl. rewrite Hm. by right. }
  split; simpl; intros h.
  - intros h' [l|]; [|done]. intros [E Hm]%Ha. unfold view_ref. simpl. rewrite E.
    destruct (load get h l) as [m|]; [|done]. simpl. f_equal. by apply view_frame, Hm.
  - intros h' [l|]; [|done]. intros [E Hm]%Ha. simpl. rewrite E.
    destruct (load get h l) as [m|]; [|done]. f_equal. by apply refs_frame, Hm.
  - intros h' [l|]; [|done]. intros [E Hm]%Ha. simpl. rewrite E.
    destruct (load get h l) as [m|]; [|done]. by apply typed_frame, Hm.
  - intros [l|] l'; [|by intros _ ?%not_elem_of_nil]. simpl. unfold load.
    destruct (h !! l) as [c|] eqn:E; [|done]. simpl. destruct (get c) as [m|]; [|done].
    intros Ht [->|Hl]%elem_of_cons; [by rewrite E|].
    exact (refs_live h m l' Ht Hl).
Qed.

Lemma elements_agree {M} (get : cell → option (list M)) h h' s :
  h' !! s_array s = h !! s_array s → elements get h' s = elements get h s.
Proof. unfold elements. intros E. by rewrite (load_agree _ h). Qed.

Lemma slice_stored_laws `{StoredLaws M V} (get : cell → option (list M)) :
  @StoredLaws _ _ (slice_stored get).
Proof.
  assert (∀ h h' s, @agree _ _ (slice_stored get) (Some s) h h' →
    elements get h' s = elements get h s ∧
    ∀ m, elements get h s = Some m → agree m h h') as Ha.
  { intros h h' s Ha. pose proof (Ha (s_array s) (list_elem_of_here _ _)) as E.
    split; [by apply elements_agree|].
    intros m Hm l' Hl'. apply Ha. simpl. rewrite Hm. by right. }
  split; simpl; intros h.
  - intros h' [s|]; [|done]. intros [E Hm]%Ha. unfold view_slice. simpl. rewrite E.
    destruct (elements get h s) as [m|]; [|done]. simpl. f_equal. exact (view_frame (V := list V) h h' m (Hm m eq_refl)).
  - intros h' [s|]; [|done]. intros [E Hm]%Ha. simpl. rewrite E.
    destruct (elements get h s) as [m|]; [|done]. f_equal. exact (refs_frame (V := list V) h h' m (Hm m eq_refl)).
  - intros h' [s|]; [|done]. intros [E Hm]%Ha. simpl. rewrite E.
    destruct (elements get h s) as [m|]; [|done]. intros [? ?]. split; [done|].
    by apply (typed_frame (V := list V) h h' m (Hm m eq_refl)).
  - intros [s|] l'; [|by intros _ ?%not_elem_of_nil]. simpl. unfold elements, load.
    destruct (h !! s_array s) as [c|] eqn:E; [|done]. simpl. destruct (get c) as [m|]; [|done].
    intros [_ Ht] [->|Hl]%elem_of_cons; [by rewrite E|]. exact (refs_live (V := list V) h (window s m) l' Ht Hl).
Qed.

Lemma both_laws {M V M2 V2} (st : Stored M V) (st2 : Stored M2 V2) :
  StoredLaws M V → StoredLaws M2 V2 → @StoredLaws _ _ (both st st2).
Proof. intros. apply pair_stored_laws. Qed.

Ltac struct_laws :=
  apply derived_laws;
  repeat first [apply both_laws | apply ref_stored_laws | apply slice_stored_laws]; apply _.

#[global] Instance target_stored_laws : StoredLaws MTarget GMCTarget.
Proof. struct_laws. Qed.
#[global] Instance executor_stored_laws : StoredLaws MExecutor Executor.
Proof. struct_laws. Qed.
#[global] Instance step_stored_laws : StoredLaws MStep Step.
Proof. struct_laws. Qed.
#[global] Instance router_stored_laws : StoredLaws MRouter Router.
Proof. struct_laws. Qed.
#[global] Instance router_config_stored_laws : StoredLaws MRouterConfig RouterConfig.
Proof. struct_laws. Qed.
#[global] Instance spec_stored_laws : StoredLaws MSpec GMConnectorSpec.
Proof. struct_laws. Qed.
#[global] Instance status_stored_laws : StoredLaws MStatus GMConnectorStatus.
Proof. struct_laws. Qed.
#[global] Instance meta_stored_laws : StoredLaws MObjectMeta ObjectMeta.
Proof. struct_laws. Qed.
#[global] Instance connector_stored_laws : StoredLaws MGMConnector GMConnector.
Proof. struct_laws. Qed.
#[global] Instance list_meta_stored_laws : StoredLaws MListMeta ListMeta.
Proof. struct_laws. Qed.
#[global] Instance connectors_stored_laws : StoredLaws MList GMConnectorList.
Proof. struct_laws. Qed.
