(* ===== verification/DeepCopy.v ===== *)
(** * The generated deep copies

    api/v1alpha3/zz_generated.deepcopy.go on the memory of ApiMemory.  A struct
    variable is its fields: [T_DeepCopyInto in_] gives what the method writes
    into [*out] ([*out = *in] first, so that nothing of the old [*out] stays),
    and allocates the maps and arrays it makes; a pointer is nil or the struct
    it points to, and the struct [new(T)] has no other reference.  The methods
    of ObjectMeta, ListMeta and Time belong to apimachinery: parameters with
    their contract in [MetaLaws]. *)

From S2P Require Import Prelude ApiTypes ApiMemory.

(** ** Maps, slices and their cells *)

Definition alloc (c : cell) : prog heap loc := λ h,
  let l := fresh (dom h) in (<[l := c]> h, Done l).

Definition read {M} (get : cell → option M) (l : loc) : prog heap M := λ h,
  match load get h l with Some m => (h, Done m) | None => (h, Panic nil_deref) end.

(** Writing an entry of a map. *)
Definition map_store {A} (get : cell → option (gmap string A)) (mk : gmap string A → cell)
    (out : loc) (key : string) (val : A) : prog heap unit := λ h,
  match load get h out with
  | Some m => (<[out := mk (<[key := val]> m)]> h, Done tt)
  | None => (h, Panic nil_map_write)
  end.

(** Reading and writing an element of a slice. *)
Definition slice_get {A} (get : cell → option (list A)) (s : slice) (i : nat) : prog heap A := λ h,
  match elements get h s ≫= (.!! i) with
  | Some x => (h, Done x)
  | None => (h, Panic index_out_of_range)
  end.
Definition slice_set {A} (get : cell → option (list A)) (mk : list A → cell) (s : slice) (i : nat)
    (x : A) : prog heap unit := λ h,
  match load get h (s_array s) with
  | Some l =>
      if decide (i < s_len s ∧ s_off s + i < length l)
      then (<[s_array s := mk (<[s_off s + i := x]> l)]> h, Done tt)
      else (h, Panic index_out_of_range)
  | None => (h, Panic nil_deref)
  end.

(** [make([]T, n)] *)
Definition make_slice {A} (mk : list A → cell) (zero : A) (n : nat) : prog heap slice :=
  a ← alloc (mk (replicate n zero)); mret (mkSlice a 0 n).

(** The body of a [for] over keys or indices. *)
Fixpoint range_each {K} (ks : list K) (body : K → prog heap unit) : prog heap unit :=
  match ks with
  | [] => mret tt
  | k :: ks => _ ← body k; range_each ks body
  end.

(** ** apimachinery *)
Class MetaCopy := {
  ObjectMeta_DeepCopyInto : MObjectMeta → prog heap MObjectMeta;
  ListMeta_DeepCopyInto : MListMeta → prog heap MListMeta;
  Time_DeepCopyInto : Time → Time
}.

Section copies.
Context `{GoRange} `{MetaCopy}.

(** ** The methods *)

(** The block that copies a [map[string]string]. *)
Definition copy_strings (config : option loc) : prog heap (option loc) :=
  match config with
  | None => mret None
  | Some config =>
      out ← alloc (CStrings ∅);
      entries ← read get_strings config;
      _ ← range_each (range entries) (λ kv, map_store get_strings CStrings out kv.1 kv.2);
      mret (Some out)
  end.

Definition GMCTarget_DeepCopyInto (in_ : MTarget) : prog heap MTarget :=
  config ← copy_strings (mt_Config in_);
  mret (mkMTarget (mt_ServiceName in_) (mt_NameSpace in_) config (mt_IsDownstreamService in_)).

(** [if in == nil { return nil }; out := new(T); in.DeepCopyInto(out); return out] *)
Definition deep_copy {M} (into : M → prog heap M) (in_ : option M) : prog heap (option M) :=
  match in_ with
  | None => mret None
  | Some in_ => out ← into in_; mret (Some out)
  end.

Definition GMCTarget_DeepCopy := deep_copy GMCTarget_DeepCopyInto.

Definition Executor_DeepCopyInto (in_ : MExecutor) : prog heap MExecutor :=
  out ← GMCTarget_DeepCopyInto (me_InternalService in_);
  mret (mkMExecutor (me_NodeName in_) out (me_ExternalService in_)).
Definition Executor_DeepCopy := deep_copy Executor_DeepCopyInto.

Definition Step_DeepCopyInto (in_ : MStep) : prog heap MStep :=
  out ← Executor_DeepCopyInto (ms_Executor in_);
  mret (mkMStep (ms_StepName in_) out (ms_Data in_) (ms_Condition in_) (ms_Dependency in_)
          (ms_ServiceURL in_)).
Definition Step_DeepCopy := deep_copy Step_DeepCopyInto.

Definition Router_DeepCopyInto (in_ : MRouter) : prog heap MRouter :=
  match mr_Steps in_ with
  | None => mret in_
  | Some steps =>
      out ← make_slice CSteps zero_MStep (s_len steps);
      _ ← range_each (seq 0 (s_len steps)) (λ i,
            step ← slice_get get_steps steps i;
            step' ← Step_DeepCopyInto step;
            slice_set get_steps CSteps out i step');
      mret (mkMRouter (mr_RouterType in_) (Some out))
  end.
Definition Router_DeepCopy := deep_copy Router_DeepCopyInto.

Definition RouterConfig_DeepCopyInto (in_ : MRouterConfig) : prog heap MRouterConfig :=
  config ← copy_strings (mrc_Config in_);
  mret (mkMRouterConfig (mrc_Name in_) (mrc_ServiceName in_) (mrc_NameSpace in_) config).
Definition RouterConfig_DeepCopy := deep_copy RouterConfig_DeepCopyInto.

(** The block of the nodes; [*val.DeepCopy()] dereferences the pointer. *)
Definition copy_nodes (nodes : option loc) : prog heap (option loc) :=
  match nodes with
  | None => mret None
  | Some nodes =>
      out ← alloc (CNodes ∅);
      entries ← read get_nodes nodes;
      _ ← range_each (range entries) (λ kv,
            p ← Router_DeepCopy (Some kv.2);
            r ← match p with Some r => mret r | None => panic nil_deref end;
            map_store get_nodes CNodes out kv.1 r);
      mret (Some out)
  end.

Definition GMConnectorSpec_DeepCopyInto (in_ : MSpec) : prog heap MSpec :=
  nodes ← copy_nodes (mp_Nodes in_);
  config ← RouterConfig_DeepCopyInto (mp_RouterConfig in_);
  mret (mkMSpec nodes config).
Definition GMConnectorSpec_DeepCopy := deep_copy GMConnectorSpec_DeepCopyInto.

Definition GMConnectorCondition_DeepCopyInto (in_ : GMConnectorCondition)
    : prog heap GMConnectorCondition :=
  mret (mkCondition (cond_Type in_) (cond_Message in_) (cond_Reason in_)
          (Time_DeepCopyInto (LastUpdateTime in_))).
Definition GMConnectorCondition_DeepCopy := deep_copy GMConnectorCondition_DeepCopyInto.

Definition GMConnectorStatus_DeepCopyInto (in_ : MStatus) : prog heap MStatus :=
  cond ← GMConnectorCondition_DeepCopyInto (mt_Condition in_);
  annotations ← copy_strings (mt_Annotations in_);
  mret (mkMStatus cond (mt_Status in_) (mt_AccessURL in_) annotations).
Definition GMConnectorStatus_DeepCopy := deep_copy GMConnectorStatus_DeepCopyInto.

Definition GMConnector_DeepCopyInto (in_ : MGMConnector) : prog heap MGMConnector :=
  meta ← ObjectMeta_DeepCopyInto (mg_ObjectMeta in_);
  spec ← GMConnectorSpec_DeepCopyInto (mg_Spec in_);
  status ← GMConnectorStatus_DeepCopyInto (mg_Status in_);
  mret (mkMGMConnector (mg_TypeMeta in_) meta spec status).
Definition GMConnector_DeepCopy := deep_copy GMConnector_DeepCopyInto.

Definition GMConnectorList_DeepCopyInto (in_ : MList) : prog heap MList :=
  meta ← ListMeta_DeepCopyInto (ml_ListMeta in_);
  items ← match ml_Items in_ with
          | None => mret None
          | Some items =>
              out ← make_slice CItems zero_MGMConnector (s_len items);
              _ ← range_each (seq 0 (s_len items)) (λ i,
                    g ← slice_get get_items items i;
                    g' ← GMConnector_DeepCopyInto g;
                    slice_set get_items CItems out i g');
              mret (Some out)
          end;
  mret (mkMList (ml_TypeMeta in_) meta items).
Definition GMConnectorList_DeepCopy := deep_copy GMConnectorList_DeepCopyInto.

(** The [runtime.Object] of the two root types: an interface that is nil when
    the pointer is, never an interface holding a nil pointer. *)
Inductive runtime_object :=
  | ConnectorObject (p : option MGMConnector)
  | ListObject (p : option MList).

Definition GMConnector_DeepCopyObject (in_ : option MGMConnector)
    : prog heap (option runtime_object) :=
  c ← GMConnector_DeepCopy in_;
  mret (match c with Some c => Some (ConnectorObject (Some c)) | None => None end).

Definition GMConnectorList_DeepCopyObject (in_ : option MList)
    : prog heap (option runtime_object) :=
  c ← GMConnectorList_DeepCopy in_;
  mret (match c with Some c => Some (ListObject (Some c)) | None => None end).
End copies.
