(* ===== verification/DeepCopyTheorems.v ===== *)
(** * What a deep copy is

    [is_copy hb m h m']: in the heap [h], [m'] represents what [m] represented in
    [hb], its references did not exist in [hb], and no two of them are the same.
    Every generated method makes a copy ([copies]), by one lemma for the loops
    over maps and arrays, and one per way to build a struct.  From it: writes
    through the original and writes through the copy do not meet. *)

From S2P Require Import Prelude ApiTypes ApiMemory DeepCopy.

(** ** Copies *)

Record is_copy `{Stored M V} (hb : heap) (m : M) (h : heap) (m' : M) : Prop := mkCopy {
  copy_view : view h m' = view hb m;
  copy_typed : typed h m';
  copy_fresh : Forall (λ l, hb !! l = None) (refs h m');
  copy_nodup : NoDup (refs h m')
}.

(** A method that copies whatever valid struct it is given, and changes no cell
    of the heap. *)
Definition copies `{Stored M V} (into : M → prog heap M) : Prop :=
  ∀ h m, typed h m → ∃ h' m', into m h = (h', Done m') ∧ h ⊆ h' ∧ is_copy h m h' m'.

(** The documented behaviour of apimachinery's methods. *)
Class MetaLaws `{MetaCopy} := {
  ObjectMeta_copies : copies ObjectMeta_DeepCopyInto;
  ListMeta_copies : copies ListMeta_DeepCopyInto;
  Time_copies t : Time_DeepCopyInto t = t
}.

Section copy_lemmas.
Context `{StoredLaws M V}.

Lemma agree_subseteq (m : M) h h' : typed h m → h ⊆ h' → agree m h h'.
Proof.
  intros Ht Hs l Hl. destruct (refs_live h m l Ht Hl) as [c Hc]. rewrite Hc.
  by apply (lookup_weaken _ _ _ _ Hc).
Qed.

Lemma typed_subseteq (m : M) h h' : typed h m → h ⊆ h' → typed h' m.
Proof. intros Ht Hs. apply (typed_frame h); [by apply agree_subseteq|done]. Qed.

Lemma view_subseteq (m : M) h h' : typed h m → h ⊆ h' → view h' m = view h m.
Proof. intros Ht Hs. by apply view_frame, agree_subseteq. Qed.

Lemma refs_dom h (m : M) l : typed h m → l ∈ refs h m → l ∈ dom h.
Proof. intros Ht Hl. apply elem_of_dom. by apply (refs_live h m). Qed.

Lemma is_copy_agree hb (m : M) h m' h' :
  is_copy hb m h m' → agree m' h h' → is_copy hb m h' m'.
Proof.
  intros [Hv Ht Hf Hn] Ha. split.
  - by rewrite (view_frame h).
  - by apply (typed_frame h).
  - by rewrite (refs_frame h).
  - by rewrite (refs_frame h).
Qed.

Lemma is_copy_mono hb (m : M) h m' h' : is_copy hb m h m' → h ⊆ h' → is_copy hb m h' m'.
Proof.
  intros Hc Hs. apply (is_copy_agree hb m h); [done|]. apply agree_subseteq; [|done].
  by apply Hc.
Qed.

(** A write outside the copy. *)
Lemma is_copy_insert hb (m : M) h m' l c :
  is_copy hb m h m' → l ∉ refs h m' → is_copy hb m (<[l := c]> h) m'.
Proof.
  intros Hc Hl. apply (is_copy_agree hb m h); [done|]. intros l' Hl'.
  apply lookup_insert_ne. by intros ->.
Qed.

(** A copy of what [m] was earlier. *)
Lemma is_copy_base hb (m : M) h h' m' :
  is_copy h m h' m' → typed hb m → hb ⊆ h → is_copy hb m h' m'.
Proof.
  intros [Hv Ht Hf Hn] Hm Hs. split; [|done| |done].
  - rewrite Hv. by apply view_subseteq.
  - eapply Forall_impl; [exact Hf|]. intros l Hl.
    exact (lookup_weaken_None _ _ _ Hl Hs).
Qed.

Lemma is_copy_ne hb (m : M) h m' l : is_copy hb m h m' → is_Some (hb !! l) → l ∉ refs h m'.
Proof.
  intros [_ _ Hf _] [c Hc] Hl. rewrite Forall_forall in Hf. specialize (Hf l Hl). congruence.
Qed.
End copy_lemmas.

Lemma is_copy_pair `{StoredLaws M V, StoredLaws M2 V2} hb (m m' : M) (n n' : M2) h :
  is_copy hb m h m' → is_copy hb n h n' → (∀ l, l ∈ refs h m' → l ∉ refs h n') →
  is_copy hb (m, n) h (m', n').
Proof.
  intros [Hv1 Ht1 Hf1 Hn1] [Hv2 Ht2 Hf2 Hn2] Hd. split; simpl.
  - by rewrite Hv1, Hv2.
  - done.
  - by apply Forall_app.
  - by apply NoDup_app.
Qed.

(** One part after the other. *)
Lemma is_copy_seq `{StoredLaws M V, StoredLaws M2 V2} h (m m' : M) (n n' : M2) h1 h2 :
  typed h m → typed h n → h ⊆ h1 → h1 ⊆ h2 →
  is_copy h m h1 m' → is_copy h1 n h2 n' → is_copy h (m, n) h2 (m', n').
Proof.
  intros Hm Hn Hs1 Hs2 Hc1 Hc2. apply is_copy_pair.
  - by apply (is_copy_mono h m h1).
  - by apply (is_copy_base h n h1).
  - intros l Hl. apply (is_copy_ne h1 n); [done|].
    rewrite (refs_frame h1) in Hl by (apply agree_subseteq; [apply Hc1|done]).
    apply (refs_live h1 m'); [apply Hc1|done].
Qed.

(** A struct, from its parts. *)
Lemma is_copy_derived {P W} (st : Stored P W) {S V} (parts : S → P) (build : S → W → V)
    hb s h s' :
  @is_copy P W st hb (parts s) h (parts s') → (∀ w, build s' w = build s w) →
  @is_copy S V (derived st parts build) hb s h s'.
Proof.
  intros [Hv Ht Hf Hn] Hb. split; simpl; [|done..]. by rewrite Hb, Hv.
Qed.

(** Nothing to copy. *)
Lemma is_copy_nil `{Stored M V} (get : cell → option M) hb h :
  @is_copy _ _ (ref_stored get) hb None h None.
Proof. split; simpl; [done..|constructor|constructor]. Qed.

Lemma is_copy_nil_slice `{Stored M V} (get : cell → option (list M)) hb h :
  @is_copy _ _ (slice_stored get) hb None h None.
Proof. split; simpl; [done..|constructor|constructor]. Qed.

(** A new cell that holds the copy of what the old one held. *)
Lemma is_copy_ref `{StoredLaws M V} (get : cell → option M) hb l m h a m' :
  load get hb l = Some m → load get h a = Some m' → hb !! a = None →
  is_copy hb m h m' → a ∉ refs h m' →
  @is_copy _ _ (ref_stored get) hb (Some l) h (Some a).
Proof.
  intros Hl Ha Hn [Hv Ht Hf Hd] Hr. split; simpl; unfold view_ref; simpl.
  - rewrite Hl, Ha. simpl. by rewrite Hv.
  - by rewrite Ha.
  - rewrite Ha. by constructor.
  - rewrite Ha. by constructor.
Qed.

Lemma is_copy_slice `{StoredLaws M V} (get : cell → option (list M)) hb s ms h a ms' :
  elements get hb s = Some ms → load get h a = Some ms' → hb !! a = None →
  length ms' = s_len s → is_copy hb ms h ms' → a ∉ refs h ms' →
  @is_copy _ _ (slice_stored get) hb (Some s) h (Some (mkSlice a 0 (s_len s))).
Proof.
  intros Hl Ha Hn Hlen [Hv Ht Hf Hd] Hr.
  assert (elements get h (mkSlice a 0 (s_len s)) = Some ms') as He.
  { unfold elements, window. simpl. rewrite Ha. simpl. by rewrite drop_0, <- Hlen, firstn_all. }
  split; simpl; unfold view_slice; simpl; rewrite ?He.
  - rewrite Hl. simpl in *. by rewrite Hv.
  - done.
  - by constructor.
  - by constructor.
Qed.

(** ** The loops *)

Lemma range_each_ext {K} (ks : list K) (f g : K → prog heap unit) h :
  (∀ k h, f k h = g k h) → range_each ks f h = range_each ks g h.
Proof.
  intros Hfg. revert h. induction ks as [|k ks IH]; intros h; simpl; [done|].
  unfold mbind, prog_bind. rewrite Hfg. destruct (g k h) as [h' [u|m|]]; [apply IH|done..].
Qed.

Section loop.
Context `{StoredLaws M V} {K : Type}.
Context (rd : K → prog heap M) (copy : M → prog heap M) (put : K → M → prog heap unit).
Context (hb : heap) (a : loc) (build : list (K * M) → cell) (items : list (K * M)).

(** [a] is the new cell; it holds [build done] when the pairs [done] have been
    put; [items] are the keys with what the original has at them. *)
Hypothesis copy_ok : copies copy.
Hypothesis a_new : hb !! a = None.
Hypothesis items_typed : typed hb items.*2.
Hypothesis rd_ok : ∀ k m h, (k, m) ∈ items → hb ⊆ h → rd k h = (h, Done m).
Hypothesis put_ok : ∀ done k m h,
  items.*1 !! length done = Some k → h !! a = Some (build done) →
  put k m h = (<[a := build (done ++ [(k, m)])]> h, Done tt).

(** The state between two iterations. *)
Record copied (h : heap) (before done : list (K * M)) : Prop := mkCopied {
  copied_heap : hb ⊆ h;
  copied_cell : h !! a = Some (build done);
  copied_keys : done.*1 = before.*1;
  copied_refs : is_copy hb before.*2 h done.*2;
  copied_out : a ∉ refs h done.*2
}.

Lemma copied_snoc h before done k m h1 m1 :
  copied h before done → h ⊆ h1 → is_copy h m h1 m1 → typed hb m →
  copied (<[a := build (done ++ [(k, m1)])]> h1) (before ++ [(k, m)]) (done ++ [(k, m1)]).
Proof.
  intros [Hs Hc Hk Hr Ho] Hs1 Hm Ht.
  assert (is_copy hb before.*2 h1 done.*2) as Hr1 by (by apply (is_copy_mono hb _ h)).
  assert (refs h1 done.*2 = refs h done.*2) as Hrefs.
  { apply refs_frame, agree_subseteq; [apply Hr|done]. }
  assert (is_copy hb m h1 m1) as Hm1 by (by apply (is_copy_base hb m h)).
  assert (a ∉ refs h1 m1) as Ha1 by (apply (is_copy_ne h m); [done|by rewrite Hc]).
  assert (∀ l, l ∈ refs h1 done.*2 → l ∉ refs h1 m1) as Hd.
  { intros l Hl. apply (is_copy_ne h m); [done|]. rewrite Hrefs in Hl.
    apply (refs_live h done.*2); [apply Hr|done]. }
  assert (refs h1 (done.*2 ++ [m1]) = refs h1 done.*2 ++ refs h1 m1) as Happ.
  { simpl. rewrite fmap_app, join_app. simpl. by rewrite app_nil_r. }
  assert (a ∉ refs h1 (done.*2 ++ [m1])) as Hout.
  { rewrite Happ, not_elem_of_app, Hrefs. done. }
  assert (is_copy hb (before.*2 ++ [m]) h1 (done.*2 ++ [m1])) as Hboth.
  { destruct Hr1 as [Hv1 Ht1 Hf1 Hn1], Hm1 as [Hv2 Ht2 Hf2 Hn2]. split.
    - simpl in *. by rewrite !fmap_app, Hv1, !list_fmap_singleton, Hv2.
    - simpl in *. apply Forall_app. split; [done|by constructor].
    - rewrite Happ. by apply Forall_app.
    - rewrite Happ. by apply NoDup_app. }
  split.
  - apply insert_subseteq_r; [done|by etrans].
  - apply lookup_insert_eq.
  - by rewrite !fmap_app, Hk.
  - rewrite !fmap_app. by apply is_copy_insert.
  - rewrite fmap_app. rewrite (refs_frame h1); [done|].
    intros l Hl. apply lookup_insert_ne. by intros ->.
Qed.

Lemma range_each_copied rest h before done :
  items = before ++ rest → copied h before done →
  ∃ h' done', range_each rest.*1 (λ k, m ← rd k; m' ← copy m; put k m') h = (h', Done tt) ∧
              copied h' items done'.
Proof.
  revert h before done. induction rest as [|[k m] rest IH]; intros h before done Hi Hc; simpl.
  { rewrite app_nil_r in Hi. subst before. by exists h, done. }
  assert ((k, m) ∈ items) as Hin by (rewrite Hi; set_solver).
  assert (typed hb m) as Ht.
  { simpl in items_typed. rewrite Forall_forall in items_typed. apply items_typed.
    by apply (list_elem_of_fmap_2 snd _ (k, m)). }
  destruct (copy_ok h m) as (h1 & m1 & Hrun & Hs1 & Hm1).
  { apply (typed_subseteq m hb); [done|apply Hc]. }
  assert (length done = length before) as Hlen.
  { by rewrite <- (length_fmap fst done), (copied_keys _ _ _ Hc), length_fmap. }
  assert (items.*1 !! length done = Some k) as Hk.
  { rewrite Hi, Hlen, fmap_app, lookup_app_r; rewrite length_fmap; [|done].
    by rewrite Nat.sub_diag. }
  destruct (IH (<[a := build (done ++ [(k, m1)])]> h1) (before ++ [(k, m)]) (done ++ [(k, m1)]))
    as (h' & done' & Hr & Hc').
  { by rewrite <- app_assoc. }
  { by apply (copied_snoc h). }
  exists h', done'. split; [|done].
  rewrite (run_bind_Done _ _ _ (<[a := build (done ++ [(k, m1)])]> h1) tt); [done|].
  rewrite (run_bind_Done _ _ _ _ _ (rd_ok k m h Hin (copied_heap _ _ _ Hc))).
  rewrite (run_bind_Done _ _ _ _ _ Hrun). apply put_ok; [done|].
  apply (lookup_weaken h); [apply Hc|done].
Qed.
End loop.

(** ** Maps *)

Lemma foldl_insert_list_to_map {A} (l : list (string * A)) :
  NoDup l.*1 → foldl (λ m kv, <[kv.1 := kv.2]> m) ∅ l = (list_to_map l : gmap string A).
Proof.
  induction l as [|[k v] l IH] using rev_ind; [done|].
  rewrite fmap_app, foldl_app. intros (Hl & Hd & _)%NoDup_app. simpl. rewrite IH by done.
  rewrite list_to_map_snoc; [done|]. intros Hk. apply (Hd k Hk). by constructor.
Qed.

(** Entries copied one by one make a copy of the map. *)
Lemma is_copy_map `{StoredLaws M V} hb h (m : gmap string M) (kvs kvs' : list (string * M)) :
  kvs ≡ₚ map_to_list m → kvs'.*1 = kvs.*1 → is_copy hb kvs.*2 h kvs'.*2 →
  is_copy hb m h (list_to_map kvs' : gmap string M).
Proof.
  intros Hp Hk [Hv Ht Hf Hn].
  assert (NoDup kvs.*1) as Hnd by (rewrite Hp; apply NoDup_fst_map_to_list).
  assert (m = list_to_map kvs) as -> by by apply list_to_map_flip.
  assert (map_to_list (list_to_map kvs' : gmap string M) ≡ₚ kvs') as Hp'.
  { apply map_to_list_to_map. by rewrite Hk. }
  assert (refs h (list_to_map kvs' : gmap string M) ≡ₚ refs h kvs'.*2) as Hr.
  { simpl. by rewrite Hp'. }
  split.
  - simpl. rewrite <- !list_to_map_fmap. f_equal. simpl in Hv. clear Hp Hp' Hr Hnd Ht Hf Hn.
    revert kvs' Hk Hv. induction kvs as [|[k x] kvs IH]; intros [|[k' x'] kvs'] ??; simplify_eq/=;
      [done|]. f_equal; [by unfold prod_map; simpl; f_equal|]. by apply IH.
  - simpl. by rewrite Hp'.
  - by rewrite Hr.
  - by rewrite Hr.
Qed.

(** Reading past a new cell. *)
Lemma load_insert_new {M} (get : cell → option M) h l m a c :
  load get h l = Some m → h !! a = None → load get (<[a := c]> h) l = Some m.
Proof.
  unfold load. intros Hl Ha. rewrite lookup_insert_ne; [done|]. intros <-. by rewrite Ha in Hl.
Qed.

Lemma read_insert {M} (get : cell → option M) h l m a c :
  load get h l = Some m → h !! a = None → read get l (<[a := c]> h) = (<[a := c]> h, Done m).
Proof. intros Hl Ha. unfold read. by rewrite (load_insert_new get h l m). Qed.

Section map_block.
Context `{GoRange} `{StoredLaws M V} (get : cell → option (gmap string M)) (mk : gmap string M → cell).
Context (copy : M → prog heap M) (body : loc → string * M → prog heap unit).
Hypothesis get_mk : ∀ m, get (mk m) = Some m.
Hypothesis copy_ok : copies copy.
Hypothesis body_ok : ∀ out kv h,
  body out kv h = (v ← copy kv.2; map_store get mk out kv.1 v) h.

(** The entries written for the pairs copied, and the cell they make. *)
Definition entries (done : list (string * M * M)) : list (string * M) :=
  (λ x, (x.1.1, x.2)) <$> done.
Definition map_cell (done : list (string * M * M)) : cell :=
  mk (foldl (λ m kv, <[kv.1 := kv.2]> m) ∅ (entries done)).
Definition range_items (m : gmap string M) : list (string * M * M) :=
  (λ kv, (kv, kv.2)) <$> range m.

Lemma range_items_1 m : (range_items m).*1 = range m.
Proof. unfold range_items. by rewrite <- list_fmap_compose, list_fmap_id. Qed.
Lemma range_items_2 m : (range_items m).*2 = (range m).*2.
Proof. unfold range_items. by rewrite <- list_fmap_compose. Qed.
Lemma entries_1 done : (entries done).*1 = done.*1.*1.
Proof. unfold entries. by rewrite <- !list_fmap_compose. Qed.
Lemma entries_2 done : (entries done).*2 = done.*2.
Proof. unfold entries. by rewrite <- !list_fmap_compose. Qed.

(** When the loop has gone through the map, the new cell holds a copy of it. *)
Lemma map_copied h a l m h' done :
  load get h l = Some m → h !! a = None →
  copied h a map_cell h' (range_items m) done →
  @is_copy _ _ (ref_stored get) h (Some l) h' (Some a).
Proof.
  intros Hl Ha [Hs Hcell Hk Hr Ho].
  assert ((entries done).*1 = (range m).*1) as Hkeys by (by rewrite entries_1, Hk, range_items_1).
  assert (NoDup (entries done).*1) as Hnd.
  { rewrite Hkeys, range_perm. apply NoDup_fst_map_to_list. }
  apply (is_copy_ref get h l m h' a (list_to_map (entries done))); [done| |done| |].
  - unfold load. rewrite Hcell. simpl. unfold map_cell.
    by rewrite get_mk, foldl_insert_list_to_map.
  - apply (is_copy_map h h' m (range m)); [apply range_perm|done|].
    by rewrite entries_2, <- range_items_2.
  - simpl. rewrite map_to_list_to_map by done. by rewrite entries_2.
Qed.

Lemma copy_map_block l m h :
  load get h l = Some m → typed h m →
  ∃ h' a, (out ← alloc (mk ∅); entries ← read get l;
           _ ← range_each (range entries) (body out); mret (Some out)) h = (h', Done (Some a)) ∧
          h ⊆ h' ∧ @is_copy _ _ (ref_stored get) h (Some l) h' (Some a).
Proof.
  intros Hl Ht. set (a := fresh (dom h)).
  assert (h !! a = None) as Ha by (apply not_elem_of_dom, is_fresh).
  destruct (range_each_copied (λ kv, mret kv.2) copy (λ kv v, map_store get mk a kv.1 v) h a map_cell
              (range_items m) copy_ok Ha) with (rest := range_items m) (h := <[a := mk ∅]> h)
              (before := @nil (string * M * M)) (done := @nil (string * M * M))
    as (h' & done & Hrun & Hc).
  - rewrite range_items_2. simpl. by rewrite range_perm.
  - intros k x h1 (kv & [= -> ->] & _)%list_elem_of_fmap _. done.
  - intros done k x h1 _ Hc. unfold map_store, load. rewrite Hc. simpl. unfold map_cell at 1.
    rewrite get_mk. unfold map_cell, entries. by rewrite fmap_app, foldl_app.
  - done.
  - split; [by apply insert_subseteq|apply lookup_insert_eq|done| |apply not_elem_of_nil].
    split; simpl; [done|constructor..].
  - exists h', a. split_and!; [|apply Hc|by apply (map_copied h a l m h' done)].
    rewrite (run_bind_Done _ _ _ (<[a := mk ∅]> h) a) by done.
    rewrite (run_bind_Done _ _ _ (<[a := mk ∅]> h) m).
    2:{ by rewrite (read_insert get h l m). }
    rewrite (run_bind_Done _ _ _ h' tt); [done|]. rewrite range_items_1 in Hrun.
    rewrite <- Hrun. by apply range_each_ext.
Qed.
End map_block.

(** ** Slices *)

Section slice_block.
Context `{StoredLaws M V} (get : cell → option (list M)) (mk : list M → cell) (zero : M).
Context (copy : M → prog heap M).
Hypothesis get_mk : ∀ l, get (mk l) = Some l.
Hypothesis copy_ok : copies copy.

(** The array when the elements [done] have been written. *)
Definition array_cell (n : nat) (done : list (nat * M)) : cell :=
  mk (done.*2 ++ replicate (n - length done) zero).

Lemma slice_set_next n a done x h :
  length done < n → h !! a = Some (array_cell n done) →
  slice_set get mk (mkSlice a 0 n) (length done) x h =
    (<[a := array_cell n (done ++ [(length done, x)])]> h, Done tt).
Proof.
  intros Hn Ha. unfold slice_set, load. simpl. rewrite Ha. simpl. unfold array_cell.
  rewrite get_mk, decide_True.
  2:{ rewrite length_app, length_replicate, length_fmap. lia. }
  rewrite length_app, fmap_app, <- (length_fmap snd done), insert_app_r_alt by lia.
  rewrite Nat.sub_diag. rewrite <- app_assoc. simpl.
  replace (n - length done.*2) with (S (n - (length done.*2 + 1)))
    by (rewrite length_fmap in *; lia).
  done.
Qed.

Lemma copy_slice_block {B} (k : slice → prog heap B) s ms h :
  elements get h s = Some ms → length ms = s_len s → typed h ms →
  ∃ h' out, (out ← make_slice mk zero (s_len s);
             _ ← range_each (seq 0 (s_len s)) (λ i,
                   x ← slice_get get s i; x' ← copy x; slice_set get mk out i x'); k out) h
              = k out h' ∧
            h ⊆ h' ∧ @is_copy _ _ (slice_stored get) h (Some s) h' (Some out).
Proof.
  intros He Hlen Ht. set (a := fresh (dom h)). set (n := s_len s).
  assert (h !! a = None) as Ha by (apply not_elem_of_dom, is_fresh).
  assert ((zip (seq 0 n) ms).*1 = seq 0 n) as H1 by (apply fst_zip; rewrite length_seq; lia).
  assert ((zip (seq 0 n) ms).*2 = ms) as H2 by (apply snd_zip; rewrite length_seq; lia).
  destruct (range_each_copied (slice_get get s) copy (slice_set get mk (mkSlice a 0 n)) h a
              (array_cell n) (zip (seq 0 n) ms) copy_ok Ha) with (rest := zip (seq 0 n) ms)
              (h := <[a := mk (replicate n zero)]> h) (before := @nil (nat * M))
              (done := @nil (nat * M)) as (h' & done & Hrun & [Hs Hcell Hk Hr Ho]).
  - by rewrite H2.
  - intros i x h1 Hin Hs. apply list_elem_of_lookup in Hin as [j Hj].
    apply lookup_zip_Some in Hj as [[-> _]%lookup_seq Hx].
    unfold slice_get. rewrite (elements_agree get h h1), He; [by simpl; rewrite Hx|].
    unfold elements, load in He. destruct (h !! s_array s) as [c|] eqn:Ec; [|done].
    by eapply lookup_weaken.
  - rewrite H1. intros done k' x h1 [-> Hn]%lookup_seq Hc. by apply slice_set_next.
  - done.
  - split; [by apply insert_subseteq| |done| |apply not_elem_of_nil].
    + rewrite lookup_insert_eq. unfold array_cell. simpl. by rewrite Nat.sub_0_r.
    + split; simpl; [done|constructor..].
  - rewrite H1 in Hk, Hrun. rewrite H2 in Hr.
    assert (length done = n) as Hdone by (by rewrite <- (length_fmap fst), Hk, length_seq).
    exists h', (mkSlice a 0 n). split_and!; [|done|].
    + rewrite (run_bind_Done _ _ _ (<[a := mk (replicate n zero)]> h) (mkSlice a 0 n)) by done.
      by rewrite (run_bind_Done _ _ _ _ _ Hrun).
    + apply (is_copy_slice get h s ms h' a done.*2); try done.
      * unfold load. rewrite Hcell. simpl. unfold array_cell.
        by rewrite get_mk, Hdone, Nat.sub_diag, app_nil_r.
      * by rewrite length_fmap.
Qed.
End slice_block.

(** ** The methods *)

Section methods.
Context `{GoRange} `{MetaLaws}.

Lemma string_copies : @copies string string _ mret.
Proof. intros h m _. exists h, m. split_and!; [done..|]. split; simpl; [done..|constructor|constructor]. Qed.

(** A method that copies the parts of a struct, then builds the new struct. *)
Lemma copies_derived {P W} (st : Stored P W) {S V} (parts : S → P) (build : S → W → V)
    (p : P → prog heap P) (put : S → P → S) (into : S → prog heap S) :
  @copies P W st p →
  (∀ s h, into s h = (x ← p (parts s); mret (put s x)) h) →
  (∀ s x, parts (put s x) = x) → (∀ s x w, build (put s x) w = build s w) →
  @copies S V (derived st parts build) into.
Proof.
  intros Hp Hi Hparts Hb h s Ht. destruct (Hp h (parts s) Ht) as (h' & x & Hr & Hs & Hc).
  exists h', (put s x). split_and!; [|done|].
  - rewrite Hi. by rewrite (run_bind_Done _ _ _ _ _ Hr).
  - apply is_copy_derived; [by rewrite Hparts|done].
Qed.

(** Two parts, one after the other. *)
Lemma copies_both {M V M2 V2} (st : Stored M V) (st2 : Stored M2 V2)
    (p : M → prog heap M) (q : M2 → prog heap M2) :
  StoredLaws M V → StoredLaws M2 V2 → @copies _ _ st p → @copies _ _ st2 q →
  @copies _ _ (both st st2) (λ x, a ← p x.1; b ← q x.2; mret (a, b)).
Proof.
  intros L1 L2 Hp Hq h [m n] [Hm Hn]. destruct (Hp h m Hm) as (h1 & m' & Hr1 & Hs1 & Hc1).
  destruct (Hq h1 n) as (h2 & n' & Hr2 & Hs2 & Hc2); [by apply (typed_subseteq n h)|].
  exists h2, (m', n'). split_and!; [|by etrans|by apply (is_copy_seq h m m' n n' h1 h2)].
  simpl. rewrite (run_bind_Done _ _ _ _ _ Hr1). by rewrite (run_bind_Done _ _ _ _ _ Hr2).
Qed.

Lemma copy_strings_copies : @copies _ _ (ref_stored get_strings) copy_strings.
Proof.
  intros h [l|] Ht.
  2:{ exists h, None. split_and!; [done..|]. apply is_copy_nil. }
  simpl in Ht. destruct (load get_strings h l) as [m|] eqn:E; [|done].
  destruct (copy_map_block get_strings CStrings mret
              (λ out kv, map_store get_strings CStrings out kv.1 kv.2)) with (l := l) (m := m) (h := h)
    as (h' & a & Hr & Hs & Hc); [done|apply string_copies|done..|].
  by exists h', (Some a).
Qed.

Lemma GMCTarget_copies : copies GMCTarget_DeepCopyInto.
Proof.
  by apply (copies_derived _ _ _ copy_strings
    (λ t c, mkMTarget (mt_ServiceName t) (mt_NameSpace t) c (mt_IsDownstreamService t)));
    [apply copy_strings_copies|..].
Qed.

Lemma Executor_copies : copies Executor_DeepCopyInto.
Proof.
  by apply (copies_derived _ _ _ GMCTarget_DeepCopyInto
    (λ e t, mkMExecutor (me_NodeName e) t (me_ExternalService e))); [apply GMCTarget_copies|..].
Qed.

Lemma Step_copies : copies Step_DeepCopyInto.
Proof.
  by apply (copies_derived _ _ _ Executor_DeepCopyInto
    (λ s e, mkMStep (ms_StepName s) e (ms_Data s) (ms_Condition s) (ms_Dependency s)
              (ms_ServiceURL s))); [apply Executor_copies|..].
Qed.

Lemma RouterConfig_copies : copies RouterConfig_DeepCopyInto.
Proof.
  by apply (copies_derived _ _ _ copy_strings
    (λ rc c, mkMRouterConfig (mrc_Name rc) (mrc_ServiceName rc) (mrc_NameSpace rc) c));
    [apply copy_strings_copies|..].
Qed.

Lemma GMConnectorStatus_copies : copies GMConnectorStatus_DeepCopyInto.
Proof.
  apply (copies_derived _ _ _ copy_strings
    (λ s a, mkMStatus (mt_Condition s) (mt_Status s) (mt_AccessURL s) a));
    [apply copy_strings_copies| |done..].
  intros [c st url a] h. unfold GMConnectorStatus_DeepCopyInto, GMConnectorCondition_DeepCopyInto.
  destruct c. simpl. by rewrite Time_copies.
Qed.

(** The elements of a slice the heap can give. *)
Lemma typed_elements `{Stored M V} (get : cell → option (list M)) h s :
  @typed _ _ (slice_stored get) h (Some s) →
  ∃ ms, elements get h s = Some ms ∧ length ms = s_len s ∧ typed h ms.
Proof. simpl. destruct (elements get h s) as [ms|]; [|done]. intros [? ?]. by exists ms. Qed.

Lemma Router_copies : copies Router_DeepCopyInto.
Proof.
  intros h [t [s|]] Ht.
  2:{ exists h, (mkMRouter t None). split_and!; [done..|].
      apply is_copy_derived; [apply is_copy_nil_slice|done]. }
  destruct (typed_elements get_steps h s Ht) as (ms & He & Hl & Hms).
  destruct (copy_slice_block get_steps CSteps zero_MStep Step_DeepCopyInto (λ _, eq_refl)
              Step_copies (λ out, mret (mkMRouter t (Some out))) s ms h He Hl Hms)
    as (h' & out & Hr & Hs & Hc).
  exists h', (mkMRouter t (Some out)). split_and!; [done..|].
  by apply is_copy_derived.
Qed.

Lemma copy_nodes_copies : @copies _ _ (ref_stored get_nodes) copy_nodes.
Proof.
  intros h [l|] Ht.
  2:{ exists h, None. split_and!; [done..|]. apply is_copy_nil. }
  simpl in Ht. destruct (load get_nodes h l) as [m|] eqn:E; [|done].
  destruct (copy_map_block get_nodes CNodes Router_DeepCopyInto
              (λ out kv, p ← Router_DeepCopy (Some kv.2);
                         r ← match p with Some r => mret r | None => panic nil_deref end;
                         map_store get_nodes CNodes out kv.1 r)) with (l := l) (m := m) (h := h)
    as (h' & a & Hr & Hs & Hc); [done|apply Router_copies| |done..|].
  { intros out kv h1. unfold Router_DeepCopy, deep_copy, mbind, prog_bind.
    by destruct (Router_DeepCopyInto kv.2 h1) as [h2 [r|e|]]. }
  by exists h', (Some a).
Qed.

(** Binding a pair of results, or its two parts. *)
Lemma pair_bind {A B C} (p : prog heap A) (q : prog heap B) (k : A * B → prog heap C) h :
  ((a ← p; b ← q; mret (a, b)) ≫= k) h = (a ← p; b ← q; k (a, b)) h.
Proof.
  unfold mbind, prog_bind. destruct (p h) as [h1 [a|e|]]; [|done..].
  by destruct (q h1) as [h2 [b|e|]].
Qed.

Lemma GMConnectorSpec_copies : copies GMConnectorSpec_DeepCopyInto.
Proof.
  apply (copies_derived _ _ _ (λ x, a ← copy_nodes x.1; b ← RouterConfig_DeepCopyInto x.2; mret (a, b))
    (λ _ x, mkMSpec x.1 x.2)); [| |by intros s []|done].
  - apply copies_both; [apply ref_stored_laws; apply _|apply _|apply copy_nodes_copies|].
    apply RouterConfig_copies.
  - intros s h. by rewrite pair_bind.
Qed.

Lemma GMConnector_copies : copies GMConnector_DeepCopyInto.
Proof.
  apply (copies_derived _ _ _
    (λ x, a ← ObjectMeta_DeepCopyInto x.1;
          b ← (c ← GMConnectorSpec_DeepCopyInto x.2.1;
               d ← GMConnectorStatus_DeepCopyInto x.2.2; mret (c, d)); mret (a, b))
    (λ g x, mkMGMConnector (mg_TypeMeta g) x.1 x.2.1 x.2.2)); [| |by intros g [? []]|by intros].
  - apply (copies_both _ _ _ (λ x, c ← GMConnectorSpec_DeepCopyInto x.1;
             d ← GMConnectorStatus_DeepCopyInto x.2; mret (c, d))); [apply _| | |].
    + apply both_laws; apply _.
    + apply ObjectMeta_copies.
    + apply copies_both; [apply _..|apply GMConnectorSpec_copies|apply GMConnectorStatus_copies].
  - intros [t m s st] h. rewrite pair_bind. unfold GMConnector_DeepCopyInto. simpl.
    apply (rel_bind (R := @prog_eq)); [apply rel_refl|]. intros a h1. by rewrite pair_bind.
Qed.

(** The block of a list's items. *)
Definition copy_items (items : option slice) : prog heap (option slice) :=
  match items with
  | None => mret None
  | Some items =>
      out ← make_slice CItems zero_MGMConnector (s_len items);
      _ ← range_each (seq 0 (s_len items)) (λ i,
            g ← slice_get get_items items i;
            g' ← GMConnector_DeepCopyInto g;
            slice_set get_items CItems out i g');
      mret (Some out)
  end.

Lemma copy_items_copies : @copies _ _ (slice_stored get_items) copy_items.
Proof.
  intros h [s|] Ht.
  2:{ exists h, None. split_and!; [done..|]. apply is_copy_nil_slice. }
  destruct (typed_elements get_items h s Ht) as (ms & He & Hl & Hms).
  destruct (copy_slice_block get_items CItems zero_MGMConnector GMConnector_DeepCopyInto
              (λ _, eq_refl) GMConnector_copies (λ out, mret (Some out)) s ms h He Hl Hms)
    as (h' & out & Hr & Hs & Hc).
  by exists h', (Some out).
Qed.

Lemma GMConnectorList_copies : copies GMConnectorList_DeepCopyInto.
Proof.
  apply (copies_derived _ _ _ (λ x, a ← ListMeta_DeepCopyInto x.1; b ← copy_items x.2; mret (a, b))
    (λ l x, mkMList (ml_TypeMeta l) x.1 x.2)); [| |by intros l []|done].
  - apply copies_both; [apply _|apply slice_stored_laws; apply _|apply ListMeta_copies|].
    apply copy_items_copies.
  - intros l h. by rewrite pair_bind.
Qed.

Lemma GMConnectorCondition_copies : @copies _ _ plain GMConnectorCondition_DeepCopyInto.
Proof.
  intros h [ct cm cr tm] _. exists h, (mkCondition ct cm cr tm). split_and!; [|done|].
  - unfold GMConnectorCondition_DeepCopyInto. simpl. by rewrite Time_copies.
  - split; simpl; [done..|constructor|constructor].
Qed.

(** ** Isolation *)

(** [DeepCopy]: nil for nil; otherwise a struct with the same value, which it
    keeps whatever is written to the cells there were before, while the original
    keeps its own whatever is written to the new cells. *)
Definition isolates `{Stored M V} (dc : option M → prog heap (option M)) : Prop :=
  (∀ h, dc None h = (h, Done None)) ∧
  ∀ h m, typed h m → ∃ h' m', dc (Some m) h = (h', Done (Some m')) ∧
    typed h' m' ∧ view h' m' = view h m ∧ NoDup (refs h' m') ∧
    (∀ h1, (∀ l, l ∉ dom h → h1 !! l = h' !! l) → view h1 m' = view h m) ∧
    (∀ h1, (∀ l, l ∈ dom h → h1 !! l = h' !! l) → view h1 m = view h m).

Lemma copies_isolates `{StoredLaws M V} (into : M → prog heap M) :
  copies into → isolates (deep_copy into).
Proof.
  intros Hc. split; [done|]. intros h m Ht.
  destruct (Hc h m Ht) as (h' & m' & Hr & Hs & [Hv Ht' Hf Hn]). exists h', m'.
  split_and!; [|done..| |].
  - unfold deep_copy. by rewrite (run_bind_Done _ _ _ _ _ Hr).
  - intros h1 H1'. rewrite <- Hv. apply view_frame. intros l Hl. apply H1'.
    rewrite Forall_forall in Hf. by apply not_elem_of_dom, Hf.
  - intros h1 H1'. rewrite <- (view_subseteq m h h' Ht Hs). apply view_frame. intros l Hl.
    rewrite (refs_frame h h') in Hl by by apply agree_subseteq.
    by apply H1', (refs_dom h m).
Qed.

(** C16: every DeepCopy of the API types isolates: it gives nil for nil, and for a struct whose references are valid it returns, without a panic, a struct of the same value whose references are all new and different; whatever is written afterwards through the original leaves the copy as it was, and whatever is written through the copy leaves the original. *)
Theorem deep_copies_isolate :
  isolates GMConnector_DeepCopy ∧ isolates GMConnectorList_DeepCopy ∧
  isolates GMConnectorSpec_DeepCopy ∧ isolates GMConnectorStatus_DeepCopy ∧
  @isolates _ _ plain GMConnectorCondition_DeepCopy ∧ isolates Router_DeepCopy ∧
  isolates RouterConfig_DeepCopy ∧ isolates Step_DeepCopy ∧ isolates Executor_DeepCopy ∧
  isolates GMCTarget_DeepCopy.
Proof.
  pose proof (plain_laws (A := GMConnectorCondition)).
  split_and!; apply copies_isolates.
  - apply GMConnector_copies.
  - apply GMConnectorList_copies.
  - apply GMConnectorSpec_copies.
  - apply GMConnectorStatus_copies.
  - apply GMConnectorCondition_copies.
  - apply Router_copies.
  - apply RouterConfig_copies.
  - apply Step_copies.
  - apply Executor_copies.
  - apply GMCTarget_copies.
Qed.

(** The two root types as a [runtime.Object]: a nil pointer gives a nil
    interface. *)
Lemma DeepCopyObject_nil h :
  GMConnector_DeepCopyObject None h = (h, Done None) ∧
  GMConnectorList_DeepCopyObject None h = (h, Done None).
Proof. done. Qed.

Lemma DeepCopyObject_copy h g h' g' :
  GMConnector_DeepCopy (Some g) h = (h', Done (Some g')) →
  GMConnector_DeepCopyObject (Some g) h = (h', Done (Some (ConnectorObject (Some g')))).
Proof. intros Hr. unfold GMConnector_DeepCopyObject. by rewrite (run_bind_Done _ _ _ _ _ Hr). Qed.
End methods.

(** ** An instance of apimachinery *)

Definition copy_number (r : option loc) : prog heap (option loc) :=
  match r with
  | None => mret None
  | Some l => n ← read get_number l; a ← alloc (CNumber n); mret (Some a)
  end.

Lemma copy_number_copies : @copies _ _ (ref_stored get_number) copy_number.
Proof.
  intros h [l|] Ht.
  2:{ exists h, None. split_and!; [done..|]. apply is_copy_nil. }
  simpl in Ht. destruct (load get_number h l) as [n|] eqn:E; [|done].
  assert (h !! fresh (dom h) = None) as Hf by (apply not_elem_of_dom, is_fresh).
  exists (<[fresh (dom h) := CNumber n]> h), (Some (fresh (dom h))). split_and!.
  - unfold copy_number, read, mbind, prog_bind. by rewrite E.
  - by apply insert_subseteq.
  - apply (is_copy_ref get_number h l n _ _ n); [done| |done| |apply not_elem_of_nil].
    + unfold load. by rewrite lookup_insert_eq.
    + split; simpl; [done..|constructor|constructor].
Qed.

Section demo.
#[local] Existing Instance list_range.

#[local] Instance demo_meta : MetaCopy := {|
  ObjectMeta_DeepCopyInto m :=
    x ← (a ← copy_strings (mo_Labels m); b ← copy_number (mo_DeletionTimestamp m); mret (a, b));
    mret (mkMObjectMeta (mo_Name m) (mo_Namespace m) x.1 x.2 (mo_ResourceVersion m));
  ListMeta_DeepCopyInto m :=
    n ← copy_number (ml_RemainingItemCount m);
    mret (mkMListMeta (ml_ResourceVersion m) (ml_Continue m) n);
  Time_DeepCopyInto t := t
|}.

#[local] Instance demo_meta_laws : MetaLaws.
Proof.
  split; [| |done].
  - apply (copies_derived _ _ _ (λ x, a ← copy_strings x.1; b ← copy_number x.2; mret (a, b))
      (λ m x, mkMObjectMeta (mo_Name m) (mo_Namespace m) x.1 x.2 (mo_ResourceVersion m)));
      [|done|by intros m []|by intros].
    apply copies_both; [apply ref_stored_laws; apply _..|apply copy_strings_copies|].
    apply copy_number_copies.
  - by apply (copies_derived _ _ _ copy_number
      (λ m n, mkMListMeta (ml_ResourceVersion m) (ml_Continue m) n)); [apply copy_number_copies|..].
Qed.

(** A graph of one node, one step, whose target's configuration is the map that
    the router's configuration has too. *)
Definition demo_heap : gmap nat cell :=
  {[ 0 := CNodes {["root" := mkMRouter "Sequence" (Some (mkSlice 1 0 1))]};
     1 := CSteps [mkMStep "Llm" (mkMExecutor "" (mkMTarget "llm" "ns" (Some 2) false) "") "" "" "" ""];
     2 := CStrings {["endpoint" := "/v1"]};
     3 := CStrings {["k" := "v"]} ]}.
Definition demo_graph : MGMConnector :=
  mkMGMConnector (mkTypeMeta "v1" "GMConnector") (mkMObjectMeta "g" "ns" (Some 3) None "1")
    (mkMSpec (Some 0) (mkMRouterConfig "router" "svc" "ns" (Some 2)))
    (mkMStatus zero_Condition "" "" None).

Lemma deep_copies_isolate_witness :
  typed demo_heap demo_graph ∧ refs demo_heap demo_graph = [3; 0; 1; 2; 2] ∧
  (let r := GMConnector_DeepCopy (Some demo_graph) demo_heap in
   match r.2 with
   | Done (Some g) => view r.1 g = view demo_heap demo_graph ∧ refs r.1 g = [4; 5; 6; 7; 8]
   | _ => False
   end) ∧
  isolates GMConnector_DeepCopy.
Proof.
  split; [by vm_compute; repeat constructor|]. split; [by vm_compute|].
  split; [by vm_compute|]. apply deep_copies_isolate.
Defined.
End demo.
