(* ===== verification/Validation.v ===== *)
(** * The validating webhook

    api/v1alpha3/validating_webhook.go: [checkStepName], [nodeNameExists],
    [validateNames], [validateRootExistance], [checkfields] and the three
    admission entry points.  Go ranges over the [Nodes] map in an unspecified
    order: the functions take the enumeration [es] of the map the range visits,
    and the theorems hold for every enumeration. *)

From S2P Require Import Prelude GoStrings ApiTypes.


(** ** Field errors *)

(** A [field.Path] is the list of its components; [field.Invalid] builds an
    error from a path and a detail text (the bad value is not kept). *)
Definition path := list string.
Record field_error := Invalid { err_field : path; err_detail : string }.

#[global] Instance field_error_eq_dec : EqDecision field_error.
Proof. solve_decision. Defined.

(** [Path.Child] *)
Definition Child (p : path) (c : string) : path := p ++ [c].

(** ["steps[%d]"] *)
Definition step_index (idx : nat) : string := "steps[" +:+ itoa (Z.of_nat idx) +:+ "]".

(** [field.NewPath("spec").Child("nodes")] *)
Definition spec_nodes : path := Child ["spec"] "nodes".

(** ** The checks *)

Definition stepNames : list string :=
  ["TeiEmbedding"; "TeiEmbeddingGaudi"; "Embedding"; "VectorDB"; "Retriever"; "Reranking";
   "TeiReranking"; "Tgi"; "TgiGaudi"; "TgiNvidia"; "Llm"; "DocSum"; "Router"; "WebRetriever";
   "Asr"; "Tts"; "SpeechT5"; "SpeechT5Gaudi"; "Whisper"; "WhisperGaudi"; "DataPrep"; "UI"].

Definition checkStepName (s : Step) (idx : nat) (fldRoot : path) (nodeName : string)
    : option field_error :=
  if decide (StepName s = "") then
    Some (Invalid (Child (Child (Child fldRoot nodeName) (step_index idx)) "name")
            ("the step name for node " +:+ nodeName +:+ " cannot be empty"))
  else if decide (StepName s ∈ stepNames) then None
  else
    Some (Invalid (Child (Child (Child fldRoot nodeName) (step_index idx)) "name")
            ("invalid step name: " +:+ StepName s +:+ " for node " +:+ nodeName)).

Definition nodeNameExists (name : string) (nodes : list string) : bool :=
  if decide (name = "") then true else bool_decide (name ∈ nodes).

Definition getKeys (m : gmap string Router) : list string := (map_to_list m).*1.

(** The body of the inner loop of [validateNames], on the loop's state: the
    service names seen so far and the errors. *)
Definition validate_step (fldPath : path) (nodeNames : list string) (name : string)
    (idx : nat) (step : Step) (st : list string * list field_error)
    : list string * list field_error :=
  let '(serviceNames, errs) := st in
  let errs := match checkStepName step idx fldPath name with
              | Some err => errs ++ [err]
              | None => errs
              end in
  let errs :=
    if nodeNameExists (NodeName step) nodeNames then errs
    else errs ++ [Invalid (Child (Child (Child fldPath name) (step_index idx)) "nodeName")
                    ("node name: " +:+ NodeName step +:+ " in step " +:+ StepName step
                     +:+ " does not exist")] in
  let svc := ServiceName (InternalService step) in
  if decide (svc ≠ "" ∧ svc ∈ serviceNames) then
    (serviceNames,
     errs ++ [Invalid (Child (Child (Child (Child fldPath name) (step_index idx))
                                "internalService") "serviceName")
                ("service name: " +:+ svc +:+ " in node " +:+ name +:+ " already exists")])
  else (serviceNames ++ [svc], errs).

#[global] Arguments validate_step : simpl never.

(** [for idx, step := range router.Steps] *)
Fixpoint validate_steps (fldPath : path) (nodeNames : list string) (name : string)
    (idx : nat) (steps : list Step) (st : list string * list field_error)
    : list string * list field_error :=
  match steps with
  | [] => st
  | step :: rest =>
      validate_steps fldPath nodeNames name (S idx) rest
        (validate_step fldPath nodeNames name idx step st)
  end.

(** [for name, router := range nodes], over the enumeration [es]. *)
Fixpoint validate_nodes (fldPath : path) (nodeNames : list string)
    (es : list (string * Router)) (st : list string * list field_error)
    : list string * list field_error :=
  match es with
  | [] => st
  | (name, router) :: rest =>
      validate_nodes fldPath nodeNames rest
        (validate_steps fldPath nodeNames name 0 (Steps router) st)
  end.

Definition validateNames (nodes : gmap string Router) (es : list (string * Router))
    (fldPath : path) : list field_error :=
  (validate_nodes fldPath (getKeys nodes) es ([], [])).2.

Definition validateRootExistance (nodes : gmap string Router) (fldPath : path)
    : option field_error :=
  match nodes !! "root" with
  | Some _ => None
  | None => Some (Invalid fldPath "a root node is required")
  end.

Definition checkfields (r : GMConnector) (es : list (string * Router)) : list field_error :=
  let nodes := Nodes (Spec r) in
  let allErrs := validateNames nodes es spec_nodes in
  match validateRootExistance nodes spec_nodes with
  | Some err => allErrs ++ [err]
  | None => allErrs
  end.

(** ** Admission *)

(** [apierrors.NewInvalid(GroupKind, name, errs)] *)
Record invalid_error := NewInvalid {
  inv_group : string; inv_kind : string; inv_name : string; inv_errs : list field_error
}.

Definition validateGMConnector (r : GMConnector) (es : list (string * Router))
    : option invalid_error :=
  match checkfields r es with
  | [] => None
  | errs => Some (NewInvalid "gmc.opea.io" "GMCConnector" (Name (gmc_ObjectMeta r)) errs)
  end.

Definition ValidateCreate (r : GMConnector) (es : list (string * Router)) : option invalid_error :=
  validateGMConnector r es.
Definition ValidateUpdate (old r : GMConnector) (es : list (string * Router))
    : option invalid_error :=
  validateGMConnector r es.
Definition ValidateDelete (r : GMConnector) : option invalid_error := None.

(** ** Specification *)

(** All the steps of the nodes, in the order the range visits them. *)
Definition all_steps (es : list (string * Router)) : list Step :=
  es ≫= λ e, Steps e.2.

(** A step the webhook accepts on its own. *)
Definition step_valid (nodes : gmap string Router) (s : Step) : Prop :=
  StepName s ∈ stepNames ∧ (NodeName s = "" ∨ is_Some (nodes !! NodeName s)).

(** The service names the steps set. *)
Definition service_names (ss : list Step) : list string :=
  filter (λ n, n ≠ "") ((λ s, ServiceName (InternalService s)) <$> ss).

(** What the webhook promises about a specification it lets through. *)
Definition names_valid (nodes : gmap string Router) (ss : list Step) : Prop :=
  Forall (step_valid nodes) ss ∧ NoDup (service_names ss).

(** ** Counting the errors *)

(** The errors a step gets by itself: its name, its node name. *)
Definition own_errors (nodes : gmap string Router) (s : Step) : nat :=
  (if decide (StepName s ∈ stepNames) then 0 else 1) +
  (if decide (NodeName s = "" ∨ is_Some (nodes !! NodeName s)) then 0 else 1).

(** How many of the service names repeat an earlier one. *)
Definition repeats (ss : list Step) : nat :=
  length (service_names ss) - size (list_to_set (service_names ss) : gset string).

Lemma empty_not_step_name : "" ∉ stepNames.
Proof. by vm_compute; set_solver. Qed.

Lemma elem_of_getKeys nodes n : n ∈ getKeys nodes ↔ is_Some (nodes !! n).
Proof.
  unfold getKeys. rewrite list_elem_of_fmap. split.
  - intros [[k r] [-> H%elem_of_map_to_list]]. by exists r.
  - intros [r H]. exists (n, r). by rewrite elem_of_map_to_list.
Qed.

Lemma checkStepName_None s idx p name :
  checkStepName s idx p name = None ↔ StepName s ∈ stepNames.
Proof.
  unfold checkStepName. pose proof empty_not_step_name.
  repeat case_decide; intuition congruence.
Qed.

Lemma nodeNameExists_true nodes n :
  nodeNameExists n (getKeys nodes) = true ↔ n = "" ∨ is_Some (nodes !! n).
Proof.
  unfold nodeNameExists. rewrite <- elem_of_getKeys.
  case_decide; [tauto|]. by rewrite bool_decide_eq_true; intuition.
Qed.

Lemma own_errors_checks nodes p idx name s :
  (if checkStepName s idx p name then 1 else 0) +
  (if nodeNameExists (NodeName s) (getKeys nodes) then 0 else 1) = own_errors nodes s.
Proof.
  unfold own_errors. f_equal.
  - pose proof (checkStepName_None s idx p name). destruct (checkStepName _ _ _ _), (decide _); intuition done.
  - pose proof (nodeNameExists_true nodes (NodeName s)).
    destruct (nodeNameExists _ _), (decide _); intuition done.
Qed.

(** One step: its own errors, one more if its service name was seen. *)
Lemma validate_step_spec nodes p name idx s seen errs :
  let svc := ServiceName (InternalService s) in
  let dup := decide (svc ≠ "" ∧ svc ∈ seen) in
  (validate_step p (getKeys nodes) name idx s (seen, errs)).1 =
    (if dup then seen else seen ++ [svc]) ∧
  length (validate_step p (getKeys nodes) name idx s (seen, errs)).2 =
    length errs + own_errors nodes s + (if dup then 1 else 0).
Proof.
  intros svc dup. rewrite <- (own_errors_checks nodes p idx name). unfold validate_step.
  fold svc. fold dup.
  destruct (checkStepName s idx p name), (nodeNameExists _ _), dup;
    simpl; rewrite ?length_app; simpl; split; (done || lia).
Qed.

(** The non-empty names seen, as a set, grow by the names of the steps. *)
Fixpoint dup_count (seen names : list string) : nat :=
  match names with
  | [] => 0
  | n :: rest =>
      if decide (n ≠ "" ∧ n ∈ seen) then S (dup_count seen rest)
      else dup_count (seen ++ [n]) rest
  end.

Lemma validate_steps_count nodes p name idx ss rest seen errs :
  let st := validate_steps p (getKeys nodes) name idx ss (seen, errs) in
  length st.2 + dup_count st.1 rest =
    length errs + sum_list_with (own_errors nodes) ss +
    dup_count seen (((λ s, ServiceName (InternalService s)) <$> ss) ++ rest).
Proof.
  revert idx seen errs. induction ss as [|s ss IH]; intros idx seen errs; csimpl; [lia|].
  destruct (validate_step _ _ _ _ _ _) as [seen' errs'] eqn:E.
  pose proof (validate_step_spec nodes p name idx s seen errs) as [H1 H2].
  rewrite E in H1, H2. simpl in H1, H2. specialize (IH (S idx) seen' errs').
  simpl in IH. rewrite IH, H2. subst seen'. case_decide; lia.
Qed.

Lemma validate_nodes_count nodes p es seen errs :
  length (validate_nodes p (getKeys nodes) es (seen, errs)).2 =
    length errs + sum_list_with (own_errors nodes) (all_steps es) +
    dup_count seen ((λ s, ServiceName (InternalService s)) <$> all_steps es).
Proof.
  revert seen errs. induction es as [|[name r] es IH]; intros seen errs; csimpl; [lia|].
  destruct (validate_steps _ _ _ _ _ _) as [seen' errs'] eqn:E.
  pose proof (validate_steps_count nodes p name 0 (Steps r)
    ((λ s, ServiceName (InternalService s)) <$> all_steps es) seen errs) as H.
  rewrite E in H. simpl in H. rewrite IH.
  change (all_steps ((name, r) :: es)) with (Steps r ++ all_steps es).
  rewrite fmap_app, sum_list_with_app. lia.
Qed.

Lemma dup_count_set seen names :
  dup_count seen names +
  size ((list_to_set (filter (λ n, n ≠ "") names) : gset string) ∖ list_to_set seen) =
  length (filter (λ n, n ≠ "") names).
Proof.
  revert seen. induction names as [|n names IH]; intros seen; simpl.
  { by rewrite empty_difference_L, size_empty. }
  rewrite filter_cons. destruct (decide (n = "")) as [->|Hn].
  - rewrite (decide_False (P := ¬ "" = "")) by tauto.
    rewrite decide_False by tauto. rewrite <- (IH (seen ++ [""])). do 2 f_equal.
    apply set_eq. intros x. rewrite !elem_of_difference, !elem_of_list_to_set, elem_of_app,
      list_elem_of_filter, list_elem_of_singleton. tauto.
  - rewrite (decide_True (P := ¬ n = "")) by done. simpl.
    case_decide as Hd.
    + simpl. f_equal. rewrite <- (IH seen). do 2 f_equal. set_solver.
    + rewrite <- (IH (seen ++ [n])).
      assert (({[n]} ∪ list_to_set (filter (λ n, n ≠ "") names)) ∖ list_to_set seen =
        {[n]} ∪ (list_to_set (filter (λ n, n ≠ "") names) ∖ list_to_set (seen ++ [n]))
          :> gset string) as ->.
      { apply set_eq. intros x. rewrite list_to_set_app_L. set_unfold.
        destruct (decide (x = n)); naive_solver. }
      rewrite size_union, size_singleton by set_solver. lia.
Qed.

Lemma dup_count_nil ss :
  dup_count [] ((λ s, ServiceName (InternalService s)) <$> ss) = repeats ss.
Proof.
  pose proof (dup_count_set [] ((λ s, ServiceName (InternalService s)) <$> ss)) as H.
  unfold repeats, service_names. simpl in H. rewrite difference_empty_L in H. lia.
Qed.

(** The number of errors: each step's own, and one per repeated service name. *)
Lemma validateNames_length nodes es p :
  length (validateNames nodes es p) =
    sum_list_with (own_errors nodes) (all_steps es) + repeats (all_steps es).
Proof.
  unfold validateNames. rewrite validate_nodes_count, dup_count_nil. simpl. lia.
Qed.

Lemma size_list_to_set_le (l : list string) : size (list_to_set l : gset string) <= length l.
Proof.
  induction l as [|x l IH]; simpl; [lia || done|].
  rewrite size_union_alt, size_singleton.
  pose proof (subseteq_size (list_to_set l ∖ {[x]}) (list_to_set l : gset string)
    ltac:(set_solver)). lia.
Qed.

Lemma NoDup_size (l : list string) : size (list_to_set l : gset string) = length l ↔ NoDup l.
Proof.
  split; [|apply size_list_to_set]. induction l as [|x l IH]; [constructor|]. simpl.
  destruct (decide (x ∈ l)) as [Hx|Hx].
  - rewrite subseteq_union_1_L by set_solver. pose proof (size_list_to_set_le l). lia.
  - rewrite size_union, size_singleton by set_solver. intros [=]. constructor; auto.
Qed.

Lemma repeats_0 ss : repeats ss = 0 ↔ NoDup (service_names ss).
Proof.
  unfold repeats. rewrite <- NoDup_size. pose proof (size_list_to_set_le (service_names ss)). lia.
Qed.

Lemma own_errors_0 nodes s : own_errors nodes s = 0 ↔ step_valid nodes s.
Proof. unfold own_errors, step_valid. repeat case_decide; naive_solver lia. Qed.

Lemma sum_list_with_0 {A} (f : A → nat) l : sum_list_with f l = 0 ↔ Forall (λ x, f x = 0) l.
Proof.
  induction l as [|x l IH]; simpl; [by split|].
  rewrite Forall_cons, <- IH. lia.
Qed.

Lemma validateNames_nil nodes es p :
  validateNames nodes es p = [] ↔ names_valid nodes (all_steps es).
Proof.
  rewrite <- length_zero_iff_nil, validateNames_length, Nat.eq_add_0, sum_list_with_0, repeats_0.
  unfold names_valid. apply and_iff_compat_r, Forall_iff. intros s. apply own_errors_0.
Qed.

#[global] Instance all_steps_perm : Proper ((≡ₚ) ==> (≡ₚ)) all_steps.
Proof. intros es1 es2 H. unfold all_steps. by apply bind_Permutation. Qed.

#[global] Instance service_names_perm : Proper ((≡ₚ) ==> (≡ₚ)) service_names.
Proof. intros ss1 ss2 H. unfold service_names. by rewrite H. Qed.

Lemma repeats_perm ss1 ss2 : ss1 ≡ₚ ss2 → repeats ss1 = repeats ss2.
Proof.
  intros H. unfold repeats. f_equal.
  - by rewrite H.
  - f_equal. apply set_eq. intros x. rewrite !elem_of_list_to_set. by rewrite H.
Qed.

#[global] Instance names_valid_perm nodes : Proper ((≡ₚ) ==> iff) (names_valid nodes).
Proof. intros ss1 ss2 H. unfold names_valid. by rewrite H. Qed.

Lemma checkfields_nil r es :
  checkfields r es = [] ↔
    names_valid (Nodes (Spec r)) (all_steps es) ∧ is_Some (Nodes (Spec r) !! "root").
Proof.
  unfold checkfields, validateRootExistance. rewrite <- (validateNames_nil _ _ spec_nodes).
  destruct (Nodes (Spec r) !! "root"); split.
  - by intros ->.
  - by intros [-> _].
  - by intros [_ ?]%app_eq_nil.
  - by intros [_ [? ?]].
Qed.

Lemma ValidateCreate_None r es :
  ValidateCreate r es = None ↔
    names_valid (Nodes (Spec r)) (all_steps es) ∧ is_Some (Nodes (Spec r) !! "root").
Proof.
  unfold ValidateCreate, validateGMConnector. rewrite <- checkfields_nil.
  by destruct (checkfields r es).
Qed.

(** ** Theorems *)

(** The steps of a specification, in no particular order. *)
Definition spec_steps (r : GMConnector) : list Step := all_steps (map_to_list (Nodes (Spec r))).

(** C2: whatever the order in which Go enumerates the nodes, creation and update
    are admitted exactly when every step has a known step name and a node name
    that is empty or defined, no service name is set twice, and there is a root
    node; deletion is always admitted. *)
Theorem validate_accepts_iff (old r : GMConnector) (es : list (string * Router)) :
  es ≡ₚ map_to_list (Nodes (Spec r)) →
  (ValidateCreate r es = None ↔
     names_valid (Nodes (Spec r)) (spec_steps r) ∧ is_Some (Nodes (Spec r) !! "root")) ∧
  ValidateUpdate old r es = ValidateCreate r es ∧
  ValidateDelete r = None.
Proof.
  intros Hes. split; [|done]. rewrite ValidateCreate_None. unfold spec_steps. by rewrite Hes.
Qed.

(** The number of errors reported does not depend on the enumeration. *)
Lemma validate_order_irrelevant (r : GMConnector) (es1 es2 : list (string * Router)) :
  es1 ≡ₚ map_to_list (Nodes (Spec r)) →
  es2 ≡ₚ map_to_list (Nodes (Spec r)) →
  length (checkfields r es1) = length (checkfields r es2).
Proof.
  intros H1 H2.
  assert (length (validateNames (Nodes (Spec r)) es1 spec_nodes) =
          length (validateNames (Nodes (Spec r)) es2 spec_nodes)) as E.
  { rewrite !validateNames_length. by rewrite H1, H2 || (f_equal; [by rewrite H1, H2|]; apply repeats_perm; by rewrite H1, H2). }
  unfold checkfields. destruct (validateRootExistance _ _); [rewrite !length_app|]; lia.
Qed.

(** ** A concrete instance *)

Definition demo_step (name node svc : string) : Step :=
  mkStep name (mkExecutor node (mkGMCTarget svc "" None false) "") "" "" "" "".

Definition demo_spec : GMConnector :=
  mkGMConnector (mkTypeMeta "gmc.opea.io/v1alpha3" "GMConnector") (mkObjectMeta "g" "ns" None None "1")
    (mkSpec (Some {["root" := mkRouter Sequence (Some
       [demo_step "Embedding" "" "emb"; demo_step "Llm" "root" "llm"; demo_step "Tgi" "" ""])]})
       (mkRouterConfig "router" "" "" None))
    zero_Status.

Lemma validate_accepts_iff_witness :
  ValidateCreate demo_spec (map_to_list (Nodes (Spec demo_spec))) = None ∧
  names_valid (Nodes (Spec demo_spec)) (spec_steps demo_spec) ∧
  is_Some (Nodes (Spec demo_spec) !! "root").
Proof.
  assert (ValidateCreate demo_spec (map_to_list (Nodes (Spec demo_spec))) = None) as E
    by (vm_compute; reflexivity).
  split; [exact E|].
  apply (validate_accepts_iff demo_spec demo_spec (map_to_list (Nodes (Spec demo_spec))));
    [reflexivity|exact E].
Defined.
