(* ===== verification/Json.v ===== *)
(** * JSON values and the codec interface

    The values [encoding/json] decodes into [interface{}], the interface of the
    codec (the operations the code calls and the documented laws the proofs
    use), decoding into a [map[string]interface{}], and [fmt]'s [%v] of a
    decoded value.  [TextCodec] is a concrete codec for the fragment without
    numbers and escapes: it shows that the laws can hold and lets the witnesses
    of the router run on JSON text. *)

From Stdlib Require Import Ascii.
From Stdlib Require Import Floats.SpecFloat.
From S2P Require Import Prelude GoStrings.

(** ** Values *)

(** A decoded number is a [float64]. *)
Inductive json : Type :=
  | JNull
  | JBool (b : bool)
  | JNum (x : spec_float)
  | JStr (s : string)
  | JArr (l : list json)
  | JObj (m : gmap string json).

(** The [float64] nearest to the quotient of two integers. *)
Definition f64_ratio (n d : Z) : spec_float :=
  SFdiv 53 1024 (binary_normalize 53 1024 n 0 false) (binary_normalize 53 1024 d 0 false).

(** A [map[string]interface{}] value: [None] is the nil map. *)
Abbreviation jmap := (option (gmap string json)).

(** A [map[string]interface{}] stored in an [interface{}] or marshalled. *)
Definition jmap_value (m : jmap) : json :=
  match m with Some m => JObj m | None => JNull end.

(** ** The codec *)

Class JsonCodec := {
  (** [json.Unmarshal] of the bytes into an [interface{}] *)
  json_unmarshal : string → error + json;
  (** [json.Marshal] of a decoded value or of a map of decoded values *)
  json_marshal : json → string;
  (** the text of the [UnmarshalTypeError] for a value that is not an object *)
  json_type_error : json → error;
  (** [fmt]'s [%v] of a [float64] *)
  float_v : spec_float → string
}.

(** What the proofs use of encoding/json: decoding yields representable values
    (valid UTF-8 text, finite numbers, bounded depth), these are closed under
    taking members and merging objects, and marshalling then decoding one of
    them gives it back. *)
Class JsonCodecLaws `{JsonCodec} := {
  json_wf : json → Prop;
  json_unmarshal_wf b v : json_unmarshal b = inr v → json_wf v;
  json_roundtrip v : json_wf v → json_unmarshal (json_marshal v) = inr v;
  json_wf_member m k v : json_wf (JObj m) → m !! k = Some v → json_wf v;
  json_wf_union m1 m2 : json_wf (JObj m1) → json_wf (JObj m2) → json_wf (JObj (m1 ∪ m2))
}.

(** The byte order of the keys, in which fmt prints a map. *)
Definition key_le (p q : string * string) : Prop := String.leb p.1 q.1 = true.
#[global] Instance key_le_dec : RelDecision key_le.
Proof. intros p q. unfold key_le. apply _. Defined.

Section codec.
Context `{JsonCodec}.

(** [json.Unmarshal(b, &m)] for a [map[string]interface{}] variable [m] that
    is nil or empty: null leaves it (or makes it) nil, an object fills it,
    anything else is an error. *)
Definition unmarshal_map (b : string) : error + jmap :=
  match json_unmarshal b with
  | inl e => inl e
  | inr (JObj m) => inr (Some m)
  | inr JNull => inr None
  | inr v => inl (json_type_error v)
  end.

(** [fmt.Sprintf("%v", v)]; maps are printed in key order. *)
Fixpoint sprintf_v (v : json) : string :=
  match v with
  | JNull => "<nil>"
  | JBool b => if b then "true" else "false"
  | JNum x => float_v x
  | JStr s => s
  | JArr l => "[" +:+ join (sprintf_v <$> l) " " +:+ "]"
  | JObj m =>
      let kvs := merge_sort key_le (map_to_list (sprintf_v <$> m)) in
      "map[" +:+ join ((λ kv, kv.1 +:+ ":" +:+ kv.2) <$> kvs) " " +:+ "]"
  end.

Context `{!JsonCodecLaws}.

Lemma unmarshal_map_inv b m :
  unmarshal_map b = inr (Some m) ↔ json_unmarshal b = inr (JObj m).
Proof. unfold unmarshal_map. destruct (json_unmarshal b) as [|[]]; naive_solver. Qed.

Lemma unmarshal_map_wf b m : unmarshal_map b = inr (Some m) → json_wf (JObj m).
Proof. rewrite unmarshal_map_inv. apply json_unmarshal_wf. Qed.

Lemma unmarshal_map_marshal m :
  json_wf (JObj m) → unmarshal_map (json_marshal (JObj m)) = inr (Some m).
Proof. rewrite unmarshal_map_inv. apply json_roundtrip. Qed.
End codec.
