(* ===== verification/JsonText.v ===== *)
(** * A concrete JSON codec

    An instance of [JsonCodec] and of its laws: a printer and a recursive
    descent parser for JSON without numbers, escapes and white space.  It is not
    a model of encoding/json (which stays behind the interface); it shows that
    the interface's laws hold of a codec on text, and the witnesses of the
    router's theorems run on it. *)

From Stdlib Require Import Ascii.
From S2P Require Import Prelude GoStrings Json.

#[local] Open Scope string_scope.

Definition dquote : ascii := ascii_of_nat 34.
Definition backslash : ascii := ascii_of_nat 92.

(** A text that needs no escape. *)
Definition plain (s : string) : Prop := no_byte dquote s ∧ no_byte backslash s.

Definition quote (s : string) : string := String dquote (s +:+ String dquote "").

(** ** Printing *)

Fixpoint jprint (v : json) : string :=
  match v with
  | JNull => "null"
  | JBool b => if b then "true" else "false"
  | JNum _ => "0"
  | JStr s => quote s
  | JArr l => "[" +:+ join (jprint <$> l) "," +:+ "]"
  | JObj m =>
      "{" +:+ join ((λ kt, quote kt.1 +:+ ":" +:+ kt.2) <$> map_to_list (jprint <$> m)) "," +:+ "}"
  end.

(** ** Parsing *)

(** The text up to the closing quote, and what follows the quote. *)
Fixpoint pstr (s : string) : option (string * string) :=
  match s with
  | EmptyString => None
  | String c s' =>
      if decide (c = dquote) then Some ("", s')
      else if decide (c = backslash) then None
      else '(t, r) ← pstr s'; Some (String c t, r)
  end.

Definition quoted (s : string) : option (string * string) :=
  match s with
  | String c s' => if decide (c = dquote) then pstr s' else None
  | EmptyString => None
  end.

Fixpoint pval (n : nat) (s : string) {struct n} : option (json * string) :=
  match n with
  | 0 => None
  | S n =>
      if has_prefix "null" s then Some (JNull, str_drop 4 s)
      else if has_prefix "true" s then Some (JBool true, str_drop 4 s)
      else if has_prefix "false" s then Some (JBool false, str_drop 5 s)
      else if has_prefix "[]" s then Some (JArr [], str_drop 2 s)
      else if has_prefix "{}" s then Some (JObj ∅, str_drop 2 s)
      else
        match s with
        | EmptyString => None
        | String c s' =>
            if decide (c = dquote) then '(t, r) ← pstr s'; Some (JStr t, r)
            else if decide (c = "["%char) then '(l, r) ← plist n s'; Some (JArr l, r)
            else if decide (c = "{"%char) then
              '(kvs, r) ← pobj n s'; Some (JObj (list_to_map (reverse kvs)), r)
            else None
        end
  end
with plist (n : nat) (s : string) {struct n} : option (list json * string) :=
  match n with
  | 0 => None
  | S n =>
      '(v, r) ← pval n s;
      if has_prefix "," r then '(l, r) ← plist n (str_drop 1 r); Some (v :: l, r)
      else if has_prefix "]" r then Some ([v], str_drop 1 r)
      else None
  end
with pobj (n : nat) (s : string) {struct n} : option (list (string * json) * string) :=
  match n with
  | 0 => None
  | S n =>
      '(k, r) ← quoted s;
      if has_prefix ":" r then
        '(v, r) ← pval n (str_drop 1 r);
        if has_prefix "," r then '(l, r) ← pobj n (str_drop 1 r); Some ((k, v) :: l, r)
        else if has_prefix "}" r then Some ([(k, v)], str_drop 1 r)
        else None
      else None
  end.

Definition text_unmarshal (s : string) : error + json :=
  match pval (String.length s) s with
  | Some (v, EmptyString) => inr v
  | _ => inl "invalid character"
  end.

#[export] Instance TextCodec : JsonCodec := {|
  json_unmarshal := text_unmarshal;
  json_marshal := jprint;
  json_type_error _ := "json: cannot unmarshal into Go value of type map[string]interface {}";
  float_v _ := "0"
|}.

(** ** Representable values *)

Inductive jplain : json → Prop :=
  | jplain_null : jplain JNull
  | jplain_bool b : jplain (JBool b)
  | jplain_str s : plain s → jplain (JStr s)
  | jplain_arr l : Forall jplain l → jplain (JArr l)
  | jplain_obj m : (∀ k v, m !! k = Some v → plain k ∧ jplain v) → jplain (JObj m).

Lemma pstr_plain s t r : pstr s = Some (t, r) → plain t.
Proof.
  revert t r. induction s as [|c s IH]; intros t r; simpl; [done|].
  repeat case_decide; try done; [intros [= <- <-]; done|].
  destruct (pstr s) as [[t' r']|]; simpl; [|done]. intros [= <- <-].
  destruct (IH t' r' eq_refl). split; by apply no_byte_cons.
Qed.

Lemma quoted_plain s t r : quoted s = Some (t, r) → plain t.
Proof. destruct s as [|c s]; simpl; [done|]. case_decide; [apply pstr_plain|done]. Qed.

Lemma jplain_list_to_map (kvs : list (string * json)) :
  Forall (λ kv, plain kv.1 ∧ jplain kv.2) kvs → jplain (JObj (list_to_map (reverse kvs))).
Proof.
  intros H. constructor. intros k v Hk%elem_of_list_to_map_2.
  rewrite elem_of_reverse in Hk. rewrite Forall_forall in H. apply (H _ Hk).
Qed.

Lemma parse_plain n :
  (∀ s v r, pval n s = Some (v, r) → jplain v) ∧
  (∀ s l r, plist n s = Some (l, r) → Forall jplain l) ∧
  (∀ s l r, pobj n s = Some (l, r) → Forall (λ kv, plain kv.1 ∧ jplain kv.2) l).
Proof.
  induction n as [|n (IHv & IHl & IHo)]; [done|].
  split_and!; intros s x r E; cbn [pval plist pobj] in E.
  - do 3 (destruct (has_prefix _ s); [injection E as <- <-; constructor|]).
    destruct (has_prefix _ s); [injection E as <- <-; by repeat constructor|].
    destruct (has_prefix _ s); [injection E as <- <-; by constructor|].
    destruct s as [|c s]; [done|].
    repeat case_decide; try done; apply bind_Some in E as ([t r'] & Ht & [= <- <-]).
    + constructor. by eapply pstr_plain.
    + constructor. by eapply IHl.
    + apply jplain_list_to_map. by eapply IHo.
  - apply bind_Some in E as ([v r'] & Hv & E).
    destruct (has_prefix _ r').
    + apply bind_Some in E as ([l r''] & Hl & [= <- <-]). constructor; eauto.
    + destruct (has_prefix _ r'); [|done]. injection E as <- <-. apply Forall_singleton. eauto.
  - apply bind_Some in E as ([k r'] & Hk & E). destruct (has_prefix _ r'); [|done].
    apply bind_Some in E as ([v r''] & Hv & E).
    pose proof (quoted_plain _ _ _ Hk). pose proof (IHv _ _ _ Hv).
    destruct (has_prefix _ r'').
    + apply bind_Some in E as ([l r3] & Hl & [= <- <-]). constructor; eauto.
    + destruct (has_prefix _ r''); [|done]. injection E as <- <-. by apply Forall_singleton.
Qed.

(** ** Round trip *)

Lemma pstr_quote s r : plain s → pstr (s +:+ String dquote r) = Some (s, r).
Proof.
  induction s as [|c s IH]; intros [Hq Hb]; cbn [pstr String.append].
  - by rewrite decide_True.
  - apply no_byte_cons in Hq as [Hc Hq]. apply no_byte_cons in Hb as [Hc' Hb].
    rewrite !decide_False by done. rewrite IH by done. done.
Qed.

Lemma quoted_quote s r : plain s → quoted (quote s +:+ r) = Some (s, r).
Proof.
  intros Hs. unfold quote. cbn [quoted String.append]. rewrite decide_True by done.
  rewrite <- str_app_assoc. by apply pstr_quote.
Qed.

Lemma length_str_app a b : String.length (a +:+ b) = String.length a + String.length b.
Proof. induction a as [|c a IH]; simpl; [done|]. by rewrite IH. Qed.

(** A printed value starts with one of these bytes. *)
Lemma jprint_head v : jplain v → ∃ c t, jprint v = String c t ∧ c ≠ "]"%char ∧ c ≠ "}"%char.
Proof.
  destruct 1 as [|[]|s _|l _|m _]; simpl;
    (eexists _, _; split; [reflexivity|]); by split.
Qed.

Definition parses (n : nat) (v : json) : Prop :=
  ∀ r, pval n (jprint v +:+ r) = Some (v, r).

Lemma plist_join n l r :
  l ≠ [] → Forall jplain l →
  Forall (λ v, ∀ n, String.length (jprint v) <= n → parses n v) l →
  String.length (join (jprint <$> l) ",") < n →
  plist n (join (jprint <$> l) "," +:+ "]" +:+ r) = Some (l, r).
Proof.
  intros Hne Hp Hl. revert n Hne. induction Hl as [|v l Hv Hl IH]; intros n Hne Hn; [done|].
  apply Forall_cons in Hp as [Hpv Hp].
  destruct n as [|n]; [lia|]. cbn [plist].
  destruct l as [|v' l].
  - simpl in *. rewrite Hv by lia. done.
  - rewrite !fmap_cons in *.
    change (join (jprint v :: jprint v' :: (jprint <$> l)) ",") with
      (jprint v +:+ "," +:+ join (jprint v' :: (jprint <$> l)) ",") in *.
    rewrite !length_str_app in Hn. cbn [String.length] in Hn.
    rewrite <- !str_app_assoc. rewrite Hv by lia. cbn -[plist join].
    rewrite IH by (done || lia). done.
Qed.

Lemma pobj_join n l r :
  l ≠ [] → Forall (λ kv, plain kv.1 ∧ jplain kv.2) l →
  Forall (λ kv, ∀ n, String.length (jprint kv.2) <= n → parses n kv.2) l →
  let texts := (λ kv, quote kv.1 +:+ ":" +:+ jprint kv.2) <$> l in
  String.length (join texts ",") < n →
  pobj n (join texts "," +:+ "}" +:+ r) = Some (l, r).
Proof.
  intros Hne Hp Hl. revert n Hne.
  induction Hl as [|[k v] l Hv Hl IH]; intros n Hne texts Hn; [done|].
  apply Forall_cons in Hp as [[Hk Hpv] Hp]. simpl in Hk, Hv.
  destruct n as [|n]; [lia|]. cbn [pobj]. subst texts.
  destruct l as [|v' l].
  - cbn [fmap list_fmap join fst snd] in *. rewrite !length_str_app in Hn.
    rewrite <- !str_app_assoc, quoted_quote by done. cbn -[pobj]. rewrite Hv by lia. done.
  - rewrite !fmap_cons in *. cbn [fst snd] in *.
    change (join ((quote k +:+ ":" +:+ jprint v) :: ?a :: ?b) ",") with
      ((quote k +:+ ":" +:+ jprint v) +:+ "," +:+ join (a :: b) ",") in *.
    rewrite !length_str_app in Hn. cbn [String.length] in Hn.
    rewrite <- !str_app_assoc, quoted_quote by done. cbn -[pobj join].
    rewrite Hv by lia. cbn -[pobj join].
    rewrite IH by (done || lia). done.
Qed.

Lemma jprint_obj m :
  jprint (JObj m) =
    "{" +:+ join ((λ kv, quote kv.1 +:+ ":" +:+ jprint kv.2) <$> map_to_list m) "," +:+ "}".
Proof.
  cbn [jprint]. rewrite map_to_list_fmap, <- list_fmap_compose. done.
Qed.

Lemma length_join_elem (l : list string) x sep :
  x ∈ l → String.length x <= String.length (join l sep).
Proof.
  induction l as [|y l IH]; [by intros ?%elem_of_nil|]. intros [->|Hx]%elem_of_cons.
  - destruct l; [done|]. rewrite join_cons_nonempty, !length_str_app by done. lia.
  - destruct l as [|z l]; [by apply elem_of_nil in Hx|].
    rewrite join_cons_nonempty, !length_str_app by done. specialize (IH Hx). lia.
Qed.

(** A value other than the empty containers: its opening byte decides. *)
Lemma pval_string n s r : plain s → pval (S n) (quote s +:+ r) = Some (JStr s, r).
Proof.
  intros Hs. unfold quote. cbn -[pstr]. rewrite <- str_app_assoc. cbn [String.append].
  by rewrite pstr_quote.
Qed.

Lemma join_head l c t sep : l ≠ [] → head l = Some (String c t) → ∃ t', join l sep = String c t'.
Proof.
  intros Hne Hh. destruct l as [|x l]; [done|]. injection Hh as ->.
  destruct l; [by eexists|]. rewrite join_cons_nonempty by done. by eexists.
Qed.

Lemma pval_list n l r :
  l ≠ [] → Forall jplain l →
  pval (S n) (jprint (JArr l) +:+ r) =
    ('(l', r') ← plist n (join (jprint <$> l) "," +:+ "]" +:+ r); Some (JArr l', r')).
Proof.
  intros Hne Hl. destruct l as [|v l]; [done|]. apply Forall_cons in Hl as [Hv _].
  destruct (jprint_head v Hv) as (c & t & Hc & Hb & _).
  assert (∃ t', join (jprint <$> (v :: l)) "," = String c t') as [t' Ht'].
  { apply (join_head _ c t); [done|]. rewrite fmap_cons. cbn [head]. by rewrite Hc. }
  cbn [jprint]. rewrite Ht', <- !str_app_assoc. cbn -[plist decide].
  rewrite (decide_False (P := "]"%char = c)) by done. done.
Qed.

Lemma pval_obj n m r :
  m ≠ ∅ →
  let texts := (λ kv, quote kv.1 +:+ ":" +:+ jprint kv.2) <$> map_to_list m in
  pval (S n) (jprint (JObj m) +:+ r) =
    ('(kvs, r') ← pobj n (join texts "," +:+ "}" +:+ r);
     Some (JObj (list_to_map (reverse kvs)), r')).
Proof.
  intros Hne texts. rewrite jprint_obj. fold texts.
  assert (texts ≠ []) as Htn.
  { subst texts. intros E%fmap_nil_inv. by apply map_to_list_empty_iff in E. }
  destruct texts as [|x texts'] eqn:E; [done|].
  assert (∃ t, x = String dquote t) as [t ->].
  { assert (x ∈ (λ kv, quote kv.1 +:+ ":" +:+ jprint kv.2) <$> map_to_list m) as Hx.
    { subst texts. rewrite E. by left. }
    apply list_elem_of_fmap in Hx as (kv & -> & _). by eexists. }
  destruct (join_head (String dquote t :: texts') dquote t "," ltac:(done) eq_refl) as [t' Ht'].
  rewrite Ht', <- !str_app_assoc. by cbn -[pobj].
Qed.

Lemma list_to_map_reverse_map (m : gmap string json) :
  list_to_map (reverse (map_to_list m)) = m.
Proof.
  rewrite <- (list_to_map_to_list m) at 2. apply list_to_map_proper.
  - rewrite reverse_Permutation. apply NoDup_fst_map_to_list.
  - by rewrite reverse_Permutation.
Qed.

Lemma pval_print k v :
  jplain v → String.length (jprint v) <= k →
  ∀ n, String.length (jprint v) <= n → parses n v.
Proof.
  revert v. induction k as [|k IH]; intros v Hv Hk n Hn r;
    destruct (jprint_head v Hv) as (c & t & Hc & _).
  { rewrite Hc in Hk. simpl in Hk. lia. }
  destruct n as [|n]; [rewrite Hc in Hn; simpl in Hn; lia|].
  destruct Hv as [|[]|s Hs|l Hl|m Hm]; [done..|by apply pval_string| |].
  - destruct (decide (l = [])) as [->|Hne]; [done|].
    rewrite pval_list by done. cbn [jprint] in Hk, Hn. rewrite !length_str_app in Hk, Hn.
    cbn [String.length] in Hk, Hn. rewrite plist_join; [done..| |lia].
    apply Forall_forall. intros x Hx n' Hn'. rewrite Forall_forall in Hl.
    apply IH; [by apply Hl| |done].
    pose proof (length_join_elem (jprint <$> l) (jprint x) "," ltac:(by apply list_elem_of_fmap_2)).
    lia.
  - destruct (decide (m = ∅)) as [->|Hne]; [done|].
    rewrite pval_obj by done. rewrite jprint_obj in Hk, Hn. rewrite !length_str_app in Hk, Hn.
    cbn [String.length] in Hk, Hn. rewrite pobj_join; [| | | |lia].
    + cbn. by rewrite list_to_map_reverse_map.
    + intros E. by apply map_to_list_empty_iff in E.
    + apply Forall_forall. intros [k' x] Hx%elem_of_map_to_list. by apply Hm.
    + apply Forall_forall. intros [k' x] Hx n' Hn'. cbn [snd] in *.
      apply IH; [|clear Hn'|done].
      { apply elem_of_map_to_list in Hx. by apply (Hm k'). }
      pose proof (length_join_elem _ (quote k' +:+ ":" +:+ jprint x) ","
        (list_elem_of_fmap_2 (λ kv, quote kv.1 +:+ ":" +:+ jprint kv.2) _ (k', x) Hx)) as Hj.
      rewrite !length_str_app in Hj. cbn [String.length] in Hj. lia.
Qed.

Lemma text_roundtrip v : jplain v → text_unmarshal (jprint v) = inr v.
Proof.
  intros Hv. unfold text_unmarshal.
  pose proof (pval_print _ v Hv (le_n _) _ (le_n _) "") as E. rewrite str_app_nil_r in E.
  by rewrite E.
Qed.

Lemma text_unmarshal_plain s v : text_unmarshal s = inr v → jplain v.
Proof.
  unfold text_unmarshal. destruct (pval _ s) as [[v' [|]]|] eqn:E; intros [= <-].
  by eapply (proj1 (parse_plain _)).
Qed.

#[export] Instance TextCodecLaws : JsonCodecLaws.
Proof.
  refine {| json_wf := jplain |}.
  - apply text_unmarshal_plain.
  - apply text_roundtrip.
  - intros m k v Hm Hk. inversion_clear Hm as [| | | |? Hm']. by apply (Hm' k).
  - intros m1 m2 H1 H2. inversion_clear H1 as [| | | |? H1']. inversion_clear H2 as [| | | |? H2'].
    constructor. intros k v [Hk|[_ Hk]]%lookup_union_Some_raw; eauto.
Defined.

Example text_decodes :
  json_unmarshal (bytes [123; 34; 97; 34; 58; 91; 116; 114; 117; 101; 44; 34; 98; 34; 93; 125]) =
    inr (JObj {["a" := JArr [JBool true; JStr "b"]]}).
Proof. reflexivity. Qed.
