(* ===== verification/RouterWorld.v ===== *)
(** * The world of the graph router

    What cmd/router/main.go reads and writes outside its own variables: the
    HTTP services it calls, the response bodies (readers shared by reference,
    consumed by reading, poisoned by closing), the no_proxy environment
    variable; and the operations on them ([io.ReadAll], [Close], [os.Setenv],
    [callClient.Do], [NewReadCloser]).  The third-party gjson package, the URL
    parser, the services and the goroutine scheduler are parameters
    ([RouterEnv]). *)

From Stdlib Require Import Ascii.
From S2P Require Import Prelude GoStrings ApiTypes Json.

(** ** Response bodies *)

(** An [io.ReadCloser] is an HTTP response body or the package's own
    [ReadCloser] around a [bytes.Reader], whose [Close] does nothing. *)
Inductive body_kind := HttpBody | BytesReader.

(** A reader: the pieces not read yet, in the sizes the transport delivers
    them, how the stream ends ([None] for [io.EOF]), what [Close] returns. *)
Record body := mkBody {
  b_kind : body_kind;
  b_chunks : list string;
  b_end : option error;
  b_close : option error;
  b_closed : bool
}.

Definition concat_str (l : list string) : string := foldr (λ a b, a +:+ b) "" l.

(** All that is left to read. *)
Definition b_content (b : body) : string := concat_str (b_chunks b).

Definition drained (b : body) : body := mkBody (b_kind b) [] (b_end b) (b_close b) (b_closed b).
Definition set_closed (b : body) : body :=
  match b_kind b with
  | HttpBody => mkBody HttpBody (b_chunks b) (b_end b) (b_close b) true
  | BytesReader => b
  end.

(** ** The services *)

Record call := mkCall { call_url : string; call_body : string; call_ctype : string }.

(** What [callClient.Do] returns: an error, or a status and a body. *)
Inductive reply :=
  | Refused (e : error)
  | Reply (status : Z) (chunks : list string) (fin : option error) (close : option error).

(** Code outside the repository. *)
Class RouterEnv := {
  (** gjson.ValidBytes, gjson.GetBytes(..).Exists(), gjson.GetBytes(..).String() *)
  gjson_valid : string → bool;
  gjson_exists : string → string → bool;
  gjson_string : string → string → string;
  (** the error of [http.NewRequest] for a URL, with a valid method *)
  new_request_error : string → option error;
  (** the reply to a call, given the calls made before *)
  http_reply : list call → call → reply;
  (** the order in which [n] goroutines run *)
  sched_order : list call → nat → list nat;
  (** the choice of the [i]-th select between a ready result and the ready
      errors: [Some k] prefers the [k]-th error *)
  sched_select : list call → nat → option nat
}.

(** The scheduler runs every goroutine once. *)
Definition fair_sched `{RouterEnv} : Prop := ∀ h n, sched_order h n ≡ₚ seq 0 n.

(** ** The world *)

Record world := mkWorld {
  w_bodies : list body;
  w_calls : list call;
  w_no_proxy : option string
}.

Definition set_bodies (bs : list body) (w : world) : world :=
  mkWorld bs (w_calls w) (w_no_proxy w).
Definition add_call (c : call) (w : world) : world :=
  mkWorld (w_bodies w) (w_calls w ++ [c]) (w_no_proxy w).
Definition set_no_proxy (v : string) (w : world) : world :=
  mkWorld (w_bodies w) (w_calls w) (Some v).

(** A reference to a body, or nil. *)
Abbreviation bodyref := (option nat).

(** ** Operations *)

Definition read_after_close : error := "http: read on closed response body".

(** [io.ReadAll(r)]: the bytes read and the error, [io.EOF] not being one. *)
Definition io_ReadAll (r : bodyref) : prog world (string * option error) := λ w,
  match r ≫= λ l, (l,.) <$> w_bodies w !! l with
  | None => (w, Panic nil_deref)
  | Some (l, b) =>
      match b_kind b, b_closed b with
      | HttpBody, true => (w, Done ("", Some read_after_close))
      | _, _ => (set_bodies (<[l := drained b]> (w_bodies w)) w, Done (b_content b, b_end b))
      end
  end.

(** [r.Close()] *)
Definition close_body (r : bodyref) : prog world (option error) := λ w,
  match r ≫= λ l, (l,.) <$> w_bodies w !! l with
  | None => (w, Panic nil_deref)
  | Some (l, b) =>
      (set_bodies (<[l := set_closed b]> (w_bodies w)) w,
       Done (match b_kind b with HttpBody => b_close b | BytesReader => None end))
  end.

(** A new body, and the reference to it. *)
Definition alloc_body (b : body) : prog world bodyref := λ w,
  (set_bodies (w_bodies w ++ [b]) w, Done (Some (length (w_bodies w)))).

(** [NewReadCloser(b)] *)
Definition NewReadCloser (b : string) : prog world bodyref :=
  alloc_body (mkBody BytesReader [b] None None false).

(** [os.Setenv("no_proxy", v)]: refused when [v] holds a NUL byte. *)
Definition os_Setenv_no_proxy (v : string) : prog world (option error) := λ w,
  if contains_byte v zero then (w, Done (Some "setenv: invalid argument"))
  else (set_no_proxy v w, Done None).

(** [callClient.Do] *)
Definition client_Do `{RouterEnv} (c : call) : prog world reply := λ w,
  (add_call c w, Done (http_reply (w_calls w) c)).

(** ** What every operation preserves *)

(** [world_le w w']: [w'] comes after [w]: bodies are only added, calls only
    appended. *)
Definition world_le (w w' : world) : Prop :=
  length (w_bodies w) <= length (w_bodies w') ∧ w_calls w `prefix_of` w_calls w'.

#[global] Instance world_le_preorder : PreOrder world_le.
Proof.
  split.
  - intros w. by split.
  - intros w1 w2 w3 [H1 H2] [H3 H4]. split; [lia|by etrans].
Qed.

(** A reference to a body of [w]. *)
Definition ref_ok (w : world) (r : bodyref) : Prop :=
  match r with Some l => l < length (w_bodies w) | None => True end.

Lemma ref_ok_le w w' r : world_le w w' → ref_ok w r → ref_ok w' r.
Proof. intros [H _]. destruct r; simpl; [lia|done]. Qed.

Lemma keeps_io_ReadAll r : keeps world_le (io_ReadAll r).
Proof.
  intros w. unfold io_ReadAll. destruct (r ≫= _) as [[l b]|]; [|done].
  destruct (b_kind b), (b_closed b); cbn -[insert]; try done; (split; cbn -[insert]; [rewrite length_insert; lia|done]).
Qed.

Lemma keeps_close_body r : keeps world_le (close_body r).
Proof.
  intros w. unfold close_body. destruct (r ≫= _) as [[l b]|]; [|done].
  split; cbn -[insert]; [rewrite length_insert; lia|done].
Qed.

Lemma keeps_alloc_body b : keeps world_le (alloc_body b).
Proof. intros w. split; simpl; [rewrite length_app; lia|done]. Qed.

Lemma keeps_Setenv v : keeps world_le (os_Setenv_no_proxy v).
Proof. intros w. unfold os_Setenv_no_proxy. by destruct (contains_byte _ _). Qed.

Lemma keeps_client_Do `{RouterEnv} c : keeps world_le (client_Do c).
Proof. intros w. split; simpl; [done|by apply prefix_app_r]. Qed.

Lemma keeps_NewReadCloser b : keeps world_le (NewReadCloser b).
Proof. apply keeps_alloc_body. Qed.

Lemma keeps_lift_outcome {A} (o : outcome A) : keeps world_le (lift_outcome o).
Proof. done. Qed.

Lemma keeps_panic {A} m : keeps world_le (panic m : prog world A).
Proof. done. Qed.

Lemma keeps_gets {A} (f : world → A) : keeps world_le (gets f).
Proof. done. Qed.

Lemma keeps_out_of_fuel {A} : keeps world_le (out_of_fuel : prog world A).
Proof. done. Qed.

#[export] Hint Resolve keeps_io_ReadAll keeps_close_body keeps_alloc_body keeps_Setenv
  keeps_client_Do keeps_NewReadCloser keeps_lift_outcome keeps_panic keeps_gets
  keeps_out_of_fuel : prog.

Lemma total_io_ReadAll r : total (io_ReadAll r).
Proof.
  intros w. unfold io_ReadAll. destruct (r ≫= _) as [[l b]|]; [|done].
  by destruct (b_kind b), (b_closed b).
Qed.

Lemma total_close_body r : total (close_body r).
Proof. intros w. unfold close_body. by destruct (r ≫= _) as [[l b]|]. Qed.

Lemma total_alloc_body b : total (alloc_body b).
Proof. done. Qed.

Lemma total_NewReadCloser b : total (NewReadCloser b).
Proof. done. Qed.

Lemma total_Setenv v : total (os_Setenv_no_proxy v).
Proof. intros w. unfold os_Setenv_no_proxy. by destruct (contains_byte _ _). Qed.

Lemma total_client_Do `{RouterEnv} c : total (client_Do c).
Proof. done. Qed.

Lemma total_panic {A} m : total (panic m : prog world A).
Proof. done. Qed.

Lemma total_gets {A} (f : world → A) : total (gets f).
Proof. done. Qed.

#[export] Hint Resolve total_io_ReadAll total_close_body total_alloc_body total_NewReadCloser
  total_Setenv total_client_Do total_panic total_gets : prog.
