(* ===== verification/Router.v ===== *)
(** * Routing a request through the graph

    The routing core of cmd/router/main.go: [isSuccessFul],
    [pickupRouteByCondition], [callService], [getServiceURLByStepTarget],
    [executeStep], [mergeRequests], the three node handlers and [routeStep].
    The recursion of [routeStep] through the graph is fuelled: a handler takes
    the recursive call as an argument.  Log lines and the request headers,
    which [callService] only logs, are left out. *)

From Stdlib Require Import Ascii.
From S2P Require Import Prelude GoStrings ApiTypes Json RouterWorld.

(** The results of a handler: the body, the status code, the error. *)
Abbreviation route_result := (bodyref * Z * option error)%type.

Definition Parameters : string := "parameters".

Definition isSuccessFul (statusCode : Z) : bool := bool_decide (200 <= statusCode <= 299)%Z.

(** [fmt.Sprintf("http://%s.%s.svc.cluster.local", ...)] *)
Definition getServiceURLByStepTarget (step : Step) (svcNameSpace : string) : string :=
  if decide (ServiceURL step = "") then
    "http://" +:+ StepName step +:+ "." +:+ svcNameSpace +:+ ".svc.cluster.local"
  else ServiceURL step.

Section router.
Context `{RouterEnv} `{JsonCodec}.

Definition pickupRouteByCondition (initInput condition : string) : bool :=
  if negb (gjson_valid initInput) then false
  else if gjson_exists initInput condition then true
  else if contains_byte condition "."%char || contains_byte condition "#"%char then false
  else
    match str_index condition "==" with
    | None => false
    | Some index =>
        let key := trim_space (str_take index condition) in
        let value := trim_space (str_drop (index + 2) condition) in
        bool_decide (gjson_string initInput key = value)
    end.

(** The semaphore that bounds the concurrent calls of the process is taken first
    and given back at the end, and no call is made from within a call: it only
    delays. *)
Definition callService (step : Step) (serviceUrl input : string) : prog world route_result :=
  serr ← match Config (InternalService step) with
         | Some _ => os_Setenv_no_proxy (map_get (Config (InternalService step)) "no_proxy")
         | None => mret None
         end;
  match serr with
  | Some err => mret (None, 400%Z, Some err)
  | None =>
      match new_request_error serviceUrl with
      | Some err => mret (None, 500%Z, Some err)
      | None =>
          r ← client_Do (mkCall serviceUrl input "application/json");
          match r with
          | Refused err => mret (None, 500%Z, Some err)
          | Reply status chunks fin close =>
              b ← alloc_body (mkBody HttpBody chunks fin close false);
              mret (b, status, None)
          end
      end
  end.

Definition mergeRequests (respReq : string) (initReqData : jmap) : outcome string :=
  match default ∅ initReqData !! Parameters with
  | None => Done respReq
  | Some params =>
      match unmarshal_map respReq with
      | inl _ => Done ""
      | inr respReqData =>
          match params with
          | JObj p =>
              match respReqData with
              | Some m => Done (json_marshal (JObj (map_fold (λ k v acc, <[k := v]> acc) m p)))
              | None => if decide (p = ∅) then Done (json_marshal JNull) else Panic nil_map_write
              end
          | _ => Panic bad_type_assertion
          end
      end
  end.

(** The part of a pipeline's iteration that reads the previous step's response
    and closes it (an error of [Close] is only logged); the bytes stay as they
    are when there is no previous response. *)
Definition read_previous (responseBody : bodyref) (responseBytes : string)
    : prog world (string * option error) :=
  match responseBody with
  | Some _ =>
      rd ← io_ReadAll responseBody;
      match rd with
      | (bs, Some e) => mret (bs, Some e)
      | (bs, None) => _ ← close_body responseBody; mret (bs, None)
      end
  | None => mret (responseBytes, None)
  end.

(** The handlers call [route nodeName initInput input] for a nested node. *)
Section handlers.
Context (route : string → string → string → prog world route_result).
Context (graph : GMConnector).

Definition executeStep (step : Step) (initInput input : string) : prog world route_result :=
  if decide (NodeName step ≠ "") then route (NodeName step) initInput input
  else
    let serviceURL := getServiceURLByStepTarget step (Namespace (gmc_ObjectMeta graph)) in
    callService step serviceURL input.

Definition handleSwitchNode (step : Step) (initInput request : string)
    : prog world route_result :=
  r ← executeStep step initInput request;
  let '(responseBody, statusCode, err) := r in
  match err with
  | Some err => mret (None, 500%Z, Some err)
  | None => mret (responseBody, statusCode, None)
  end.

(** The steps from index [index] on; the last four arguments are the
    variables of the Go function that live across iterations. *)
Fixpoint switch_loop (initInput input : string) (initReqData : jmap) (index : nat)
    (steps : list Step) (responseBody : bodyref) (statusCode : Z) (responseBytes : string)
    (err : option error) : prog world route_result :=
  match steps with
  | [] => mret (responseBody, statusCode, err)
  | step :: rest =>
      if IsDownstreamService (InternalService step) then
        switch_loop initInput input initReqData (S index) rest
          responseBody statusCode responseBytes err
      else if decide (Condition step ≠ "" ∧
                      pickupRouteByCondition initInput (Condition step) = false) then
        switch_loop initInput input initReqData (S index) rest
          responseBody statusCode responseBytes err
      else
        rd ← read_previous responseBody responseBytes;
        match rd with
        | (_, Some e) => mret (None, 500%Z, Some e)
        | (responseBytes, None) =>
            request ← (if decide (Data step = "$response" ∧ 0 < index)
                       then lift_outcome (mergeRequests responseBytes initReqData)
                       else mret input);
            r ← handleSwitchNode step initInput request;
            let '(responseBody, statusCode, err) := r in
            match err with
            | Some err => mret (None, statusCode, Some err)
            | None =>
                switch_loop initInput input initReqData (S index) rest
                  responseBody statusCode responseBytes None
            end
        end
  end.

Definition handleSwitchPipeline (nodeName initInput input : string)
    : prog world route_result :=
  let currentNode := node_at (Spec graph) nodeName in
  match unmarshal_map initInput with
  | inl err => mret (None, 500%Z, Some err)
  | inr initReqData =>
      switch_loop initInput input initReqData 0 (Steps currentNode) None 0%Z "" None
  end.

Fixpoint sequence_loop (initInput input : string) (initReqData : jmap) (i : nat)
    (steps : list Step) (responseBody : bodyref) (statusCode : Z) (responseBytes : string)
    : prog world route_result :=
  match steps with
  | [] => mret (responseBody, statusCode, None)
  | step :: rest =>
      if IsDownstreamService (InternalService step) then
        sequence_loop initInput input initReqData (S i) rest
          responseBody statusCode responseBytes
      else
        rd ← read_previous responseBody responseBytes;
        match rd with
        | (_, Some e) => mret (None, 500%Z, Some e)
        | (responseBytes, None) =>
            request ← (if decide (Data step = "$response" ∧ 0 < i)
                       then lift_outcome (mergeRequests responseBytes initReqData)
                       else mret input);
            if decide (Condition step ≠ "" ∧ gjson_valid responseBytes = false) then
              mret (None, 500%Z, Some "invalid response")
            else if decide (Condition step ≠ "" ∧
                            gjson_exists responseBytes (Condition step) = false) then
              mret (responseBody, 500%Z, None)
            else
              r ← executeStep step initInput request;
              let '(responseBody, statusCode, err) := r in
              match err with
              | Some err => mret (None, 500%Z, Some err)
              | None =>
                  if decide (Dependency step = Hard ∧ isSuccessFul statusCode = false) then
                    mret (responseBody, statusCode, None)
                  else
                    sequence_loop initInput input initReqData (S i) rest
                      responseBody statusCode responseBytes
              end
        end
  end.

Definition handleSequencePipeline (nodeName initInput input : string)
    : prog world route_result :=
  let currentNode := node_at (Spec graph) nodeName in
  match unmarshal_map initInput with
  | inl err => mret (None, 500%Z, Some err)
  | inr initReqData =>
      sequence_loop initInput input initReqData 0 (Steps currentNode) None 0%Z ""
  end.

(** *** Ensemble *)

(** What a goroutine of the ensemble sends: a response on its own channel, or
    an error on the shared one. *)
Inductive gout :=
  | GOut (StepResponse : jmap) (StepStatusCode : Z)
  | GErr (e : error).

(** The goroutine of one step. *)
Definition ensemble_step (initInput input : string) (step : Step) : prog world gout :=
  r ← executeStep step initInput input;
  let '(responseBody, statusCode, err) := r in
  match err with
  | None =>
      rd ← io_ReadAll responseBody;
      match unmarshal_map rd.1 with
      | inr res => mret (GOut res statusCode)
      | inl e => _ ← close_body responseBody; mret (GErr e)
      end
  | Some e => _ ← close_body responseBody; mret (GErr e)
  end.

(** The goroutines, each run to its end, in the scheduler's order; a panic in
    one ends the process. *)
Fixpoint run_goroutines (initInput input : string) (steps : list Step) (order : list nat)
    : prog world (list (nat * gout)) :=
  match order with
  | [] => mret []
  | i :: order' =>
      match steps !! i with
      | None => run_goroutines initInput input steps order'
      | Some step =>
          o ← ensemble_step initInput input step;
          os ← run_goroutines initInput input steps order';
          mret ((i, o) :: os)
      end
  end.

(** The value received on the channel of goroutine [i]. *)
Definition result_of (i : nat) (os : list (nat * gout)) : option (jmap * Z) :=
  match (list_to_map os : gmap nat gout) !! i with
  | Some (GOut res code) => Some (res, code)
  | _ => None
  end.

(** The errors waiting on [errChan]. *)
Definition errors_of (os : list (nat * gout)) : list error :=
  omap (λ p, match p.2 with GErr e => Some e | GOut _ _ => None end) os.

(** [select] between the channel of goroutine [i] and [errChan]: any ready
    case can be taken; [None] when none is ready (it would block). *)
Definition select_result (h : list call) (i : nat) (os : list (nat * gout))
    : option (error + jmap * Z) :=
  match result_of i os, errors_of os with
  | Some r, [] => Some (inr r)
  | Some r, e :: es =>
      match sched_select h i with
      | Some k => Some (inl (default e ((e :: es) !! k)))
      | None => Some (inr r)
      end
  | None, e :: es => Some (inl (default e ((e :: es) !! default 0 (sched_select h i))))
  | None, [] => None
  end.

Definition blocked_forever : string := "all goroutines are asleep".

(** The key of a step in the merged response. *)
Definition ensemble_key (i : nat) (step : Step) : string :=
  if decide (StepName step = "") then itoa (Z.of_nat i) else StepName step.

Fixpoint ensemble_collect (os : list (nat * gout)) (i : nat) (steps : list Step)
    (response : gmap string json) : prog world route_result :=
  match steps with
  | [] => b ← NewReadCloser (json_marshal (JObj response)); mret (b, 200%Z, None)
  | step :: rest =>
      h ← gets w_calls;
      match select_result h i os with
      | None => panic blocked_forever
      | Some (inl e) => mret (None, 500%Z, Some e)
      | Some (inr (res, code)) =>
          if decide (isSuccessFul code = false ∧ Dependency step = Hard) then
            b ← NewReadCloser (json_marshal (jmap_value res)); mret (b, code, None)
          else
            ensemble_collect os (S i) rest (<[ensemble_key i step := jmap_value res]> response)
      end
  end.

Definition handleEnsemblePipeline (nodeName initInput input : string)
    : prog world route_result :=
  let currentNode := node_at (Spec graph) nodeName in
  h ← gets w_calls;
  os ← run_goroutines initInput input (Steps currentNode)
         (sched_order h (length (Steps currentNode)));
  ensemble_collect os 0 (Steps currentNode) ∅.
End handlers.

(** *** routeStep *)

Fixpoint routeStep (fuel : nat) (graph : GMConnector) (nodeName initInput input : string)
    : prog world route_result :=
  match fuel with
  | 0 => out_of_fuel
  | S fuel' =>
      let route := routeStep fuel' graph in
      let currentNode := node_at (Spec graph) nodeName in
      if decide (RouterType currentNode = Switch) then
        handleSwitchPipeline route graph nodeName initInput input
      else if decide (RouterType currentNode = Ensemble) then
        handleEnsemblePipeline route graph nodeName initInput input
      else if decide (RouterType currentNode = Sequence) then
        handleSequencePipeline route graph nodeName initInput input
      else mret (None, 500%Z, Some ("invalid route type: " +:+ RouterType currentNode))
  end.
End router.
