(* ===== verification/RouterDemo.v ===== *)
(** * A sample environment and sample graphs for the router's witnesses

    Services that answer with an object naming the URL they were called at
    (those whose URL holds "down" refuse the call, those whose URL holds "fail"
    answer with status 503), gjson stand-ins that search the text, and a
    scheduler that runs goroutines in order. *)

From Stdlib Require Import Ascii.
From S2P Require Import Prelude GoStrings ApiTypes Json JsonText RouterWorld Router.

(** The JSON object with one text member. *)
Definition obj1 (k v : string) : string := jprint (JObj {[k := JStr v]}).

Definition demo_reply (c : call) : reply :=
  if str_contains (call_url c) "down" then Refused "connection refused"
  else Reply (if str_contains (call_url c) "fail" then 503 else 200)%Z
         [obj1 "from" (call_url c)] None None.

#[export] Instance DemoEnv : RouterEnv := {|
  gjson_valid s := str_contains s "{";
  gjson_exists s p := str_contains s p;
  gjson_string s k := "";
  new_request_error url := if decide (url = "") then Some "empty url" else None;
  http_reply h c := demo_reply c;
  sched_order h n := seq 0 n;
  sched_select h i := None
|}.

Lemma demo_fair : fair_sched.
Proof. by intros h n. Qed.

(** ** Steps and graphs *)

Definition no_target : GMCTarget := mkGMCTarget "" "" None false.
Definition svc_step (name url : string) : Step :=
  mkStep name (mkExecutor "" no_target "") "" "" "" url.
Definition hard (s : Step) : Step :=
  mkStep (StepName s) (StepExecutor s) (Data s) (Condition s) Hard (ServiceURL s).
Definition from_response (s : Step) : Step :=
  mkStep (StepName s) (StepExecutor s) "$response" (Condition s) (Dependency s) (ServiceURL s).
Definition when (c : string) (s : Step) : Step :=
  mkStep (StepName s) (StepExecutor s) (Data s) c (Dependency s) (ServiceURL s).
Definition node_step (name node : string) : Step :=
  mkStep name (mkExecutor node no_target "") "" "" "" "".

Definition demo_graph (nodes : gmap string Router) : GMConnector :=
  mkGMConnector (mkTypeMeta "gmc.opea.io/v1alpha3" "GMConnector")
    (mkObjectMeta "demo" "ns" None None "1")
    (mkSpec (Some nodes) (mkRouterConfig "router" "router-service" "" None))
    zero_Status.

Definition root_node (kind : string) (steps : list Step) : GMConnector :=
  demo_graph {["root" := mkRouter kind (Some steps)]}.

Definition empty_world : world := mkWorld [] [] None.

Lemma root_node_steps kind steps :
  node_at (Spec (root_node kind steps)) "root" = mkRouter kind (Some steps).
Proof. done. Qed.

(** The same services, all of them up. *)
Definition UpEnv : RouterEnv := {|
  gjson_valid s := str_contains s "{";
  gjson_exists s p := str_contains s p;
  gjson_string s k := "";
  new_request_error url := if decide (url = "") then Some "empty url" else None;
  http_reply h c := Reply (if str_contains (call_url c) "fail" then 503 else 200)%Z
                      [obj1 "from" (call_url c)] None None;
  sched_order h n := rev (seq 0 n);
  sched_select h i := None
|}.

Lemma up_fair : @fair_sched UpEnv.
Proof. intros h n. simpl. symmetry. apply Permutation_rev. Qed.
