(* ===== verification/RouterProps.v ===== *)
(** * Properties of the routing recursion

    What holds of every graph: the recursion of [routeStep] ends when the graph
    has no cycle, more fuel never changes a result, a result is well formed (an
    error carries no body and status 500, a body is a live reference), the
    world only grows. *)

From Stdlib Require Import Ascii.
From S2P Require Import Prelude GoStrings ApiTypes Validation Json JsonText RouterWorld.
From S2P Require Import Router RouterDemo.

Section props.
Context `{RouterEnv} `{JsonCodec}.
Implicit Types (route : string → string → string → prog world route_result).
Implicit Types (graph : GMConnector) (step : Step).

(** ** Termination *)

Lemma total_mergeRequests b m : total (lift_outcome (mergeRequests b m) : prog world string).
Proof. intros w. unfold lift_outcome, mergeRequests. simpl. by repeat case_match. Qed.

Lemma total_callService step url input : total (callService step url input).
Proof. unfold callService. prog_walk. Qed.

Lemma total_read_previous r b : total (read_previous r b).
Proof. unfold read_previous. prog_walk. Qed.

#[local] Hint Resolve total_mergeRequests total_callService total_read_previous : prog.

(** The recursive calls a step can make do not run out of fuel. *)
Definition total_on route (steps : list Step) : Prop :=
  Forall (λ s, NodeName s ≠ "" → ∀ a b, total (route (NodeName s) a b)) steps.

Lemma total_executeStep route graph step a b :
  (NodeName step ≠ "" → ∀ a b, total (route (NodeName step) a b)) →
  total (executeStep route graph step a b).
Proof. intros Hr. unfold executeStep. case_decide; [auto|]. auto with prog. Qed.

Lemma total_switch_loop route graph init input d i steps r st bs e :
  total_on route steps → total (switch_loop route graph init input d i steps r st bs e).
Proof.
  intros Hs. revert i r st bs e. induction Hs as [|s steps Hr _ IH]; intros i r st bs e; simpl.
  { apply total_ret. }
  unfold handleSwitchNode. prog_walk_with ltac:(eauto using total_executeStep with prog).
Qed.

Lemma total_sequence_loop route graph init input d i steps r st bs :
  total_on route steps → total (sequence_loop route graph init input d i steps r st bs).
Proof.
  intros Hs. revert i r st bs. induction Hs as [|s steps Hr _ IH]; intros i r st bs; simpl.
  { apply total_ret. }
  prog_walk_with ltac:(eauto using total_executeStep with prog).
Qed.

Lemma total_run_goroutines route graph init input steps order :
  total_on route steps → total (run_goroutines route graph init input steps order).
Proof.
  intros Hs. induction order as [|i order IH]; simpl; [apply total_ret|].
  destruct (steps !! i) as [step|] eqn:E; [|done].
  pose proof (Forall_lookup_1 _ _ _ _ Hs E) as Hr. simpl in Hr.
  unfold ensemble_step.
  prog_walk_with ltac:(eauto using total_executeStep with prog).
Qed.

Lemma total_ensemble_collect os i steps resp : total (ensemble_collect os i steps resp).
Proof. revert i resp. induction steps as [|s steps IH]; intros i resp; simpl; prog_walk. Qed.

(** [rank] decreases along the node references of the graph. *)
Definition ranked (graph : GMConnector) (rank : string → nat) : Prop :=
  ∀ name s, s ∈ Steps (node_at (Spec graph) name) → NodeName s ≠ "" →
    rank (NodeName s) < rank name.

Lemma total_routeStep graph rank fuel name init input :
  ranked graph rank → rank name < fuel → total (routeStep fuel graph name init input).
Proof.
  intros Hrank. revert name init input.
  induction fuel as [|fuel IH]; intros name init input Hf; [lia|]. simpl.
  assert (total_on (routeStep fuel graph) (Steps (node_at (Spec graph) name))) as Ht.
  { apply Forall_forall. intros s Hs Hne a b. apply IH. specialize (Hrank name s Hs Hne). lia. }
  unfold handleSwitchPipeline, handleSequencePipeline, handleEnsemblePipeline.
  prog_walk_with ltac:(eauto using total_switch_loop, total_sequence_loop,
    total_run_goroutines, total_ensemble_collect with prog).
Qed.

(** ** Related recursive calls *)

Section related.
Context (R : ∀ S A, prog S A → prog S A → Prop) `{!ProgRel R}.
Arguments R {_ _} _ _.

Lemma R_refl {S A} (p : prog S A) : R p p.
Proof. apply rel_refl. Qed.
#[local] Hint Resolve R_refl : prog.

(** What a step does is related, with two recursive calls and two graphs. *)
Definition steps_rel route1 route2 graph1 graph2 (steps : list Step) : Prop :=
  Forall (λ s, ∀ a b, R (executeStep route1 graph1 s a b) (executeStep route2 graph2 s a b)) steps.

Lemma rel_executeStep route1 route2 graph1 graph2 step a b :
  (NodeName step ≠ "" → ∀ a b, R (route1 (NodeName step) a b) (route2 (NodeName step) a b)) →
  (NodeName step = "" →
   getServiceURLByStepTarget step (Namespace (gmc_ObjectMeta graph1)) =
   getServiceURLByStepTarget step (Namespace (gmc_ObjectMeta graph2))) →
  R (executeStep route1 graph1 step a b) (executeStep route2 graph2 step a b).
Proof.
  intros Hr Hu. unfold executeStep. case_decide as Hn; [by apply Hr|].
  rewrite Hu; [apply rel_refl|]. by destruct (decide (NodeName step = "")).
Qed.

Lemma rel_switch_loop route1 route2 graph1 graph2 init input d i steps r st bs e :
  steps_rel route1 route2 graph1 graph2 steps →
  R (switch_loop route1 graph1 init input d i steps r st bs e)
    (switch_loop route2 graph2 init input d i steps r st bs e).
Proof.
  intros Hs. revert i r st bs e. induction Hs as [|s steps Hr _ IH]; intros i r st bs e; simpl.
  { apply rel_refl. }
  unfold handleSwitchNode. prog_walk_with ltac:(auto with prog).
Qed.

Lemma rel_sequence_loop route1 route2 graph1 graph2 init input d i steps r st bs :
  steps_rel route1 route2 graph1 graph2 steps →
  R (sequence_loop route1 graph1 init input d i steps r st bs)
    (sequence_loop route2 graph2 init input d i steps r st bs).
Proof.
  intros Hs. revert i r st bs. induction Hs as [|s steps Hr _ IH]; intros i r st bs; simpl.
  { apply rel_refl. }
  prog_walk_with ltac:(auto with prog).
Qed.

Lemma rel_run_goroutines route1 route2 graph1 graph2 init input steps order :
  steps_rel route1 route2 graph1 graph2 steps →
  R (run_goroutines route1 graph1 init input steps order)
    (run_goroutines route2 graph2 init input steps order).
Proof.
  intros Hs. induction order as [|i order IH]; simpl; [apply rel_refl|].
  destruct (steps !! i) as [step|] eqn:E; [|done].
  pose proof (Forall_lookup_1 _ _ _ _ Hs E) as Hr. simpl in Hr.
  unfold ensemble_step. prog_walk_with ltac:(auto with prog).
Qed.

(** One level of [routeStep], for any recursive calls, in graphs with the same
    steps. *)
Lemma rel_handlers route1 route2 graph1 graph2 name init input :
  Steps (node_at (Spec graph1) name) = Steps (node_at (Spec graph2) name) →
  steps_rel route1 route2 graph1 graph2 (Steps (node_at (Spec graph2) name)) →
  R (handleSwitchPipeline route1 graph1 name init input)
    (handleSwitchPipeline route2 graph2 name init input) ∧
  R (handleSequencePipeline route1 graph1 name init input)
    (handleSequencePipeline route2 graph2 name init input) ∧
  R (handleEnsemblePipeline route1 graph1 name init input)
    (handleEnsemblePipeline route2 graph2 name init input).
Proof.
  intros E Hs. unfold handleSwitchPipeline, handleSequencePipeline, handleEnsemblePipeline.
  rewrite E.
  split_and!; prog_walk_with ltac:(eauto using rel_switch_loop, rel_sequence_loop,
    rel_run_goroutines with prog).
Qed.
End related.

(** ** More fuel changes nothing *)

Lemma le_routeStep fuel fuel' graph name init input :
  fuel <= fuel' →
  prog_le (routeStep fuel graph name init input) (routeStep fuel' graph name init input).
Proof.
  revert fuel' name init input.
  induction fuel as [|fuel IH]; intros [|fuel'] name init input Hf;
    [apply prog_le_out_of_fuel..|lia|]. simpl.
  destruct (rel_handlers (@prog_le) (routeStep fuel graph) (routeStep fuel' graph) graph graph
    name init input eq_refl) as (Hsw & Hse & Hen).
  { apply Forall_forall. intros s _ a b. apply rel_executeStep; [apply _| |done].
    intros _ a' b'. apply IH. lia. }
  repeat case_decide; done.
Qed.

(** ** Well-formed results *)

(** What a handler returns: an error comes without a body. *)
Definition res_ok (w : world) (r : route_result) : Prop :=
  match r with
  | (b, _, Some _) => b = None
  | (b, _, None) => ref_ok w b
  end.

(** From a live state on, the world grows and a returned result is well formed. *)
Definition safe {A} (ok : world → A → Prop) (p : prog world A) (w : world) : Prop :=
  post p (λ w' o, world_le w w' ∧ match o with Done a => ok w' a | _ => True end) w.

Lemma safe_keeps {A} (ok : world → A → Prop) (p : prog world A) w :
  keeps world_le p → (∀ w' a, p w = (w', Done a) → ok w' a) → safe ok p w.
Proof.
  intros Hk Hok. unfold safe, post. specialize (Hk w).
  destruct (p w) as [w' [a|m|]] eqn:E; simpl in *; auto.
Qed.

Lemma safe_bind {A B} (ok1 : world → A → Prop) (ok : world → B → Prop)
    (p : prog world A) (k : A → prog world B) w :
  safe ok1 p w → (∀ w' a, world_le w w' → ok1 w' a → safe ok (k a) w') → safe ok (p ≫= k) w.
Proof.
  unfold safe. intros Hp Hk. apply post_bind. eapply post_mono; [exact Hp|].
  intros w' [a|m|] [Hle Ha]; [|done..].
  eapply post_mono; [exact (Hk w' a Hle Ha)|]. intros w'' o [Hle' Ho].
  split; [by etrans|done].
Qed.

Lemma safe_ret {A} (ok : world → A → Prop) (a : A) w : ok w a → safe ok (mret a) w.
Proof. intros Ha. by split. Qed.

Definition any {A} (w : world) (a : A) : Prop := True.

Lemma safe_any {A} (p : prog world A) w : keeps world_le p → safe any p w.
Proof. intros Hk. by apply safe_keeps. Qed.

Lemma safe_alloc b w : safe ref_ok (alloc_body b) w.
Proof.
  apply safe_keeps; [apply keeps_alloc_body|]. intros w' r [= <- <-]. simpl.
  rewrite length_app. simpl. lia.
Qed.

Lemma safe_callService step url input w : safe res_ok (callService step url input) w.
Proof.
  unfold callService. eapply safe_bind with (ok1 := any).
  { apply safe_any. prog_walk. }
  intros w1 [e|] _ _; [by apply safe_ret|].
  destruct (new_request_error url) as [e|]; [by apply safe_ret|].
  eapply safe_bind with (ok1 := any); [apply safe_any, keeps_client_Do|].
  intros w2 [e|st chunks fin cl] _ _; [by apply safe_ret|].
  eapply safe_bind; [apply safe_alloc|]. intros w3 b _ Hb. by apply safe_ret.
Qed.

(** The nested calls return well formed results. *)
Definition route_safe route : Prop := ∀ n a b w, safe res_ok (route n a b) w.

Lemma safe_executeStep route graph step a b w :
  route_safe route → safe res_ok (executeStep route graph step a b) w.
Proof.
  intros Hr. unfold executeStep. case_decide; [apply Hr|apply safe_callService].
Qed.

(** The result of a whole node: an error also comes with status 500. *)
Definition node_ok (w : world) (r : route_result) : Prop :=
  res_ok w r ∧ match r with (_, st, Some _) => st = 500%Z | _ => True end.

Lemma keeps_read_previous r b : keeps world_le (read_previous r b).
Proof. unfold read_previous. prog_walk. Qed.

Lemma safe_switch_loop route graph init input d i steps r st bs w :
  route_safe route → ref_ok w r →
  safe node_ok (switch_loop route graph init input d i steps r st bs None) w.
Proof.
  intros Hr. revert i r st bs w. induction steps as [|s steps IH]; intros i r st bs w Hw; simpl.
  { apply safe_ret. by split. }
  case_match; [by apply IH|]. case_decide; [by apply IH|].
  eapply safe_bind with (ok1 := any); [apply safe_any, keeps_read_previous|].
  intros w1 [bs' [e|]] Hle1 _; [by apply safe_ret|].
  eapply safe_bind with (ok1 := any).
  { apply safe_any. prog_walk. }
  intros w2 request Hle2 _. unfold handleSwitchNode.
  eapply safe_bind with (ok1 := node_ok).
  { eapply safe_bind; [by apply safe_executeStep|].
    intros w3 [[b c] [e|]] _ Hres; by apply safe_ret. }
  intros w3 [[b c] [e|]] _ [Hb Hc]; [by apply safe_ret|by apply IH].
Qed.

Lemma safe_sequence_loop route graph init input d i steps r st bs w :
  route_safe route → ref_ok w r →
  safe node_ok (sequence_loop route graph init input d i steps r st bs) w.
Proof.
  intros Hr. revert i r st bs w. induction steps as [|s steps IH]; intros i r st bs w Hw; simpl.
  { apply safe_ret. by split. }
  case_match; [by apply IH|].
  eapply safe_bind with (ok1 := any); [apply safe_any, keeps_read_previous|].
  intros w1 [bs' [e|]] Hle1 _; [by apply safe_ret|].
  eapply safe_bind with (ok1 := any).
  { apply safe_any. prog_walk. }
  intros w2 request Hle2 _. case_decide; [by apply safe_ret|].
  case_decide. { apply safe_ret. split; [|done]. eapply ref_ok_le, Hw. by etrans. }
  eapply safe_bind; [by apply safe_executeStep|].
  intros w3 [[b c] [e|]] _ Hb; [by apply safe_ret|].
  case_decide; [by apply safe_ret|by apply IH].
Qed.

Lemma keeps_callService step url input : keeps world_le (callService step url input).
Proof. intros w. apply (safe_callService step url input w). Qed.

Lemma keeps_route route n a b : route_safe route → keeps world_le (route n a b).
Proof. intros Hr w. apply (Hr n a b w). Qed.

Lemma keeps_executeStep route graph step a b :
  route_safe route → keeps world_le (executeStep route graph step a b).
Proof. intros Hr w. apply (safe_executeStep route graph step a b w Hr). Qed.

Lemma keeps_run_goroutines route graph init input steps order :
  route_safe route → keeps world_le (run_goroutines route graph init input steps order).
Proof.
  intros Hr. induction order as [|i order IH]; simpl; [eauto with prog typeclass_instances|].
  unfold ensemble_step. prog_walk_with
    ltac:(eauto using keeps_executeStep with prog typeclass_instances).
Qed.

Lemma safe_ensemble_collect os i steps resp w : safe node_ok (ensemble_collect os i steps resp) w.
Proof.
  revert i resp w. induction steps as [|s steps IH]; intros i resp w; simpl.
  { eapply safe_bind; [apply safe_alloc|]. intros w1 b _ Hb. by apply safe_ret. }
  eapply safe_bind with (ok1 := any); [apply safe_any, keeps_gets|]. intros w1 h _ _.
  destruct (select_result h i os) as [[e|[res code]]|]; [by apply safe_ret| |by apply safe_keeps].
  case_decide; [|apply IH].
  eapply safe_bind; [apply safe_alloc|]. intros w2 b _ Hb. by apply safe_ret.
Qed.

Lemma safe_routeStep fuel graph name init input w :
  safe node_ok (routeStep fuel graph name init input) w.
Proof.
  revert name init input w. induction fuel as [|fuel IH]; intros name init input w.
  { by split. }
  assert (route_safe (routeStep fuel graph)) as Hr.
  { intros n a b w'. eapply post_mono; [apply IH|]. intros w2 [a'|m|] [Hle Hok]; split; try done. apply Hok. }
  simpl. repeat case_decide.
  - unfold handleSwitchPipeline. case_match; [by apply safe_ret|]. by apply safe_switch_loop.
  - unfold handleEnsemblePipeline.
    eapply safe_bind with (ok1 := any); [apply safe_any, keeps_gets|]. intros w1 h _ _.
    eapply safe_bind with (ok1 := any); [by apply safe_any, keeps_run_goroutines|].
    intros w2 os _ _. apply safe_ensemble_collect.
  - unfold handleSequencePipeline. case_match; [by apply safe_ret|]. by apply safe_sequence_loop.
  - by apply safe_ret.
Qed.

(** ** Selects *)

(** A select always has a ready case: the step's own result, or an error. *)
Lemma select_ready h i (os : list (nat * gout)) :
  i ∈ os.*1 → select_result h i os ≠ None.
Proof.
  intros Hi. unfold select_result, result_of.
  destruct ((list_to_map os : gmap nat gout) !! i) as [[res code|e]|] eqn:E.
  - destruct (errors_of os); [done|]. by destruct (sched_select h i).
  - apply elem_of_list_to_map_2 in E.
    destruct (errors_of os) eqn:Ee; [|done].
    assert (e ∈ errors_of os) as Hin; [|rewrite Ee in Hin; by apply elem_of_nil in Hin].
    apply list_elem_of_omap. by exists (i, GErr e).
  - apply not_elem_of_list_to_map_2 in E. done.
Qed.

(** ** Self references *)

Lemma self_loop_diverges graph name s rest d init input :
  RouterType (node_at (Spec graph) name) = Sequence →
  Steps (node_at (Spec graph) name) = s :: rest →
  NodeName s = name → name ≠ "" → Condition s = "" →
  IsDownstreamService (InternalService s) = false →
  unmarshal_map init = inr d →
  ∀ fuel w, (routeStep fuel graph name init input w).2 = OutOfFuel.
Proof.
  intros Ht Hs Hn Hne Hc Hd Hu fuel. revert input. induction fuel as [|fuel IH]; intros input w; [done|].
  simpl. rewrite Ht, (decide_False (P := Sequence = Switch)), (decide_False (P := Sequence = Ensemble)),
    decide_True by done.
  unfold handleSequencePipeline. rewrite Hu, Hs. simpl. rewrite Hd, Hc. simpl.
  unfold mbind, prog_bind. simpl. rewrite decide_False by lia. simpl.
  unfold executeStep. rewrite decide_True by congruence.
  rewrite Hn. specialize (IH input w). destruct (routeStep _ _ _ _ _ w) as [w' o]. simpl in IH.
  by subst.
Qed.
End props.
