(* ===== verification/Pipeline.v ===== *)
(** * The router on values

    A response body of the router is a reader in a shared store, drained and
    closed by reference.  [vroute] is the specification of [routeStep] without
    the store: a body is a value passed from step to step, the only state is
    the list of calls made, and the Sequence and Switch handlers are two
    policies (which steps are selected, what is checked on the previous
    response, when to stop) of one pipeline, [vchain].  [refines_routeStep]
    says that the code, with its readers, implements [vroute] on every graph. *)

From Stdlib Require Import Ascii.
From S2P Require Import Prelude GoStrings ApiTypes Json RouterWorld Router.

(** ** Policies *)

Record policy := mkPolicy {
  (** is the step executed? *)
  p_select : Step → bool;
  (** the check on the bytes of the previous response: [Some (Some e)] fails
      with [e], [Some None] ends the pipeline with the previous response *)
  p_guard : Step → string → option (option error);
  (** does the pipeline end after this step's response? *)
  p_stop : Step → Z → bool
}.

(** A response as a value: the reader, the status code, the error. *)
Abbreviation vresult := (option body * Z * option error)%type.

(** [io.ReadAll] on a value. *)
Definition vread_all (b : body) : string * option error :=
  match b_kind b, b_closed b with
  | HttpBody, true => ("", Some read_after_close)
  | _, _ => (b_content b, b_end b)
  end.

(** A reader after it was read to its end and closed. *)
Definition spent (b : body) : body := set_closed (drained b).

(** The unread body of an HTTP response. *)
Definition fresh (chunks : list string) (fin close : option error) : body :=
  mkBody HttpBody chunks fin close false.

(** The reader [NewReadCloser(bs)]. *)
Definition bytes_body (bs : string) : body := mkBody BytesReader [bs] None None false.

(** The previous response as the next step reads it: the bytes (the old ones
    when there is no response), and what is left of the reader. *)
Definition vread (prev : option body) (bs : string) : error + (string * option body) :=
  match prev with
  | None => inr (bs, None)
  | Some b => match vread_all b with
              | (_, Some e) => inl e
              | (bs, None) => inr (bs, Some (spent b))
              end
  end.

Section pipeline.
Context `{RouterEnv} `{JsonCodec}.

Definition sequence_policy : policy := {|
  p_select s := negb (IsDownstreamService (InternalService s));
  p_guard s bs :=
    if decide (Condition s ≠ "" ∧ gjson_valid bs = false) then Some (Some "invalid response")
    else if decide (Condition s ≠ "" ∧ gjson_exists bs (Condition s) = false) then Some None
    else None;
  p_stop s st := bool_decide (Dependency s = Hard ∧ isSuccessFul st = false)
|}.

Definition switch_policy (initInput : string) : policy := {|
  p_select s :=
    negb (IsDownstreamService (InternalService s)) &&
    (bool_decide (Condition s = "") || pickupRouteByCondition initInput (Condition s));
  p_guard s bs := None;
  p_stop s st := false
|}.

(** The request of a step: the input, or the previous response merged with the
    request's parameters. *)
Definition step_request (input : string) (d : jmap) (i : nat) (s : Step) (bs : string)
    : outcome string :=
  if decide (Data s = "$response" ∧ 0 < i) then mergeRequests bs d else Done input.

(** ** The specification *)

(** A call to a service: refused before it is made when the proxy setting or
    the URL is malformed. *)
Definition vcallService (s : Step) (url request : string) : prog (list call) vresult := λ h,
  if decide (Config (InternalService s) ≠ None ∧
             contains_byte (map_get (Config (InternalService s)) "no_proxy") zero = true)
  then (h, Done (None, 400%Z, Some "setenv: invalid argument"))
  else
    match new_request_error url with
    | Some e => (h, Done (None, 500%Z, Some e))
    | None =>
        let c := mkCall url request "application/json" in
        (h ++ [c],
         Done match http_reply h c with
              | Refused e => (None, 500%Z, Some e)
              | Reply st chunks fin close => (Some (fresh chunks fin close), st, None)
              end)
    end.

Section nodes.
Context (vroute : string → string → string → prog (list call) vresult).
Context (ns : string).

Definition vstep (s : Step) (initInput request : string) : prog (list call) vresult :=
  if decide (NodeName s ≠ "") then vroute (NodeName s) initInput request
  else vcallService s (getServiceURLByStepTarget s ns) request.

(** The pipeline under a policy. *)
Fixpoint vchain (p : policy) (initInput input : string) (d : jmap) (i : nat)
    (steps : list Step) (prev : option body) (st : Z) (bs : string)
    : prog (list call) vresult :=
  match steps with
  | [] => mret (prev, st, None)
  | s :: rest =>
      if p_select p s then
        match vread prev bs with
        | inl e => mret (None, 500%Z, Some e)
        | inr (bs, rest_body) =>
            request ← lift_outcome (step_request input d i s bs);
            match p_guard p s bs with
            | Some (Some e) => mret (None, 500%Z, Some e)
            | Some None => mret (rest_body, 500%Z, None)
            | None =>
                r ← vstep s initInput request;
                let '(b, st, err) := r in
                match err with
                | Some e => mret (None, 500%Z, Some e)
                | None =>
                    if p_stop p s st then mret (b, st, None)
                    else vchain p initInput input d (S i) rest b st bs
                end
            end
        end
      else vchain p initInput input d (S i) rest prev st bs
  end.

(** A Sequence or Switch node. *)
Definition vpipeline (p : policy) (steps : list Step) (initInput input : string)
    : prog (list call) vresult :=
  match unmarshal_map initInput with
  | inl e => mret (None, 500%Z, Some e)
  | inr d => vchain p initInput input d 0 steps None 0%Z ""
  end.

(** What a step of an Ensemble contributes.  A failed step has no body, and
    the code closes it. *)
Definition vgoroutine (initInput input : string) (s : Step) : prog (list call) gout :=
  r ← vstep s initInput input;
  match r with
  | (None, _, _) => panic nil_deref
  | (Some b, st, None) =>
      match unmarshal_map (vread_all b).1 with
      | inr res => mret (GOut res st)
      | inl e => mret (GErr e)
      end
  | (Some b, _, Some e) => mret (GErr e)
  end.

Fixpoint vgoroutines (initInput input : string) (steps : list Step) (order : list nat)
    : prog (list call) (list (nat * gout)) :=
  match order with
  | [] => mret []
  | i :: order' =>
      match steps !! i with
      | None => vgoroutines initInput input steps order'
      | Some s =>
          o ← vgoroutine initInput input s;
          os ← vgoroutines initInput input steps order';
          mret ((i, o) :: os)
      end
  end.

(** The merge of the Ensemble's results, for the calls [h] made. *)
Fixpoint vcollect (h : list call) (os : list (nat * gout)) (i : nat) (steps : list Step)
    (response : gmap string json) : outcome vresult :=
  match steps with
  | [] => Done (Some (bytes_body (json_marshal (JObj response))), 200%Z, None)
  | s :: rest =>
      match select_result h i os with
      | None => Panic blocked_forever
      | Some (inl e) => Done (None, 500%Z, Some e)
      | Some (inr (res, st)) =>
          if decide (isSuccessFul st = false ∧ Dependency s = Hard) then
            Done (Some (bytes_body (json_marshal (jmap_value res))), st, None)
          else vcollect h os (S i) rest (<[ensemble_key i s := jmap_value res]> response)
      end
  end.

Definition vensemble (steps : list Step) (initInput input : string)
    : prog (list call) vresult :=
  order ← gets (λ h, sched_order h (length steps));
  os ← vgoroutines initInput input steps order;
  h ← gets id;
  lift_outcome (vcollect h os 0 steps ∅).
End nodes.

(** The request through the graph. *)
Fixpoint vroute (fuel : nat) (graph : GMConnector) (name initInput input : string)
    : prog (list call) vresult :=
  match fuel with
  | 0 => out_of_fuel
  | S fuel =>
      let ns := Namespace (gmc_ObjectMeta graph) in
      let node := node_at (Spec graph) name in
      if decide (RouterType node = Switch) then
        vpipeline (vroute fuel graph) ns (switch_policy initInput) (Steps node) initInput input
      else if decide (RouterType node = Ensemble) then
        vensemble (vroute fuel graph) ns (Steps node) initInput input
      else if decide (RouterType node = Sequence) then
        vpipeline (vroute fuel graph) ns sequence_policy (Steps node) initInput input
      else mret (None, 500%Z, Some ("invalid route type: " +:+ RouterType node))
  end.

(** ** The pipeline on the world *)

Section on_world.
Context (route : string → string → string → prog world route_result).
Context (graph : GMConnector).

Fixpoint chain_loop (p : policy) (initInput input : string) (d : jmap) (i : nat)
    (steps : list Step) (responseBody : bodyref) (statusCode : Z) (responseBytes : string)
    : prog world route_result :=
  match steps with
  | [] => mret (responseBody, statusCode, None)
  | s :: rest =>
      if p_select p s then
        rd ← read_previous responseBody responseBytes;
        match rd with
        | (_, Some e) => mret (None, 500%Z, Some e)
        | (bs, None) =>
            request ← lift_outcome (step_request input d i s bs);
            match p_guard p s bs with
            | Some (Some e) => mret (None, 500%Z, Some e)
            | Some None => mret (responseBody, 500%Z, None)
            | None =>
                r ← executeStep route graph s initInput request;
                let '(b, st, err) := r in
                match err with
                | Some e => mret (None, 500%Z, Some e)
                | None =>
                    if p_stop p s st then mret (b, st, None)
                    else chain_loop p initInput input d (S i) rest b st bs
                end
            end
        end
      else chain_loop p initInput input d (S i) rest responseBody statusCode responseBytes
  end.

(** ** The handlers are pipelines *)

Lemma bind_ext {S A B} (p : prog S A) (k l : A → prog S B) s :
  (∀ a s, k a s = l a s) → (p ≫= k) s = (p ≫= l) s.
Proof. intros E. unfold mbind, prog_bind. by destruct (p s) as [s' [a|m|]]. Qed.

Lemma request_step_request input d i s bs w :
  (if decide (Data s = "$response" ∧ 0 < i)
   then lift_outcome (mergeRequests bs d) else mret input) w =
  (lift_outcome (step_request input d i s bs) : prog world string) w.
Proof. unfold step_request. by case_decide. Qed.

Lemma bind_first_ext {S A B} (p q : prog S A) (k : A → prog S B) s :
  (∀ s, p s = q s) → (p ≫= k) s = (q ≫= k) s.
Proof. intros E. unfold mbind, prog_bind. by rewrite E. Qed.

Lemma sequence_loop_chain initInput input d i steps r st bs w :
  sequence_loop route graph initInput input d i steps r st bs w =
  chain_loop sequence_policy initInput input d i steps r st bs w.
Proof.
  revert i r st bs w. induction steps as [|s steps IH]; intros i r st bs w; [done|]. simpl.
  destruct (IsDownstreamService (InternalService s)); simpl; [apply IH|].
  apply bind_ext. intros [bs' [e|]] w1; [done|].
  etrans; [apply bind_first_ext; intros; apply request_step_request|].
  apply bind_ext. intros request w2. do 2 (case_decide; [done|]).
  apply bind_ext. intros [[b c] [e|]] w3; [done|]. rewrite <- decide_bool_decide.
  case_decide; [done|apply IH].
Qed.

Lemma switch_loop_chain initInput input d i steps r st bs w :
  switch_loop route graph initInput input d i steps r st bs None w =
  chain_loop (switch_policy initInput) initInput input d i steps r st bs w.
Proof.
  revert i r st bs w. induction steps as [|s steps IH]; intros i r st bs w; [done|]. simpl.
  destruct (IsDownstreamService (InternalService s)); simpl; [apply IH|].
  case_decide as Hc.
  { destruct Hc as [Hc ->]. rewrite bool_decide_false by done. simpl. apply IH. }
  assert (bool_decide (Condition s = "") || pickupRouteByCondition initInput (Condition s) = true)
    as ->.
  { apply orb_true_iff. rewrite bool_decide_eq_true.
    destruct (decide (Condition s = "")), (pickupRouteByCondition _ _); tauto. }
  apply bind_ext. intros [bs' [e|]] w1; [done|].
  etrans; [apply bind_first_ext; intros; apply request_step_request|].
  apply bind_ext. intros request w2. unfold handleSwitchNode.
  etrans; [apply bind_assoc|]. apply bind_ext. intros [[b c] [e|]] w3; [done|].
  apply (IH (S i) b c bs' w3).
Qed.

End on_world.

(** ** Refinement *)

(** The reference [r] holds the value [b]. *)
Definition holds (w : world) (r : bodyref) (b : option body) : Prop :=
  match b with
  | None => r = None
  | Some b => ∃ l, r = Some l ∧ w_bodies w !! l = Some b
  end.

(** The result of a handler, seen as a value. *)
Definition res_as (w : world) (r : route_result) (v : vresult) : Prop :=
  let '(b, st, e) := r in let '(vb, vst, ve) := v in holds w b vb ∧ st = vst ∧ e = ve.

(** From [w], [p] makes the calls of [q] and ends like it, up to [rel]. *)
Definition refines {A B} (rel : world → A → B → Prop) (p : prog world A)
    (q : prog (list call) B) (w : world) : Prop :=
  w_calls (p w).1 = (q (w_calls w)).1 ∧
  match (p w).2, (q (w_calls w)).2 with
  | Done a, Done b => rel (p w).1 a b
  | Panic m, Panic m' => m = m'
  | OutOfFuel, OutOfFuel => True
  | _, _ => False
  end.

Definition same {A} (w : world) (a b : A) : Prop := a = b.

Lemma refines_ret {A B} (rel : world → A → B → Prop) a b w :
  rel w a b → refines rel (mret a) (mret b) w.
Proof. by split. Qed.

Lemma refines_lift {A} (o : outcome A) w : refines same (lift_outcome o) (lift_outcome o) w.
Proof. split; [done|]. simpl. by destruct o. Qed.

Lemma refines_bind {A B C D} (rel : world → A → B → Prop) (rel' : world → C → D → Prop)
    p q k l w :
  refines rel p q w →
  (∀ w' a b, rel w' a b → refines rel' (k a) (l b) w') →
  refines rel' (p ≫= k) (q ≫= l) w.
Proof.
  unfold refines, mbind, prog_bind. intros [Hc Hr] Hk.
  destruct (p w) as [w' [a|m|]], (q (w_calls w)) as [h [b|m'|]]; simpl in *; subst;
    try done. exact (Hk w' a b Hr).
Qed.

(** The code runs a step that the specification does not see. *)
Lemma refines_step {A B C} (rel : world → A → B → Prop) (p : prog world C) k (q : prog (list call) B)
    w w' c :
  p w = (w', Done c) → w_calls w' = w_calls w → refines rel (k c) q w' →
  refines rel (p ≫= k) q w.
Proof. unfold refines, mbind, prog_bind. intros -> Hc. by rewrite Hc. Qed.

Lemma run_io_ReadAll w l b :
  w_bodies w !! l = Some b →
  ∃ w', io_ReadAll (Some l) w = (w', Done (vread_all b)) ∧ w_calls w' = w_calls w ∧
        ∃ b', w_bodies w' !! l = Some b' ∧
        ((vread_all b).2 = None → set_closed b' = spent b).
Proof.
  intros Hl. pose proof (lookup_lt_Some _ _ _ Hl) as Hlt.
  unfold io_ReadAll. cbn -[insert lookup]. rewrite Hl. cbn -[insert lookup]. unfold vread_all.
  destruct (b_kind b) eqn:Hk, (b_closed b) eqn:Hcl; cbn -[insert lookup];
    eexists _; (split; [done|]); (split; [done|]); eexists; cbn -[insert lookup];
    rewrite ?list_lookup_insert_eq by done; (split; [done|]); try done;
    intros _; unfold spent, set_closed; simpl; by rewrite ?Hk.
Qed.

Lemma run_close_body w l b :
  w_bodies w !! l = Some b →
  ∃ w' e, close_body (Some l) w = (w', Done e) ∧ w_calls w' = w_calls w ∧
          w_bodies w' !! l = Some (set_closed b).
Proof.
  intros Hl. pose proof (lookup_lt_Some _ _ _ Hl) as Hlt.
  unfold close_body. cbn -[insert lookup]. rewrite Hl. cbn -[insert lookup].
  eexists _, _. split; [done|]. split; [done|]. cbn -[insert lookup].
  by rewrite list_lookup_insert_eq.
Qed.

Lemma run_read_previous w r prev bs :
  holds w r prev →
  ∃ w' rd, read_previous r bs w = (w', Done rd) ∧ w_calls w' = w_calls w ∧
    match vread prev bs with
    | inl e => rd.2 = Some e
    | inr (bs', rb) => rd = (bs', None) ∧ holds w' r rb
    end.
Proof.
  destruct prev as [b|]; simpl; [|intros ->; naive_solver].
  intros (l & -> & Hl). destruct (run_io_ReadAll w l b Hl) as (w1 & Hrd & Hc & b' & Hb' & Hsp).
  unfold read_previous. rewrite (run_bind_Done _ _ _ _ _ Hrd).
  destruct (vread_all b) as [bs' [e|]]; [by eexists _, _|].
  destruct (run_close_body w1 l b' Hb') as (w2 & e & Hcl & Hc2 & Hb2).
  rewrite (run_bind_Done _ _ _ _ _ Hcl).
  eexists _, _. split; [done|]. split; [congruence|]. split; [done|].
  exists l. rewrite Hb2, Hsp; done.
Qed.

Lemma refines_callService s url request w :
  refines res_as (callService s url request) (vcallService s url request) w.
Proof.
  unfold refines, callService, vcallService, mbind, prog_bind, os_Setenv_no_proxy.
  destruct (Config (InternalService s)) as [cfg|] eqn:Hcfg.
  - destruct (contains_byte _ zero) eqn:Hz.
    + rewrite decide_True by done. done.
    + rewrite decide_False by naive_solver. simpl.
      destruct (new_request_error _) as [e|]; [done|]. simpl.
      destruct (http_reply _ _) as [e|st chunks fin cl]; [done|]. simpl.
      split_and!; try done. eexists. split; [done|]. by apply list_lookup_middle.
  - rewrite decide_False by naive_solver. simpl.
    destruct (new_request_error _) as [e|]; [done|]. simpl.
    destruct (http_reply _ _) as [e|st chunks fin cl]; [done|]. simpl.
    split_and!; try done. eexists. split; [done|]. by apply list_lookup_middle.
Qed.
(** The nested calls refine their specification. *)
Definition route_refines (route : string → string → string → prog world route_result)
    (vroute : string → string → string → prog (list call) vresult) : Prop :=
  ∀ n a b w, refines res_as (route n a b) (vroute n a b) w.

Section refinement.
Context (route : string → string → string → prog world route_result).
Context (vr : string → string → string → prog (list call) vresult).
Context (Hroute : route_refines route vr).
Context (graph : GMConnector).
#[local] Abbreviation ns := (Namespace (gmc_ObjectMeta graph)).

Lemma refines_executeStep s a b w :
  refines res_as (executeStep route graph s a b) (vstep vr ns s a b) w.
Proof.
  unfold executeStep, vstep. case_decide; [apply Hroute|apply refines_callService].
Qed.

Lemma refines_chain p a b d i steps r prev st bs w :
  holds w r prev →
  refines res_as (chain_loop route graph p a b d i steps r st bs)
                 (vchain vr ns p a b d i steps prev st bs) w.
Proof.
  revert i r prev st bs w. induction steps as [|s steps IH]; intros i r prev st bs w Hprev; simpl.
  { by apply refines_ret. }
  destruct (p_select p s); [|by apply IH].
  destruct (run_read_previous w r prev bs Hprev) as (w1 & rd & Hrd & Hc & Hread).
  eapply refines_step; [exact Hrd|exact Hc|].
  destruct (vread prev bs) as [e|[bs' rb]].
  { destruct rd as [? ?]. simpl in Hread. subst. by apply refines_ret. }
  destruct Hread as [-> Hleft].
  apply refines_bind with (rel := λ w a b, same w a b ∧ holds w r rb).
  { split; [done|]. simpl. by destruct (step_request _ _ _ _ _). }
  intros w2 request ? [<- Hl2]. destruct (p_guard p s bs') as [[e|]|]; [by apply refines_ret..|].
  eapply refines_bind; [apply refines_executeStep|].
  intros w3 [[b' st'] e'] [[vb vst] ve] (Hb & -> & ->).
  destruct ve as [e|]; [by apply refines_ret|].
  destruct (p_stop p s vst); [by apply refines_ret|]. by apply IH.
Qed.

Lemma refines_goroutine a b s w :
  refines same (ensemble_step route graph a b s) (vgoroutine vr ns a b s) w.
Proof.
  unfold ensemble_step, vgoroutine. eapply refines_bind; [apply refines_executeStep|].
  intros w1 [[r st] e] [[vb vst] ve] (Hb & -> & ->).
  destruct vb as [b'|]; simpl in Hb.
  2:{ subst. destruct ve; by split. }
  destruct Hb as (l & -> & Hl). destruct ve as [e|].
  { destruct (run_close_body w1 l b' Hl) as (w2 & e' & Hcl & Hc & _).
    eapply refines_step; [exact Hcl|exact Hc|]. by apply refines_ret. }
  destruct (run_io_ReadAll w1 l b' Hl) as (w2 & Hrd & Hc & b2 & Hb2 & _).
  eapply refines_step; [exact Hrd|exact Hc|].
  destruct (unmarshal_map _) as [e|res]; [|by apply refines_ret].
  destruct (run_close_body w2 l b2 Hb2) as (w3 & e' & Hcl & Hc3 & _).
  eapply refines_step; [exact Hcl|exact Hc3|]. by apply refines_ret.
Qed.

Lemma refines_goroutines a b steps order w :
  refines same (run_goroutines route graph a b steps order) (vgoroutines vr ns a b steps order) w.
Proof.
  revert w. induction order as [|i order IH]; intros w; simpl; [by apply refines_ret|].
  destruct (steps !! i); [|apply IH].
  eapply refines_bind; [apply refines_goroutine|]. intros w1 o ? <-.
  eapply refines_bind; [apply IH|]. intros w2 os ? <-. by apply refines_ret.
Qed.

Lemma refines_collect os i steps resp w :
  refines res_as (ensemble_collect os i steps resp)
    (λ h, (h, vcollect h os i steps resp)) w.
Proof.
  revert i resp w. induction steps as [|s steps IH]; intros i resp w; simpl.
  - split; [done|]. split_and!; try done. eexists. split; [done|]. simpl. by apply list_lookup_middle.
  - unfold mbind, prog_bind, gets, refines. simpl.
    destruct (select_result _ i os) as [[e|[res st]]|]; [done| |done].
    case_decide; [|apply IH].
    split; [done|]. split_and!; try done. eexists. split; [done|]. simpl. by apply list_lookup_middle.
Qed.
End refinement.

Lemma refines_ext {A B} (rel : world → A → B → Prop) p p' (q : prog (list call) B) w :
  (∀ w, p w = p' w) → refines rel p' q w → refines rel p q w.
Proof. unfold refines. intros E. by rewrite E. Qed.

(** The code implements the specification on every graph. *)
Lemma refines_routeStep fuel graph name a b w :
  refines res_as (routeStep fuel graph name a b) (vroute fuel graph name a b) w.
Proof.
  revert name a b w. induction fuel as [|fuel IH]; intros name a b w; [done|]. simpl.
  repeat case_decide.
  - unfold handleSwitchPipeline, vpipeline. destruct (unmarshal_map a); [by apply refines_ret|].
    eapply refines_ext; [apply switch_loop_chain|]. by apply refines_chain.
  - unfold handleEnsemblePipeline, vensemble.
    apply refines_bind with (rel := λ w h o, h = w_calls w ∧
      o = sched_order h (length (Steps (node_at (Spec graph) name)))); [by split|].
    intros w1 h ? [-> ->].
    eapply refines_bind; [by apply refines_goroutines|]. intros w2 os ? <-.
    apply refines_collect.
  - unfold handleSequencePipeline, vpipeline. destruct (unmarshal_map a); [by apply refines_ret|].
    eapply refines_ext; [apply sequence_loop_chain|]. by apply refines_chain.
  - by apply refines_ret.
Qed.
End pipeline.
