(* ===== verification/RouterSpec.v ===== *)
(** * What a request gets from a graph

    The functional behaviour of the three kinds of nodes, proved on the
    value-level specification of Pipeline.v: the calls a Sequence and a Switch
    make and the response they end with, the merge of an Ensemble, the merge of
    a response with the request's parameters.  The theorems of this file
    transfer them to [routeStep]. *)

From Stdlib Require Import Ascii.
From S2P Require Import Prelude GoStrings ApiTypes Validation Json JsonText RouterWorld.
From S2P Require Import Router RouterDemo RouterProps Pipeline.

Section spec.
Context `{RouterEnv} `{JsonCodec}.

(** ** Steps that call a service *)

(** A step that names a service with a well-formed URL and no proxy setting. *)
Definition plain_step (ns : string) (s : Step) : Prop :=
  NodeName s = "" ∧ Config (InternalService s) = None ∧
  new_request_error (getServiceURLByStepTarget s ns) = None.

(** The call such a step makes. *)
Definition step_call (ns : string) (s : Step) (request : string) : call :=
  mkCall (getServiceURLByStepTarget s ns) request "application/json".

Lemma vstep_plain vr ns s a request h :
  plain_step ns s →
  vstep vr ns s a request h =
    (h ++ [step_call ns s request],
     Done match http_reply h (step_call ns s request) with
          | Refused e => (None, 500%Z, Some e)
          | Reply st chunks fin close => (Some (fresh chunks fin close), st, None)
          end).
Proof.
  intros (Hn & Hc & Hu). unfold vstep, vcallService.
  rewrite decide_False by tauto. rewrite decide_False by (rewrite Hc; tauto). by rewrite Hu.
Qed.

(** ** Transfer to the code *)

Lemma route_calls fuel graph name a b w h o :
  vroute fuel graph name a b (w_calls w) = (h, o) →
  w_calls (routeStep fuel graph name a b w).1 = h.
Proof. intros E. destruct (refines_routeStep fuel graph name a b w) as [-> _]. by rewrite E. Qed.

Lemma route_panics fuel graph name a b w m :
  (vroute fuel graph name a b (w_calls w)).2 = Panic m →
  (routeStep fuel graph name a b w).2 = Panic m.
Proof.
  intros E. destruct (refines_routeStep fuel graph name a b w) as [_ Hr].
  rewrite E in Hr. destruct (routeStep _ _ _ _ _ w) as [w' []]; simpl in *; by subst.
Qed.

Lemma route_done fuel graph name a b w h v :
  vroute fuel graph name a b (w_calls w) = (h, Done v) →
  ∃ w' r, routeStep fuel graph name a b w = (w', Done r) ∧ w_calls w' = h ∧ res_as w' r v.
Proof.
  intros E. destruct (refines_routeStep fuel graph name a b w) as [Hc Hr].
  rewrite E in Hr, Hc. simpl in *. destruct (routeStep _ _ _ _ _ w) as [w' []]; simpl in *; try done.
  by eexists _, _.
Qed.

(** ** Sequence: the response of a step is the request of the next *)

(** The reference: each step is called with what the previous one answered. *)
Fixpoint pipe (ns : string) (steps : list Step) (request : string) (h : list call)
    (last : option body * Z) : list call * (option body * Z) :=
  match steps with
  | [] => (h, last)
  | s :: rest =>
      let c := step_call ns s request in
      match http_reply h c with
      | Refused _ => (h ++ [c], last)
      | Reply st chunks fin close =>
          pipe ns rest (concat_str chunks) (h ++ [c]) (Some (fresh chunks fin close), st)
      end
  end.

(** A step of a plain pipeline. *)
Definition piped (ns : string) (s : Step) : Prop :=
  plain_step ns s ∧ IsDownstreamService (InternalService s) = false ∧
  Condition s = "" ∧ Dependency s ≠ Hard.

(** Services that answer, with readable bodies. *)
Definition answering : Prop := ∀ h c, ∃ st chunks close, http_reply h c = Reply st chunks None close.

(** ** Switch: every selected step is called *)

(** A response that can be read to its end. *)
Definition readable (b : option body) : Prop :=
  match b with Some b => (vread_all b).2 = None | None => True end.

(** ** Ensemble *)

(** What the steps contribute, when they only call services that answer the
    same whatever was called before: [out] is the decoded response of the step
    and [code] its status. *)
Definition contributes (ns input : string) (s : Step) (out : jmap) (code : Z) : Prop :=
  plain_step ns s ∧
  ∀ h, ∃ chunks fin close,
    http_reply h (step_call ns s input) = Reply code chunks fin close ∧
    unmarshal_map (concat_str chunks) = inr out.

(** The reference: the first unsuccessful hard step answers, otherwise the
    responses are collected under the steps' keys. *)
Fixpoint merge_results (i : nat) (steps : list Step) (out : nat → jmap) (code : nat → Z)
    (response : gmap string json) : json * Z :=
  match steps with
  | [] => (JObj response, 200%Z)
  | s :: rest =>
      if decide (isSuccessFul (code i) = false ∧ Dependency s = Hard)
      then (jmap_value (out i), code i)
      else merge_results (S i) rest out code (<[ensemble_key i s := jmap_value (out i)]> response)
  end.

Lemma vgoroutine_contributes vr ns a input s out code h :
  contributes ns input s out code →
  vgoroutine vr ns a input s h = (h ++ [step_call ns s input], Done (GOut out code)).
Proof.
  intros [Hp Hr]. destruct (Hr h) as (ch & fin & cl & E & Hu).
  unfold vgoroutine, mbind, prog_bind. rewrite vstep_plain by done. rewrite E.
  unfold vread_all, b_content. simpl. by rewrite Hu.
Qed.

(** Goroutines that all contribute, with the calls [made] of each. *)
Lemma vgoroutines_run vr ns a input steps out code made order h :
  (∀ i s, steps !! i = Some s → ∀ h,
     vgoroutine vr ns a input s h = (h ++ made i, Done (GOut (out i) (code i)))) →
  Forall (λ i, i < length steps) order →
  vgoroutines vr ns a input steps order h =
    (h ++ (order ≫= made), Done ((λ i, (i, GOut (out i) (code i))) <$> order)).
Proof.
  intros Hs Hlt. revert h. induction Hlt as [|i order Hi _ IH]; intros h; csimpl.
  { by rewrite app_nil_r. }
  destruct (lookup_lt_is_Some_2 _ _ Hi) as [s Hsi]. rewrite Hsi. csimpl.
  unfold mbind, prog_bind. rewrite (Hs i s Hsi). cbn beta iota. rewrite IH.
  by rewrite <- app_assoc.
Qed.

Lemma result_of_map (f : nat → gout) i order :
  NoDup order → i ∈ order →
  (list_to_map ((λ i, (i, f i)) <$> order) : gmap nat gout) !! i = Some (f i).
Proof.
  intros Hnd Hi. apply elem_of_list_to_map_1.
  - rewrite <- list_fmap_compose. simpl. by rewrite list_fmap_id.
  - apply list_elem_of_fmap. by exists i.
Qed.

Lemma errors_of_outs (out : nat → jmap) (code : nat → Z) order :
  errors_of ((λ i, (i, GOut (out i) (code i))) <$> order) = [].
Proof. unfold errors_of. induction order as [|i order IH]; csimpl; done. Qed.

Lemma vcollect_merge h order i steps out code response :
  NoDup order → (∀ j, i <= j < i + length steps → j ∈ order) →
  vcollect h ((λ i, (i, GOut (out i) (code i))) <$> order) i steps response =
  let '(v, st) := merge_results i steps out code response in
  Done (Some (bytes_body (json_marshal v)), st, None).
Proof.
  intros Hnd. revert i response.
  induction steps as [|s steps IH]; intros i response Hin; [done|]. cbn [vcollect merge_results].
  unfold select_result, result_of.
  rewrite (result_of_map (λ i, GOut (out i) (code i))), errors_of_outs by
    (try done; apply Hin; simpl; lia).
  case_decide; [done|]. apply IH. intros j Hj. apply Hin. simpl. lia.
Qed.

(** The responses collected are those of the last step with each key. *)
Lemma merge_results_all i steps out code response :
  (∀ j s, steps !! j = Some s → isSuccessFul (code (i + j)) = true ∨ Dependency s ≠ Hard) →
  merge_results i steps out code response =
  (JObj (list_to_map (rev (imap (λ j s, (ensemble_key (i + j) s, jmap_value (out (i + j)))) steps))
         ∪ response), 200%Z).
Proof.
  revert i response. induction steps as [|s steps IH]; intros i response Hs.
  { simpl. by rewrite (left_id_L ∅ (∪)). }
  cbn [merge_results]. pose proof (Hs 0 s eq_refl) as Hs0. rewrite Nat.add_0_r in Hs0.
  rewrite decide_False by (intros [? ?]; destruct Hs0; congruence).
  rewrite IH.
  - f_equal. f_equal. rewrite imap_cons. csimpl. rewrite list_to_map_app, Nat.add_0_r. csimpl.
    rewrite <- (assoc_L (∪)). f_equal.
    + f_equal. f_equal. apply imap_ext. intros j s' _. simpl. by rewrite Nat.add_succ_r.
    + by rewrite insert_empty, <- insert_union_singleton_l.
  - intros j s' Hj. specialize (Hs (S j) s' Hj). by rewrite Nat.add_succ_r in Hs.
Qed.

(** The last step with a key wins. *)
Lemma last_key_wins {A} (f : nat → A → string * json) (l : list A) i x (m : gmap string json) :
  l !! i = Some x →
  (∀ j y, i < j → l !! j = Some y → (f j y).1 ≠ (f i x).1) →
  (list_to_map (rev (imap f l)) ∪ m : gmap string json) !! (f i x).1 = Some (f i x).2.
Proof.
  intros Hi Hlast. apply lookup_union_Some_l.
  rewrite <- (take_drop_middle l i x Hi), imap_app. csimpl.
  rewrite rev_app_distr. csimpl. rewrite <- app_assoc, list_to_map_app.
  rewrite length_take_le by (apply Nat.lt_le_incl, lookup_lt_is_Some_1; by eexists).
  rewrite Nat.add_0_r.
  rewrite lookup_union_r.
  - csimpl. destruct (f i x). simpl. by rewrite lookup_insert_eq.
  - apply not_elem_of_list_to_map_1. intros Hin.
    apply list_elem_of_fmap in Hin as ([k v] & Hk & Hin).
    apply list_elem_of_In, in_rev, list_elem_of_In in Hin.
    apply elem_of_lookup_imap in Hin as (j & y & Hf & Hj).
    rewrite lookup_drop in Hj. simpl in *. eapply (Hlast (S i + j)); [lia|exact Hj|].
    rewrite Hk. replace (S i + j) with (i + S j) by lia. by rewrite <- Hf.
Qed.

(** *** A failed step *)

(** A goroutine of a plain step ends by sending, or by the nil dereference. *)
Lemma vgoroutine_cases vr ns a input s h :
  plain_step ns s →
  let '(h', o) := vgoroutine vr ns a input s h in
  match http_reply h (step_call ns s input) with
  | Refused _ => o = Panic nil_deref
  | Reply _ _ _ _ => ∃ g, o = Done g
  end.
Proof.
  intros Hp. unfold vgoroutine, mbind, prog_bind. rewrite vstep_plain by done.
  destruct (http_reply h (step_call ns s input)) as [e|st ch fin cl]; [done|].
  destruct (unmarshal_map _); by eexists.
Qed.

Lemma vgoroutines_refused vr ns a input steps order i s h :
  Forall (plain_step ns) steps → i ∈ order → steps !! i = Some s →
  (∀ h, ∃ e, http_reply h (step_call ns s input) = Refused e) →
  (vgoroutines vr ns a input steps order h).2 = Panic nil_deref.
Proof.
  intros Hpl Hi Hs Href. revert h. induction order as [|j order IH]; intros h.
  { by apply elem_of_nil in Hi. }
  simpl. destruct (steps !! j) as [s'|] eqn:Hj.
  2:{ apply IH. apply elem_of_cons in Hi as [->|?]; [congruence|done]. }
  pose proof (vgoroutine_cases vr ns a input s' h (Forall_lookup_1 _ _ _ _ Hpl Hj)) as Hc.
  unfold mbind, prog_bind. destruct (vgoroutine _ _ _ _ _ _) as [h' o].
  apply elem_of_cons in Hi as [->|Hi].
  - assert (s' = s) as -> by congruence. destruct (Href h) as [e E]. rewrite E in Hc. by subst.
  - destruct (http_reply h _).
    + by subst.
    + destruct Hc as [g ->]. specialize (IH Hi h').
      destruct (vgoroutines _ _ _ _ _ _ h') as [h'' o]; simpl in *; by subst.
Qed.
End spec.
