(* ===== verification/RouterTheorems.v ===== *)
(** * What the router guarantees

    The theorems on [routeStep], [mergeRequests] and the graphs the webhook
    admits, each with a concrete instance. *)

From Stdlib Require Import Ascii.
From S2P Require Import Prelude GoStrings ApiTypes Validation Json JsonText RouterWorld.
From S2P Require Import Router RouterDemo RouterProps Pipeline RouterSpec.

Section theorems.
Context `{RouterEnv} `{JsonCodec}.
Implicit Types graph : GMConnector.

(** C1: on every graph, with every fuel, [routeStep] makes the calls the
    value-level specification [vroute] makes, and ends like it: with the same
    status, the same error and a reader that holds the same body, with the same
    panic, or out of fuel with it.  Sharing response readers between steps,
    draining and closing them, loses nothing. *)
Theorem routeStep_refines fuel graph name a b w :
  let '(w', o) := routeStep fuel graph name a b w in
  let '(h, v) := vroute fuel graph name a b (w_calls w) in
  w_calls w' = h ∧
  match o, v with
  | Done r, Done v => res_as w' r v
  | Panic m, Panic m' => m = m'
  | OutOfFuel, OutOfFuel => True
  | _, _ => False
  end.
Proof.
  pose proof (refines_routeStep fuel graph name a b w) as Hr. unfold refines in Hr.
  by destruct (routeStep _ _ _ _ _ w), (vroute _ _ _ _ _ _).
Qed.

(** C3: when the node references of the graph have no cycle ([rank] decreases
    along them), the recursion of [routeStep] ends: a fuel above the rank of the
    node is enough, and any larger fuel gives the same result. *)
Theorem routeStep_terminates graph rank fuel fuel' name a b w :
  ranked graph rank → rank name < fuel → fuel <= fuel' →
  (routeStep fuel graph name a b w).2 ≠ OutOfFuel ∧
  routeStep fuel' graph name a b w = routeStep fuel graph name a b w.
Proof.
  intros Hrank Hf Hle. pose proof (total_routeStep graph rank fuel name a b Hrank Hf w) as Ht.
  split; [done|]. destruct (le_routeStep fuel fuel' graph name a b Hle w) as [Hx|Hx]; [done|by rewrite Hx].
Qed.

(** C32: a result of [routeStep] is well formed on every graph: an error comes
    with no body and status 500, a body is one of the world's, and no body or
    call made before is lost. *)
Theorem routeStep_result_wf fuel graph name a b w w' r st e :
  routeStep fuel graph name a b w = (w', Done (r, st, e)) →
  world_le w w' ∧ ref_ok w' r ∧ (e ≠ None → r = None ∧ st = 500%Z).
Proof.
  intros E. pose proof (safe_routeStep fuel graph name a b w) as Hs.
  unfold safe, post in Hs. rewrite E in Hs. destruct Hs as [Hle [Hb Hst]]. simpl in *.
  split; [done|]. by destruct e; subst.
Qed.

(** *** Sequence *)

Lemma hard_failure_prefix route graph a input d i (steps later : list Step) s r st bs w w' b code :
  last steps = Some s → IsDownstreamService (InternalService s) = false → Dependency s = Hard →
  sequence_loop route graph a input d i steps r st bs w = (w', Done (b, code, None)) →
  isSuccessFul code = false →
  sequence_loop route graph a input d i (steps ++ later) r st bs w = (w', Done (b, code, None)).
Proof.
  intros Hl Hds Hh. revert i r st bs w.
  induction steps as [|x steps IH]; intros i r st bs w Hrun Hcode; [done|].
  assert (steps = [] ∧ x = s ∨ last steps = Some s) as Hcase.
  { destruct steps; [left; simpl in Hl; naive_solver|by right]. }
  revert Hrun. simpl. destruct (IsDownstreamService (InternalService x)) eqn:Hx.
  { destruct Hcase as [[-> ->]|Hl']; [congruence|]. intros Hrun. by apply IH. }
  intros (w1 & [bs' [e|]] & E1 & Hrun)%run_bind_inv; rewrite (run_bind_Done _ _ _ _ _ E1); [done|].
  destruct (run_bind_inv _ _ _ _ _ Hrun) as (w2 & request & E2 & Hrun2).
  rewrite (run_bind_Done _ _ _ _ _ E2). revert Hrun2.
  destruct (decide (Condition x ≠ "" ∧ gjson_valid bs' = false)); [intros [=]|].
  destruct (decide (Condition x ≠ "" ∧ gjson_exists bs' (Condition x) = false)); [auto|].
  intros (w3 & [[b' c'] [e|]] & E3 & Hrun3)%run_bind_inv;
    rewrite (run_bind_Done _ _ _ _ _ E3); [revert Hrun3; intros [=]|]. revert Hrun3.
  destruct (decide (Dependency x = Hard ∧ isSuccessFul c' = false)) as [Hstop|Hstop]; [auto|]. destruct Hcase as [[-> ->]|Hl'].
  - simpl. unfold mret, prog_ret. intros Hfin. simplify_eq. tauto.
  - intros Hfin. by apply IH.
Qed.

(** C7: an unsuccessful hard step ends a Sequence: when the steps up to and
    including the hard step [s] end with a status outside 200..299, no
    continuation of the sequence changes the calls, the readers, the body or
    the status, nested nodes included. *)
Theorem sequence_stops_at_hard_failure route graph graph' name a input w w' b code steps later s :
  Namespace (gmc_ObjectMeta graph') = Namespace (gmc_ObjectMeta graph) →
  Steps (node_at (Spec graph) name) = steps →
  Steps (node_at (Spec graph') name) = steps ++ later →
  last steps = Some s → IsDownstreamService (InternalService s) = false → Dependency s = Hard →
  handleSequencePipeline route graph name a input w = (w', Done (b, code, None)) →
  isSuccessFul code = false →
  handleSequencePipeline route graph' name a input w = (w', Done (b, code, None)).
Proof.
  unfold handleSequencePipeline. intros Hns -> -> Hl Hds Hh.
  destruct (unmarshal_map a) as [e|d]; [done|]. intros Hrun Hcode.
  assert (∀ i ss r st bs w,
    sequence_loop route graph' a input d i ss r st bs w =
    sequence_loop route graph a input d i ss r st bs w) as ->.
  { clear -Hns. intros i ss. revert i. induction ss as [|x ss IH]; intros i r st bs w; [done|].
    simpl. destruct (IsDownstreamService _); [apply IH|]. apply bind_ext. intros [? [?|]] ?; [done|].
    apply bind_ext. intros ? ?. do 2 (case_decide; [done|]). unfold executeStep. rewrite Hns.
    apply bind_ext. intros [[? ?] [?|]] ?; [done|]. case_decide; [done|]. apply IH. }
  by eapply hard_failure_prefix.
Qed.

(** *** Merging the parameters *)

(** C31: [mergeRequests] hands the response on unchanged when the request has no
    parameters; otherwise the bytes it returns decode to the response's members
    overridden by the parameters. *)
Theorem mergeRequests_overrides `{!JsonCodecLaws} resp (d m p : gmap string json) :
  json_wf (JObj d) →
  (d !! Parameters = None → mergeRequests resp (Some d) = Done resp) ∧
  (d !! Parameters = Some (JObj p) → unmarshal_map resp = inr (Some m) →
   ∃ t, mergeRequests resp (Some d) = Done t ∧ unmarshal_map t = inr (Some (p ∪ m))).
Proof.
  intros Hwf. unfold mergeRequests. simpl. split; [by intros ->|].
  intros Hp Hm. rewrite Hp, Hm. eexists. split; [done|].
  assert (map_fold (λ k v acc, <[k := v]> acc) m p = p ∪ m) as ->.
  { apply (map_fold_weak_ind (λ r p, r = p ∪ m)); [by rewrite (left_id_L ∅ (∪))|].
    intros k v m' r _ ->. by rewrite insert_union_l. }
  apply unmarshal_map_marshal, json_wf_union.
  - exact (json_wf_member _ _ _ Hwf Hp).
  - exact (unmarshal_map_wf _ _ Hm).
Qed.

(** [mergeRequests] panics exactly when the request has "parameters", the
    response decodes, and either the parameters are not an object or they are a
    non-empty object and the response is null. *)
Lemma mergeRequests_panics_iff resp (d : jmap) :
  (∃ msg, mergeRequests resp d = Panic msg) ↔
  ∃ v r, default ∅ d !! Parameters = Some v ∧ unmarshal_map resp = inr r ∧
         match v with JObj p => p ≠ ∅ ∧ r = None | _ => True end.
Proof.
  unfold mergeRequests. destruct (default ∅ d !! Parameters) as [v|]; [|naive_solver].
  destruct (unmarshal_map resp) as [e|r]; [naive_solver|].
  destruct v as [| | | | |p]; [naive_solver..|]. destruct r as [m|]; [naive_solver|].
  case_decide; naive_solver.
Qed.

(** *** Ensemble *)

(** The run of an Ensemble whose goroutines all contribute, and its reference
    merge. *)
Lemma ensemble_run_made fuel graph name a input out code made w :
  let ns := Namespace (gmc_ObjectMeta graph) in
  let steps := Steps (node_at (Spec graph) name) in
  RouterType (node_at (Spec graph) name) = Ensemble → fair_sched →
  (∀ i s, steps !! i = Some s → ∀ h,
     vgoroutine (vroute fuel graph) ns a input s h = (h ++ made i, Done (GOut (out i) (code i)))) →
  let '(v, st) := merge_results 0 steps out code ∅ in
  ∃ w' r, routeStep (S fuel) graph name a input w = (w', Done (r, st, None)) ∧
    holds w' r (Some (bytes_body (json_marshal v))) ∧
    ∃ calls, w_calls w' = w_calls w ++ calls ∧ calls ≡ₚ seq 0 (length steps) ≫= made.
Proof.
  intros ns steps Ht Hfair Hs.
  set (order := sched_order (w_calls w) (length steps)).
  pose proof (Hfair (w_calls w) (length steps)) as Hord. fold order in Hord.
  assert (Forall (λ i, i < length steps) order) as Hlt.
  { apply Forall_forall. intros i. rewrite Hord, elem_of_seq. lia. }
  assert (vroute (S fuel) graph name a input (w_calls w) =
    let '(v, st) := merge_results 0 steps out code ∅ in
    (w_calls w ++ (order ≫= made), Done (Some (bytes_body (json_marshal v)), st, None))) as E.
  { simpl. rewrite Ht, (decide_False (P := Ensemble = Switch)), decide_True by done.
    unfold vensemble, gets. unfold mbind, prog_bind at 1. fold steps order ns.
    unfold prog_bind at 1. rewrite (vgoroutines_run _ _ _ _ _ out code made) by done.
    unfold prog_bind, lift_outcome. rewrite vcollect_merge.
    - by destruct (merge_results _ _ _ _ _).
    - rewrite Hord. apply NoDup_seq.
    - intros j Hj. rewrite Hord, elem_of_seq. lia. }
  destruct (merge_results _ _ _ _ _) as [v st].
  apply route_done in E as (w' & r & E & Hw & Hr). destruct r as [[r st'] e].
  destruct Hr as (Hr & -> & ->). exists w', r. split; [done|]. split; [done|].
  exists (order ≫= made). split; [done|]. by rewrite Hord.
Qed.

(** An Ensemble of services calls each of them once. *)
Lemma ensemble_run fuel graph name a input out code w :
  let ns := Namespace (gmc_ObjectMeta graph) in
  let steps := Steps (node_at (Spec graph) name) in
  RouterType (node_at (Spec graph) name) = Ensemble → fair_sched →
  (∀ i s, steps !! i = Some s → contributes ns input s (out i) (code i)) →
  let '(v, st) := merge_results 0 steps out code ∅ in
  ∃ w' r, routeStep (S fuel) graph name a input w = (w', Done (r, st, None)) ∧
    holds w' r (Some (bytes_body (json_marshal v))) ∧
    ∃ made, w_calls w' = w_calls w ++ made ∧ made ≡ₚ ((λ s, step_call ns s input) <$> steps).
Proof.
  intros ns steps Ht Hfair Hs.
  set (made := λ i, option_list ((λ s, step_call ns s input) <$> steps !! i)).
  pose proof (ensemble_run_made fuel graph name a input out code made w Ht Hfair) as Hrun.
  assert (seq 0 (length steps) ≫= made = (λ s, step_call ns s input) <$> steps) as E.
  { rewrite <- omap_seq_lookup. unfold made. generalize (seq 0 (length steps)) as l.
    induction l as [|i l IH]; [done|]. csimpl. rewrite IH. by destruct (steps !! i). }
  fold ns steps in Hrun. rewrite E in Hrun. apply Hrun. intros i s Hi h.
  unfold made. rewrite Hi. apply vgoroutine_contributes, Hs, Hi.
Qed.

(** C13: in an Ensemble of plain service steps, one refused call crashes the
    router whatever the schedule and the other steps: the goroutine closes the
    nil body that came with the error. *)
Theorem ensemble_refused_call_panics fuel graph name a input i s w :
  let ns := Namespace (gmc_ObjectMeta graph) in
  let steps := Steps (node_at (Spec graph) name) in
  RouterType (node_at (Spec graph) name) = Ensemble → fair_sched →
  Forall (plain_step ns) steps → steps !! i = Some s →
  (∀ h, ∃ e, http_reply h (step_call ns s input) = Refused e) →
  (routeStep (S fuel) graph name a input w).2 = Panic nil_deref.
Proof.
  intros ns steps Ht Hfair Hpl Hi Href. apply route_panics. simpl.
  rewrite Ht, (decide_False (P := Ensemble = Switch)), decide_True by done.
  unfold vensemble, gets. unfold mbind, prog_bind at 1. fold steps ns.
  set (order := sched_order (w_calls w) (length steps)).
  assert (i ∈ order) as Hin.
  { unfold order. rewrite (Hfair _ _), elem_of_seq. split; [lia|]. by eapply lookup_lt_Some. }
  pose proof (vgoroutines_refused (vroute fuel graph) ns a input steps order i s (w_calls w)
    Hpl Hin Hi Href) as Hr.
  unfold prog_bind at 1. destruct (vgoroutines _ _ _ _ _ _ _) as [h o]. simpl in Hr. by subst.
Qed.

(** When no hard step of an Ensemble fails, the response holds for each key
    the response of the last step with that key: a step named like a later one
    is called and its response dropped. *)
Lemma ensemble_last_name_wins fuel graph name a input out code w i s :
  let ns := Namespace (gmc_ObjectMeta graph) in
  let steps := Steps (node_at (Spec graph) name) in
  RouterType (node_at (Spec graph) name) = Ensemble → fair_sched →
  (∀ i s, steps !! i = Some s → contributes ns input s (out i) (code i)) →
  (∀ j s, steps !! j = Some s → isSuccessFul (code j) = true ∨ Dependency s ≠ Hard) →
  steps !! i = Some s →
  (∀ j s', i < j → steps !! j = Some s' → ensemble_key j s' ≠ ensemble_key i s) →
  ∃ w' r m, routeStep (S fuel) graph name a input w = (w', Done (r, 200%Z, None)) ∧
    holds w' r (Some (bytes_body (json_marshal (JObj m)))) ∧
    m !! ensemble_key i s = Some (jmap_value (out i)).
Proof.
  intros ns steps Ht Hfair Hs Hok Hi Hlast.
  pose proof (ensemble_run fuel graph name a input out code w Ht Hfair Hs) as Hrun.
  fold steps in Hrun. rewrite merge_results_all in Hrun by done.
  destruct Hrun as (w' & r & Hrun & Hr & _). eexists w', r, _. split; [done|]. split; [done|].
  by apply (last_key_wins (λ j s, (ensemble_key j s, jmap_value (out j))) steps i s).
Qed.
End theorems.

(** *** A graph that is admitted and never answers *)

(** The root refers to itself in its first step. *)
Definition self_graph : GMConnector :=
  root_node Sequence [node_step "Embedding" "root"; svc_step "Llm" "http://llm"].

Section divergence.
Context `{RouterEnv} `{JsonCodec}.

(** C5: the webhook admits a graph whose root refers to itself, at creation
    and at update and in every enumeration order, and on every request that
    decodes to a JSON object or null [routeStep] then recurses without end on it: no fuel is enough. *)
Theorem admitted_graph_diverges :
  (∀ old es, es ≡ₚ map_to_list (Nodes (Spec self_graph)) →
     ValidateCreate self_graph es = None ∧ ValidateUpdate old self_graph es = None) ∧
  ∀ a d input fuel w, unmarshal_map a = inr d →
    (routeStep fuel self_graph "root" a input w).2 = OutOfFuel.
Proof.
  split.
  - intros old es Hes. change (ValidateUpdate old self_graph es) with (ValidateCreate self_graph es).
    assert (ValidateCreate self_graph es = None) as ->; [|done].
    unfold self_graph, root_node, demo_graph in *. simpl in Hes. unfold Nodes in Hes. simpl in Hes.
    rewrite map_to_list_singleton, Permutation_singleton_r in Hes. by subst.
  - intros a d input fuel w Hu. by eapply (self_loop_diverges self_graph "root"
      (node_step "Embedding" "root") [svc_step "Llm" "http://llm"]).
Qed.
End divergence.

(** ** Concrete instances *)

Section witnesses.
#[local] Existing Instance UpEnv.

(** A root sequence that embeds a nested switch. *)
Definition nested_graph : GMConnector :=
  demo_graph (<["root" := mkRouter Sequence (Some [svc_step "Embedding" "http://e";
                                                    from_response (node_step "Llm" "tail")])]>
              {["tail" := mkRouter Switch (Some [svc_step "Llm" "http://fail"])]}).

Definition nested_rank (name : string) : nat := if decide (name = "root") then 1 else 0.

Lemma nested_ranked : ranked nested_graph nested_rank.
Proof.
  intros name s Hs Hn. unfold nested_graph, node_at, Nodes, nested_rank in *. simpl in *.
  rewrite lookup_insert, lookup_singleton in Hs.
  repeat case_decide; simpl in *; subst; try set_solver;
    repeat (apply elem_of_cons in Hs as [->|Hs]); simpl in *; try lia;
    try done; by apply elem_of_nil in Hs.
Qed.

Definition a_request : string := obj1 "query" "deep learning".

Lemma routeStep_terminates_witness :
  (routeStep 2 nested_graph "root" a_request a_request empty_world).2 ≠ OutOfFuel ∧
  routeStep 9 nested_graph "root" a_request a_request empty_world =
  routeStep 2 nested_graph "root" a_request a_request empty_world.
Proof.
  apply (routeStep_terminates nested_graph nested_rank 2 9 "root" a_request a_request empty_world).
  - apply nested_ranked.
  - vm_compute. lia.
  - lia.
Defined.

Lemma routeStep_result_wf_witness :
  let '(w', o) := routeStep 2 nested_graph "root" a_request a_request empty_world in
  match o with
  | Done (r, st, e) => world_le empty_world w' ∧ ref_ok w' r ∧ (e ≠ None → r = None ∧ st = 500%Z)
  | _ => False
  end.
Proof.
  destruct (routeStep 2 nested_graph "root" a_request a_request empty_world)
    as [w' [[[r st] e]|m|]] eqn:E; [|by vm_compute in E..].
  apply (routeStep_result_wf 2 nested_graph "root" a_request a_request empty_world w' r st e E).
Defined.

Definition ensemble_graph : GMConnector :=
  root_node Ensemble [svc_step "Embedding" "http://e"; hard (svc_step "Llm" "http://l")].

Definition failing_steps : list Step :=
  [svc_step "Embedding" "http://e"; hard (svc_step "Llm" "http://fail")].

Definition failing_world : world :=
  (handleSequencePipeline (routeStep 0 (root_node Sequence failing_steps))
     (root_node Sequence failing_steps) "root" a_request a_request empty_world).1.

Lemma sequence_stops_at_hard_failure_witness :
  handleSequencePipeline (routeStep 0 (root_node Sequence failing_steps))
    (root_node Sequence (failing_steps ++ [svc_step "Tgi" "http://t"])) "root"
    a_request a_request empty_world = (failing_world, Done (Some 1, 503%Z, None)).
Proof.
  apply (sequence_stops_at_hard_failure (routeStep 0 (root_node Sequence failing_steps))
    (root_node Sequence failing_steps)
    (root_node Sequence (failing_steps ++ [svc_step "Tgi" "http://t"])) "root"
    a_request a_request empty_world failing_world (Some 1) 503 failing_steps
    [svc_step "Tgi" "http://t"] (hard (svc_step "Llm" "http://fail")));
    vm_compute; reflexivity.
Defined.

Lemma up_answering : answering.
Proof. intros h c. by eexists _, _, _. Qed.

Lemma mergeRequests_overrides_witness :
  ∃ t, mergeRequests (obj1 "query" "old") (Some {["parameters" := JObj {["query" := JStr "new"]}]})
         = Done t ∧
       unmarshal_map t = inr (Some ({["query" := JStr "new"]} ∪ {["query" := JStr "old"]})).
Proof.
  apply (mergeRequests_overrides (obj1 "query" "old")
    {["parameters" := JObj {["query" := JStr "new"]}]} {["query" := JStr "old"]}
    {["query" := JStr "new"]}); try (vm_compute; reflexivity).
  eapply (json_unmarshal_wf
    (jprint (JObj {["parameters" := JObj {["query" := JStr "new"]}]}))).
  vm_compute. reflexivity.
Defined.

Definition two_out (i : nat) : jmap :=
  Some {["from" := JStr (if decide (i = 0) then "http://e" else "http://l")]}.

Definition twin_graph : GMConnector :=
  root_node Ensemble [svc_step "Llm" "http://e"; svc_step "Llm" "http://l"].

Lemma ensemble_last_name_wins_witness :
  ∃ w' r m, routeStep 1 twin_graph "root" a_request a_request empty_world
      = (w', Done (r, 200%Z, None)) ∧
    holds w' r (Some (bytes_body (json_marshal (JObj m)))) ∧
    m !! "Llm" = Some (JObj {["from" := JStr "http://l"]}).
Proof.
  apply (ensemble_last_name_wins 0 twin_graph "root" a_request a_request two_out (λ _, 200%Z)
    empty_world 1 (svc_step "Llm" "http://l")); [reflexivity|apply up_fair| | |reflexivity|].
  - intros [|[|i]] s Hs; vm_compute in Hs; simplify_eq;
      (split; [vm_compute; done|]); intros h;
      (eexists _, _, _; split; [vm_compute; reflexivity|vm_compute; reflexivity]).
  - intros j s _. by left.
  - intros [|[|j]] s' Hj Hs; [lia|lia|done].
Defined.
End witnesses.

Lemma ensemble_refused_call_panics_witness :
  (routeStep 1 (root_node Ensemble [svc_step "Embedding" "http://e"; svc_step "Llm" "http://down"])
     "root" a_request a_request empty_world).2 = Panic nil_deref.
Proof.
  apply (ensemble_refused_call_panics 0
    (root_node Ensemble [svc_step "Embedding" "http://e"; svc_step "Llm" "http://down"]) "root"
    a_request a_request 1 (svc_step "Llm" "http://down") empty_world).
  - reflexivity.
  - apply demo_fair.
  - repeat constructor; vm_compute; done.
  - reflexivity.
  - intros h. by exists "connection refused".
Defined.
