(* ===== verification/NestedPipes.v ===== *)
(** * Nested sequences

    cmd/router/main.go, handleSequencePipeline through executeStep and
    routeStep: a step of a Sequence is a service or another node of the graph.
    When the nodes below a node are Sequences of soft, unconditional steps, the
    node is one pipe through all their services, in the order in which a reader
    of the graph meets them: nesting is only a way to write it. *)

From Stdlib Require Import Ascii.
From S2P Require Import Prelude GoStrings ApiTypes Json JsonText RouterWorld Router RouterDemo.
From S2P Require Import Pipeline RouterSpec RouterTheorems.

Section nesting.
Context `{RouterEnv} `{JsonCodec}.

(** A step the pipe does not skip, test or stop at. *)
Definition soft_step (s : Step) : bool :=
  negb (IsDownstreamService (InternalService s)) && bool_decide (Condition s = "") &&
  bool_decide (Dependency s ≠ Hard).

Definition service_step (ns : string) (s : Step) : bool :=
  bool_decide (Config (InternalService s) = None) &&
  bool_decide (new_request_error (getServiceURLByStepTarget s ns) = None).

(** The services of a step, given those of the nodes. *)
Definition branch_with (leaves : string → option (list Step)) (ns : string) (s : Step)
    : option (list Step) :=
  if decide (NodeName s ≠ "") then leaves (NodeName s)
  else if service_step ns s then Some [s] else None.

(** The services of a node in the order of the pipe; [None] when it is not
    made of such Sequences, or is nested deeper than the fuel. *)
Fixpoint leaves_of (fuel : nat) (graph : GMConnector) (name : string) : option (list Step) :=
  match fuel with
  | 0 => None
  | S fuel =>
      let ns := Namespace (gmc_ObjectMeta graph) in
      let node := node_at (Spec graph) name in
      if decide (RouterType node = Sequence) then
        match Steps node with
        | [] => None
        | s :: rest =>
            if forallb soft_step (s :: rest) &&
               forallb (λ s, bool_decide (Data s = "$response")) rest then
              mjoin <$> mapM (branch_with (leaves_of fuel graph) ns) (s :: rest)
            else None
        end
      else None
  end.

Lemma forallb_Forall {A} (f : A → bool) l : forallb f l = true → Forall (λ x, f x = true) l.
Proof. induction l as [|x l IH]; simpl; [done|]. intros [? ?]%andb_true_iff. by constructor; [|apply IH]. Qed.

(** ** Pipes in a row *)

Lemma pipe_snd ns leaves request h last :
  answering → leaves ≠ [] →
  ∃ h' chunks cl st, pipe ns leaves request h last = (h', (Some (fresh chunks None cl), st)) ∧
    ∀ more, pipe ns (leaves ++ more) request h last =
            pipe ns more (concat_str chunks) h' (Some (fresh chunks None cl), st).
Proof.
  intros Hans. revert request h last.
  induction leaves as [|s leaves IH]; intros request h last Hne; [done|]. simpl.
  destruct (Hans h (step_call ns s request)) as (st & chunks & cl & ->).
  destruct leaves as [|s' leaves]; [by eexists _, chunks, cl, st|]. by apply IH.
Qed.

(** The last response of a pipe does not depend on the one before. *)
Lemma pipe_last ns leaves request h last last' :
  answering → leaves ≠ [] → pipe ns leaves request h last = pipe ns leaves request h last'.
Proof.
  intros Hans Hne. destruct leaves as [|s leaves]; [done|]. simpl.
  by destruct (Hans h (step_call ns s request)) as (st & chunks & cl & ->).
Qed.

(** ** Steps that are pipes *)

Section steps.
Context (vr : string → string → string → prog (list call) vresult) (ns a : string).

Definition step_pipe (s : Step) (leaves : list Step) : Prop :=
  leaves ≠ [] ∧ ∀ request h,
    vstep vr ns s a request h =
      let '(h', (b, st)) := pipe ns leaves request h (None, 0%Z) in (h', Done (b, st, None)).

Lemma service_step_pipe s :
  answering → NodeName s = "" → service_step ns s = true → step_pipe s [s].
Proof.
  intros Hans Hn [Hc%bool_decide_eq_true Hu%bool_decide_eq_true]%andb_true_iff.
  split; [done|]. intros request h. rewrite vstep_plain by done. simpl.
  by destruct (Hans h (step_call ns s request)) as (st & chunks & cl & ->).
Qed.

Lemma soft_step_props s :
  soft_step s = true →
  IsDownstreamService (InternalService s) = false ∧ Condition s = "" ∧ Dependency s ≠ Hard.
Proof.
  unfold soft_step. rewrite !andb_true_iff, !bool_decide_eq_true, negb_true_iff. tauto.
Qed.

(** One soft step of a Sequence. *)
Lemma vchain_soft input d i s steps prev st bs h t rb request h' b st' :
  soft_step s = true → vread prev bs = inr (t, rb) → step_request input d i s t = Done request →
  vstep vr ns s a request h = (h', Done (b, st', None)) →
  vchain vr ns sequence_policy a input d i (s :: steps) prev st bs h =
  vchain vr ns sequence_policy a input d (S i) steps b st' t h'.
Proof.
  intros (Hds & Hc & Hdep)%soft_step_props Hr Hq Hs. cbn [vchain].
  assert (p_select sequence_policy s = true) as -> by (simpl; by rewrite Hds).
  rewrite Hr. unfold mbind, prog_bind, lift_outcome. rewrite Hq.
  assert (p_guard sequence_policy s t = None) as ->.
  { simpl. rewrite Hc. by repeat case_decide; try tauto. }
  rewrite Hs. assert (p_stop sequence_policy s st' = false) as ->; [|done].
  simpl. by rewrite bool_decide_false by tauto.
Qed.

Lemma vchain_nested input d i steps leaves st chunks cl bs h :
  answering → default ∅ d !! Parameters = None →
  Forall2 step_pipe steps leaves → Forall (λ s, soft_step s = true) steps →
  Forall (λ s, Data s = "$response") steps →
  vchain vr ns sequence_policy a input d (S i) steps (Some (fresh chunks None cl)) st bs h =
  let '(h', (b, st)) := pipe ns (mjoin leaves) (concat_str chunks) h (Some (fresh chunks None cl), st) in
  (h', Done (b, st, None)).
Proof.
  intros Hans Hd Hl. revert i st chunks cl bs h.
  induction Hl as [|s ls steps leaves [Hne Hs] _ IH]; intros i st chunks cl bs h Hsoft Hdata; [done|].
  apply Forall_cons in Hsoft as [Hs1 Hsoft]. apply Forall_cons in Hdata as [Hda Hdata].
  change (mjoin (ls :: leaves)) with (ls ++ mjoin leaves).
  destruct (pipe_snd ns ls (concat_str chunks) h (Some (fresh chunks None cl), st) Hans Hne)
    as (h' & chunks' & cl' & st' & Ep & Happ).
  rewrite (vchain_soft _ _ _ _ _ _ _ _ h (concat_str chunks) (Some (spent (fresh chunks None cl)))
    (concat_str chunks) h' (Some (fresh chunks' None cl')) st'); [|done|done| |].
  - rewrite Happ. by apply IH.
  - unfold step_request. rewrite decide_True by (split; [done|lia]).
    unfold mergeRequests. by rewrite Hd.
  - rewrite Hs, (pipe_last ns ls _ h _ (Some (fresh chunks None cl), st)) by done. by rewrite Ep.
Qed.
End steps.

(** ** Nodes that are pipes *)

Lemma branch_step_pipe fuel graph a s ls :
  let ns := Namespace (gmc_ObjectMeta graph) in
  answering →
  (∀ name leaves, leaves_of fuel graph name = Some leaves → leaves ≠ [] ∧
     ∀ input h, vroute fuel graph name a input h =
       let '(h', (b, st)) := pipe ns leaves input h (None, 0%Z) in (h', Done (b, st, None))) →
  branch_with (leaves_of fuel graph) ns s = Some ls → step_pipe (vroute fuel graph) ns a s ls.
Proof.
  intros ns Hans IH. unfold branch_with. case_decide as Hn.
  - intros [Hne Hs]%IH. split; [done|]. intros request h. unfold vstep.
    rewrite decide_True by done. apply Hs.
  - destruct (service_step ns s) eqn:Es; [|done]. intros [= <-].
    apply service_step_pipe; [done|destruct (decide (NodeName s = "")); tauto|done].
Qed.

Lemma vroute_nested fuel graph name a d leaves :
  let ns := Namespace (gmc_ObjectMeta graph) in
  answering → unmarshal_map a = inr d → default ∅ d !! Parameters = None →
  leaves_of fuel graph name = Some leaves →
  leaves ≠ [] ∧ ∀ input h, vroute fuel graph name a input h =
    let '(h', (b, st)) := pipe ns leaves input h (None, 0%Z) in (h', Done (b, st, None)).
Proof.
  intros ns Hans Hu Hd. revert name leaves.
  induction fuel as [|fuel IH]; intros name leaves Hl; [done|]. cbn [leaves_of] in Hl.
  case_decide as Ht; [|done]. destruct (Steps (node_at (Spec graph) name)) as [|s steps] eqn:Es; [done|].
  destruct (forallb soft_step (s :: steps) && _) eqn:Eb; [|done].
  apply andb_true_iff in Eb as [Hsoft Hdata].
  apply fmap_Some in Hl as (lss & Hm & ->).
  apply mapM_Some in Hm.
  apply (Forall2_impl _ (step_pipe (vroute fuel graph) ns a)) in Hm;
    [|intros x ls Hx; by apply branch_step_pipe].
  apply Forall2_cons_inv_l in Hm as (ls & lss' & [Hne Hs] & Hrest & ->).
  split; [by destruct ls|]. intros input h. cbn [vroute].
  rewrite Ht, (decide_False (P := Sequence = Switch)), (decide_False (P := Sequence = Ensemble)),
    decide_True by done.
  unfold vpipeline. rewrite Hu, Es. fold ns.
  change (mjoin (ls :: lss')) with (ls ++ mjoin lss').
  destruct (pipe_snd ns ls input h (None, 0%Z) Hans Hne) as (h' & chunks & cl & st & Ep & Happ).
  rewrite Happ. apply andb_true_iff in Hsoft as [Hs1 Hsoft].
  rewrite (vchain_soft _ _ _ _ _ _ _ _ _ _ _ h "" None input h' (Some (fresh chunks None cl)) st);
    [|done|done| |by rewrite Hs; fold ns; rewrite Ep].
  - apply vchain_nested; try done.
    + by apply forallb_Forall.
    + apply forallb_Forall in Hdata. eapply Forall_impl; [exact Hdata|].
      by intros x ?%bool_decide_eq_true.
  - unfold step_request. by rewrite decide_False by (intros [_ ?]; lia).
Qed.

Lemma nested_pipe fuel graph name a input d leaves w :
  leaves_of fuel graph name = Some leaves →
  unmarshal_map a = inr d → default ∅ d !! Parameters = None → answering →
  let '(h, (b, st)) := pipe (Namespace (gmc_ObjectMeta graph)) leaves input (w_calls w) (None, 0%Z) in
  ∃ w' r, routeStep fuel graph name a input w = (w', Done (r, st, None)) ∧
          w_calls w' = h ∧ holds w' r b.
Proof.
  intros Hl Hu Hd Hans. destruct (vroute_nested fuel graph name a d leaves Hans Hu Hd Hl) as [_ E].
  specialize (E input (w_calls w)). destruct (pipe _ _ _ _ _) as [h [b st]].
  apply route_done in E as (w' & r & E & Hw & Hr). destruct r as [[r st'] e].
  destruct Hr as (Hr & -> & ->). by exists w', r.
Qed.

(** A Sequence of services, which is not nested. *)
Lemma leaves_of_services fuel graph name s steps :
  let ns := Namespace (gmc_ObjectMeta graph) in
  RouterType (node_at (Spec graph) name) = Sequence →
  Steps (node_at (Spec graph) name) = s :: steps →
  piped ns s → Forall (λ s, piped ns s ∧ Data s = "$response") steps →
  leaves_of (S fuel) graph name = Some (s :: steps).
Proof.
  intros ns Ht Es Hs Hrest. cbn [leaves_of]. fold ns. rewrite decide_True, Es by done.
  assert (Forall (piped ns) (s :: steps)) as Hall.
  { constructor; [done|]. eapply Forall_impl; [exact Hrest|]. by intros x [? _]. }
  assert (forallb soft_step (s :: steps) = true) as ->.
  { apply forallb_forall. intros x Hx%list_elem_of_In.
    apply (proj1 (Forall_forall _ _) Hall) in Hx as (_ & Hds & Hc & Hdep).
    unfold soft_step. by rewrite Hds, !bool_decide_true. }
  assert (forallb (λ s, bool_decide (Data s = "$response")) steps = true) as ->.
  { apply forallb_forall. intros x Hx%list_elem_of_In.
    apply (proj1 (Forall_forall _ _) Hrest) in Hx as [_ ?]. by rewrite bool_decide_true. }
  cbn [andb]. assert (∀ l : list Step, mjoin ((λ s, [s]) <$> l) = l) as Hjoin.
  { induction l as [|x l IH]; [done|]. csimpl. by f_equal. }
  apply fmap_Some. exists ((λ s, [s]) <$> (s :: steps)). split; [|by rewrite Hjoin].
  apply mapM_Some. clear -Hall. induction Hall as [|x l ((Hn & Hc & Hu) & _) _ IH]; constructor; [|done].
  unfold branch_with. rewrite decide_False by tauto. unfold service_step. by rewrite !bool_decide_true.
Qed.

Lemma sequence_feeds_forward fuel graph name a input d s steps w :
  let ns := Namespace (gmc_ObjectMeta graph) in
  RouterType (node_at (Spec graph) name) = Sequence →
  Steps (node_at (Spec graph) name) = s :: steps →
  unmarshal_map a = inr d → default ∅ d !! Parameters = None →
  answering → piped ns s → Forall (λ s, piped ns s ∧ Data s = "$response") steps →
  let '(h, (b, st)) := pipe ns (s :: steps) input (w_calls w) (None, 0%Z) in
  ∃ w' r, routeStep (S fuel) graph name a input w = (w', Done (r, st, None)) ∧
          w_calls w' = h ∧ holds w' r b.
Proof. intros ns Ht Es Hu Hd Hans Hs Hrest. apply (nested_pipe _ _ _ _ _ d); by try apply leaves_of_services. Qed.

(** C6: a node made of Sequences of soft, unconditional steps, services or again such nodes to any depth, is one pipe through all the services below it, in the order of the graph: when the services answer with readable bodies and the request sets no parameters, each service is called with the body the service before it returned, the first one with the input, nothing else is called, and the caller gets the last response unread. The fuel is enough as soon as it exceeds the depth of the nesting. *)
Theorem nested_sequences_are_a_pipe fuel graph name a input d leaves w :
  leaves_of fuel graph name = Some leaves →
  unmarshal_map a = inr d → default ∅ d !! Parameters = None → answering →
  let '(h, (b, st)) := pipe (Namespace (gmc_ObjectMeta graph)) leaves input (w_calls w) (None, 0%Z) in
  ∃ w' r, routeStep fuel graph name a input w = (w', Done (r, st, None)) ∧
          w_calls w' = h ∧ holds w' r b.
Proof. apply nested_pipe. Qed.

(** ** Switch: every selected branch is followed *)

(** The condition "key==value", split at its first "==". *)
Inductive equation : string → string → string → Prop :=
  | equation_here value : equation ("==" +:+ value) "" value
  | equation_later d c key value :
      has_prefix "==" (String d c) = false → equation c key value →
      equation (String d c) (String d key) value.

(** A condition holds for a request when it is empty, or a gjson path or query
    that finds something in the request, or, without dots and hashes, an equation
    whose right side is what its left side finds, blanks around both apart. *)
Definition condition_holds (a c : string) : Prop :=
  c = "" ∨
  gjson_valid a = true ∧
    (gjson_exists a c = true ∨
     contains_byte c "."%char = false ∧ contains_byte c "#"%char = false ∧
     ∃ key value, equation c key value ∧ gjson_string a (trim_space key) = trim_space value).

Lemma str_index_equation c n :
  str_index c "==" = Some n → equation c (str_take n c) (str_drop (n + 2) c).
Proof.
  revert n. induction c as [|d c IH]; intros n; [done|]. cbn [str_index].
  destruct (has_prefix "==" (String d c)) eqn:Ep.
  - intros [= <-]. apply has_prefix_drop in Ep. rewrite Ep. apply equation_here.
  - destruct (str_index c "==") as [m|]; [|done]. intros [= <-]. simpl.
    apply equation_later; [done|]. by apply IH.
Qed.

Lemma equation_str_index c key value :
  equation c key value →
  ∃ n, str_index c "==" = Some n ∧ str_take n c = key ∧ str_drop (n + 2) c = value.
Proof.
  induction 1 as [value|d c key value Ep _ (n & Hn & <- & <-)]; [by exists 0|].
  exists (S n). cbn [str_index]. by rewrite Ep, Hn.
Qed.

Lemma pickup_holds a c : (c = "" ∨ pickupRouteByCondition a c = true) ↔ condition_holds a c.
Proof.
  unfold condition_holds. destruct (decide (c = "")) as [|Hc]; [tauto|].
  assert (pickupRouteByCondition a c = true ↔ gjson_valid a = true ∧ (gjson_exists a c = true ∨
    contains_byte c "."%char = false ∧ contains_byte c "#"%char = false ∧
    ∃ key value, equation c key value ∧ gjson_string a (trim_space key) = trim_space value)) as ->;
    [|tauto].
  unfold pickupRouteByCondition. destruct (gjson_valid a); simpl; [|naive_solver].
  destruct (gjson_exists a c); [naive_solver|].
  destruct (contains_byte c "."%char), (contains_byte c "#"%char); simpl; try naive_solver.
  split.
  - destruct (str_index c "==") as [n|] eqn:En; [|done]. intros He%bool_decide_eq_true.
    apply str_index_equation in En. naive_solver.
  - intros [_ [|(_ & _ & key & value & (n & -> & <- & <-)%equation_str_index & He)]]; [done|].
    by apply bool_decide_eq_true.
Qed.

#[local] Instance condition_holds_dec a c : Decision (condition_holds a c).
Proof.
  destruct (decide (c = "" ∨ pickupRouteByCondition a c = true)) as [Hd|Hd];
    [left|right]; by rewrite <- pickup_holds.
Defined.

(** The steps of a Switch the request selects. *)
Definition selected (a : string) (steps : list Step) : list Step :=
  filter (λ s, IsDownstreamService (InternalService s) = false ∧ condition_holds a (Condition s)) steps.

Lemma selected_policy a steps : selected a steps = filter (λ s, p_select (switch_policy a) s = true) steps.
Proof.
  apply list_filter_iff. intros s. simpl.
  rewrite andb_true_iff, negb_true_iff, orb_true_iff, bool_decide_eq_true, pickup_holds. done.
Qed.

(** The pipes one after the other, all with the same request; the last response
    of the last one. *)
Fixpoint run_branches (ns : string) (branches : list (list Step)) (request : string) (h : list call)
    (last : option body * Z) : list call * (option body * Z) :=
  match branches with
  | [] => (h, last)
  | leaves :: rest =>
      let '(h', last') := pipe ns leaves request h last in run_branches ns rest request h' last'
  end.

Lemma vchain_branches vr ns a input d i steps branches prev st bs h :
  answering → readable prev →
  Forall2 (step_pipe vr ns a) (selected a steps) branches →
  Forall (λ s, Data s ≠ "$response") (selected a steps) →
  vchain vr ns (switch_policy a) a input d i steps prev st bs h =
  let '(h', (b, st)) := run_branches ns branches input h (prev, st) in (h', Done (b, st, None)).
Proof.
  intros Hans. rewrite selected_policy. revert i prev st bs h branches.
  induction steps as [|s steps IH]; intros i prev st bs h branches Hprev Hb Hd.
  { apply Forall2_nil_inv_l in Hb. by subst. }
  rewrite filter_cons in Hb, Hd. cbn [vchain].
  destruct (p_select (switch_policy a) s); [rewrite decide_True in Hb, Hd by done|
    rewrite decide_False in Hb, Hd by done; by apply IH].
  apply Forall2_cons_inv_l in Hb as (ls & branches' & [Hne Hs] & Hb & ->).
  apply Forall_cons in Hd as [Hda Hd].
  assert (∃ bs' rb, vread prev bs = inr (bs', rb)) as (bs' & rb & ->).
  { destruct prev as [b|]; simpl in *; [|by exists bs, None].
    destruct (vread_all b) as [t [e|]]; simpl in *; [done|by exists t, (Some (spent b))]. }
  unfold step_request. rewrite decide_False by tauto.
  unfold mbind, prog_bind, lift_outcome. cbn [p_guard switch_policy run_branches].
  rewrite Hs, (pipe_last ns ls _ _ _ (prev, st)) by done.
  destruct (pipe_snd ns ls input h (prev, st) Hans Hne) as (h' & chunks & cl & st' & -> & _).
  cbn [p_stop switch_policy]. by apply IH.
Qed.

(** A Switch that selects services and nodes that are pipes. *)
Lemma switch_run fuel graph name a input d branches w :
  let ns := Namespace (gmc_ObjectMeta graph) in
  let sel := selected a (Steps (node_at (Spec graph) name)) in
  RouterType (node_at (Spec graph) name) = Switch → unmarshal_map a = inr d → answering →
  mapM (branch_with (leaves_of fuel graph) ns) sel = Some branches →
  Forall (λ s, Data s ≠ "$response") sel →
  default ∅ d !! Parameters = None ∨ Forall (λ s, NodeName s = "") sel →
  let '(h, (b, st)) := run_branches ns branches input (w_calls w) (None, 0%Z) in
  ∃ w' r, routeStep (S fuel) graph name a input w = (w', Done (r, st, None)) ∧
          w_calls w' = h ∧ holds w' r b.
Proof.
  intros ns sel Ht Hu Hans Hm Hda Hpar.
  assert (Forall2 (step_pipe (vroute fuel graph) ns a) sel branches) as Hb.
  { apply mapM_Some in Hm. apply Forall2_same_length_lookup in Hm as [Hlen Hm].
    apply Forall2_same_length_lookup. split; [done|]. intros i s ls Hi Hls.
    specialize (Hm i s ls Hi Hls). destruct Hpar as [Hd|Hn].
    - apply branch_step_pipe; [done| |done]. intros node leaves. by apply (vroute_nested _ _ _ _ d).
    - pose proof (Forall_lookup_1 _ _ _ _ Hn Hi) as Hs. unfold branch_with in Hm.
      rewrite decide_False in Hm by tauto. destruct (service_step ns s) eqn:Es; [|done].
      injection Hm as <-. by apply service_step_pipe. }
  assert (vroute (S fuel) graph name a input (w_calls w) =
    let '(h, (b, st)) := run_branches ns branches input (w_calls w) (None, 0%Z) in
    (h, Done (b, st, None))) as E.
  { cbn [vroute]. rewrite Ht, decide_True by done. unfold vpipeline. rewrite Hu. fold ns.
    by apply vchain_branches. }
  destruct (run_branches _ _ _ _ _) as [h [b st]].
  apply route_done in E as (w' & r & E & Hw & Hr). destruct r as [[r st'] e].
  destruct Hr as (Hr & -> & ->). by exists w', r.
Qed.

(** The calls of branches that are services. *)
Lemma run_services_calls ns steps request h prev :
  answering →
  (run_branches ns ((λ s, [s]) <$> steps) request h prev).1 = h ++ ((λ s, step_call ns s request) <$> steps).
Proof.
  intros Hans. revert h prev. induction steps as [|s steps IH]; intros h prev; csimpl.
  - by rewrite app_nil_r.
  - destruct (Hans h (step_call ns s request)) as (st & chunks & cl & ->).
    rewrite IH, <- app_assoc. done.
Qed.

(** C8: a Switch follows every step the request selects (not marked as a
    downstream service, and without a condition or with one that holds: a gjson
    path or query that finds something in the request, or an equation key==value
    that its member satisfies), in order and each with the input: for a selected
    service its call, for a selected node that is a pipe (C6) all the calls of the
    pipe; nothing else is called, whatever the other steps are, and the response
    is that of the last selected step (a nil body with status 0 when none is
    selected).  (When all services answer, no selected step takes the previous
    response as its data, and the request has no parameters or no node is
    selected.)  In particular a Switch of services makes one call per selected
    step, although the documentation of the API says that it routes the request
    to one of the steps. *)
Theorem switch_follows_every_selected_branch fuel graph name a input d branches w :
  let ns := Namespace (gmc_ObjectMeta graph) in
  let sel := selected a (Steps (node_at (Spec graph) name)) in
  RouterType (node_at (Spec graph) name) = Switch → unmarshal_map a = inr d → answering →
  mapM (branch_with (leaves_of fuel graph) ns) sel = Some branches →
  Forall (λ s, Data s ≠ "$response") sel →
  default ∅ d !! Parameters = None ∨ Forall (λ s, NodeName s = "") sel →
  let '(h, (b, st)) := run_branches ns branches input (w_calls w) (None, 0%Z) in
  (∃ w' r, routeStep (S fuel) graph name a input w = (w', Done (r, st, None)) ∧
           w_calls w' = h ∧ holds w' r b) ∧
  (branches = (λ s, [s]) <$> sel → h = w_calls w ++ ((λ s, step_call ns s input) <$> sel)).
Proof.
  intros ns sel Ht Hu Hans Hm Hda Hpar.
  pose proof (switch_run fuel graph name a input d branches w Ht Hu Hans Hm Hda Hpar) as Hrun.
  pose proof (run_services_calls ns sel input (w_calls w) (None, 0%Z) Hans) as Hcalls.
  fold ns in Hrun. destruct (run_branches ns branches _ _ _) as [h [b st]] eqn:E.
  split; [done|]. intros ->. by rewrite E in Hcalls.
Qed.

(** ** Ensemble: branches side by side *)

(** What a step contributes and the calls it makes, as a service or as a node
    that is a pipe, when its services answer the same whatever was called
    before. *)
Definition branch_contributes (fuel : nat) (graph : GMConnector) (a input : string) (s : Step)
    (out : jmap) (code : Z) (made : list call) : Prop :=
  let ns := Namespace (gmc_ObjectMeta graph) in
  (contributes ns input s out code ∧ made = [step_call ns s input]) ∨
  (NodeName s ≠ "" ∧ answering ∧
   ∃ d leaves, unmarshal_map a = inr d ∧ default ∅ d !! Parameters = None ∧
     leaves_of fuel graph (NodeName s) = Some leaves ∧
     ∀ h, ∃ chunks cl,
       pipe ns leaves input h (None, 0%Z) = (h ++ made, (Some (fresh chunks None cl), code)) ∧
       unmarshal_map (concat_str chunks) = inr out).

Lemma vgoroutine_branch fuel graph a input s out code made h :
  branch_contributes fuel graph a input s out code made →
  vgoroutine (vroute fuel graph) (Namespace (gmc_ObjectMeta graph)) a input s h =
    (h ++ made, Done (GOut out code)).
Proof.
  intros [[Hc ->]|(Hn & Hans & d & leaves & Hu & Hd & Hl & Hp)]; [by apply vgoroutine_contributes|].
  destruct (Hp h) as (chunks & cl & Ep & Ho).
  destruct (vroute_nested fuel graph (NodeName s) a d leaves Hans Hu Hd Hl) as [_ Hr].
  unfold vgoroutine, vstep. rewrite decide_True by done. unfold mbind, prog_bind.
  rewrite Hr, Ep. unfold vread_all, b_content. simpl. by rewrite Ho.
Qed.

(** C10: an Ensemble of services and of nodes that are pipes (C6), whose services answer decodable bodies whatever was called before, makes the calls of every step once and ends with the reference merge of the responses, in every fair schedule: the status and response of the first unsuccessful hard step in step order, otherwise status 200 and the object of all responses. *)
Theorem ensemble_merges fuel graph name a input out code made w :
  let steps := Steps (node_at (Spec graph) name) in
  RouterType (node_at (Spec graph) name) = Ensemble → fair_sched →
  (∀ i s, steps !! i = Some s → branch_contributes fuel graph a input s (out i) (code i) (made i)) →
  let '(v, st) := merge_results 0 steps out code ∅ in
  ∃ w' r, routeStep (S fuel) graph name a input w = (w', Done (r, st, None)) ∧
    holds w' r (Some (bytes_body (json_marshal v))) ∧
    ∃ calls, w_calls w' = w_calls w ++ calls ∧ calls ≡ₚ seq 0 (length steps) ≫= made.
Proof.
  intros steps Ht Hfair Hs. apply ensemble_run_made; [done|done|].
  intros i s Hi h. by apply vgoroutine_branch, Hs.
Qed.
End nesting.

(** ** A pipe written as three nodes *)

Section witnesses.
#[local] Existing Instance UpEnv.

Definition three_nodes : GMConnector :=
  demo_graph (<["root" := mkRouter Sequence (Some [svc_step "Embedding" "http://e";
                                                    from_response (node_step "Retriever" "search");
                                                    from_response (svc_step "Llm" "http://l")])]>
             (<["search" := mkRouter Sequence (Some [svc_step "Retriever" "http://v";
                                                     from_response (node_step "Reranking" "rank")])]>
              {["rank" := mkRouter Sequence (Some [svc_step "Reranking" "http://k"])]})).

Lemma nested_sequences_are_a_pipe_witness :
  ∃ w' r, routeStep 3 three_nodes "root" a_request a_request empty_world
      = (w', Done (r, 200%Z, None)) ∧
    w_calls w' = [mkCall "http://e" a_request "application/json";
                  mkCall "http://v" (obj1 "from" "http://e") "application/json";
                  mkCall "http://k" (obj1 "from" "http://v") "application/json";
                  mkCall "http://l" (obj1 "from" "http://k") "application/json"] ∧
    holds w' r (Some (fresh [obj1 "from" "http://l"] None None)).
Proof.
  destruct (leaves_of 3 three_nodes "root") as [leaves|] eqn:El; [|by vm_compute in El].
  pose proof (nested_sequences_are_a_pipe 3 three_nodes "root" a_request a_request
    (Some {["query" := JStr "deep learning"]}) leaves empty_world El) as P.
  destruct (pipe _ _ _ _ _) as [h [b st]] eqn:E in P. vm_compute in El. injection El as <-.
  vm_compute in E. injection E as <- <- <-. apply P; [by vm_compute|by vm_compute|apply up_answering].
Defined.

(** A Switch with a service, a step that is not selected and a nested pipe. *)
Definition branching : GMConnector :=
  demo_graph (<["root" := mkRouter Switch (Some [svc_step "Embedding" "http://e";
                                                  when "absent" (svc_step "Retriever" "http://r");
                                                  when "query" (node_step "Llm" "tail")])]>
              {["tail" := mkRouter Sequence (Some [svc_step "Tgi" "http://t";
                                                   from_response (svc_step "Llm" "http://fail")])]}).

Lemma switch_follows_every_selected_branch_witness :
  ∃ w' r, routeStep 2 branching "root" a_request a_request empty_world
      = (w', Done (r, 503%Z, None)) ∧
    w_calls w' = [mkCall "http://e" a_request "application/json";
                  mkCall "http://t" a_request "application/json";
                  mkCall "http://fail" (obj1 "from" "http://t") "application/json"] ∧
    holds w' r (Some (fresh [obj1 "from" "http://fail"] None None)).
Proof.
  set (sel := selected a_request (Steps (node_at (Spec branching) "root"))).
  destruct (mapM (branch_with (leaves_of 1 branching) "ns") sel) as [branches|] eqn:Em;
    [|by vm_compute in Em].
  pose proof (switch_follows_every_selected_branch 1 branching "root" a_request a_request
    (Some {["query" := JStr "deep learning"]}) branches empty_world) as P. cbv zeta in P.
  destruct (run_branches _ _ _ _ _) as [h [b st]] eqn:E in P.
  vm_compute in Em. injection Em as <-. vm_compute in E. injection E as <- <- <-.
  apply P; [reflexivity|by vm_compute|apply up_answering|by vm_compute| |left; by vm_compute].
  repeat constructor; vm_compute; done.
Defined.

(** A service beside a nested pipe. *)
Definition side_by_side : GMConnector :=
  demo_graph (<["root" := mkRouter Ensemble (Some [svc_step "Embedding" "http://e";
                                                    hard (node_step "Llm" "tail")])]>
              {["tail" := mkRouter Sequence (Some [svc_step "Tgi" "http://t";
                                                   from_response (svc_step "Llm" "http://l")])]}).
Definition side_calls (i : nat) : list call :=
  if decide (i = 0) then [mkCall "http://e" a_request "application/json"]
  else [mkCall "http://t" a_request "application/json";
        mkCall "http://l" (obj1 "from" "http://t") "application/json"].

Lemma ensemble_merges_witness :
  ∃ w' r, routeStep 2 side_by_side "root" a_request a_request empty_world
      = (w', Done (r, 200%Z, None)) ∧
    holds w' r (Some (bytes_body (json_marshal (JObj
      (<["Llm" := JObj {["from" := JStr "http://l"]}]>
       {["Embedding" := JObj {["from" := JStr "http://e"]}]}))))) ∧
    ∃ calls, w_calls w' = calls ∧
      calls ≡ₚ [mkCall "http://e" a_request "application/json";
                mkCall "http://t" a_request "application/json";
                mkCall "http://l" (obj1 "from" "http://t") "application/json"].
Proof.
  apply (ensemble_merges 1 side_by_side "root" a_request a_request two_out (λ _, 200%Z) side_calls
    empty_world); [reflexivity|apply up_fair|].
  intros [|[|i]] s Hs; vm_compute in Hs; simplify_eq.
  - left. split; [|reflexivity]. split; [vm_compute; done|]. intros h.
    eexists _, _, _. split; vm_compute; reflexivity.
  - right. split; [done|]. split; [apply up_answering|].
    exists (Some {["query" := JStr "deep learning"]}),
      [svc_step "Tgi" "http://t"; from_response (svc_step "Llm" "http://l")].
    split_and!; try (vm_compute; reflexivity). intros h.
    exists [obj1 "from" "http://l"], None. split; [|vm_compute; reflexivity].
    change (side_calls 1) with ([mkCall "http://t" a_request "application/json"] ++
      [mkCall "http://l" (obj1 "from" "http://t") "application/json"]). by rewrite app_assoc.
Defined.
End witnesses.
