(* ===== verification/GraphJson.v ===== *)
(** * The JSON of a graph

    How encoding/json writes and reads the API types, from the struct tags of
    api/v1alpha3/gmconnector_types.go: the names of the members, the members
    that [omitempty] leaves out, the fields of the embedded [Executor], which are
    members of the step.  The controller hands the graph to the router in this
    form.  An encoder maps a value to the [json] value that its text denotes; a
    decoder is [json.Unmarshal] into a zero value, [None] where it reports an
    error; null leaves a field at its zero value and unknown members are
    ignored.  Member names are matched exactly (encoding/json also accepts other
    cases, which the encoder never writes). *)

From Stdlib Require Import Ascii.
From S2P Require Import Prelude GoStrings ApiTypes Json.

(** ** Objects *)

(** The members of a struct, [None] for one that is left out. *)
Fixpoint members (fs : list (string * option json)) : gmap string json :=
  match fs with
  | [] => ∅
  | (k, Some v) :: fs => <[k := v]> (members fs)
  | (_, None) :: fs => members fs
  end.

Definition struct (fs : list (string * option json)) : json := JObj (members fs).

(** A string field with [omitempty]. *)
Definition text (s : string) : option json := if decide (s = "") then None else Some (JStr s).

(** A map field, nil or not. *)
Definition enc_map {A} (enc : A → json) (m : option (gmap string A)) : json :=
  match m with Some m => JObj (enc <$> m) | None => JNull end.
(** A map field with [omitempty]. *)
Definition enc_map_omit {A} (enc : A → json) (m : option (gmap string A)) : option json :=
  if decide (default ∅ m = ∅) then None else Some (enc_map enc m).

Definition get (m : gmap string json) (k : string) : json := default JNull (m !! k).

Definition dec_string (v : json) : option string :=
  match v with JStr s => Some s | JNull => Some "" | _ => None end.
Definition dec_bool (v : json) : option bool :=
  match v with JBool b => Some b | JNull => Some false | _ => None end.
Definition dec_struct (v : json) : option (gmap string json) :=
  match v with JObj m => Some m | JNull => Some ∅ | _ => None end.

Definition dec_map {A} (dec : json → option A) (v : json) : option (option (gmap string A)) :=
  match v with
  | JObj m => if decide (map_Forall (λ _ v, is_Some (dec v)) m) then Some (Some (omap dec m)) else None
  | JNull => Some None
  | _ => None
  end.
Definition dec_list {A} (dec : json → option A) (v : json) : option (option (list A)) :=
  match v with
  | JArr l => l ← mapM dec l; Some (Some l)
  | JNull => Some None
  | _ => None
  end.

(** ** Encoding *)

Definition enc_GMCTarget (t : GMCTarget) : json :=
  struct [("serviceName", text (ServiceName t));
          ("nameSpace", text (NameSpace t));
          ("config", enc_map_omit JStr (Config t));
          ("isDownstreamService",
           if IsDownstreamService t then Some (JBool true) else None)].

(** [omitempty] does not leave out the struct [internalService]. *)
Definition enc_Step (s : Step) : json :=
  struct [("name", text (StepName s));
          ("nodeName", text (NodeName s));
          ("internalService", Some (enc_GMCTarget (InternalService s)));
          ("externalService", text (ExternalService s));
          ("data", text (Data s));
          ("condition", text (Condition s));
          ("dependency", text (Dependency s));
          ("serviceUrl", text (ServiceURL s))].

Definition enc_Router (r : Router) : json :=
  struct [("routerType", Some (JStr (RouterType r)));
          ("steps", if decide (Steps r = []) then None else Some (JArr (enc_Step <$> Steps r)))].

Definition enc_RouterConfig (rc : RouterConfig) : json :=
  struct [("name", Some (JStr (rc_Name rc)));
          ("serviceName", Some (JStr (rc_ServiceName rc)));
          ("nameSpace", Some (JStr (rc_NameSpace rc)));
          ("config", Some (enc_map JStr (rc_Config rc)))].

Definition enc_Spec (s : GMConnectorSpec) : json :=
  struct [("nodes", Some (enc_map enc_Router (NodesMap s)));
          ("routerConfig", Some (enc_RouterConfig (SpecRouterConfig s)))].

(** A [GMConnector] of which only the spec is set; a zero [metav1.Time] is
    null. *)
Definition enc_graph (s : GMConnectorSpec) : json :=
  struct [("metadata", Some (struct [("creationTimestamp", Some JNull)]));
          ("spec", Some (enc_Spec s));
          ("status", Some (struct [("condition", Some (struct [("lastUpdateTime", Some JNull)]))]))].

(** ** Decoding *)

Definition dec_GMCTarget (v : json) : option GMCTarget :=
  m ← dec_struct v;
  n ← dec_string (get m "serviceName");
  ns ← dec_string (get m "nameSpace");
  c ← dec_map dec_string (get m "config");
  d ← dec_bool (get m "isDownstreamService");
  Some (mkGMCTarget n ns c d).

Definition dec_Step (v : json) : option Step :=
  m ← dec_struct v;
  n ← dec_string (get m "name");
  node ← dec_string (get m "nodeName");
  int ← dec_GMCTarget (get m "internalService");
  ext ← dec_string (get m "externalService");
  d ← dec_string (get m "data");
  c ← dec_string (get m "condition");
  dep ← dec_string (get m "dependency");
  url ← dec_string (get m "serviceUrl");
  Some (mkStep n (mkExecutor node int ext) d c dep url).

Definition dec_Router (v : json) : option Router :=
  m ← dec_struct v;
  t ← dec_string (get m "routerType");
  steps ← dec_list dec_Step (get m "steps");
  Some (mkRouter t steps).

Definition dec_RouterConfig (v : json) : option RouterConfig :=
  m ← dec_struct v;
  n ← dec_string (get m "name");
  sn ← dec_string (get m "serviceName");
  ns ← dec_string (get m "nameSpace");
  c ← dec_map dec_string (get m "config");
  Some (mkRouterConfig n sn ns c).

Definition dec_Spec (v : json) : option GMConnectorSpec :=
  m ← dec_struct v;
  nodes ← dec_map dec_Router (get m "nodes");
  rc ← dec_RouterConfig (get m "routerConfig");
  Some (mkSpec nodes rc).

(** The fields of the metadata and the status that the router could read. *)
Definition dec_ObjectMeta (v : json) : option ObjectMeta :=
  m ← dec_struct v;
  n ← dec_string (get m "name");
  ns ← dec_string (get m "namespace");
  Some (mkObjectMeta n ns None None "").

Definition dec_graph (v : json) : option GMConnector :=
  m ← dec_struct v;
  kind ← dec_string (get m "kind");
  api ← dec_string (get m "apiVersion");
  meta ← dec_ObjectMeta (get m "metadata");
  spec ← dec_Spec (get m "spec");
  Some (mkGMConnector (mkTypeMeta api kind) meta spec zero_Status).

(** ** Round trip

    [omitempty] makes an empty map or slice nil. *)

Definition norm_GMCTarget (t : GMCTarget) : GMCTarget :=
  mkGMCTarget (ServiceName t) (NameSpace t)
    (if decide (default ∅ (Config t) = ∅) then None else Config t) (IsDownstreamService t).
Definition norm_Step (s : Step) : Step :=
  mkStep (StepName s)
    (mkExecutor (NodeName s) (norm_GMCTarget (InternalService s)) (ExternalService s))
    (Data s) (Condition s) (Dependency s) (ServiceURL s).
Definition norm_Router (r : Router) : Router :=
  mkRouter (RouterType r) (if decide (Steps r = []) then None else Some (norm_Step <$> Steps r)).
Definition map_in {A B} (f : A → B) (m : option (gmap string A)) : option (gmap string B) :=
  match m with Some m => Some (f <$> m) | None => None end.
Definition norm_Spec (s : GMConnectorSpec) : GMConnectorSpec :=
  mkSpec (map_in norm_Router (NodesMap s)) (SpecRouterConfig s).

Lemma get_members k v fs k' :
  get (members ((k, v) :: fs)) k' =
    match v with
    | Some v => if decide (k = k') then v else get (members fs) k'
    | None => get (members fs) k'
    end.
Proof.
  destruct v as [v|]; [|done]. unfold get. simpl. case_decide as Hk.
  - by rewrite Hk, lookup_insert_eq.
  - by rewrite lookup_insert_ne.
Qed.

Lemma get_absent fs k : k ∉ fs.*1 → get (members fs) k = JNull.
Proof.
  induction fs as [|[k' v] fs IH]; [done|]. intros Hk. rewrite get_members.
  apply not_elem_of_cons in Hk as [Hne Hk]. rewrite IH by done. destruct v; [|done].
  by rewrite decide_False.
Qed.

(** The member of a field, when no two fields share a name. *)
Lemma get_field fs1 fs2 k v :
  bool_decide (k ∈ fs1.*1) = false → bool_decide (k ∈ fs2.*1) = false →
  get (members (fs1 ++ (k, v) :: fs2)) k = default JNull v.
Proof.
  rewrite !bool_decide_eq_false. intros Hk1 Hk2. induction fs1 as [|[k' v'] fs1 IH]; cbn [app].
  - rewrite get_members, get_absent by done. destruct v; [by rewrite decide_True|done].
  - apply not_elem_of_cons in Hk1 as [Hne Hk1]. rewrite get_members, IH by done.
    destruct v'; [by rewrite decide_False|done].
Qed.

Lemma dec_text s : dec_string (default JNull (text s)) = Some s.
Proof. unfold text. case_decide as Hs; [by rewrite Hs|done]. Qed.

Lemma dec_enc_map {A} (enc : A → json) (dec : json → option A) (norm : A → A) m :
  (∀ a, dec (enc a) = Some (norm a)) → dec_map dec (enc_map enc m) = Some (map_in norm m).
Proof.
  intros He. destruct m as [m|]; [|done]. simpl. rewrite decide_True.
  - do 2 f_equal. apply map_eq. intros k. rewrite lookup_omap, !lookup_fmap.
    destruct (m !! k); simpl; [apply He|done].
  - intros k v. rewrite lookup_fmap_Some. intros (a & <- & _). rewrite He. by eexists.
Qed.

Lemma dec_enc_list {A} (enc : A → json) (dec : json → option A) (norm : A → A) l :
  (∀ a, dec (enc a) = Some (norm a)) → dec_list dec (JArr (enc <$> l)) = Some (Some (norm <$> l)).
Proof.
  intros He. cut (mapM dec (enc <$> l) = Some (norm <$> l)).
  - intros E. exact (f_equal (λ o, o ≫= λ l, Some (Some l)) E).
  - apply mapM_Some, Forall2_fmap, Forall_Forall2_diag, Forall_true. auto.
Qed.

Lemma dec_enc_config m : dec_map dec_string (enc_map JStr m) = Some m.
Proof.
  rewrite (dec_enc_map _ _ id) by done. destruct m as [m|]; [|done]. simpl. by rewrite map_fmap_id.
Qed.

(** Reads the fields of a struct out of its members. *)
Ltac read_field :=
  match goal with
  | |- context [get (members ?fs) ?k] =>
      let rec split pre l :=
        match l with
        | (k, ?v) :: ?post =>
            change (get (members fs) k) with (get (members (pre ++ (k, v) :: post)) k);
            rewrite (get_field pre post k v eq_refl eq_refl)
        | ?f :: ?post => split (pre ++ [f]) post
        end in
      split (@nil (string * option json)) fs
  end.
Ltac read_fields :=
  unfold struct; cbn [dec_struct mbind option_bind];
  repeat (read_field; rewrite ?dec_text; cbn [dec_string dec_bool default mbind option_bind id from_option]).

Lemma dec_map_omit m :
  dec_map dec_string (default JNull (enc_map_omit JStr m))
    = Some (if decide (default ∅ m = ∅) then None else m).
Proof.
  unfold enc_map_omit. destruct (decide _) as [Hm|Hm]; [by rewrite decide_True|].
  rewrite decide_False by done. apply dec_enc_config.
Qed.

Lemma roundtrip_GMCTarget t : dec_GMCTarget (enc_GMCTarget t) = Some (norm_GMCTarget t).
Proof.
  unfold dec_GMCTarget, enc_GMCTarget. read_fields. rewrite dec_map_omit. cbn [mbind option_bind].
  by destruct (IsDownstreamService t) eqn:E; unfold norm_GMCTarget; rewrite E.
Qed.

Lemma roundtrip_Step s : dec_Step (enc_Step s) = Some (norm_Step s).
Proof. unfold dec_Step, enc_Step. read_fields. rewrite roundtrip_GMCTarget. read_fields. done. Qed.

Lemma roundtrip_Router r : dec_Router (enc_Router r) = Some (norm_Router r).
Proof.
  unfold dec_Router, enc_Router, norm_Router. read_fields.
  case_decide; [done|]. cbn [from_option default id].
  by rewrite (dec_enc_list _ _ _ _ roundtrip_Step).
Qed.

Lemma roundtrip_RouterConfig rc : dec_RouterConfig (enc_RouterConfig rc) = Some rc.
Proof.
  unfold dec_RouterConfig, enc_RouterConfig. read_fields. rewrite dec_enc_config. by destruct rc.
Qed.

(** The specification comes back with its empty maps and slices nil. *)
Lemma roundtrip_Spec s : dec_Spec (enc_Spec s) = Some (norm_Spec s).
Proof.
  unfold dec_Spec, enc_Spec. read_fields.
  rewrite (dec_enc_map _ _ _ _ roundtrip_Router). read_fields. by rewrite roundtrip_RouterConfig.
Qed.

(** The graph the router decodes: the specification, and no name, no namespace
    and no type. *)
Lemma roundtrip_graph s :
  dec_graph (enc_graph s)
    = Some (mkGMConnector (mkTypeMeta "" "") (mkObjectMeta "" "" None None "") (norm_Spec s)
              zero_Status).
Proof.
  unfold dec_graph, dec_ObjectMeta, enc_graph. read_fields. rewrite roundtrip_Spec. read_fields. done.
Qed.
