(* ===== verification/GraphTyping.v ===== *)
(** * Well-typed graphs

    The types of a graph: the schema of the resource fixes the values of a
    node's routerType and of a step's dependency (the Enum markers of
    api/v1alpha3/gmconnector_types.go, checked by the API server), the webhook
    that the root and the nodes the steps refer to exist.  [strict_routeStep] is
    [routeStep] without its defaults: it panics on a node that does not exist,
    where the code reads a zero Router from the map, and on a routerType that
    is none of the constants. *)

From Stdlib Require Import Ascii.
From S2P Require Import Prelude GoStrings ApiTypes Validation Json JsonText RouterWorld.
From S2P Require Import Router RouterDemo RouterProps.

(** ** Typing *)

(** The schema: [+kubebuilder:validation:Enum] of [RouterType] and of
    [StepDependencyType] (an absent dependency is the empty string). *)
Definition router_types : list string := [Sequence; Ensemble; Switch].
Definition dependency_types : list string := [Soft; Hard].

Definition schema_valid (graph : GMConnector) : Prop :=
  map_Forall (λ _ node, RouterType node ∈ router_types ∧
                        Forall (λ s, Dependency s = "" ∨ Dependency s ∈ dependency_types) (Steps node))
    (Nodes (Spec graph)).

#[global] Instance schema_valid_dec graph : Decision (schema_valid graph).
Proof. unfold schema_valid. apply _. Defined.

(** A node name that routing may be asked for. *)
Definition node_typed (graph : GMConnector) (name : string) : Prop :=
  ∃ node, Nodes (Spec graph) !! name = Some node ∧ RouterType node ∈ router_types.

(** Every reference of the graph is to a node of a known type. *)
Definition graph_typed (graph : GMConnector) : Prop :=
  ∀ name node s, Nodes (Spec graph) !! name = Some node → s ∈ Steps node →
    NodeName s ≠ "" → node_typed graph (NodeName s).

(** ** Routing without defaults *)

Definition unknown_node : string := "unknown node".
Definition unknown_type : string := "unknown router type".

Section strict.
Context `{RouterEnv} `{JsonCodec}.

Fixpoint strict_routeStep (fuel : nat) (graph : GMConnector) (nodeName initInput input : string)
    : prog world route_result :=
  match fuel with
  | 0 => out_of_fuel
  | S fuel' =>
      let route := strict_routeStep fuel' graph in
      match Nodes (Spec graph) !! nodeName with
      | None => panic unknown_node
      | Some currentNode =>
          if decide (RouterType currentNode = Switch) then
            handleSwitchPipeline route graph nodeName initInput input
          else if decide (RouterType currentNode = Ensemble) then
            handleEnsemblePipeline route graph nodeName initInput input
          else if decide (RouterType currentNode = Sequence) then
            handleSequencePipeline route graph nodeName initInput input
          else panic unknown_type
      end
  end.

(** Soundness of the typing: from a typed node of a typed graph, the strict
    routing is the routing. *)
Lemma typed_strict fuel graph name a b :
  graph_typed graph → node_typed graph name →
  prog_eq (routeStep fuel graph name a b) (strict_routeStep fuel graph name a b).
Proof.
  intros Hg. revert name a b.
  induction fuel as [|fuel IH]; intros name a b (node & Hn & Ht); [done|]. simpl. rewrite Hn.
  assert (node_at (Spec graph) name = node) as Hnode by (unfold node_at; by rewrite Hn).
  destruct (rel_handlers (@prog_eq) (routeStep fuel graph) (strict_routeStep fuel graph) graph
    graph name a b eq_refl) as (Hsw & Hse & Hen).
  { apply Forall_forall. rewrite Hnode. intros s Hs a' b'. apply rel_executeStep; [apply _| |done].
    intros Hne a'' b''. apply IH. by eapply Hg. }
  rewrite Hnode. repeat case_decide; [done..|]. exfalso. unfold router_types in Ht.
  rewrite !elem_of_cons, elem_of_nil in Ht. tauto.
Qed.

(** What the webhook and the schema let through is typed. *)
Lemma admitted_typed graph es :
  es ≡ₚ map_to_list (Nodes (Spec graph)) → schema_valid graph → ValidateCreate graph es = None →
  graph_typed graph ∧ node_typed graph "root".
Proof.
  intros Hes Hschema Hv. apply ValidateCreate_None in Hv as [[Hsteps _] Hroot].
  assert (∀ name, is_Some (Nodes (Spec graph) !! name) → node_typed graph name) as Hty.
  { intros name [node Hn]. exists node. split; [done|]. by destruct (Hschema name node Hn). }
  split; [|by apply Hty]. intros name node s Hn Hs Hne. apply Hty.
  rewrite Forall_forall in Hsteps. destruct (Hsteps s) as [_ [?|?]]; [|done|done].
  unfold all_steps. apply list_elem_of_bind. exists (name, node). split; [done|].
  by rewrite Hes, elem_of_map_to_list.
Qed.

(** C14: admitted graphs do not go wrong: for a graph the webhook admits, in any
    enumeration of its nodes, and whose routerTypes are those of the schema,
    routing from the root never reads a node that does not exist and never
    meets an unknown routerType; it is equal to the routing that panics in
    these two cases. *)
Theorem admitted_graph_routes_strictly graph es fuel a b w :
  es ≡ₚ map_to_list (Nodes (Spec graph)) → schema_valid graph → ValidateCreate graph es = None →
  routeStep fuel graph "root" a b w = strict_routeStep fuel graph "root" a b w.
Proof.
  intros Hes Hschema Hv. destruct (admitted_typed graph es Hes Hschema Hv) as [Hg Hroot].
  by apply typed_strict.
Qed.
End strict.

(** ** A concrete instance *)

Section witnesses.
#[local] Existing Instance UpEnv.

(** A Sequence whose second step is a Switch. *)
Definition typed_graph : GMConnector :=
  demo_graph (<["root" := mkRouter Sequence (Some [svc_step "Embedding" "http://e";
                                                   from_response (node_step "Llm" "tail")])]>
              {["tail" := mkRouter Switch (Some [hard (svc_step "Llm" "http://l")])]}).

Lemma admitted_graph_routes_strictly_witness :
  routeStep 3 typed_graph "root" (obj1 "query" "q") (obj1 "query" "q") empty_world =
    strict_routeStep 3 typed_graph "root" (obj1 "query" "q") (obj1 "query" "q") empty_world ∧
  match (strict_routeStep 3 typed_graph "root" (obj1 "query" "q") (obj1 "query" "q") empty_world).2 with
  | Done (Some _, 200%Z, None) => True
  | _ => False
  end.
Proof.
  split; [|vm_compute; exact I].
  apply (admitted_graph_routes_strictly typed_graph (map_to_list (Nodes (Spec typed_graph))) 3
    (obj1 "query" "q") (obj1 "query" "q") empty_world);
    [reflexivity|apply (bool_decide_unpack (schema_valid typed_graph) (dec := schema_valid_dec typed_graph)); vm_compute; exact I|vm_compute; reflexivity].
Defined.
End witnesses.
