(* ===== verification/InterleaveTheorems.v ===== *)
(** * What an Ensemble guarantees whatever the interleaving

    Every execution is finite and none blocks; a run of [handleEnsemblePipeline],
    which runs the goroutines in sequence, is one of the interleavings; and when
    the services answer, every interleaving ends with the same response. *)

From Stdlib Require Import Ascii.
From stdpp Require Import relations.
From S2P Require Import Prelude GoStrings ApiTypes Validation Json JsonText RouterWorld.
From S2P Require Import Router RouterDemo RouterProps Pipeline RouterSpec Interleave.

Section sequential.
Context `{RouterEnv} `{JsonCodec}.
Context (route : string → string → string → prog world route_result).
Context (graph : GMConnector) (steps : list Step) (initInput input : string).
#[local] Abbreviation ens_step := (ens_step route graph steps initInput input).
#[local] Abbreviation goroutine := (ensemble_step route graph initInput input).

(** ** A goroutine run to its end *)

Lemma go_step st i s t w' o :
  steps !! i = Some s → e_threads st !! i = Some t → e_crash st = None → active t = true →
  thread_step route graph initInput input s t (e_world st) = (w', o) →
  match o with
  | Done t' => ens_step st (set_thread i t' w' st)
  | Panic m => ens_step st (set_crash m w' st)
  | OutOfFuel => True
  end.
Proof.
  intros Hs Ht Hc Ha E. destruct o as [t'|m|]; [| |done]; exists (Go i);
    unfold ens_do, go; by rewrite Hc, Hs, Ht, Ha, E.
Qed.

Lemma set_thread_twice i t1 t2 w1 w2 st :
  set_thread i t2 w2 (set_thread i t1 w1 st) = set_thread i t2 w2 st.
Proof. unfold set_thread. simpl. by rewrite list_insert_insert_eq. Qed.

(** From its action at [t] on, the goroutine sends [o], or crashes. *)
Definition thread_ends (i : nat) (st : ens) (w' : world) (o : outcome gout) : Prop :=
  match o with
  | Done g => rtc ens_step st (set_thread i (TSend g) w' st)
  | Panic m => ∃ st', rtc ens_step st st' ∧ e_crash st' = Some m
  | OutOfFuel => True
  end.

Lemma thread_ends_next i s t st w1 t1 w' o :
  steps !! i = Some s → e_threads st !! i = Some t → e_crash st = None → active t = true →
  thread_step route graph initInput input s t (e_world st) = (w1, Done t1) →
  thread_ends i (set_thread i t1 w1 st) w' o → thread_ends i st w' o.
Proof.
  intros Hs Ht Hc Ha E He. pose proof (go_step st i s t w1 (Done t1) Hs Ht Hc Ha E) as Hstep.
  destruct o as [g|m|]; [| |done]; simpl in *.
  - rewrite set_thread_twice in He. by eapply rtc_l.
  - destruct He as (st' & Hr & Hm). exists st'. split; [by eapply rtc_l|done].
Qed.

Lemma thread_ends_panic i s t st w1 m :
  steps !! i = Some s → e_threads st !! i = Some t → e_crash st = None → active t = true →
  thread_step route graph initInput input s t (e_world st) = (w1, Panic m) →
  thread_ends i st w1 (Panic m).
Proof.
  intros Hs Ht Hc Ha E. pose proof (go_step st i s t w1 (Panic m) Hs Ht Hc Ha E).
  exists (set_crash m w1 st). split; [by apply rtc_once|done].
Qed.

Lemma set_thread_lookup i t t' w st :
  e_threads st !! i = Some t → e_threads (set_thread i t' w st) !! i = Some t'.
Proof. intros Ht. simpl. apply list_lookup_insert_eq. by eapply lookup_lt_Some. Qed.

Lemma thread_sends i g w st : thread_ends i (set_thread i (TSend g) w st) w (Done g).
Proof. simpl. by rewrite set_thread_twice. Qed.

(** The goroutine at [t] behaves like the program [p]. *)
Definition runs_as (i : nat) (p : prog world gout) (st : ens) : Prop :=
  thread_ends i st (p (e_world st)).1 (p (e_world st)).2.

(** One action of [q], then the rest. *)
Lemma runs_as_bind {A} i s t st (q : prog world A) (f : A → thread) (k : A → prog world gout) :
  steps !! i = Some s → e_threads st !! i = Some t → e_crash st = None → active t = true →
  (∀ w, thread_step route graph initInput input s t w = (x ← q; mret (f x)) w) →
  (∀ x w, runs_as i (k x) (set_thread i (f x) w st)) →
  runs_as i (q ≫= k) st.
Proof.
  intros Hs Ht Hc Ha Hq Hk. unfold runs_as. specialize (Hq (e_world st)).
  destruct (q (e_world st)) as [w1 [x|m|]] eqn:E.
  - rewrite (run_bind_Done _ _ _ _ _ E). rewrite (run_bind_Done _ _ _ _ _ E) in Hq.
    eapply thread_ends_next; try done. apply (Hk x w1).
  - rewrite (run_bind_Panic _ _ _ _ _ E). rewrite (run_bind_Panic _ _ _ _ _ E) in Hq.
    by eapply thread_ends_panic.
  - by rewrite (run_bind_OutOfFuel _ _ _ _ E).
Qed.

Lemma close_ends i s b e st :
  steps !! i = Some s → e_threads st !! i = Some (TClose b e) → e_crash st = None →
  runs_as i (_ ← close_body b; mret (GErr e)) st.
Proof.
  intros Hs Ht Hc. eapply (runs_as_bind i s _ st _ (λ _, TSend (GErr e))); try done.
  intros x w. apply thread_sends.
Qed.

Lemma read_ends i s b code st :
  steps !! i = Some s → e_threads st !! i = Some (TRead b code) → e_crash st = None →
  runs_as i (rd ← io_ReadAll b;
             match unmarshal_map rd.1 with
             | inr res => mret (GOut res code)
             | inl e => _ ← close_body b; mret (GErr e)
             end) st.
Proof.
  intros Hs Ht Hc. eapply (runs_as_bind i s _ st); try done. intros rd w. cbv beta.
  destruct (unmarshal_map rd.1) as [e|res]; [|apply thread_sends].
  apply (close_ends i s); [done|by eapply set_thread_lookup|done].
Qed.

Lemma goroutine_ends i s st :
  steps !! i = Some s → e_threads st !! i = Some TStart → e_crash st = None →
  runs_as i (goroutine s) st.
Proof.
  intros Hs Ht Hc. unfold ensemble_step.
  eapply (runs_as_bind i s _ st _ (λ r, let '(b, code, err) := r in
    match err with None => TRead b code | Some e => TClose b e end)); try done.
  - intros w. apply bind_ext. by intros [[b code] [e|]] w1.
  - intros [[b code] [e|]] w; [apply (close_ends i s)|apply (read_ends i s)]; try done;
      by eapply set_thread_lookup.
Qed.

(** ** The goroutines in sequence *)

(** [st'] comes from [st], the collector being where it was. *)
Definition threads_only (st st' : ens) : Prop :=
  rtc ens_step st st' ∧ e_pos st' = e_pos st ∧ e_response st' = e_response st ∧
  e_result st' = e_result st ∧ e_crash st' = e_crash st.

Lemma goroutines_end order st :
  NoDup order → e_crash st = None →
  (∀ i, i ∈ order → i < length steps ∧ e_threads st !! i = Some TStart) →
  let '(w', o) := run_goroutines route graph initInput input steps order (e_world st) in
  match o with
  | Done os =>
      ∃ st', threads_only st st' ∧ e_world st' = w' ∧ os.*1 = order ∧
        (∀ i g, (i, g) ∈ os → e_threads st' !! i = Some (TSend g)) ∧
        (∀ i, i ∉ order → e_threads st' !! i = e_threads st !! i)
  | Panic m => ∃ st', rtc ens_step st st' ∧ e_crash st' = Some m
  | OutOfFuel => True
  end.
Proof.
  intros Hnd. revert st. induction Hnd as [|i order Hi _ IH]; intros st Hc Hst; simpl.
  { exists st. split_and!; try done. intros ? ? []%elem_of_nil. }
  destruct (Hst i ltac:(by left)) as [Hlt Ht].
  destruct (lookup_lt_is_Some_2 _ _ Hlt) as [s Hs]. rewrite Hs.
  pose proof (goroutine_ends i s st Hs Ht Hc) as He. unfold runs_as in He.
  unfold mbind, prog_bind.
  destruct (goroutine s (e_world st)) as [w1 [g|m|]]; simpl in He; [|done|done].
  specialize (IH (set_thread i (TSend g) w1 st) Hc). cbn [e_world set_thread] in IH.
  destruct (run_goroutines _ _ _ _ _ _ w1) as [w2 [os|m|]]; [| |done].
  - destruct IH as (st' & (Hr & Hp & Hre & Hres & Hcr) & Hw & Hos & Hin & Hout).
    { intros j Hj. destruct (Hst j ltac:(by right)) as [? Hj']. split; [done|]. simpl.
      rewrite list_lookup_insert_ne; [done|]. by intros ->. }
    exists st'. split_and!; try done.
    + split_and!; try done. by etrans.
    + csimpl. by rewrite Hos.
    + intros j g' [[= -> ->]|Hj]%elem_of_cons; [|by apply Hin].
      rewrite Hout by done. simpl. apply list_lookup_insert_eq. by eapply lookup_lt_Some.
    + intros j Hj. apply not_elem_of_cons in Hj as [Hne Hj]. rewrite Hout by done. simpl.
      by rewrite list_lookup_insert_ne.
  - destruct IH as (st' & Hr & Hm).
    { intros j Hj. destruct (Hst j ltac:(by right)) as [? Hj']. split; [done|]. simpl.
      rewrite list_lookup_insert_ne; [done|]. by intros ->. }
    exists st'. split; [by etrans|done].
Qed.

(** ** The collector *)

(** The channel of [i] and the error channel hold what [os] says. *)
Definition sends (os : list (nat * gout)) (st : ens) : Prop :=
  (∀ i g, e_pos st <= i → (i, g) ∈ os → e_threads st !! i = Some (TSend g)) ∧
  (∀ e, e ∈ errors_of os → ∃ j, e_threads st !! j = Some (TSend (GErr e))).

Lemma select_sends h os st r :
  NoDup os.*1 → sends os st → e_pos st ∈ os.*1 → select_result h (e_pos st) os = Some r →
  match r with
  | inr (res, code) => e_threads st !! e_pos st = Some (TSend (GOut res code))
  | inl e => ∃ j, e_threads st !! j = Some (TSend (GErr e))
  end.
Proof.
  intros Hnd [Hown Herr] Hpos.
  assert (∀ e es k, errors_of os = e :: es → ∃ j, e_threads st !! j = Some (TSend (GErr (default e ((e :: es) !! k))))) as Hany.
  { intros e es k E. apply Herr. rewrite E. destruct ((e :: es) !! k) as [e'|] eqn:Ek; simpl; [|by left].
    by eapply list_elem_of_lookup_2. }
  assert (∀ p, result_of (e_pos st) os = Some p →
    e_threads st !! e_pos st = Some (TSend (GOut p.1 p.2))) as Hres.
  { unfold result_of. intros p. destruct (_ !! e_pos st) as [[res code|]|] eqn:E; [|done|done].
    intros [= <-]. apply elem_of_list_to_map_2 in E. by apply Hown. }
  unfold select_result. destruct (result_of (e_pos st) os) as [[res code]|].
  - specialize (Hres _ eq_refl). destruct (errors_of os) as [|e es] eqn:Ee; [by intros [= <-]|].
    destruct (sched_select h (e_pos st)); intros [= <-]; [by apply Hany|done].
  - destruct (errors_of os) as [|e es] eqn:Ee; [done|]. intros [= <-]. by apply Hany.
Qed.

Lemma sends_received os key v st res code :
  e_threads st !! e_pos st = Some (TSend (GOut res code)) → sends os st →
  sends os (received key v st).
Proof.
  intros Ht [Hown Herr]. split; simpl.
  - intros i g Hi Hin. rewrite list_lookup_insert_ne by lia. apply Hown; [lia|done].
  - intros e He. destruct (Herr e He) as [j Hj]. exists j. rewrite list_lookup_insert_ne; [done|].
    intros <-. congruence.
Qed.

Lemma collect_ends os rest st :
  NoDup os.*1 → sends os st → e_crash st = None → e_result st = None →
  (∀ j, e_pos st <= j < length steps → j ∈ os.*1) → e_pos st <= length steps →
  rest = drop (e_pos st) steps →
  ∃ r st', ensemble_collect os (e_pos st) rest (e_response st) (e_world st) = (e_world st', Done r) ∧
    rtc ens_step st st' ∧ e_result st' = Some r.
Proof.
  intros Hnd. revert st. induction rest as [|s rest IH]; intros st Hs Hc Hr Hos Hle Hd.
  - assert (steps !! e_pos st = None) as E.
    { rewrite <- (Nat.add_0_r (e_pos st)), <- lookup_drop, <- Hd. done. }
    eexists _, (finish (JObj (e_response st)) 200 st). split; [reflexivity|]. split; [|reflexivity].
    apply rtc_once. exists Receive. unfold ens_do, receive. by rewrite Hc, Hr, E.
  - assert (steps !! e_pos st = Some s) as E.
    { rewrite <- (Nat.add_0_r (e_pos st)), <- lookup_drop, <- Hd. done. }
    pose proof (lookup_lt_Some _ _ _ E) as Hlt.
    assert (rest = drop (S (e_pos st)) steps) as Hd'.
    { rewrite (drop_S steps s) in Hd by done. congruence. }
    pose proof (Hos (e_pos st) ltac:(lia)) as Hin.
    destruct (select_result (w_calls (e_world st)) (e_pos st) os) as [r|] eqn:Es.
    2:{ by destruct (select_ready _ _ _ Hin Es). }
    pose proof (select_sends _ _ _ _ Hnd Hs Hin Es) as Hsel.
    cbn [ensemble_collect]. unfold mbind, prog_bind, gets. rewrite Es.
    destruct r as [e|[res code]].
    + destruct Hsel as [j Hj].
      exists (None, 500%Z, Some e),
        (set_result (None, 500%Z, Some e) (e_world st) (set_thread j TDone (e_world st) st)).
      split; [done|]. split; [|done]. apply rtc_once. exists (ReceiveErr j).
      unfold ens_do, receive_err. rewrite Hc, Hr, Hj. by rewrite decide_True.
    + case_decide as Hhard.
      * eexists _, (finish (jmap_value res) code (set_thread (e_pos st) TDone (e_world st) st)).
        split; [reflexivity|]. split; [|reflexivity]. apply rtc_once. exists Receive.
        unfold ens_do, receive. rewrite Hc, Hr, E, Hsel. by rewrite decide_True.
      * destruct (IH (received (ensemble_key (e_pos st) s) (jmap_value res) st))
          as (r & st' & Ec & Hrtc & Hres); try done.
        { by eapply sends_received. }
        { intros j Hj. apply Hos. simpl in Hj. lia. }
        exists r, st'. split; [exact Ec|]. split; [|done]. eapply rtc_l; [|exact Hrtc].
        exists Receive. unfold ens_do, receive. rewrite Hc, Hr, E, Hsel. by rewrite decide_False.
Qed.

Lemma goroutines_send st os :
  (∀ i g, (i, g) ∈ os → e_threads st !! i = Some (TSend g)) → sends os st.
Proof.
  intros Hin. split; [by intros i g _; apply Hin|].
  intros e ([j [|e']] & Hj & [= ->])%list_elem_of_omap. exists j. by apply Hin.
Qed.
End sequential.

(** ** Services that answer *)

Section answering.
Context `{RouterEnv} `{JsonCodec}.
Context (route : string → string → string → prog world route_result).
Context (graph : GMConnector) (steps : list Step) (initInput input : string).
Context (out : nat → jmap) (code : nat → Z) (w0 : world).
#[local] Abbreviation ns := (Namespace (gmc_ObjectMeta graph)).
#[local] Abbreviation the_call := (λ s, step_call ns s input).
Hypothesis Hsteps : ∀ i s, steps !! i = Some s → contributes ns input s (out i) (code i).

(** The body of the reference [b] is open and holds the response of [i]. *)
Definition unread (w : world) (i : nat) (b : bodyref) : Prop :=
  ∃ l bd, b = Some l ∧ w_bodies w !! l = Some bd ∧ b_closed bd = false ∧
          unmarshal_map (b_content bd) = inr (out i).

Definition thread_ok (w : world) (i : nat) (t : thread) : Prop :=
  match t with
  | TStart | TDone => True
  | TRead b c => c = code i ∧ unread w i b
  | TClose _ _ => False
  | TSend g => g = GOut (out i) (code i)
  end.

(** No two goroutines have the same body, and none has that of the result. *)
Definition apart (ts : list thread) : Prop :=
  ∀ i j b c c', ts !! i = Some (TRead b c) → ts !! j = Some (TRead b c') → i = j.

(** The calls made are those of the goroutines that have started. *)
Definition calls_ok (ts : list thread) (w : world) : Prop :=
  ∃ idx, NoDup idx ∧ w_calls w = w_calls w0 ++ omap (λ i, the_call <$> steps !! i) idx ∧
         ∀ i, i ∈ idx ↔ ∃ t, ts !! i = Some t ∧ t ≠ TStart.

Definition collector_ok (st : ens) : Prop :=
  match e_result st with
  | None => e_pos st <= length steps ∧
            merge_results (e_pos st) (drop (e_pos st) steps) out code (e_response st) =
            merge_results 0 steps out code ∅
  | Some r =>
      ∃ l, r = (Some l, (merge_results 0 steps out code ∅).2, None) ∧
           w_bodies (e_world st) !! l =
             Some (bytes_body (json_marshal (merge_results 0 steps out code ∅).1)) ∧
           ∀ i c, e_threads st !! i ≠ Some (TRead (Some l) c)
  end.

Definition ens_ok (st : ens) : Prop :=
  e_crash st = None ∧ length (e_threads st) = length steps ∧
  (∀ i t, e_threads st !! i = Some t → thread_ok (e_world st) i t) ∧
  apart (e_threads st) ∧ calls_ok (e_threads st) (e_world st) ∧ collector_ok st.

Lemma run_plain_step i s w :
  steps !! i = Some s →
  ∃ bd, executeStep route graph s initInput input w =
    (set_bodies (w_bodies w ++ [bd]) (add_call (the_call s) w),
     Done (Some (length (w_bodies w)), code i, None)) ∧
    b_closed bd = false ∧ unmarshal_map (b_content bd) = inr (out i).
Proof.
  intros Hs. destruct (Hsteps i s Hs) as [(Hn & Hc & Hu) Hr].
  destruct (Hr (w_calls w)) as (chunks & fin & close & E & Hout).
  exists (mkBody HttpBody chunks fin close false). split; [|done].
  unfold executeStep, callService. rewrite decide_False by tauto.
  rewrite Hc, Hu. unfold mbind, prog_bind, client_Do. cbn beta iota. unfold mret, prog_ret. cbn beta iota.
  fold (step_call ns s input). by rewrite E.
Qed.

(** Marking a goroutine keeps the calls when it had started. *)
Lemma calls_ok_insert ts w w' i t t' :
  ts !! i = Some t → t ≠ TStart → t' ≠ TStart → w_calls w' = w_calls w →
  calls_ok ts w → calls_ok (<[i := t']> ts) w'.
Proof.
  intros Ht Hne Hne' Hw (idx & Hnd & Hc & Hidx). exists idx. split; [done|]. rewrite Hw.
  split; [done|]. intros j. rewrite Hidx. destruct (decide (i = j)) as [<-|Hij].
  - rewrite list_lookup_insert_eq by (by eapply lookup_lt_Some). split; intros _; eauto.
  - by rewrite list_lookup_insert_ne.
Qed.

Lemma calls_ok_start ts w w' i s t' :
  ts !! i = Some TStart → t' ≠ TStart → steps !! i = Some s →
  w_calls w' = w_calls w ++ [the_call s] →
  calls_ok ts w → calls_ok (<[i := t']> ts) w'.
Proof.
  intros Ht Hne' Hs Hw (idx & Hnd & Hc & Hidx).
  assert (i ∉ idx) as Hi by (intros (t & Ht' & Hne)%Hidx; congruence).
  exists (idx ++ [i]). split; [|split].
  - apply NoDup_app. split; [done|]. split; [|apply NoDup_singleton].
    by intros x Hx ->%list_elem_of_singleton.
  - rewrite Hw, Hc, omap_app, <- app_assoc. csimpl. by rewrite Hs.
  - intros j. rewrite elem_of_app, list_elem_of_singleton, Hidx.
    destruct (decide (i = j)) as [<-|Hij].
    + rewrite list_lookup_insert_eq by (by eapply lookup_lt_Some). split; [eauto|tauto].
    + rewrite list_lookup_insert_ne by done. naive_solver.
Qed.

Lemma apart_insert ts i t' :
  (∀ b c, t' = TRead b c → ∀ j c', ts !! j = Some (TRead b c') → j = i) →
  apart ts → apart (<[i := t']> ts).
Proof.
  intros Hnew Ha j k b c c'. rewrite !list_lookup_insert_Some.
  intros [(<- & -> & _)|[Hj Ej]] [(<- & E & _)|[Hk Ek]]; try done.
  - by rewrite (Hnew b c eq_refl k c' Ek).
  - subst t'. by rewrite (Hnew b c' eq_refl j c Ej).
  - by eapply Ha.
Qed.

(** A world whose bodies agree, except perhaps at [l]. *)
Definition same_but (l : nat) (w w' : world) : Prop :=
  ∀ l' bd, l' ≠ l → w_bodies w !! l' = Some bd → w_bodies w' !! l' = Some bd.

Lemma thread_ok_same_but l w w' i t :
  (∀ c, t ≠ TRead (Some l) c) → same_but l w w' → thread_ok w i t → thread_ok w' i t.
Proof.
  intros Hne Hs. destruct t as [|b c| | |]; try done. simpl. intros [-> (l' & bd & -> & E & Hrest)].
  split; [done|]. exists l', bd. split; [done|]. split; [|done]. apply Hs; [|done].
  intros ->. by destruct (Hne (code i)).
Qed.

(** A move of the goroutine [i], which changes no body but the one at [l]. *)
Lemma ens_ok_set_thread i t t' l w' st :
  ens_ok st → e_threads st !! i = Some t →
  same_but l (e_world st) w' →
  (∀ j c, j ≠ i → e_threads st !! j ≠ Some (TRead (Some l) c)) →
  (∀ r, e_result st = Some r → r.1.1 ≠ Some l) →
  thread_ok w' i t' →
  (∀ b c, t' = TRead b c → b = Some l) →
  calls_ok (<[i := t']> (e_threads st)) w' →
  ens_ok (set_thread i t' w' st).
Proof.
  intros (Hc & Hlen & Hth & Hap & Hcalls & Hcol) Ht Hsame Hothers Hres Ht' Href Hcalls'.
  split_and!; simpl; try done.
  - by rewrite length_insert.
  - intros j u [(<- & -> & _)|[Hj Hu]]%list_lookup_insert_Some; [done|].
    eapply thread_ok_same_but; [|done|by apply Hth].
    intros c ->. by eapply (Hothers j c).
  - apply apart_insert; [|done]. intros b c E j c' Hj. apply Href in E as ->.
    destruct (decide (j = i)) as [|Hne]; [done|]. by destruct (Hothers j c' Hne).
  - unfold collector_ok in *. simpl. destruct (e_result st) as [r|]; [|done].
    destruct Hcol as (l' & -> & Hl' & Hno). exists l'. split; [done|].
    assert (l' ≠ l) as Hne by (intros ->; by destruct (Hres _ eq_refl)).
    split; [by apply Hsame|]. intros j c [(<- & E & _)|[_ E]]%list_lookup_insert_Some;
      [|by eapply Hno]. apply Href in E. congruence.
Qed.

Lemma ens_ok_go i st st' :
  ens_ok st → go route graph steps initInput input i st = Some st' → ens_ok st'.
Proof.
  intros Hok. unfold go. destruct (steps !! i) as [s|] eqn:Es; [|done].
  destruct (e_threads st !! i) as [t|] eqn:Et; [|done].
  pose proof Hok as (Hc & Hlen & Hth & Hap & Hcalls & Hcol). pose proof (Hth i t Et) as Hti.
  destruct t as [|b c|b e|g|]; try done; cbn [active].
  - destruct (run_plain_step i s (e_world st) Es) as (bd & E & Hcl & Hout).
    cbn [thread_step]. rewrite (run_bind_Done _ _ _ _ _ E). intros [= <-].
    set (w' := set_bodies _ _). set (l := length (w_bodies (e_world st))).
    assert (∀ l' bd', w_bodies (e_world st) !! l' = Some bd' → l' ≠ l) as Hnew.
    { intros l' bd' Hl'%lookup_lt_Some. unfold l. lia. }
    eapply (ens_ok_set_thread i TStart _ l); try done.
    + intros l' bd' _ Hl'. unfold w'. simpl. by apply lookup_app_l_Some.
    + intros j c' _ Hj. destruct (Hth _ _ Hj) as [_ (l' & bd' & [= <-] & Hl' & _)].
      by apply Hnew in Hl'.
    + intros r Hr. unfold collector_ok in Hcol. rewrite Hr in Hcol.
      destruct Hcol as (l' & -> & Hl' & _). intros [= ->]. by apply Hnew in Hl'.
    + simpl. split; [done|]. exists l, bd. split; [done|]. split; [|done].
      unfold w', l. simpl. by apply list_lookup_middle.
    + by intros b c [= <- _].
    + by eapply calls_ok_start.
  - simpl in Hti. destruct Hti as [-> (l & bd & -> & Hl & Hcl & Hout)].
    cbn [thread_step]. unfold io_ReadAll, mbind, prog_bind, option_bind, option_bind. simpl.
    rewrite Hl. simpl. rewrite Hcl.
    destruct (b_kind bd); cbn; rewrite Hout; intros [= <-];
      (eapply (ens_ok_set_thread i _ _ l); [done|exact Et|..]; try done;
       [intros l' bd' Hne Hl'; simpl; by rewrite list_lookup_insert_ne
       |intros j c' Hne Hj; by destruct Hne; eapply Hap
       |intros r Hr; unfold collector_ok in Hcol; rewrite Hr in Hcol;
        destruct Hcol as (l' & -> & _ & Hno); intros [= ->]; by eapply Hno
       |by eapply calls_ok_insert]).
Qed.

(** The collector may mark a goroutine that has sent as ended. *)
Lemma ens_ok_done i t st :
  ens_ok st → e_threads st !! i = Some t → t ≠ TStart →
  ens_ok (set_thread i TDone (e_world st) st).
Proof.
  intros Hok Ht Hne. pose proof Hok as (Hc & Hlen & Hth & Hap & Hcalls & Hcol).
  split_and!; simpl; try done.
  - by rewrite length_insert.
  - intros j u [(<- & <- & _)|[Hj Hu]]%list_lookup_insert_Some; [done|by apply Hth].
  - by apply apart_insert.
  - by eapply calls_ok_insert.
  - unfold collector_ok in *. simpl. destruct (e_result st); [|done].
    destruct Hcol as (l & -> & Hl & Hno). exists l. split; [done|]. split; [done|].
    intros j c [(_ & [=] & _)|[_ E]]%list_lookup_insert_Some. by eapply Hno.
Qed.

Lemma ens_ok_finish v c st :
  ens_ok st → (v, c) = merge_results 0 steps out code ∅ → ens_ok (finish v c st).
Proof.
  intros (Hc & Hlen & Hth & Hap & Hcalls & Hcol) Hm.
  assert (∀ l bd, w_bodies (e_world st) !! l = Some bd → l ≠ length (w_bodies (e_world st))) as Hnew.
  { intros l bd Hl%lookup_lt_Some. lia. }
  split_and!; simpl; try done.
  - intros i t Ht. eapply (thread_ok_same_but (length (w_bodies (e_world st)))); [| |by apply Hth].
    + intros c' ->. destruct (Hth _ _ Ht) as [_ (l & bd & [= <-] & Hl & _)]. by apply Hnew in Hl.
    + intros l bd _ Hl. simpl. by apply lookup_app_l_Some.
  - unfold collector_ok. simpl. rewrite <- Hm. eexists. split; [done|]. simpl.
    split; [by apply list_lookup_middle|]. intros i c' Ht.
    destruct (Hth _ _ Ht) as [_ (l & bd & [= <-] & Hl & _)]. by apply Hnew in Hl.
Qed.

Lemma ens_ok_receive st st' :
  ens_ok st → e_result st = None → receive steps st = Some st' → ens_ok st'.
Proof.
  intros Hok Hr. pose proof Hok as (Hc & Hlen & Hth & Hap & Hcalls & Hcol).
  unfold collector_ok in Hcol. rewrite Hr in Hcol. destruct Hcol as [Hle Hm]. unfold receive.
  destruct (steps !! e_pos st) as [s|] eqn:Es.
  2:{ intros [= <-]. apply ens_ok_finish; [done|]. rewrite <- Hm.
      by rewrite drop_ge by (by apply lookup_ge_None). }
  destruct (e_threads st !! e_pos st) as [[| | |[res c|]|]|] eqn:Et; try done.
  pose proof (Hth _ _ Et) as [= -> ->]. rewrite (drop_S steps s) in Hm by done. cbn [merge_results] in Hm.
  pose proof (ens_ok_done _ _ _ Hok Et ltac:(done)) as Hdone.
  case_decide; intros [= <-].
  - by apply ens_ok_finish.
  - destruct Hdone as (_ & Hlen' & Hth' & Hap' & Hcalls' & _). split_and!; simpl; try done.
    unfold collector_ok. simpl. rewrite Hr. apply lookup_lt_Some in Es. split; [lia|done].
Qed.

Lemma ens_ok_step st st' :
  ens_ok st → ens_step route graph steps initInput input st st' → ens_ok st'.
Proof.
  intros Hok [m Hm]. unfold ens_do in Hm. destruct (e_crash st); [done|]. destruct m as [i| |j].
  - by eapply ens_ok_go.
  - destruct (e_result st) eqn:Er; [done|]. by eapply ens_ok_receive.
  - destruct (e_result st); [done|]. unfold receive_err in Hm. case_decide; [|done].
    destruct (e_threads st !! j) as [[| | |[|e]|]|] eqn:Et; try done.
    destruct Hok as (_ & _ & Hth & _). by specialize (Hth _ _ Et).
Qed.

Lemma ens_ok_init : ens_ok (ens_init steps w0).
Proof.
  assert (∀ i t, replicate (length steps) TStart !! i = Some t → t = TStart) as Hall.
  { by intros i t [-> _]%lookup_replicate. }
  split_and!; simpl.
  - done.
  - apply length_replicate.
  - by intros i t ->%Hall.
  - by intros i j b c c' [=]%Hall.
  - exists []. split; [constructor|]. rewrite app_nil_r. split; [done|]. intros i.
    rewrite elem_of_nil. split; [done|]. intros (t & Ht%Hall & Hne). done.
  - split; [simpl; lia|done].
Qed.

Lemma ens_ok_reachable st :
  ens_reachable route graph steps initInput input w0 st → ens_ok st.
Proof.
  intros Hr. apply (rtc_ind_r ens_ok (R := ens_step route graph steps initInput input)
    (ens_init steps w0)); [apply ens_ok_init| |done].
  intros st1 st2 _ Hs IH. by eapply ens_ok_step.
Qed.
End answering.

Section theorems.
Context `{RouterEnv} `{JsonCodec}.
Implicit Types (route : string → string → string → prog world route_result).

(** C9: running the goroutines of an Ensemble in sequence, as
    [handleEnsemblePipeline] does, is one of the interleavings: what it returns
    is the collector's result in an execution that ends in the same world, and
    its panics are crashes of executions. *)
Theorem sequential_run_is_an_interleaving route graph name initInput input w w' o :
  let steps := Steps (node_at (Spec graph) name) in
  fair_sched →
  handleEnsemblePipeline route graph name initInput input w = (w', o) →
  match o with
  | Done r => ∃ st, ens_reachable route graph steps initInput input w st ∧
                    e_world st = w' ∧ e_result st = Some r
  | Panic m => ∃ st, ens_reachable route graph steps initInput input w st ∧ e_crash st = Some m
  | OutOfFuel => True
  end.
Proof.
  intros steps Hfair. unfold handleEnsemblePipeline, mbind, prog_bind, gets. fold steps.
  set (order := sched_order (w_calls w) (length steps)).
  assert (NoDup order) as Hnd by (unfold order; rewrite (Hfair _ _); apply NoDup_seq).
  assert (∀ i, i ∈ order ↔ i < length steps) as Hord.
  { intros i. unfold order. rewrite (Hfair _ _), elem_of_seq. lia. }
  pose proof (goroutines_end route graph steps initInput input order
    (ens_init steps w) Hnd eq_refl) as Hg. cbn [e_world ens_init] in Hg.
  destruct (run_goroutines _ _ _ _ _ _ w) as [w1 [os|m|]].
  - destruct Hg as (st & (Hr & Hp & Hre & Hres & Hcr) & <- & Hos & Hin & _).
    { intros i Hi%Hord. split; [done|]. simpl. by apply lookup_replicate. }
    cbn [e_pos e_response e_result e_crash ens_init] in Hp, Hre, Hres, Hcr. intros Hc.
    destruct (collect_ends route graph steps initInput input os steps st)
      as (r & st' & E & Hr' & Hres').
    + by rewrite Hos.
    + by apply goroutines_send.
    + done.
    + done.
    + intros j Hj. rewrite Hos. apply Hord. lia.
    + rewrite Hp. lia.
    + by rewrite Hp.
    + rewrite Hp, Hre in E. rewrite E in Hc.
      injection Hc as <- <-. exists st'. split; [|done]. unfold ens_reachable. by etrans.
  - intros [= <- <-]. apply Hg. intros i Hi%Hord. split; [done|]. simpl. by apply lookup_replicate.
  - by intros [= <- <-].
Qed.

(** C12: whatever the interleaving, an Ensemble ends and never blocks: no
    execution makes more than 4 n + 2 moves for n steps, and as long as the
    process has not crashed and the collector has no result, some goroutine can
    run or a value can be received (nested nodes being routed to an end). *)
Theorem ensemble_never_blocks_interleaved route graph steps initInput input w st :
  (∀ n a b, total (route n a b)) →
  ens_reachable route graph steps initInput input w st →
  (∀ k, nsteps (ens_step route graph steps initInput input) k (ens_init steps w) st →
        k <= 4 * length steps + 2) ∧
  (e_crash st = None → e_result st = None →
   ∃ st', ens_step route graph steps initInput input st st').
Proof.
  intros Hroute Hr. split.
  - intros k Hk. apply nsteps_bounded in Hk. rewrite moves_left_init in Hk. lia.
  - intros Hc Hres. apply ens_progress; try done. by eapply ens_wf_reachable.
Qed.

(** C11: when the steps call services that answer decodable bodies whatever was
    called before, every interleaving of an Ensemble's goroutines gives the
    response of the reference merge: no execution crashes, each service is
    called at most once, and a result of the collector, in any execution, is the
    status and the body of [merge_results], which no goroutine still running
    reads or closes. *)
Theorem ensemble_confluent route graph steps initInput input out code w st :
  let ns := Namespace (gmc_ObjectMeta graph) in
  (∀ i s, steps !! i = Some s → contributes ns input s (out i) (code i)) →
  ens_reachable route graph steps initInput input w st →
  let '(v, c) := merge_results 0 steps out code ∅ in
  e_crash st = None ∧
  (∃ idx, NoDup idx ∧
     w_calls (e_world st) = w_calls w ++ omap (λ i, (λ s, step_call ns s input) <$> steps !! i) idx) ∧
  ∀ r, e_result st = Some r →
    ∃ l, r = (Some l, c, None) ∧ holds (e_world st) (Some l) (Some (bytes_body (json_marshal v))) ∧
         ∀ i c', e_threads st !! i ≠ Some (TRead (Some l) c').
Proof.
  intros ns Hs Hr.
  pose proof (ens_ok_reachable route graph steps initInput input out code w Hs st Hr)
    as (Hc & _ & _ & _ & (idx & Hnd & Hcalls & _) & Hcol).
  unfold collector_ok in Hcol. destruct (merge_results 0 steps out code ∅) as [v c].
  split; [done|]. split; [by exists idx|]. intros r E. rewrite E in Hcol.
  destruct Hcol as (l & -> & Hl & Hno). exists l. split; [done|]. split; [by exists l|done].
Qed.
End theorems.

(** ** Concrete instances *)

Section witnesses.
#[local] Existing Instance UpEnv.

Definition two_steps : list Step :=
  [svc_step "Embedding" "http://e"; hard (svc_step "Llm" "http://l")].
Definition two_graph : GMConnector := root_node Ensemble two_steps.
Definition no_route (n a b : string) : prog world route_result := mret (None, 500%Z, Some n).
Definition two_request : string := obj1 "query" "deep learning".

(** The second goroutine runs inside the first. *)
Definition overlapping : list move := [Go 0; Go 1; Go 1; Go 0; Receive; Receive; Receive].
Definition overlapped : ens :=
  default (ens_init two_steps empty_world)
    (ens_run no_route two_graph two_steps two_request two_request overlapping
       (ens_init two_steps empty_world)).

Lemma overlapped_reachable :
  ens_reachable no_route two_graph two_steps two_request two_request empty_world overlapped.
Proof. apply (ens_run_rtc _ _ _ _ _ overlapping). vm_compute. reflexivity. Qed.

Definition two_responses (i : nat) : jmap :=
  Some {["from" := JStr (if decide (i = 0) then "http://e" else "http://l")]}.

Lemma two_contribute i s :
  two_steps !! i = Some s → contributes "ns" two_request s (two_responses i) 200.
Proof.
  destruct i as [|[|i]]; intros Hs; vm_compute in Hs; simplify_eq;
    (split; [vm_compute; done|]); intros h;
    (eexists _, _, _; split; [vm_compute; reflexivity|vm_compute; reflexivity]).
Qed.

Lemma ensemble_confluent_witness :
  e_result overlapped = Some (Some 2, 200%Z, None) ∧
  holds (e_world overlapped) (Some 2)
    (Some (bytes_body (json_marshal (merge_results 0 two_steps two_responses (λ _, 200%Z) ∅).1))).
Proof.
  assert (e_result overlapped = Some (Some 2, 200%Z, None)) as E by (vm_compute; reflexivity).
  split; [exact E|].
  pose proof (ensemble_confluent no_route two_graph two_steps two_request two_request
    two_responses (λ _, 200%Z) empty_world overlapped two_contribute overlapped_reachable) as P.
  destruct (merge_results 0 two_steps two_responses (λ _, 200%Z) ∅) as [v c].
  destruct P as (_ & _ & P). destruct (P _ E) as (l & El & Hl & _). injection El as <- _. exact Hl.
Defined.

Lemma ensemble_never_blocks_interleaved_witness :
  ∃ st', ens_step no_route two_graph two_steps two_request two_request
           (ens_init two_steps empty_world) st'.
Proof.
  apply (ensemble_never_blocks_interleaved no_route two_graph two_steps two_request two_request
    empty_world (ens_init two_steps empty_world)); [done|apply rtc_refl|done|done].
Defined.

Definition sequential_world : world :=
  (handleEnsemblePipeline no_route two_graph "root" two_request two_request empty_world).1.

Lemma sequential_run_is_an_interleaving_witness :
  ∃ st, ens_reachable no_route two_graph (Steps (node_at (Spec two_graph) "root"))
          two_request two_request empty_world st ∧
        e_world st = sequential_world ∧ e_result st = Some (Some 2, 200%Z, None).
Proof.
  apply (sequential_run_is_an_interleaving no_route two_graph "root" two_request two_request
    empty_world sequential_world (Done (Some 2, 200%Z, None)) up_fair).
  vm_compute. reflexivity.
Defined.
End witnesses.
