(* ===== verification/HttpWriter.v ===== *)
(** * Response writers

    An [http.ResponseWriter] and [http.Error], as the handlers of the router
    and of the controller's manager use them: the header map, what was sent and
    when, the pieces of the body. *)

From S2P Require Import Prelude GoStrings.

(** ** Response writer *)

(** A [http.Header]: the values of each (canonical) key. *)
Abbreviation header := (gmap string (list string)).

(** The writer's header map, what was sent (the status and the headers at the
    time), the pieces of the body, whether it supports [Flush]. *)
Record writer := mkWriter {
  rw_header : header;
  rw_sent : option (Z * header);
  rw_body : list string;
  rw_flusher : bool
}.

Definition fresh_writer : writer := mkWriter ∅ None [] true.

(** [w.Header().Set(k, v)], [w.Header().Add(k, v)] *)
Definition header_set (k v : string) (w : writer) : writer :=
  mkWriter (<[k := [v]]> (rw_header w)) (rw_sent w) (rw_body w) (rw_flusher w).
Definition header_add (k v : string) (w : writer) : writer :=
  mkWriter (<[k := default [] (rw_header w !! k) ++ [v]]> (rw_header w))
    (rw_sent w) (rw_body w) (rw_flusher w).

(** [w.WriteHeader(code)]: only the first one counts. *)
Definition write_header (code : Z) (w : writer) : writer :=
  match rw_sent w with
  | Some _ => w
  | None => mkWriter (rw_header w) (Some (code, rw_header w)) (rw_body w) (rw_flusher w)
  end.

(** [w.Write(b)], when the connection takes the bytes. *)
Definition write_piece (b : string) (w : writer) : writer :=
  let w := write_header 200 w in
  mkWriter (rw_header w) (rw_sent w) (rw_body w ++ [b]) (rw_flusher w).

Definition newline : string := bytes [10].

(** [http.Error(w, msg, code)] *)
Definition http_error (msg : string) (code : Z) (w : writer) : writer :=
  write_piece (msg +:+ newline)
    (write_header code
       (header_set "X-Content-Type-Options" "nosniff"
          (header_set "Content-Type" "text/plain; charset=utf-8" w))).
