(* ===== verification/RouterHttp.v ===== *)
(** * The router's HTTP handlers

    cmd/router/main.go from [prepareErrorResponse] to [mcAssetHandler]: the
    graph handler with its copy loop, the dataprep handler, the UI and asset
    handlers.  The reverse proxy, the multipart parser and the backend of the
    dataprep services are parameters ([HttpEnv]); encoding a form with the
    multipart writer is kept as the list of parts.  Log lines are left out. *)

From Stdlib Require Import Ascii.
From Stdlib Require Import Floats.SpecFloat.
From S2P Require Import Prelude GoStrings ApiTypes Json HttpWriter RouterWorld Router.

(** ** Requests *)

(** A file of a multipart form, and the request a handler serves: its body with
    the error reading it ends in, its header, its parsed form. *)
Record form_file := mkFile { ff_name : string; ff_content : string;
                             ff_open_error : option error; ff_read_error : option error }.

Record http_request := mkRequest {
  req_method : string;
  req_url : string;
  req_header : header;
  req_body : string;
  req_body_error : option error;
  (** [ParseMultipartForm]: its error, or the fields and the files in the order
      the ranges over the two maps visit them *)
  req_form : error + list (string * list string) * list (string * list form_file)
}.

(** The request [http.NewRequest(method, url, body)] *)
Definition new_request (method url body : string) : http_request :=
  mkRequest method url ∅ body None (inl "request Content-Type isn't multipart/form-data").

(** A part of the form the multipart writer encodes, and a request sent to a
    dataprep service. *)
Inductive part :=
  | Field (key value : string)
  | File (key filename content : string).

Record forward := mkForward {
  fw_method : string; fw_url : string; fw_header : header; fw_parts : list part
}.

(** A backend's answer: an error, or its status, header and body (an error of
    copying the body is only logged). *)
Inductive backend_reply :=
  | Down (e : error)
  | Up (status : Z) (hdr : list (string * list string)) (content : string).

(** ** Code outside the repository *)
Class HttpEnv := {
  (** the error of [w.Write], given the pieces written so far *)
  write_error : list string → option error;
  (** [url.Parse] *)
  url_parse_error : string → option error;
  (** [httputil.NewSingleHostReverseProxy(url).ServeHTTP(w, req)] *)
  proxy_serve : string → http_request → writer → writer;
  (** the redirection of ServeMux to the path with a slash at its end *)
  slash_redirect : string → http_request → writer → writer;
  (** the dataprep backend, given the requests forwarded before *)
  backend : list forward → forward → backend_reply
}.

(** ** The state of a handler *)

Record hstate := mkH { h_world : world; h_rw : writer; h_forwards : list forward }.

Definition in_world {A} (p : prog world A) : prog hstate A := λ s,
  let '(w, o) := p (h_world s) in (mkH w (h_rw s) (h_forwards s), o).

Definition on_rw (f : writer → writer) : prog hstate unit :=
  modify (λ s, mkH (h_world s) (f (h_rw s)) (h_forwards s)).

(** ** Reading a response body in pieces *)

Definition BufferSize : nat := 1024.

Inductive read_status := ReadOk | ReadEOF | ReadFail (e : error).

(** [r.Read(buffer)] with a buffer of [n] bytes. *)
Definition body_Read (n : nat) (r : bodyref) : prog world (string * read_status) := λ w,
  match r ≫= λ l, (l,.) <$> w_bodies w !! l with
  | None => (w, Panic nil_deref)
  | Some (l, b) =>
      match b_kind b, b_closed b, b_chunks b with
      | HttpBody, true, _ => (w, Done ("", ReadFail read_after_close))
      | _, _, [] => (w, Done ("", match b_end b with Some e => ReadFail e | None => ReadEOF end))
      | _, _, c :: cs =>
          let rest := str_drop n c in
          let chunks := if decide (rest = "") then cs else rest :: cs in
          (set_bodies (<[l := mkBody (b_kind b) chunks (b_end b) (b_close b) (b_closed b)]>
                         (w_bodies w)) w,
           Done (str_take n c, ReadOk))
      end
  end.

Section handlers.
Context `{RouterEnv} `{HttpEnv} `{JsonCodec}.

(** [w.Write(b)] *)
Definition rw_write (b : string) : prog hstate (option error) := λ s,
  match write_error (rw_body (h_rw s)) with
  | Some e => (mkH (h_world s) (write_header 200 (h_rw s)) (h_forwards s), Done (Some e))
  | None => (mkH (h_world s) (write_piece b (h_rw s)) (h_forwards s), Done None)
  end.

(** ** mcGraphHandler *)

(** The struct [GMCGraphRoutingError] with its two members in order. *)
Definition prepareErrorResponse (err : error) (errorMessage : string) : string :=
  "{" +:+ json_marshal (JStr "error") +:+ ":" +:+ json_marshal (JStr errorMessage) +:+ ","
      +:+ json_marshal (JStr "cause") +:+ ":" +:+ json_marshal (JStr err) +:+ "}".

Definition defaultNodeName : string := "root".

(** The copy loop. *)
Fixpoint copy_loop (fuel : nat) (responseBody : bodyref) : prog hstate unit :=
  match fuel with
  | 0 => out_of_fuel
  | S fuel' =>
      rd ← in_world (body_Read BufferSize responseBody);
      match rd with
      | (_, ReadFail _) => on_rw (http_error "failed to read from response body" 500)
      | (b, _) =>
          if decide (b = "") then mret tt
          else
            e ← rw_write b;
            match e with
            | Some _ => mret tt
            | None =>
                fl ← gets (λ s, rw_flusher (h_rw s));
                if fl : bool then copy_loop fuel' responseBody else mret tt
            end
      end
  end.

(** Enough iterations of the loop for a body: one per piece of each chunk. *)
Definition copy_fuel (b : body) : nat :=
  S (sum_list_with (λ c, S (String.length c)) (b_chunks b)).

Definition body_fuel (r : bodyref) (w : world) : nat :=
  match r ≫= (w_bodies w !!.) with Some b => copy_fuel b | None => 1 end.

(** The goroutine of [mcGraphHandler]; the deferred [Close] runs when the copy
    loop is over. *)
Definition graph_worker (fuel : nat) (mcGraph : GMConnector) (req : http_request) : prog hstate unit :=
  match req_body_error req with
  | Some _ => on_rw (http_error "failed to read request body" 400)
  | None =>
      let inputBytes := req_body req in
      r ← in_world (routeStep fuel mcGraph defaultNodeName inputBytes inputBytes);
      let '(responseBody, statusCode, err) := r in
      match err with
      | Some err =>
          _ ← on_rw (header_set "Content-Type" "application/json");
          _ ← on_rw (write_header statusCode);
          _ ← rw_write (prepareErrorResponse err "Failed to process request");
          mret tt
      | None =>
          _ ← on_rw (header_set "Content-Type" "application/json");
          n ← gets (λ s, body_fuel responseBody (h_world s));
          _ ← copy_loop n responseBody;
          _ ← in_world (close_body responseBody);
          mret tt
      end
  end.

(** [expired]: the one-minute context ends before the goroutine has written
    and the handler answers by itself; RouterTimeout.v has the time-out at any
    point, and what the goroutine, which is not stopped, does afterwards. *)
Definition mcGraphHandler (expired : bool) (fuel : nat) (mcGraph : GMConnector) (req : http_request)
    : prog hstate unit :=
  if expired then on_rw (http_error "request timed out" 504)
  else graph_worker fuel mcGraph req.

(** ** mcDataHandler *)

Definition DataPrep : string := "DataPrep".
Definition UI : string := "UI".

(** Copying the form: the parts written, and the first error with its text. *)
Fixpoint copy_fields (fields : list (string * list string)) : list part :=
  match fields with
  | [] => []
  | (key, values) :: rest => ((λ v, Field key v) <$> values) ++ copy_fields rest
  end.

Fixpoint copy_file_list (key : string) (files : list form_file) : error + list part :=
  match files with
  | [] => inr []
  | f :: rest =>
      match ff_open_error f, ff_read_error f with
      | Some _, _ => inl "Failed to open file"
      | None, Some _ => inl "Failed to copy file"
      | None, None =>
          match copy_file_list key rest with
          | inl e => inl e
          | inr ps => inr (File key (ff_name f) (ff_content f) :: ps)
          end
      end
  end.

Fixpoint copy_files (files : list (string * list form_file)) : error + list part :=
  match files with
  | [] => inr []
  | (key, fs) :: rest =>
      match copy_file_list key fs with
      | inl e => inl e
      | inr ps => match copy_files rest with
                  | inl e => inl e
                  | inr qs => inr (ps ++ qs)
                  end
      end
  end.

(** Is the step one that the request's SERVICE_NAME designates? *)
Definition dataprep_match (serviceName : string) (step : Step) : bool :=
  bool_decide (StepName step = DataPrep) &&
  negb (bool_decide (serviceName ≠ "" ∧ serviceName ≠ ServiceName (InternalService step))).

Definition add_headers (hdr : list (string * list string)) (w : writer) : writer :=
  foldl (λ w kv, foldl (λ w v, header_add kv.1 v w) w kv.2) w hdr.

(** [r.Header.Get("SERVICE_NAME")]; the key's canonical form is "Service_name". *)
Definition header_get (k : string) (h : header) : string :=
  match h !! k with Some (v :: _) => v | _ => "" end.

(** The requests' forwarded headers, the form's content type set last. *)
Definition forward_header (req : http_request) (boundary : string) : header :=
  <["Content-Type" := [boundary]]> (req_header req).

Definition form_content_type : string := "multipart/form-data".

(** One matching step; [true] when the loop goes on. *)
Definition forward_step (mcGraph : GMConnector) (r : http_request) (step : Step)
    : prog hstate bool :=
  let serviceURL := getServiceURLByStepTarget step (Namespace (gmc_ObjectMeta mcGraph)) in
  match req_form r with
  | inl _ => _ ← on_rw (http_error "Failed to parse multipart form" 400); mret false
  | inr (fields, files) =>
      match copy_files files with
      | inl msg => _ ← on_rw (http_error msg 500); mret false
      | inr file_parts =>
          match new_request_error serviceURL with
          | Some _ => _ ← on_rw (http_error "Failed to create new request" 500); mret false
          | None =>
              let fw := mkForward (req_method r) serviceURL
                          (forward_header r form_content_type) (copy_fields fields ++ file_parts) in
              h ← gets h_forwards;
              _ ← modify (λ s, mkH (h_world s) (h_rw s) (h_forwards s ++ [fw]));
              match backend h fw with
              | Down _ =>
                  _ ← on_rw (http_error "Failed to send request to backend" 500); mret false
              | Up status hdr content =>
                  _ ← on_rw (add_headers hdr);
                  _ ← on_rw (write_header status);
                  _ ← (if decide (content = "") then mret None else rw_write content);
                  mret true
              end
          end
      end
  end.

Fixpoint data_loop (mcGraph : GMConnector) (r : http_request) (serviceName : string)
    (steps : list Step) (isDataHandled : bool) : prog hstate (option bool) :=
  match steps with
  | [] => mret (Some isDataHandled)
  | step :: rest =>
      if dataprep_match serviceName step then
        go_on ← forward_step mcGraph r step;
        if go_on : bool then data_loop mcGraph r serviceName rest true else mret None
      else data_loop mcGraph r serviceName rest isDataHandled
  end.

Definition no_dataprep : string :=
  newline +:+ " Message: None dataprep endpoint is available! " +:+ newline.

Definition mcDataHandler (mcGraph : GMConnector) (r : http_request) : prog hstate unit :=
  let serviceName := header_get "Service_name" (req_header r) in
  let defaultNode := node_at (Spec mcGraph) defaultNodeName in
  handled ← data_loop mcGraph r serviceName (Steps defaultNode) false;
  match handled with
  | None | Some true => mret tt
  | Some false =>
      _ ← on_rw (header_set "Content-Type" "application/json");
      _ ← on_rw (write_header 404);
      _ ← rw_write no_dataprep;
      mret tt
  end.

(** ** mcUiHandler *)

Definition LLMKeyword : string := "query".
Definition EmbeddingKeyword : string := "text".

Definition defaultLlmParams : gmap string json :=
  list_to_map [("max_tokens", JNum (f64_ratio 1024 1)); ("top_k", JNum (f64_ratio 10 1));
               ("top_p", JNum (f64_ratio 95 100)); ("temperature", JNum (f64_ratio 1 100));
               ("repetition_penalty", JNum (f64_ratio 103 100)); ("streaming", JBool true)].

(** The first step that is not a downstream service, the last step when there
    is none. *)
Fixpoint nextHop (steps : list Step) : option Step :=
  match steps with
  | [] => None
  | s :: rest =>
      if IsDownstreamService (InternalService s)
      then match rest with [] => Some s | _ => nextHop rest end
      else Some s
  end.

Definition ui_key (s : Step) : string :=
  if decide (StepName s = "Embedding") then EmbeddingKeyword else LLMKeyword.

(** One item of the "messages" array. *)
Definition add_message (key : string) (parsedData : gmap string json) (item : json)
    : gmap string json :=
  match item with
  | JObj m =>
      match m !! "role" with
      | Some v =>
          let strRole := sprintf_v v in
          let content := match m !! "content" with Some c => sprintf_v c | None => "" end in
          if decide (strRole = "system") then <[key := JStr (content +:+ "/n")]> parsedData
          else
            <[key := JStr (sprintf_v (default JNull (parsedData !! key)) +:+ strRole +:+ ":"
                           +:+ content +:+ "/n")]> parsedData
      | None => parsedData
      end
  | _ => parsedData
  end.

(** The "messages" member; in the last case the code calls [Error] on a nil
    error. *)
Definition messages_payload (key : string) (data : gmap string json)
    : outcome (gmap string json) :=
  match data !! "messages" with
  | None => Done ∅
  | Some (JStr ms) => Done {[key := JStr ms]}
  | Some (JArr items) => Done (foldl (add_message key) ∅ items)
  | Some _ => Panic nil_deref
  end.

(** The payload sent to the graph: the messages, overridden by the default
    parameters when the first hop is an LLM, overridden by the other members. *)
Definition ui_payload (key : string) (data : gmap string json) : outcome (gmap string json) :=
  match messages_payload key data with
  | Done parsedData =>
      let parsedData := if decide (key = LLMKeyword) then defaultLlmParams ∪ parsedData
                        else parsedData in
      Done (delete "messages" data ∪ parsedData)
  | Panic m => Panic m
  | OutOfFuel => OutOfFuel
  end.

Definition ui_forward (expired : bool) (fuel : nat) (mcGraph : GMConnector) (req : http_request)
    (body : string) : prog hstate bool :=
  match nextHop (Steps (node_at (Spec mcGraph) defaultNodeName)) with
  | None => panic nil_deref
  | Some hop =>
      match unmarshal_map body with
      | inl err => _ ← on_rw (http_error err 500); mret false
      | inr data =>
          payload ← lift_outcome (ui_payload (ui_key hop) (default ∅ data));
          match new_request_error (req_url req) with
          | Some err => _ ← on_rw (http_error err 500); panic nil_deref
          | None =>
              _ ← mcGraphHandler expired fuel mcGraph
                    (new_request (req_method req) (req_url req) (json_marshal (JObj payload)));
              mret true
          end
      end
  end.

(** The body is read by the first UI step; a later one finds it empty. *)
Fixpoint ui_loop (expired : bool) (fuel : nat) (mcGraph : GMConnector) (req : http_request)
    (body : string) (steps : list Step) : prog hstate unit :=
  match steps with
  | [] => mret tt
  | step :: rest =>
      if decide (StepName step = UI) then
        match req_body_error req with
        | Some err => on_rw (http_error err 500)
        | None =>
            if decide (body = "") then
              let serviceURL := getServiceURLByStepTarget step (Namespace (gmc_ObjectMeta mcGraph)) in
              match url_parse_error serviceURL with
              | Some err => on_rw (http_error err 500)
              | None => _ ← on_rw (proxy_serve serviceURL req);
                        ui_loop expired fuel mcGraph req "" rest
              end
            else
              go_on ← ui_forward expired fuel mcGraph req body;
              if go_on : bool then ui_loop expired fuel mcGraph req "" rest else mret tt
        end
      else ui_loop expired fuel mcGraph req body rest
  end.

Definition mcUiHandler (expired : bool) (fuel : nat) (mcGraph : GMConnector) (req : http_request)
    : prog hstate unit :=
  ui_loop expired fuel mcGraph req (req_body req)
    (Steps (node_at (Spec mcGraph) defaultNodeName)).

(** ** mcAssetHandler *)

Fixpoint asset_loop (mcGraph : GMConnector) (req : http_request) (steps : list Step)
    : prog hstate unit :=
  match steps with
  | [] => mret tt
  | step :: rest =>
      if decide (StepName step = UI) then
        let serviceURL := getServiceURLByStepTarget step (Namespace (gmc_ObjectMeta mcGraph)) in
        match url_parse_error serviceURL with
        | Some err => on_rw (http_error err 500)
        | None => on_rw (proxy_serve serviceURL req)
        end
      else asset_loop mcGraph req rest
  end.

Definition mcAssetHandler (mcGraph : GMConnector) (req : http_request) : prog hstate unit :=
  asset_loop mcGraph req (Steps (node_at (Spec mcGraph) defaultNodeName)).

(** ** initializeRoutes *)

(** [http.ServeMux] on a clean path: "/dataprep" and "/ui" match exactly,
    "/assets/" its subtree ("/assets" is redirected to it), "/" everything
    else. *)
Definition serve (expired : bool) (fuel : nat) (mcGraph : GMConnector) (path : string)
    (req : http_request) : prog hstate unit :=
  if decide (path = "/dataprep") then mcDataHandler mcGraph req
  else if decide (path = "/ui") then mcUiHandler expired fuel mcGraph req
  else if has_prefix "/assets/" path then mcAssetHandler mcGraph req
  else if decide (path = "/assets") then on_rw (slash_redirect path req)
  else mcGraphHandler expired fuel mcGraph req.
End handlers.
