(* ===== verification/RouterHttpTheorems.v ===== *)
(** * What an HTTP client of the router sees

    The copy loop relays a readable body whole, in pieces of at most 1024
    bytes, with status 200; what happens with an error, a nil body, a body that
    fails midway or was read before; the payload the UI handler sends; the
    requests the dataprep handler forwards. *)

From Stdlib Require Import Ascii.
From S2P Require Import Prelude GoStrings ApiTypes Json JsonText RouterWorld Router.
From S2P Require Import RouterDemo RouterProps Pipeline RouterSpec HttpWriter RouterHttp.

(** ** Strings in pieces *)

Lemma str_take_drop n s : str_take n s +:+ str_drop n s = s.
Proof. revert s. induction n as [|n IH]; intros [|c s]; simpl; try done. by rewrite IH. Qed.

Lemma str_take_length n s : String.length (str_take n s) <= n.
Proof. revert s. induction n as [|n IH]; intros [|c s]; simpl; try lia. specialize (IH s). lia. Qed.

Lemma str_drop_length n s : String.length (str_drop n s) = String.length s - n.
Proof. revert s. induction n as [|n IH]; intros [|c s]; simpl; try done. Qed.

Lemma str_take_nonempty n s : s ≠ "" → str_take (S n) s ≠ "".
Proof. by destruct s. Qed.

Lemma concat_str_app l k : concat_str (l ++ k) = concat_str l +:+ concat_str k.
Proof. unfold concat_str. induction l as [|x l IH]; simpl; [done|]. by rewrite IH, str_app_assoc. Qed.

(** The pieces [pieces] of at most [n] bytes that make up [content]. *)
Definition pieces_of (n : nat) (content : string) (pieces : list string) : Prop :=
  concat_str pieces = content ∧ Forall (λ p, String.length p <= n ∧ p ≠ "") pieces.

Section http.
Context `{RouterEnv} `{HttpEnv} `{JsonCodec}.

(** ** The copy loop *)

(** An open reader that never returns an empty piece. *)
Definition open_body (b : body) : Prop :=
  (b_kind b = BytesReader ∨ b_closed b = false) ∧ Forall (λ c, c ≠ "") (b_chunks b).

(** A connection that takes everything and can be flushed. *)
Definition good_writer (w : writer) : Prop := rw_flusher w = true ∧ ∀ ps, write_error ps = None.

(** The writer after a copied body: the pieces, after the header if anything
    was written. *)
Definition write_all (ps : list string) (w : writer) : writer := foldl (λ w p, write_piece p w) w ps.

(** The end of the copy: an error is reported on the same writer. *)
Definition copy_end (e : option error) (w : writer) : writer :=
  match e with
  | Some _ => http_error "failed to read from response body" 500 w
  | None => w
  end.

(** The reader after a piece was read. *)
Definition after_read (n : nat) (b : body) (c : string) (cs : list string) : body :=
  mkBody (b_kind b) (if decide (str_drop n c = "") then cs else str_drop n c :: cs)
    (b_end b) (b_close b) (b_closed b).

Lemma run_read_open n w l b :
  w_bodies w !! l = Some b → open_body b →
  body_Read n (Some l) w =
  match b_chunks b with
  | [] => (w, Done ("", match b_end b with Some e => ReadFail e | None => ReadEOF end))
  | c :: cs => (set_bodies (<[l := after_read n b c cs]> (w_bodies w)) w,
                Done (str_take n c, ReadOk))
  end.
Proof.
  intros Hl [Hk _]. unfold body_Read. cbn -[insert lookup]. rewrite Hl. cbn -[insert lookup].
  destruct (b_kind b) eqn:Ek, (b_closed b) eqn:Ec; destruct (b_chunks b);
    unfold after_read; rewrite ?Ek, ?Ec; try done; by destruct Hk.
Qed.

Lemma after_read_open n b c cs :
  open_body b → b_chunks b = c :: cs → open_body (after_read n b c cs).
Proof.
  intros [Hk Hc] E. split; [done|]. rewrite E in Hc. apply Forall_cons in Hc as [_ Hcs].
  simpl. case_decide; [done|]. by constructor.
Qed.

Lemma after_read_fuel n b c cs :
  b_chunks b = c :: cs → c ≠ "" → copy_fuel (after_read (S n) b c cs) < copy_fuel b.
Proof.
  intros E Hc. unfold copy_fuel. rewrite E. cbn [after_read b_chunks sum_list_with].
  case_decide; cbn [sum_list_with]; [lia|]. rewrite str_drop_length. destruct c; [done|]. simpl. lia.
Qed.

Lemma after_read_content n b c cs :
  b_chunks b = c :: cs → b_content b = str_take n c +:+ b_content (after_read n b c cs).
Proof.
  intros E. unfold b_content. rewrite E. simpl.
  rewrite <- (str_take_drop n c) at 1. case_decide as Hd; simpl; rewrite ?Hd, <- ?str_app_assoc; done.
Qed.

(** The loop copies the whole body and reports how it ends. *)
Lemma copy_loop_open fuel l b s :
  copy_fuel b <= fuel → w_bodies (h_world s) !! l = Some b → open_body b →
  good_writer (h_rw s) →
  ∃ w' ps b', copy_loop fuel (Some l) s =
      (mkH w' (copy_end (b_end b) (write_all ps (h_rw s))) (h_forwards s), Done tt) ∧
    pieces_of BufferSize (b_content b) ps ∧ w_calls w' = w_calls (h_world s) ∧
    w_bodies w' !! l = Some b'.
Proof.
  revert b s. induction fuel as [|fuel IH]; intros b s Hfuel Hl Ho Hg.
  { unfold copy_fuel in Hfuel. lia. }
  cbn [copy_loop]. unfold mbind, prog_bind at 1, in_world.
  rewrite (run_read_open BufferSize _ _ _ Hl Ho).
  destruct (b_chunks b) as [|c cs] eqn:Ech.
  - exists (h_world s), [], b. destruct s as [w rw fw]. unfold pieces_of, b_content. rewrite Ech.
    split_and!; try done; try (by constructor); by destruct (b_end b).
  - assert (c ≠ "") as Hc.
    { destruct Ho as [_ Hf]. rewrite Ech in Hf. by apply Forall_cons in Hf as [? _]. }
    assert (str_take BufferSize c ≠ "") as Ht by (by apply str_take_nonempty).
    rewrite decide_False by done. unfold prog_bind, rw_write. cbn [h_rw h_world h_forwards].
    destruct Hg as [Hfl Hw]. rewrite Hw. unfold gets. cbn [h_rw].
    assert (rw_flusher (write_piece (str_take BufferSize c) (h_rw s)) = true) as Hfl'.
    { unfold write_piece, write_header. by destruct (rw_sent (h_rw s)). }
    rewrite Hfl'.
    destruct (IH (after_read BufferSize b c cs)
      (mkH (set_bodies (<[l := after_read BufferSize b c cs]> (w_bodies (h_world s))) (h_world s))
         (write_piece (str_take BufferSize c) (h_rw s)) (h_forwards s)))
      as (w' & ps & b' & Hrun & [Hcat Hps] & Hcalls & Hb').
    + pose proof (after_read_fuel 1023 b c cs Ech Hc). fold BufferSize in *. lia.
    + simpl. apply list_lookup_insert_eq. by eapply lookup_lt_Some.
    + by apply after_read_open.
    + done.
    + exists w', (str_take BufferSize c :: ps), b'. split; [exact Hrun|]. split; [|done].
      split; [by rewrite (after_read_content BufferSize _ _ _ Ech), <- Hcat|].
      constructor; [|done]. split; [apply str_take_length|done].
Qed.

Lemma run_close_in_world l s b :
  w_bodies (h_world s) !! l = Some b →
  ∃ w' e, in_world (close_body (Some l)) s = (mkH w' (h_rw s) (h_forwards s), Done e) ∧
          w_calls w' = w_calls (h_world s).
Proof.
  intros Hl. destruct (run_close_body _ _ _ Hl) as (w' & e & E & Hc & _).
  exists w', e. unfold in_world. by rewrite E.
Qed.

(** What the client gets for an open body: the status is 200 whatever the
    graph's, the pieces of the body, then the failure of the reader. *)
Lemma graph_worker_relays fuel graph req s w1 l b st :
  req_body_error req = None →
  routeStep fuel graph defaultNodeName (req_body req) (req_body req) (h_world s) =
    (w1, Done (Some l, st, None)) →
  w_bodies w1 !! l = Some b → open_body b → good_writer (h_rw s) →
  ∃ w' ps, graph_worker fuel graph req s =
      (mkH w' (copy_end (b_end b)
                 (write_all ps (header_set "Content-Type" "application/json" (h_rw s))))
         (h_forwards s), Done tt) ∧
    pieces_of BufferSize (b_content b) ps ∧ w_calls w' = w_calls w1.
Proof.
  intros Hre Hrun Hl Ho [Hfl Hw]. unfold graph_worker. rewrite Hre.
  unfold mbind, prog_bind, on_rw, modify, gets. unfold in_world at 1. rewrite Hrun.
  cbn [h_rw h_world h_forwards].
  set (s1 := mkH w1 (header_set "Content-Type" "application/json" (h_rw s)) (h_forwards s)).
  destruct (copy_loop_open (body_fuel (Some l) w1) l b s1) as (w2 & ps & b' & E & Hps & Hc & Hb').
  { unfold body_fuel. simpl. by rewrite Hl. }
  { done. }
  { done. }
  { done. }
  rewrite E. destruct (run_close_in_world l (mkH w2 (copy_end (b_end b)
    (write_all ps (h_rw s1))) (h_forwards s1)) b' Hb') as (w3 & e & E3 & Hc3).
  rewrite E3. exists w3, ps. split; [done|]. split; [done|]. simpl in *. congruence.
Qed.

(** A body read and closed before: the client gets a read failure. *)
Lemma graph_worker_stale fuel graph req s w1 l b st :
  req_body_error req = None →
  routeStep fuel graph defaultNodeName (req_body req) (req_body req) (h_world s) =
    (w1, Done (Some l, st, None)) →
  w_bodies w1 !! l = Some b → b_kind b = HttpBody → b_closed b = true →
  ∃ w', graph_worker fuel graph req s =
      (mkH w' (http_error "failed to read from response body" 500
                 (header_set "Content-Type" "application/json" (h_rw s))) (h_forwards s), Done tt).
Proof.
  intros Hre Hrun Hl Hk Hcl. unfold graph_worker. rewrite Hre.
  unfold mbind, prog_bind, on_rw, modify, gets. unfold in_world at 1. rewrite Hrun.
  cbn [h_rw h_world h_forwards]. unfold body_fuel. simpl (_ ≫= _). rewrite Hl.
  unfold copy_fuel. cbn [copy_loop]. unfold mbind, prog_bind, in_world at 1, body_Read.
  cbn -[insert lookup]. rewrite Hl. cbn -[insert lookup]. rewrite Hk, Hcl. cbn -[insert lookup].
  unfold in_world, close_body. cbn -[insert lookup]. rewrite Hl. cbn -[insert lookup].
  by eexists.
Qed.

Lemma graph_worker_nil fuel graph req s w1 st :
  req_body_error req = None →
  routeStep fuel graph defaultNodeName (req_body req) (req_body req) (h_world s) =
    (w1, Done (None, st, None)) →
  (graph_worker fuel graph req s).2 = Panic nil_deref.
Proof.
  intros Hre Hrun. unfold graph_worker. rewrite Hre.
  unfold mbind, prog_bind, on_rw, modify, gets. unfold in_world at 1. rewrite Hrun. done.
Qed.

Lemma write_all_sent ps w :
  ps ≠ [] ∨ rw_sent w ≠ None → 
  rw_sent (write_all ps w) = Some (default (200%Z, rw_header w) (rw_sent w)).
Proof.
  unfold write_all. revert w. induction ps as [|p ps IH]; intros w Hne; simpl.
  { destruct (rw_sent w); simpl; naive_solver. }
  rewrite IH.
  - unfold write_piece, write_header. by destruct (rw_sent w) eqn:E; simpl; rewrite ?E.
  - right. unfold write_piece, write_header. by destruct (rw_sent w) eqn:E; simpl; rewrite ?E.
Qed.

Lemma write_all_body ps w : rw_body (write_all ps w) = rw_body w ++ ps.
Proof.
  unfold write_all. revert w. induction ps as [|p ps IH]; intros w; simpl.
  { by rewrite app_nil_r. }
  rewrite IH. unfold write_piece, write_header. destruct (rw_sent w); simpl; by rewrite <- app_assoc.
Qed.

(** ** Termination *)

Lemma total_rw_write b : total (rw_write b).
Proof. intros s. unfold rw_write. by destruct (write_error _). Qed.

Lemma total_on_rw f : total (on_rw f).
Proof. done. Qed.

Lemma total_in_world {A} (p : prog world A) : total p → total (in_world p).
Proof. intros Hp s. specialize (Hp (h_world s)). unfold in_world. by destruct (p (h_world s)). Qed.

(** The bound on the copy loop is enough for every body, closed and empty
    pieces included. *)
Lemma body_Read_fuel n r w w' c st :
  body_Read (S n) r w = (w', Done (c, st)) → c ≠ "" → body_fuel r w' < body_fuel r w.
Proof.
  unfold body_Read, body_fuel. destruct r as [l|]; [|done]. cbn -[insert lookup str_take str_drop].
  destruct (w_bodies w !! l) as [b|] eqn:Hl; [|done]. cbn -[insert lookup str_take str_drop].
  intros E Hc. assert (∃ c0 cs, b_chunks b = c0 :: cs ∧
    w' = set_bodies (<[l := after_read (S n) b c0 cs]> (w_bodies w)) w ∧ c = str_take (S n) c0)
    as (c0 & cs & Ech & -> & ->).
  { destruct (b_kind b) eqn:Ek, (b_closed b) eqn:Ec, (b_chunks b); simplify_eq;
      eexists _, _; unfold after_read; rewrite ?Ek, ?Ec; done. }
  cbn -[insert lookup str_take str_drop]. rewrite list_lookup_insert_eq by (by eapply lookup_lt_Some).
  apply after_read_fuel; [done|]. by intros ->.
Qed.

(** The bound on the copy loop is enough for every body, closed and empty
    pieces included. *)
Lemma copy_loop_ends fuel r s :
  body_fuel r (h_world s) <= fuel → (copy_loop fuel r s).2 ≠ OutOfFuel.
Proof.
  revert s. induction fuel as [|fuel IH]; intros s Hf.
  { unfold body_fuel, copy_fuel in Hf. destruct (r ≫= _); lia. }
  cbn [copy_loop]. unfold mbind, prog_bind at 1, in_world.
  destruct (body_Read BufferSize r (h_world s)) as [w1 [[c st]|m|]] eqn:E; [|done|].
  2:{ exfalso. revert E. unfold body_Read. repeat case_match; done. }
  destruct st; try done; (case_decide as Hc; [done|]);
    apply (body_Read_fuel 1023) in E; try done; fold BufferSize in *;
    unfold prog_bind, rw_write, gets; cbn [h_rw h_world];
    (destruct (write_error _); [done|]); (case_match; [|done]);
    apply IH; simpl in *; lia.
Qed.

Lemma graph_worker_total fuel graph req :
  total (routeStep fuel graph defaultNodeName (req_body req) (req_body req)) →
  total (graph_worker fuel graph req).
Proof.
  intros Hr. unfold graph_worker. destruct (req_body_error req); [apply total_on_rw|].
  apply total_bind; [by apply total_in_world|]. intros [[b st] [e|]].
  - repeat (apply total_bind; [first [apply total_on_rw|apply total_rw_write]|intros ?]). done.
  - apply total_bind; [apply total_on_rw|]. intros _ s.
    unfold mbind, prog_bind at 1, gets.
    pose proof (copy_loop_ends (body_fuel b (h_world s)) b s (Nat.le_refl _)) as Hc.
    unfold prog_bind. destruct (copy_loop _ _ _) as [s' [[]|m|]]; [|done|done].
    pose proof (total_in_world (close_body b) (total_close_body b) s') as Hcl.
    by destruct (in_world (close_body b) s') as [s'' [?|?|]].
Qed.
(** ** The graph handler *)

(** With a graph whose node references have no cycle, the graph handler
    ends on every request, whatever the services, the readers and the client's
    connection do: the recursion through the graph and the copy loop both do. *)
Lemma mcGraphHandler_terminates graph rank fuel expired req s :
  ranked graph rank → rank defaultNodeName < fuel →
  (mcGraphHandler expired fuel graph req s).2 ≠ OutOfFuel.
Proof.
  intros Hr Hf. unfold mcGraphHandler. destruct expired; [done|].
  apply graph_worker_total. by apply (total_routeStep graph rank).
Qed.

(** C33: when the graph ends with an open reader that reads to its end, the
    client receives its whole content, in non-empty pieces of at most 1024
    bytes, as JSON with status 200: the status [st] of the last step, a failed
    hard one included, is not passed on. *)
Theorem graph_handler_relays_body fuel graph req s w1 l b st :
  req_body_error req = None →
  routeStep fuel graph defaultNodeName (req_body req) (req_body req) (h_world s) =
    (w1, Done (Some l, st, None)) →
  w_bodies w1 !! l = Some b → open_body b → b_end b = None →
  (∀ ps, write_error ps = None) → h_rw s = fresh_writer →
  ∃ s', mcGraphHandler false fuel graph req s = (s', Done tt) ∧
    pieces_of BufferSize (b_content b) (rw_body (h_rw s')) ∧
    (b_content b ≠ "" →
     rw_sent (h_rw s') = Some (200%Z, {["Content-Type" := ["application/json"]]})).
Proof.
  intros Hre Hrun Hl Ho Hend Hw Hrw.
  destruct (graph_worker_relays fuel graph req s w1 l b st Hre Hrun Hl Ho)
    as (w' & ps & E & [Hcat Hps] & _); [by rewrite Hrw|].
  eexists. split; [exact E|]. cbn [h_rw]. rewrite Hend. cbn [copy_end].
  rewrite write_all_body, Hrw. split; [done|]. intros Hne.
  rewrite write_all_sent; [done|]. left. by intros ->.
Qed.

(** When the reader fails after some content, the client has already been
    sent status 200: the failure text is appended to the JSON it received. *)
Lemma graph_handler_midstream_failure fuel graph req s w1 l b st e :
  req_body_error req = None →
  routeStep fuel graph defaultNodeName (req_body req) (req_body req) (h_world s) =
    (w1, Done (Some l, st, None)) →
  w_bodies w1 !! l = Some b → open_body b → b_end b = Some e → b_content b ≠ "" →
  (∀ ps, write_error ps = None) → h_rw s = fresh_writer →
  ∃ s' ps, mcGraphHandler false fuel graph req s = (s', Done tt) ∧
    rw_sent (h_rw s') = Some (200%Z, {["Content-Type" := ["application/json"]]}) ∧
    rw_body (h_rw s') = ps ++ ["failed to read from response body" +:+ newline] ∧
    pieces_of BufferSize (b_content b) ps.
Proof.
  intros Hre Hrun Hl Ho Hend Hne Hw Hrw.
  destruct (graph_worker_relays fuel graph req s w1 l b st Hre Hrun Hl Ho)
    as (w' & ps & E & [Hcat Hps] & _); [by rewrite Hrw|].
  eexists _, ps. split; [exact E|]. cbn [h_rw]. rewrite Hend. cbn [copy_end].
  set (wr := write_all _ _).
  assert (rw_sent wr = Some (200%Z, {["Content-Type" := ["application/json"]]})) as Hs.
  { unfold wr. rewrite Hrw, write_all_sent; [done|]. left. intros ->. by rewrite <- Hcat in Hne. }
  assert (rw_body wr = ps) as Hb by (unfold wr; by rewrite Hrw, write_all_body).
  unfold http_error, write_piece, write_header, header_set. cbn [rw_sent rw_body].
  by rewrite Hs, Hb.
Qed.

Lemma vchain_none vr ns p a input d i steps prev st bs h :
  Forall (λ s, p_select p s = false) steps →
  vchain vr ns p a input d i steps prev st bs h = (h, Done (prev, st, None)).
Proof.
  intros Hs. revert i. induction Hs as [|s steps Hsel _ IH]; intros i; simpl; [done|].
  rewrite Hsel. apply IH.
Qed.

(** A Switch at the root none of whose conditions holds for a request
    crashes the router: the handler reads and closes the nil body. *)
Lemma switch_without_match_crashes fuel graph req s d :
  RouterType (node_at (Spec graph) defaultNodeName) = Switch →
  Forall (λ s, p_select (switch_policy (req_body req)) s = false)
    (Steps (node_at (Spec graph) defaultNodeName)) →
  req_body_error req = None → unmarshal_map (req_body req) = inr d →
  (mcGraphHandler false (S fuel) graph req s).2 = Panic nil_deref.
Proof.
  intros Ht Hs Hre Hu.
  assert (vroute (S fuel) graph defaultNodeName (req_body req) (req_body req)
    (w_calls (h_world s)) = (w_calls (h_world s), Done (None, 0%Z, None))) as E.
  { simpl. rewrite Ht, decide_True by done. unfold vpipeline. rewrite Hu. by apply vchain_none. }
  apply route_done in E as (w' & [[r st] e] & E & _ & Hr). destruct Hr as (Hr & -> & ->).
  simpl in Hr. subst. by eapply graph_worker_nil.
Qed.

(** A Sequence whose second step's condition does not match does not give
    the client the response of the first, as its comment says: that response
    was read and closed, and the client gets a read failure with status 500. *)
Lemma sequence_mismatch_loses_response fuel graph req s d s1 s2 rest st chunks close :
  let ns := Namespace (gmc_ObjectMeta graph) in
  RouterType (node_at (Spec graph) defaultNodeName) = Sequence →
  Steps (node_at (Spec graph) defaultNodeName) = s1 :: s2 :: rest →
  req_body_error req = None → unmarshal_map (req_body req) = inr d →
  piped ns s1 →
  http_reply (w_calls (h_world s)) (step_call ns s1 (req_body req)) = Reply st chunks None close →
  IsDownstreamService (InternalService s2) = false → Data s2 ≠ "$response" →
  Condition s2 ≠ "" → gjson_valid (concat_str chunks) = true →
  gjson_exists (concat_str chunks) (Condition s2) = false →
  ∃ w', mcGraphHandler false (S fuel) graph req s =
    (mkH w' (http_error "failed to read from response body" 500
               (header_set "Content-Type" "application/json" (h_rw s))) (h_forwards s), Done tt).
Proof.
  intros ns Ht Hs Hre Hu (Hp & Hds1 & Hc1 & Hdep) Hrep Hds2 Hdata Hc Hv Hx.
  set (c1 := step_call ns s1 (req_body req)) in *.
  assert (vroute (S fuel) graph defaultNodeName (req_body req) (req_body req)
    (w_calls (h_world s)) = (w_calls (h_world s) ++ [c1],
      Done (Some (spent (fresh chunks None close)), 500%Z, None))) as E.
  { simpl. rewrite Ht, (decide_False (P := Sequence = Switch)),
      (decide_False (P := Sequence = Ensemble)), decide_True by done.
    unfold vpipeline. rewrite Hu, Hs. simpl. rewrite Hds1, Hds2, Hc1. simpl.
    unfold step_request. rewrite decide_False by (intros [_ ?]; lia).
    unfold mbind, prog_bind, lift_outcome. simpl. rewrite vstep_plain by done. fold ns c1.
    rewrite Hrep. rewrite bool_decide_false by tauto. simpl.
    rewrite decide_False by tauto. simpl. unfold b_content. simpl.
    rewrite decide_False by (intros [_ ?]; congruence). by rewrite decide_True. }
  apply route_done in E as (w' & [[r st'] e] & E & _ & Hr).
  destruct Hr as ((l & -> & Hl) & -> & ->). by eapply graph_worker_stale.
Qed.

(** ** The dataprep handler *)

Definition reply_status (r : backend_reply) : Z :=
  match r with Up st _ _ => st | Down _ => 0 end.

Lemma write_header_sent_idem code w x :
  rw_sent w = Some x → write_header code w = w.
Proof. intros E. unfold write_header. by rewrite E. Qed.

Lemma add_headers_sent hdr w : rw_sent (add_headers hdr w) = rw_sent w.
Proof.
  unfold add_headers. revert w. induction hdr as [|[k vs] hdr IH]; intros w; simpl; [done|].
  rewrite IH. clear. revert w. induction vs as [|v vs IH]; intros w; simpl; [done|]. by rewrite IH.
Qed.

Lemma write_piece_sent b w :
  rw_sent (write_piece b w) = Some (default (200%Z, rw_header w) (rw_sent w)).
Proof. unfold write_piece, write_header. by destruct (rw_sent w) eqn:E; simpl; rewrite ?E. Qed.

(** The request the handler sends to a step's service. *)
Definition dataprep_forward (graph : GMConnector) (r : http_request) (parts : list part) (s : Step)
    : forward :=
  mkForward (req_method r) (getServiceURLByStepTarget s (Namespace (gmc_ObjectMeta graph)))
    (forward_header r form_content_type) parts.

(** The conditions under which every forwarded request gets an answer. *)
Definition forwards_ok (graph : GMConnector) (r : http_request) (parts : list part) (ms : list Step)
    : Prop :=
  (∃ fields files ps, req_form r = inr (fields, files) ∧ copy_files files = inr ps ∧
                      parts = copy_fields fields ++ ps) ∧
  Forall (λ s, new_request_error (getServiceURLByStepTarget s
                 (Namespace (gmc_ObjectMeta graph))) = None) ms ∧
  (∀ h f, ∃ st hdr content, backend h f = Up st hdr content) ∧
  ∀ ps, write_error ps = None.

Lemma run_forward_step graph r parts step ms s :
  forwards_ok graph r parts (step :: ms) →
  ∃ s', forward_step graph r step s = (s', Done true) ∧
    h_world s' = h_world s ∧ h_forwards s' = h_forwards s ++ [dataprep_forward graph r parts step] ∧
    fst <$> rw_sent (h_rw s') =
      Some (default (reply_status (backend (h_forwards s) (dataprep_forward graph r parts step)))
                    (fst <$> rw_sent (h_rw s))).
Proof.
  intros ((fields & files & ps & Hf & Hfs & ->) & Hu & Hb & Hw).
  apply Forall_cons in Hu as [Hu _]. unfold forward_step. rewrite Hf, Hfs, Hu.
  unfold mbind, prog_bind, gets, modify, on_rw. cbn [h_forwards h_rw h_world].
  fold (dataprep_forward graph r (copy_fields fields ++ ps) step).
  destruct (Hb (h_forwards s) (dataprep_forward graph r (copy_fields fields ++ ps) step))
    as (st & hdr & content & E). rewrite E.
  assert (∀ w : writer, fst <$> rw_sent (write_header st (add_headers hdr w)) =
    Some (default st (fst <$> rw_sent w))) as Hst.
  { intros w. unfold write_header. rewrite add_headers_sent. by destruct (rw_sent w) eqn:Es; simpl; rewrite ?add_headers_sent, ?Es. }
  case_decide; unfold rw_write; cbn -[add_headers write_header write_piece app]; rewrite ?Hw;
    eexists; (split; [done|]); cbn [h_forwards h_rw h_world]; (split; [done|]); (split; [done|]).
  - apply Hst.
  - rewrite write_piece_sent. specialize (Hst (h_rw s)).
    by destruct (rw_sent (write_header st (add_headers hdr (h_rw s)))).
Qed.

Lemma run_data_loop graph r parts svc steps handled s :
  forwards_ok graph r parts (filter (λ s, dataprep_match svc s = true) steps) →
  ∃ s', data_loop graph r svc steps handled s =
      (s', Done (Some (handled || negb (bool_decide
                        (filter (λ s, dataprep_match svc s = true) steps = []))))) ∧
    h_world s' = h_world s ∧
    h_forwards s' = h_forwards s ++
      (dataprep_forward graph r parts <$> filter (λ s, dataprep_match svc s = true) steps) ∧
    match filter (λ s, dataprep_match svc s = true) steps with
    | [] => s' = s
    | m :: _ => fst <$> rw_sent (h_rw s') =
        Some (default (reply_status (backend (h_forwards s) (dataprep_forward graph r parts m)))
                      (fst <$> rw_sent (h_rw s)))
    end.
Proof.
  revert handled s. induction steps as [|step steps IH]; intros handled s Hok.
  { exists s. simpl. rewrite orb_false_r, app_nil_r. done. }
  cbn [data_loop]. rewrite filter_cons in *.
  destruct (dataprep_match svc step) eqn:Em; [|by apply IH].
  rewrite decide_True in * by done.
  destruct (run_forward_step graph r parts step _ s Hok) as (s1 & E & Hw1 & Hf1 & Hst1).
  rewrite (run_bind_Done _ _ _ _ _ E).
  destruct (IH true s1) as (s2 & E2 & Hw2 & Hf2 & Hst2).
  { destruct Hok as (? & Hu & ?). apply Forall_cons in Hu as [_ Hu]. done. }
  exists s2. split; [rewrite E2; simpl; by rewrite orb_true_r|].
  split; [congruence|]. split.
  - rewrite Hf2, Hf1, <- app_assoc. done.
  - destruct (filter _ steps) as [|m ms]; [by subst|]. rewrite Hst2, Hst1. done.
Qed.

(** The steps a SERVICE_NAME header designates: the DataPrep steps of that
    service, all the DataPrep steps without such a header. *)
Definition designated (svc : string) (s : Step) : Prop :=
  StepName s = "DataPrep" ∧ (svc = "" ∨ ServiceName (InternalService s) = svc).
#[local] Instance designated_dec svc s : Decision (designated svc s).
Proof. unfold designated. apply _. Defined.

Lemma dataprep_match_iff svc s : dataprep_match svc s = true ↔ designated svc s.
Proof.
  unfold dataprep_match, designated, DataPrep.
  rewrite andb_true_iff, negb_true_iff, bool_decide_eq_true, bool_decide_eq_false.
  destruct (decide (svc = "")), (decide (svc = ServiceName (InternalService s))); naive_solver.
Qed.

(** The parts of a form: a part for each value of each field, then one for each
    file, under the keys they came with. *)
Definition parts_of (fields : list (string * list string)) (files : list (string * list form_file))
    : list part :=
  (fields ≫= λ kv, Field kv.1 <$> kv.2) ++
  (files ≫= λ kf, (λ f, File kf.1 (ff_name f) (ff_content f)) <$> kf.2).

(** Every file of the form can be opened and read. *)
Definition files_readable (files : list (string * list form_file)) : Prop :=
  Forall (λ kf, Forall (λ f, ff_open_error f = None ∧ ff_read_error f = None) kf.2) files.

Lemma copied_parts fields files :
  files_readable files →
  ∃ ps, copy_files files = inr ps ∧ copy_fields fields ++ ps = parts_of fields files.
Proof.
  intros Hf. exists (files ≫= λ kf, (λ f, File kf.1 (ff_name f) (ff_content f)) <$> kf.2). split.
  - induction Hf as [|[k fs] files Hfs _ IH]; [done|]. simpl.
    assert (copy_file_list k fs = inr ((λ f, File k (ff_name f) (ff_content f)) <$> fs)) as ->.
    { clear -Hfs. simpl in Hfs. induction Hfs as [|f fs [E1 E2] _ IH]; [done|].
      simpl. by rewrite E1, E2, IH. }
    by rewrite IH.
  - unfold parts_of. f_equal. induction fields as [|[k vs] fields IH]; [done|]. simpl. by rewrite IH.
Qed.

(** The request sent on to a step: the client's method and headers but for the
    content type, which is the new form's, to the address of the step, with the
    parts of the form. *)
Record sent_on (graph : GMConnector) (r : http_request) (parts : list part) (s : Step) (fw : forward)
    : Prop := {
  sent_method : fw_method fw = req_method r;
  sent_url : fw_url fw =
    if decide (ServiceURL s = "")
    then "http://DataPrep." +:+ Namespace (gmc_ObjectMeta graph) +:+ ".svc.cluster.local" else ServiceURL s;
  sent_type : fw_header fw !! "Content-Type" = Some [form_content_type];
  sent_header k : k ≠ "Content-Type" → fw_header fw !! k = req_header r !! k;
  sent_parts : fw_parts fw = parts
}.

Lemma dataprep_forward_sent graph r parts svc s :
  designated svc s → sent_on graph r parts s (dataprep_forward graph r parts s).
Proof.
  intros [Hs _]. split; try done.
  - unfold dataprep_forward, getServiceURLByStepTarget. simpl. by rewrite Hs.
  - unfold dataprep_forward, forward_header. simpl. by rewrite lookup_insert_eq.
  - intros k Hk. unfold dataprep_forward, forward_header. simpl. by rewrite lookup_insert_ne.
Qed.

(** C34: the dataprep handler forwards the form to every DataPrep step of the
    root whose service the SERVICE_NAME header designates (to all the DataPrep
    steps without one), in order, and sends nothing else: each of these requests
    has the method and the headers of the client but for the content type, and
    every field and file of the form; the status is that of the first service's
    answer; without a designated step the client gets 404.  (The files can be
    read, the addresses are URLs and the services answer.) *)
Theorem dataprep_forwards_form graph r s fields files :
  let svc := match req_header r !! "Service_name" with Some (v :: _) => v | _ => "" end in
  let ms := filter (designated svc) (Steps (node_at (Spec graph) "root")) in
  req_form r = inr (fields, files) → files_readable files →
  Forall (λ m, new_request_error (getServiceURLByStepTarget m (Namespace (gmc_ObjectMeta graph))) = None) ms →
  (∀ h f, ∃ st hdr content, backend h f = Up st hdr content) → (∀ ps, write_error ps = None) →
  h_rw s = fresh_writer →
  ∃ s' sent, mcDataHandler graph r s = (s', Done tt) ∧
    h_world s' = h_world s ∧ h_forwards s' = h_forwards s ++ sent ∧
    Forall2 (sent_on graph r (parts_of fields files)) ms sent ∧
    fst <$> rw_sent (h_rw s') =
      Some match sent with [] => 404%Z | fw :: _ => reply_status (backend (h_forwards s) fw) end.
Proof.
  intros svc ms Hform Hfiles Hurl Hb Hwr Hrw.
  destruct (copied_parts fields files Hfiles) as (ps & Hps & <-).
  set (parts := copy_fields fields ++ ps).
  assert (filter (λ s, dataprep_match svc s = true) (Steps (node_at (Spec graph) defaultNodeName)) = ms)
    as Ems by (apply list_filter_iff; intros m; apply dataprep_match_iff).
  assert (forwards_ok graph r parts ms) as Hok by (split_and!; [by exists fields, files, ps|done..]).
  unfold mcDataHandler. change (header_get "Service_name" (req_header r)) with svc.
  destruct (run_data_loop graph r parts svc (Steps (node_at (Spec graph) defaultNodeName)) false s)
    as (s1 & E & Hw1 & Hf1 & Hst); [by rewrite Ems|]. rewrite Ems in E, Hf1, Hst.
  assert (Forall2 (sent_on graph r parts) ms (dataprep_forward graph r parts <$> ms)) as Hsent.
  { apply Forall2_fmap_r, Forall2_same_length_lookup. split; [done|]. intros i x y Hx Hy.
    rewrite Hx in Hy. injection Hy as <-. apply list_elem_of_lookup_2, list_elem_of_filter in Hx as [Hx _].
    by apply dataprep_forward_sent with svc. }
  rewrite (run_bind_Done _ _ _ _ _ E). destruct ms as [|m ms']; simpl.
  - subst s1. unfold mbind, prog_bind, on_rw, modify, rw_write. cbn [h_rw h_forwards h_world].
    rewrite Hwr, Hrw. eexists _, []. rewrite app_nil_r. done.
  - exists s1, (dataprep_forward graph r parts <$> m :: ms'). split; [done|]. split; [done|].
    split; [done|]. split; [done|]. simpl. by rewrite Hst, Hrw.
Qed.

(** ** The UI payload *)

(** The turns of a conversation, the role and the content of each: the items of
    "messages" that are objects with a role. *)
Definition turn (item : json) : option (string * string) :=
  match item with
  | JObj m => role ← m !! "role";
              Some (sprintf_v role, match m !! "content" with Some c => sprintf_v c | None => "" end)
  | _ => None
  end.

Definition turn_text (t : string * string) : string := t.1 +:+ ":" +:+ t.2 +:+ "/n".
Definition no_system (ts : list (string * string)) : Prop := Forall (λ t, t.1 ≠ "system") ts.

(** [messages] is what a conversation becomes: the content of its last system
    turn (the text of a nil without one) and the turns after it, a line each,
    the lines ended by the two characters of "/n". *)
Inductive prompt : list (string * string) → option string → Prop :=
  | prompt_empty : prompt [] None
  | prompt_user ts : ts ≠ [] → no_system ts → prompt ts (Some ("<nil>" +:+ concat_str (turn_text <$> ts)))
  | prompt_system before content ts :
      no_system ts →
      prompt (before ++ ("system", content) :: ts)
        (Some (content +:+ "/n" +:+ concat_str (turn_text <$> ts))).

Definition text_member (key : string) (t : option string) : gmap string json :=
  match t with Some t => {[key := JStr t]} | None => ∅ end.

Lemma prompt_snoc ts p role content :
  prompt ts p →
  prompt (ts ++ [(role, content)])
    (Some (if decide (role = "system") then content +:+ "/n"
           else default "<nil>" p +:+ turn_text (role, content))).
Proof.
  intros Hp. case_decide as Hr; [subst; exact (prompt_system ts content [] (Forall_nil_2 _))|].
  assert (∀ t ts, (t +:+ concat_str (turn_text <$> ts)) +:+ turn_text (role, content) =
    t +:+ concat_str (turn_text <$> ts ++ [(role, content)])) as Hsnoc.
  { intros t l. by rewrite fmap_app, concat_str_app, <- str_app_assoc, <- (str_app_nil_r (turn_text _)). }
  assert (∀ ts, no_system ts → no_system (ts ++ [(role, content)])) as Hns.
  { intros l Hl. apply Forall_app. by repeat constructor. }
  destruct Hp as [|ts Hne Hs|before c ts Hs]; cbn [default].
  - change (prompt ([] ++ [(role, content)])
      (Some (("<nil>" +:+ concat_str (turn_text <$> [])) +:+ turn_text (role, content)))).
    rewrite Hsnoc. apply prompt_user; [done|]. apply Hns. constructor.
  - change (prompt (ts ++ [(role, content)])
      (Some (("<nil>" +:+ concat_str (turn_text <$> ts)) +:+ turn_text (role, content)))).
    rewrite Hsnoc. apply prompt_user; [by destruct ts|auto].
  - change (prompt ((before ++ ("system", c) :: ts) ++ [(role, content)])
      (Some ((c +:+ "/n" +:+ concat_str (turn_text <$> ts)) +:+ turn_text (role, content)))).
    rewrite (str_app_assoc c "/n"), Hsnoc, <- str_app_assoc, <- app_assoc.
    apply (prompt_system before c (ts ++ [(role, content)])). auto.
Qed.

Lemma add_messages_prompt key items :
  ∃ p, prompt (omap turn items) p ∧ foldl (add_message key) ∅ items = text_member key p.
Proof.
  induction items as [|item items IH] using rev_ind; [by exists None; split; [constructor|]|].
  destruct IH as (p & Hp & E). rewrite foldl_app, omap_app, E. cbn [foldl omap list_omap].
  assert (turn item = None ∧ add_message key (text_member key p) item = text_member key p ∨
    ∃ role content, turn item = Some (role, content) ∧
      add_message key (text_member key p) item = text_member key
        (Some (if decide (role = "system") then content +:+ "/n"
               else default "<nil>" p +:+ turn_text (role, content))))
    as [[-> ->]|(role & content & -> & ->)].
  - unfold turn, add_message. destruct item as [| | | | |m]; try by left.
    destruct (m !! "role") as [v|]; [|by left]. right. eexists _, _. split; [done|].
    destruct (decide (sprintf_v v = "system")); unfold text_member; destruct p as [t|];
      rewrite ?lookup_singleton_eq, ?insert_singleton_eq, ?lookup_empty, ?insert_empty; done.
  - exists p. by rewrite app_nil_r.
  - eexists. split; [by apply prompt_snoc|done].
Qed.

(** C35: the handler panics exactly when "messages" is present and neither a
    string nor an array; otherwise the payload has no "messages" member, and
    takes every other member from the request, then from the default parameters
    when the first hop is an LLM, then from the messages, which are one text
    under the hop's key: the string itself, or the conversation of the array
    from its last system turn on. *)
Theorem ui_payload_members key data :
  key ≠ "messages" →
  ((∃ m, ui_payload key data = Panic m) ↔
     ∃ v, data !! "messages" = Some v ∧ ¬ (∃ t, v = JStr t) ∧ ¬ (∃ items, v = JArr items)) ∧
  ui_payload key data ≠ OutOfFuel ∧
  ∀ p, ui_payload key data = Done p →
    p !! "messages" = None ∧
    ∃ text, match data !! "messages" with
            | Some (JStr t) => text = Some t
            | Some (JArr items) => prompt (omap turn items) text
            | _ => text = None
            end ∧
    ∀ k, k ≠ "messages" → p !! k =
      match data !! k with
      | Some v => Some v
      | None => match (if decide (key = "query") then defaultLlmParams !! k else None) with
                | Some v => Some v
                | None => if decide (k = key) then JStr <$> text else None
                end
      end.
Proof.
  intros Hkey. unfold ui_payload.
  assert (match messages_payload key data with
    | Done base => ∃ text, base = text_member key text ∧
        match data !! "messages" with
        | Some (JStr t) => text = Some t
        | Some (JArr items) => prompt (omap turn items) text
        | Some _ => False
        | None => text = None
        end
    | Panic _ => ∃ v, data !! "messages" = Some v ∧ ¬ (∃ t, v = JStr t) ∧ ¬ (∃ items, v = JArr items)
    | OutOfFuel => False
    end) as Hmp.
  { unfold messages_payload. destruct (data !! "messages") as [[| | |t|items|]|];
      try (eexists; split_and!; [done|by intros []..]).
    - by exists (Some t).
    - destruct (add_messages_prompt key items) as (p & Hp & E). by exists p.
    - by exists None. }
  destruct (messages_payload key data) as [base|m|]; [|split_and!; [split; [done|eauto]|done|done]|done].
  destruct Hmp as (text & -> & Ht). split_and!; [split; [by intros [? [=]]|]|done|].
  { intros (v & Hv & Hs & Ha). rewrite Hv in Ht. destruct v; naive_solver. }
  assert (∀ k, text_member key text !! k = if decide (k = key) then JStr <$> text else None) as Hb.
  { intros k. destruct text as [t|]; simpl; [rewrite lookup_singleton|rewrite lookup_empty];
      repeat case_decide; by subst. }
  intros p [= <-]. split.
  - rewrite lookup_union, lookup_delete_eq, (left_id_L None _).
    case_decide; rewrite ?lookup_union, Hb, decide_False; done.
  - exists text. split; [by destruct (data !! "messages") as [[]|]|]. intros k Hk.
    rewrite lookup_union, lookup_delete_ne by done. unfold LLMKeyword.
    case_decide; rewrite ?lookup_union, Hb;
      destruct (data !! k), (defaultLlmParams !! k), (decide (k = key)), text; done.
Qed.

(** A conversation that starts with anything but a system message is sent
    with the text "<nil>" before the first role, and the separators are the two
    characters of "/n". *)
Lemma ui_messages_nil_prefix key role content data rest :
  role ≠ "system" →
  data !! "messages" =
    Some (JArr (JObj (<["role" := JStr role]> {["content" := JStr content]}) :: rest)) →
  messages_payload key data =
    Done (foldl (add_message key)
            {[key := JStr ("<nil>" +:+ role +:+ ":" +:+ content +:+ "/n")]} rest).
Proof.
  intros Hr Hm. unfold messages_payload. rewrite Hm. cbn [foldl]. do 2 f_equal. unfold add_message.
  rewrite lookup_insert_eq, lookup_insert_ne, lookup_singleton_eq, lookup_empty by done. simpl.
  by rewrite decide_False.
Qed.
End http.

(** ** Concrete instances *)

Section witnesses.
#[local] Existing Instance UpEnv.

(** Backends that accept everything. *)
#[local] Instance DemoHttp : HttpEnv := {|
  write_error ps := None;
  url_parse_error url := None;
  proxy_serve url req w := write_piece "ui" w;
  slash_redirect path req w := write_header 301 (header_set "Location" (path +:+ "/") w);
  backend h f := Up (if bool_decide (h = []) then 201 else 202)%Z [] (fw_url f)
|}.

Definition demo_request : http_request := new_request "POST" "/" (obj1 "query" "deep learning").
Definition start : hstate := mkH empty_world fresh_writer [].

Definition one_step (s : Step) : GMConnector := root_node Sequence [s].
Definition failing_step : Step := hard (svc_step "Llm" "http://fail").

Lemma mcGraphHandler_terminates_witness :
  (mcGraphHandler false 2 (one_step failing_step) demo_request start).2 ≠ OutOfFuel.
Proof.
  apply (mcGraphHandler_terminates (one_step failing_step) (λ _, 0)); [|vm_compute; lia].
  intros name s Hs Hn. unfold one_step, root_node, demo_graph, node_at, Nodes in Hs. simpl in Hs.
  rewrite lookup_singleton in Hs. case_decide; simpl in Hs; [|by apply elem_of_nil in Hs].
  apply list_elem_of_singleton in Hs. by subst.
Defined.

Definition failed_world : world :=
  (routeStep 1 (one_step failing_step) "root" (req_body demo_request) (req_body demo_request)
     empty_world).1.

Lemma graph_handler_relays_body_witness :
  ∃ s', mcGraphHandler false 1 (one_step failing_step) demo_request start = (s', Done tt) ∧
    pieces_of BufferSize (b_content (fresh [obj1 "from" "http://fail"] None None))
      (rw_body (h_rw s')) ∧
    (b_content (fresh [obj1 "from" "http://fail"] None None) ≠ "" →
     rw_sent (h_rw s') = Some (200%Z, {["Content-Type" := ["application/json"]]})).
Proof.
  apply (graph_handler_relays_body 1 (one_step failing_step) demo_request start failed_world 0
    (fresh [obj1 "from" "http://fail"] None None) 503); try (vm_compute; reflexivity).
  split; [by right|]. repeat constructor. by vm_compute.
Defined.

Definition breaking_env : RouterEnv := {|
  gjson_valid s := true; gjson_exists s p := false; gjson_string s k := "";
  new_request_error url := None;
  http_reply h c := Reply 200 ["partial"] (Some "unexpected EOF") None;
  sched_order h n := seq 0 n; sched_select h i := None
|}.

Lemma graph_handler_midstream_failure_witness :
  ∃ s' ps, @mcGraphHandler breaking_env _ _ false 1 (one_step failing_step) demo_request start
      = (s', Done tt) ∧
    rw_sent (h_rw s') = Some (200%Z, {["Content-Type" := ["application/json"]]}) ∧
    rw_body (h_rw s') = ps ++ ["failed to read from response body" +:+ newline] ∧
    pieces_of BufferSize (b_content (fresh ["partial"] (Some "unexpected EOF") None)) ps.
Proof.
  apply (@graph_handler_midstream_failure breaking_env _ _ 1 (one_step failing_step) demo_request
    start (mkWorld [fresh ["partial"] (Some "unexpected EOF") None]
                   [mkCall "http://fail" (obj1 "query" "deep learning") "application/json"] None)
    0 (fresh ["partial"] (Some "unexpected EOF") None) 200 "unexpected EOF");
    try (vm_compute; reflexivity).
  - split; [by right|]. by repeat constructor.
  - done.
Defined.

Lemma switch_without_match_crashes_witness :
  (mcGraphHandler false 1 (root_node Switch [when "absent" (svc_step "Llm" "http://l")])
     demo_request start).2 = Panic nil_deref.
Proof.
  apply (switch_without_match_crashes 0 (root_node Switch [when "absent" (svc_step "Llm" "http://l")])
    demo_request start (Some {["query" := JStr "deep learning"]}));
    [reflexivity| |reflexivity|vm_compute; reflexivity].
  apply Forall_singleton. vm_compute. reflexivity.
Defined.

Lemma sequence_mismatch_loses_response_witness :
  ∃ w', mcGraphHandler false 1
      (root_node Sequence [svc_step "Embedding" "http://e"; when "absent" (svc_step "Llm" "http://l")])
      demo_request start =
    (mkH w' (http_error "failed to read from response body" 500
               (header_set "Content-Type" "application/json" fresh_writer)) [], Done tt).
Proof.
  apply (sequence_mismatch_loses_response 0
    (root_node Sequence [svc_step "Embedding" "http://e"; when "absent" (svc_step "Llm" "http://l")])
    demo_request start (Some {["query" := JStr "deep learning"]})
    (svc_step "Embedding" "http://e") (when "absent" (svc_step "Llm" "http://l")) [] 200
    [obj1 "from" "http://e"] None); try (vm_compute; reflexivity); try done.
Defined.

Definition prep_step (svc url : string) : Step :=
  mkStep "DataPrep" (mkExecutor "" (mkGMCTarget svc "" None false) "") "" "" "" url.

Definition form_request (svc : string) : http_request :=
  mkRequest "POST" "/dataprep" {["Service_name" := [svc]]} "" None
    (inr ([("path", ["a"; "b"])], [("files", [mkFile "f.txt" "text" None None])])).

Definition form_parts : list part :=
  [Field "path" "a"; Field "path" "b"; File "files" "f.txt" "text"].

Definition prep_graph : GMConnector :=
  root_node Sequence [prep_step "one" "http://1"; svc_step "Llm" "http://l"; prep_step "two" "http://2"].

Lemma dataprep_forwards_form_witness :
  ∃ s' fw, mcDataHandler prep_graph (form_request "two") start = (s', Done tt) ∧
    h_forwards s' = [] ++ [fw] ∧ sent_on prep_graph (form_request "two") form_parts
                                   (prep_step "two" "http://2") fw ∧
    fst <$> rw_sent (h_rw s') = Some 201%Z.
Proof.
  pose proof (dataprep_forwards_form prep_graph (form_request "two") start
    [("path", ["a"; "b"])] [("files", [mkFile "f.txt" "text" None None])]) as P. cbv zeta in P.
  destruct (filter _ _) as [|m [|? ?]] eqn:E in P; vm_compute in E; try discriminate E.
  injection E as <-. destruct P as (s' & sent & Hr & _ & Hf & Hs & Hst).
  - reflexivity.
  - repeat constructor.
  - repeat constructor.
  - intros h f. by eexists _, _, _.
  - done.
  - reflexivity.
  - apply Forall2_cons_inv_l in Hs as (fw & l & Hfw & ->%Forall2_nil_inv_l & ->).
    exists s', fw. split; [exact Hr|]. split; [exact Hf|]. split; [exact Hfw|]. exact Hst.
Defined.

Definition chat : gmap string json :=
  {["messages" := JArr [JObj (<["role" := JStr "system"]> {["content" := JStr "Be brief."]});
                        JObj (<["role" := JStr "user"]> {["content" := JStr "hi"]})]]}.

Lemma ui_payload_members_witness :
  (∃ m, ui_payload "query" {["messages" := JNull]} = Panic m) ∧
  ∃ p, ui_payload "text" chat = Done p ∧ p !! "messages" = None ∧ p !! "top_k" = None ∧
       p !! "text" = Some (JStr "Be brief./nuser:hi/n").
Proof.
  split.
  - apply (ui_payload_members "query" {["messages" := JNull]} ltac:(done)).
    exists JNull. split; [reflexivity|]. split; by intros [].
  - destruct (ui_payload "text" chat) as [p|m|] eqn:E; [|vm_compute in E; discriminate E..].
    destruct (ui_payload_members "text" chat ltac:(done)) as (_ & _ & P).
    destruct (P p E) as (Hm & text & Ht & Hk). exists p. split; [done|]. split; [exact Hm|].
    split; [rewrite (Hk "top_k") by done; vm_compute; reflexivity|].
    vm_compute in E. injection E as <-. reflexivity.
Defined.

Lemma ui_messages_nil_prefix_witness :
  messages_payload "query"
    {["messages" := JArr [JObj (<["role" := JStr "user"]> {["content" := JStr "hi"]})]]} =
  Done {["query" := JStr "<nil>user:hi/n"]}.
Proof. apply (ui_messages_nil_prefix "query" "user" "hi" _ []); [done|reflexivity]. Defined.
End witnesses.
