(* ===== verification/RouterTimeout.v ===== *)
(** * The time-out of mcGraphHandler

    cmd/router/main.go, mcGraphHandler: the handler starts a goroutine that
    serves the request and waits for its end or for one minute.  When the minute
    is over it answers 504 by itself and returns; the goroutine is not stopped,
    and both use the same response writer.  Here the two run step by step: one
    call on the writer, one read of the body or one routing at a time, in any
    order.  What net/http documents ends where the goroutine uses the writer of
    a handler that has returned: such an execution stops there, marked as
    misuse.  RouterHttp has the goroutine as one program, and the theorems relate
    the two. *)

From stdpp Require Import relations.
From S2P Require Import Prelude GoStrings ApiTypes Json HttpWriter RouterWorld Router RouterHttp.

(** ** Actions on a response writer *)

Inductive waction :=
  | ASet (key value : string)      (* Header().Set *)
  | AStatus (code : Z)             (* WriteHeader *)
  | AWrite (b : string).           (* Write *)

Definition http_error_actions (msg : string) (code : Z) : list waction :=
  [ASet "Content-Type" "text/plain; charset=utf-8"; ASet "X-Content-Type-Options" "nosniff";
   AStatus code; AWrite (msg +:+ newline)].

(** ** States *)

(** Where the goroutine is: at its start; about to make the calls that answer an
    error, then return; about to set the content type, to read, to write a
    piece, to flush; about to report a failed read; about to run the deferred
    Close; ended. *)
Inductive worker :=
  | WStart
  | WError (acts : list waction)
  | WHeader (r : bodyref)
  | WRead (r : bodyref)
  | WWrite (r : bodyref) (b : string)
  | WFlush (r : bodyref)
  | WFail (r : bodyref) (acts : list waction)
  | WClose (r : bodyref)
  | WDone.

(** The handler: at its select, answering the time-out, returned (because of
    the time-out or not). *)
Inductive waiter :=
  | HSelect
  | HError (acts : list waction)
  | HReturned (expired : bool).

(** Does its next step use the writer? *)
Definition uses_writer (p : worker) : bool :=
  match p with
  | WError (_ :: _) | WHeader _ | WWrite _ _ | WFlush _ | WFail _ (_ :: _) => true
  | _ => false
  end.

Record timed := mkTimed {
  t_state : hstate;
  t_worker : worker;
  t_handler : waiter;
  t_misuse : bool;
  t_crash : option string
}.

(** Who moves: the goroutine, the handler when the goroutine is done, the
    handler when the time is over, the handler in its answer. *)
Inductive tmove := Work | Finish | Expire | Answer.

Section timeout.
Context `{RouterEnv} `{HttpEnv} `{JsonCodec}.
Context (fuel : nat) (mcGraph : GMConnector) (req : http_request).

(** ** Steps *)

Definition act (a : waction) : prog hstate unit :=
  match a with
  | ASet k v => on_rw (header_set k v)
  | AStatus code => on_rw (write_header code)
  | AWrite b => _ ← rw_write b; mret tt
  end.

Definition worker_step (p : worker) : prog hstate worker :=
  match p with
  | WStart =>
      match req_body_error req with
      | Some _ => mret (WError (http_error_actions "failed to read request body" 400))
      | None =>
          r ← in_world (routeStep fuel mcGraph defaultNodeName (req_body req) (req_body req));
          let '(responseBody, statusCode, err) := r in
          mret (match err with
                | Some err =>
                    WError [ASet "Content-Type" "application/json"; AStatus statusCode;
                            AWrite (prepareErrorResponse err "Failed to process request")]
                | None => WHeader responseBody
                end)
      end
  | WError (a :: acts) => _ ← act a; mret (WError acts)
  | WError [] => mret WDone
  | WHeader r => _ ← act (ASet "Content-Type" "application/json"); mret (WRead r)
  | WRead r =>
      rd ← in_world (body_Read BufferSize r);
      mret (match rd with
            | (_, ReadFail _) => WFail r (http_error_actions "failed to read from response body" 500)
            | (b, _) => if decide (b = "") then WClose r else WWrite r b
            end)
  | WWrite r b =>
      e ← rw_write b;
      mret (match e with Some _ => WClose r | None => WFlush r end)
  | WFlush r => fl ← gets (λ s, rw_flusher (h_rw s)); mret (if fl : bool then WRead r else WClose r)
  | WFail r (a :: acts) => _ ← act a; mret (WFail r acts)
  | WFail r [] => mret (WClose r)
  | WClose r => _ ← in_world (close_body r); mret WDone
  | WDone => mret WDone
  end.

(** Is the writer the one of a handler that has returned? *)
Definition stale_use (hp : waiter) (p : worker) : bool :=
  match hp with HReturned _ => uses_writer p | _ => false end.

Definition ended (p : worker) : bool := match p with WDone => true | _ => false end.

Definition work (st : timed) : option timed :=
  let p := t_worker st in
  if ended p then None
  else if stale_use (t_handler st) p
  then Some (mkTimed (t_state st) p (t_handler st) true (t_crash st))
  else
    match worker_step p (t_state st) with
    | (s, Done p') => Some (mkTimed s p' (t_handler st) (t_misuse st) (t_crash st))
    | (s, Panic m) => Some (mkTimed s p (t_handler st) (t_misuse st) (Some m))
    | (_, OutOfFuel) => None
    end.

Definition timed_do (m : tmove) (st : timed) : option timed :=
  match t_misuse st, t_crash st with
  | false, None =>
      match m, t_handler st with
      | Work, _ => work st
      | Finish, HSelect =>
          match t_worker st with
          | WDone => Some (mkTimed (t_state st) WDone (HReturned false) false None)
          | _ => None
          end
      | Expire, HSelect =>
          Some (mkTimed (t_state st) (t_worker st)
                  (HError (http_error_actions "request timed out" 504)) false None)
      | Answer, HError (a :: acts) =>
          let '(s, _) := act a (t_state st) in
          Some (mkTimed s (t_worker st) (HError acts) false None)
      | Answer, HError [] =>
          Some (mkTimed (t_state st) (t_worker st) (HReturned true) false None)
      | _, _ => None
      end
  | _, _ => None
  end.

Definition tstep (st st' : timed) : Prop := ∃ m, timed_do m st = Some st'.

Definition timed_init (s : hstate) : timed := mkTimed s WStart HSelect false None.

(** The states of the executions that start in [s]. *)
Definition timed_reachable (s : hstate) : timed → Prop := rtc tstep (timed_init s).

(** A schedule. *)
Fixpoint timed_run (ms : list tmove) (st : timed) : option timed :=
  match ms with
  | [] => Some st
  | m :: ms => match timed_do m st with Some st' => timed_run ms st' | None => None end
  end.

(** The goroutine alone. *)
Definition alone (x y : worker * hstate) : Prop :=
  x.1 ≠ WDone ∧ worker_step x.1 x.2 = (y.2, Done y.1).
End timeout.
