(* ===== verification/RouterTimeoutTheorems.v ===== *)
(** * The time-out of mcGraphHandler: what the client sees

    Without a time-out every execution is the sequential one of RouterHttp.
    With one, the client's body is what the goroutine has written with the
    time-out line somewhere in it, under the status 504 or the goroutine's own;
    and the time-out can fall at any point of the goroutine, after which it goes
    on using the writer. *)

From stdpp Require Import relations.
From S2P Require Import Prelude GoStrings ApiTypes Json JsonText HttpWriter RouterWorld Router.
From S2P Require Import RouterDemo RouterHttp RouterHttpTheorems RouterTimeout.

Section timeout.
Context `{RouterEnv} `{HttpEnv} `{JsonCodec}.
Context (fuel : nat) (mcGraph : GMConnector) (req : http_request).

(** The connection takes the bytes. *)
Hypothesis connected : ∀ ps, write_error ps = None.

Lemma rw_write_connected b s :
  rw_write b s = (mkH (h_world s) (write_piece b (h_rw s)) (h_forwards s), Done None).
Proof. unfold rw_write. by rewrite connected. Qed.

(** ** The rest of the goroutine *)

Fixpoint run_acts (acts : list waction) : prog hstate unit :=
  match acts with [] => mret tt | a :: acts => _ ← act a; run_acts acts end.

Lemma run_http_error msg code s :
  run_acts (http_error_actions msg code) s = on_rw (http_error msg code) s.
Proof.
  unfold http_error_actions. cbn [run_acts act]. unfold mbind, prog_bind, on_rw, modify.
  by rewrite rw_write_connected.
Qed.

Definition close_rest (r : bodyref) : prog hstate unit := _ ← in_world (close_body r); mret tt.
Definition read_rest (r : bodyref) : prog hstate unit :=
  n ← gets (λ s, body_fuel r (h_world s)); _ ← copy_loop n r; close_rest r.
Definition flush_rest (r : bodyref) : prog hstate unit :=
  fl ← gets (λ s, rw_flusher (h_rw s)); if fl : bool then read_rest r else close_rest r.

(** What the goroutine still does, as a program. *)
Definition rest (p : worker) : prog hstate unit :=
  match p with
  | WStart => graph_worker fuel mcGraph req
  | WError acts => run_acts acts
  | WHeader r => _ ← on_rw (header_set "Content-Type" "application/json"); read_rest r
  | WRead r => read_rest r
  | WWrite r b => _ ← rw_write b; flush_rest r
  | WFlush r => flush_rest r
  | WFail r acts => _ ← run_acts acts; close_rest r
  | WClose r => close_rest r
  | WDone => mret tt
  end.

(** More fuel than needed for the copy loop changes nothing. *)
Lemma copy_loop_le n r : prog_le (copy_loop n r) (copy_loop (S n) r).
Proof.
  induction n as [|n IH]; [apply prog_le_out_of_fuel|].
  cbn [copy_loop]. apply prog_le_bind; [reflexivity|]. intros [c [| |e]]; [| |reflexivity];
    (case_decide; [reflexivity|]); (apply prog_le_bind; [reflexivity|]); intros [e|];
    try reflexivity; (apply prog_le_bind; [reflexivity|]); intros [|]; [exact IH|reflexivity..|exact IH|reflexivity].
Qed.

Lemma copy_loop_enough n m r s :
  body_fuel r (h_world s) <= n → n <= m → copy_loop m r s = copy_loop n r s.
Proof.
  intros Hn. induction 1 as [|m Hm IH]; [done|]. rewrite <- IH.
  destruct (copy_loop_le m r s) as [E|E]; [|done]. exfalso.
  apply (copy_loop_ends m r s); [lia|done].
Qed.

Lemma copy_after_piece n r s :
  body_fuel r (h_world s) <= n →
  (_ ← (fl ← gets (λ s, rw_flusher (h_rw s)); if fl : bool then copy_loop n r else mret tt);
   close_rest r) s = flush_rest r s.
Proof.
  intros Hn. unfold flush_rest, read_rest, gets, mbind, prog_bind. simpl.
  destruct (rw_flusher (h_rw s)); [|done]. by rewrite (copy_loop_enough _ n r s (Nat.le_refl _) Hn).
Qed.

Lemma run_bind_ext {A B} (p q : prog hstate A) (k : A → prog hstate B) s :
  p s = q s → (p ≫= k) s = (q ≫= k) s.
Proof. unfold mbind, prog_bind. by intros ->. Qed.

(** Reading a piece, then copying the rest, with the fuel of the reader as it is
    then. *)
Lemma rest_read r s s' p' :
  worker_step fuel mcGraph req (WRead r) s = (s', Done p') → read_rest r s = rest p' s'.
Proof.
  cbn [worker_step]. intros (s1 & [c st] & Hrd & Hp)%run_bind_inv.
  injection Hp as <- <-. unfold read_rest.
  rewrite (run_bind_Done (gets _) _ s s (body_fuel r (h_world s))) by done.
  assert (∃ n, body_fuel r (h_world s) = S n) as [n En].
  { unfold body_fuel, copy_fuel. destruct (r ≫= _); eauto. }
  rewrite En. cbn [copy_loop]. rewrite bind_assoc, (run_bind_Done _ _ _ _ _ Hrd).
  assert (c ≠ "" → (_ ← (e ← rw_write c; match e with
      | Some _ => mret tt
      | None => fl ← gets (λ s, rw_flusher (h_rw s)); if fl : bool then copy_loop n r else mret tt
      end); close_rest r) s1 = (_ ← rw_write c; flush_rest r) s1) as Hw.
  { intros Hc. rewrite bind_assoc, !(run_bind_Done _ _ _ _ _ (rw_write_connected c s1)).
    apply copy_after_piece. simpl. unfold in_world in Hrd.
    destruct (body_Read BufferSize r (h_world s)) as [w1 o] eqn:E. injection Hrd as <- ->.
    apply (body_Read_fuel 1023) in E; [|done]. simpl. lia. }
  destruct st as [| |e]; [| |apply run_bind_ext; symmetry; apply run_http_error];
    (destruct (decide (c = "")) as [Hc|Hc]; [done|]); exact (Hw Hc).
Qed.

(** A step of the goroutine is a first part of what it still does. *)
Lemma rest_step p s s' p' :
  p ≠ WDone → worker_step fuel mcGraph req p s = (s', Done p') →
  rest p s = rest p' s'.
Proof.
  intros Hp Hs. destruct p as [|[|a acts]|r|r|r b|r|r [|a acts]|r|]; cbn [worker_step rest] in *;
    try done.
  - unfold graph_worker. destruct (req_body_error req).
    + injection Hs as <- <-. symmetry. apply run_http_error.
    + apply run_bind_inv in Hs as (s1 & [[b st] err] & Hr & Hp'). injection Hp' as <- <-.
      rewrite (run_bind_Done _ _ _ _ _ Hr). destruct err as [err|]; [|done].
      cbn [run_acts act rest]. unfold mbind, prog_bind, on_rw, modify.
      by rewrite !rw_write_connected.
  - by injection Hs as <- <-.
  - apply run_bind_inv in Hs as (s1 & [] & Hr & Hp'). injection Hp' as <- <-. cbn [run_acts].
    by rewrite (run_bind_Done _ _ _ _ _ Hr).
  - apply run_bind_inv in Hs as (s1 & [] & Hr & Hp'). injection Hp' as <- <-.
    by rewrite (run_bind_Done _ _ _ _ _ Hr).
  - by apply rest_read.
  - apply run_bind_inv in Hs as (s1 & e & Hr & Hp'). injection Hp' as <- <-.
    rewrite rw_write_connected in Hr. injection Hr as <- <-.
    by rewrite (run_bind_Done _ _ _ _ _ (rw_write_connected b s)).
  - unfold flush_rest. apply run_bind_inv in Hs as (s1 & fl & Hr & Hp'). injection Hp' as <- <-.
    rewrite (run_bind_Done _ _ _ _ _ Hr). by destruct fl.
  - by injection Hs as <- <-.
  - apply run_bind_inv in Hs as (s1 & [] & Hr & Hp'). injection Hp' as <- <-. cbn [run_acts rest].
    rewrite bind_assoc. by rewrite (run_bind_Done _ _ _ _ _ Hr).
  - apply run_bind_inv in Hs as (s1 & e & Hr & Hp'). injection Hp' as <- <-.
    unfold close_rest. by rewrite (run_bind_Done _ _ _ _ _ Hr).
Qed.

(** The goroutine alone is the program of RouterHttp. *)
Lemma alone_rest x y : rtc (alone fuel mcGraph req) x y → rest x.1 x.2 = rest y.1 y.2.
Proof.
  induction 1 as [x|x y z [Hp Hs] _ IH]; [done|]. rewrite <- IH. by apply rest_step.
Qed.

Lemma alone_done s s' :
  rtc (alone fuel mcGraph req) (WStart, s) (WDone, s') →
  graph_worker fuel mcGraph req s = (s', Done tt).
Proof. intros Hr. apply (alone_rest _ _ Hr). Qed.

(** ** Two users of one writer *)

Definition act_rw (a : waction) (w : writer) : writer :=
  match a with
  | ASet k v => header_set k v w
  | AStatus code => write_header code w
  | AWrite b => write_piece b w
  end.
Definition opt_act_rw (a : option waction) (w : writer) : writer :=
  match a with Some a => act_rw a w | None => w end.

Lemma run_act a s : act a s = (mkH (h_world s) (act_rw a (h_rw s)) (h_forwards s), Done tt).
Proof.
  destruct a as [k v|c|b]; [done..|]. cbn [act].
  by rewrite (run_bind_Done _ _ _ _ _ (rw_write_connected b s)).
Qed.

(** The status that was sent, if any. *)
Definition sent_code (w : writer) : option Z := fst <$> rw_sent w.

Definition timeout_line : string := "request timed out" +:+ newline.
Definition timeout_actions : list waction := http_error_actions "request timed out" 504.

(** [w] is the shared writer, [ww] the one the goroutine alone would have: before
    the handler sends its status, after it, after its line is written. *)
Definition early (w ww : writer) : Prop := rw_body w = rw_body ww ∧ sent_code w = sent_code ww.
Definition decided (w ww : writer) : Prop :=
  sent_code w = Some 504%Z ∨ (sent_code w = sent_code ww ∧ is_Some (sent_code ww)).
Definition late (w ww : writer) : Prop := rw_body w = rw_body ww ∧ decided w ww.
Definition spliced (w ww : writer) : Prop :=
  (∃ l1 l2, rw_body w = l1 ++ timeout_line :: l2 ∧ rw_body ww = l1 ++ l2) ∧ decided w ww.

Definition overlap (hp : waiter) (w ww : writer) : Prop :=
  rw_flusher w = rw_flusher ww ∧
  match hp with
  | HSelect | HReturned false => w = ww
  | HReturned true => spliced w ww
  | HError acts =>
      ∃ k, acts = drop k timeout_actions ∧
           match k with 0 | 1 | 2 => early w ww | 3 => late w ww | _ => spliced w ww end
  end.

Lemma act_flusher a w : rw_flusher (act_rw a w) = rw_flusher w.
Proof. destruct a; simpl; unfold write_piece, write_header; by destruct (rw_sent w). Qed.

Lemma act_body a w ww :
  ∃ l, rw_body (act_rw a w) = rw_body w ++ l ∧ rw_body (act_rw a ww) = rw_body ww ++ l.
Proof.
  destruct a as [k v|c|b]; simpl; unfold write_piece, write_header;
    [exists []|exists []|exists [b]]; destruct (rw_sent w), (rw_sent ww); simpl;
    by rewrite ?app_nil_r.
Qed.

Lemma act_sent a w : is_Some (sent_code w) → sent_code (act_rw a w) = sent_code w.
Proof.
  unfold sent_code. intros [c Hc].
  destruct a; simpl; unfold write_piece, write_header; destruct (rw_sent w) eqn:Ew; simpl;
    by rewrite ?Ew.
Qed.

Lemma act_sent_eq a w ww :
  sent_code w = sent_code ww → sent_code (act_rw a w) = sent_code (act_rw a ww).
Proof.
  unfold sent_code. intros E.
  destruct a; simpl; unfold write_piece, write_header;
    destruct (rw_sent w) eqn:Ew, (rw_sent ww) eqn:Eww; simpl in *;
    rewrite ?Ew, ?Eww; simpl; congruence.
Qed.

Lemma act_decided a w ww : decided w ww → decided (act_rw a w) (act_rw a ww).
Proof.
  intros [E|[E Hs]].
  - left. rewrite act_sent; [done|]. by eexists.
  - right. rewrite !act_sent; [done..|congruence].
Qed.

(** The goroutine's action, on both. *)
Lemma act_overlap hp a w ww : overlap hp w ww → overlap hp (act_rw a w) (act_rw a ww).
Proof.
  intros [Hf Ho]. split; [by rewrite !act_flusher|].
  assert (early w ww → early (act_rw a w) (act_rw a ww)) as He.
  { intros [Hb Hs]. split; [|by apply act_sent_eq].
    destruct (act_body a w ww) as (l & -> & ->). by rewrite Hb. }
  assert (late w ww → late (act_rw a w) (act_rw a ww)) as Hl.
  { intros [Hb Hs]. split; [|by apply act_decided].
    destruct (act_body a w ww) as (l & -> & ->). by rewrite Hb. }
  assert (spliced w ww → spliced (act_rw a w) (act_rw a ww)) as Hsp.
  { intros [(l1 & l2 & E1 & E2) Hs]. split; [|by apply act_decided].
    destruct (act_body a w ww) as (l & -> & ->). exists l1, (l2 ++ l).
    by rewrite E1, E2, <- !app_assoc. }
  destruct hp as [|acts|[]]; [by subst| |by auto|by subst].
  destruct Ho as (k & -> & Ho). exists k. split; [done|].
  destruct k as [|[|[|[|k]]]]; auto.
Qed.

(** The handler's action, on the shared writer. *)
Lemma answer_overlap a acts w ww :
  overlap (HError (a :: acts)) w ww → overlap (HError acts) (act_rw a w) ww.
Proof.
  intros [Hf (k & E & Ho)]. split; [by rewrite act_flusher|]. exists (S k).
  destruct k as [|[|[|[|k]]]]; simpl in E; try (by destruct k); injection E as -> ->;
    (split; [done|]); cbn [act_rw].
  - done.
  - done.
  - destruct Ho as [Hb Hs]. unfold late, decided, write_header, sent_code in *.
    destruct (rw_sent w) as [[c hd]|] eqn:Ew; simpl; [|by auto]. rewrite Ew.
    split; [done|]. right. rewrite <- Hs. by eauto.
  - destruct Ho as [Hb Hs]. split.
    + exists (rw_body ww), []. rewrite app_nil_r. split; [|done]. rewrite <- Hb.
      unfold write_piece, write_header. by destruct (rw_sent w).
    + change (decided (act_rw (AWrite timeout_line) w) ww).
      assert (is_Some (sent_code w)) as Hw by (destruct Hs as [->|[-> ?]]; eauto).
      unfold decided in *. by rewrite (act_sent (AWrite timeout_line) w Hw).
Qed.

(** ** The goroutine does not look at the writer *)

(** The same state, but for the writer. *)
Definition same_but_rw (s ss : hstate) : Prop :=
  h_world ss = h_world s ∧ h_forwards ss = h_forwards s ∧ rw_flusher (h_rw s) = rw_flusher (h_rw ss).

(** From such states [q] ends in such states, with the same value, by at most one
    action on each writer. *)
Definition parallel {A} (q : prog hstate A) : Prop :=
  ∀ s ss s1 x, q s = (s1, Done x) → same_but_rw s ss →
    ∃ a ss1, q ss = (ss1, Done x) ∧ same_but_rw s1 ss1 ∧
      h_rw s1 = opt_act_rw a (h_rw s) ∧ h_rw ss1 = opt_act_rw a (h_rw ss).

Lemma parallel_map {A B} (q : prog hstate A) (k : A → B) :
  parallel q → parallel (x ← q; mret (k x)).
Proof.
  intros Hq s ss s1 y (s2 & x & Hx & Hk)%run_bind_inv Hp. injection Hk as <- <-.
  destruct (Hq s ss s2 x Hx Hp) as (a & ss1 & E & ? & ? & ?). exists a, ss1.
  by rewrite (run_bind_Done _ _ _ _ _ E).
Qed.

Lemma parallel_ret {A} (x : A) : parallel (mret x).
Proof. intros s ss s1 y [= <- <-] Hp. by exists None, ss. Qed.

Lemma parallel_world {A} (p : prog world A) : parallel (in_world p).
Proof.
  unfold in_world. intros s ss s1 x E (Hw & Hf & Hfl). rewrite Hw.
  destruct (p (h_world s)) as [w o]. injection E as <- ->. exists None. eexists. by split_and!.
Qed.

Lemma parallel_act a : parallel (act a).
Proof.
  intros s ss s1 []. rewrite !run_act. intros [= <-] (Hw & Hf & Hfl). exists (Some a). eexists.
  split; [done|]. split; [|done]. split_and!; [done..|]. simpl. by rewrite !act_flusher.
Qed.

Lemma parallel_write b : parallel (rw_write b).
Proof.
  intros s ss s1 e E Hp. rewrite rw_write_connected in E. injection E as <- <-.
  destruct (parallel_act (AWrite b) s ss (mkH (h_world s) (write_piece b (h_rw s)) (h_forwards s)) tt)
    as (a & ss1 & E & H2 & H3 & H4); [by rewrite run_act|done|].
  exists a, ss1. rewrite rw_write_connected. rewrite run_act in E. by injection E as <-.
Qed.

Lemma worker_step_parallel p : parallel (worker_step fuel mcGraph req p).
Proof.
  destruct p as [|[|a acts]|r|r|r b|r|r [|a acts]|r|]; cbn [worker_step];
    eauto using parallel_ret, parallel_map, parallel_act, parallel_world, parallel_write.
  - destruct (req_body_error req); [apply parallel_ret|]. intros s ss s1 p' Hs Hp.
    apply run_bind_inv in Hs as (s2 & [[b st] err] & Hq & Hk). injection Hk as <- <-.
    destruct (parallel_world _ s ss s2 _ Hq Hp) as (a & ss1 & E & ?). exists a, ss1.
    by rewrite (run_bind_Done _ _ _ _ _ E).
  - intros s ss s1 p' Hs Hp. unfold gets, mbind, prog_bind in *.
    destruct Hp as (Hw & Hf & Hfl). rewrite <- Hfl. by apply (parallel_ret _ s).
Qed.

(** ** Reachable states *)

(** There is a run of the goroutine alone up to where it is, with the same world
    and a writer related to the shared one. *)
Definition timed_inv (s0 : hstate) (st : timed) : Prop :=
  t_crash st = None →
  (∃ ss, rtc (alone fuel mcGraph req) (WStart, s0) (t_worker st, ss) ∧
     same_but_rw (t_state st) ss ∧ overlap (t_handler st) (h_rw (t_state st)) (h_rw ss)) ∧
  (t_handler st = HReturned false → t_worker st = WDone).

Lemma opt_act_overlap hp a w ww :
  overlap hp w ww → overlap hp (opt_act_rw a w) (opt_act_rw a ww).
Proof. destruct a; [apply act_overlap|done]. Qed.

Lemma work_inv s0 st st' :
  timed_inv s0 st → t_crash st = None → work fuel mcGraph req st = Some st' → timed_inv s0 st'.
Proof.
  intros Hinv Hc Hw Hc'. destruct (Hinv Hc) as [(ss & Hrun & Hsame & Hov) Hret].
  unfold work in Hw. set (p := t_worker st) in *.
  destruct (ended p) eqn:Hp; [done|].
  destruct (stale_use (t_handler st) p); [injection Hw as <-; split; [by exists ss|done]|].
  destruct (worker_step _ _ _ p _) as [s1 [p'|m|]] eqn:Hs; simplify_eq/=.
  destruct (worker_step_parallel p _ ss s1 p' Hs Hsame) as (a & ss1 & Hs1 & Hsame1 & E1 & E2).
  split.
  - exists ss1. split; [|split; [done|]].
    + eapply rtc_r; [exact Hrun|]. split; [|done]. by intros [= E]; rewrite E in Hp.
    + simpl. rewrite E1, E2. by apply opt_act_overlap.
  - intros E. apply Hret in E. by rewrite E in Hp.
Qed.

Lemma timed_inv_step s0 st st' :
  timed_inv s0 st → tstep fuel mcGraph req st st' → timed_inv s0 st'.
Proof.
  intros Hinv [m Hm]. unfold timed_do in Hm. destruct (t_misuse st); [done|].
  destruct (t_crash st) eqn:Hc; [done|].
  destruct m; [by apply (work_inv s0 st)|..]; destruct (Hinv Hc) as [(ss & Hrun & Hsame & Hov) Hret];
    destruct (t_handler st) as [|[|a acts]|]; try done; intros _.
  - destruct (t_worker st); try done. injection Hm as <-. split; [|done]. by exists ss.
  - injection Hm as <-. split; [|done]. exists ss. split_and!; [done..|]. destruct Hov as [Hf Hov].
    split; [done|]. exists 0. split; [done|]. simpl. by rewrite Hov.
  - injection Hm as <-. split; [|done]. exists ss. split_and!; [done..|].
    destruct Hov as [Hf (k & E & Ho)]. split; [done|].
    destruct k as [|[|[|[|k]]]]; done.
  - rewrite run_act in Hm. injection Hm as <-. split; [|done]. exists ss.
    destruct Hsame as (H2 & H3 & H4). split_and!; [done| |by apply answer_overlap].
    split_and!; [done..|]. simpl. by rewrite act_flusher.
Qed.

Lemma timed_reachable_inv s st : timed_reachable fuel mcGraph req s st → timed_inv s st.
Proof.
  intros Hr. assert (timed_inv s (timed_init s)) as Hinit.
  { intros _. split; [|done]. by exists s. }
  revert Hinit. unfold timed_reachable in Hr. induction Hr as [|x y z Hxy _ IH]; [done|].
  intros Hx. apply IH. by apply (timed_inv_step s x).
Qed.

(** C20: when mcGraphHandler returns because its goroutine is done, the minute not being over, the execution was the sequential run of the goroutine, whatever the interleaving: the same calls, the same answer. *)
Theorem graph_handler_without_timeout s st :
  timed_reachable fuel mcGraph req s st → t_crash st = None → t_handler st = HReturned false →
  mcGraphHandler false fuel mcGraph req s = (t_state st, Done tt).
Proof.
  intros Hr Hc Hh. destruct (timed_reachable_inv s st Hr Hc) as [(ss & Hrun & Hsame & Hov) Hret].
  rewrite (Hret Hh) in Hrun. rewrite Hh in Hov. destruct Hov as [_ Hrw], Hsame as (Hw & Hf & _).
  apply alone_done in Hrun. unfold mcGraphHandler. rewrite Hrun.
  destruct (t_state st), ss; simpl in *; congruence.
Qed.

(** C17: when it returns because the minute is over (and no write to the client fails, which the server's own write time-out could cause), the client has been sent exactly one status, 504 or the goroutine's own, and the body is what the goroutine has written so far with the line "request timed out" somewhere in it; the calls made to the steps are those of the goroutine. *)
Theorem timed_out_response s st :
  timed_reachable fuel mcGraph req s st → t_crash st = None → t_handler st = HReturned true →
  ∃ ss l1 l2, rtc (alone fuel mcGraph req) (WStart, s) (t_worker st, ss) ∧
    h_world (t_state st) = h_world ss ∧
    rw_body (h_rw ss) = l1 ++ l2 ∧ rw_body (h_rw (t_state st)) = l1 ++ timeout_line :: l2 ∧
    (sent_code (h_rw (t_state st)) = Some 504%Z ∨
     (sent_code (h_rw (t_state st)) = sent_code (h_rw ss) ∧ is_Some (sent_code (h_rw ss)))).
Proof.
  intros Hr Hc Hh. destruct (timed_reachable_inv s st Hr Hc) as [(ss & Hrun & Hsame & Hov) _].
  rewrite Hh in Hov. destruct Hov as [_ [(l1 & l2 & E1 & E2) Hd]], Hsame as (Hw & _ & _).
  by exists ss, l1, l2.
Qed.

(** ** The time-out can fall anywhere *)

Lemma alone_timed x y :
  rtc (alone fuel mcGraph req) x y →
  rtc (tstep fuel mcGraph req) (mkTimed x.2 x.1 HSelect false None) (mkTimed y.2 y.1 HSelect false None).
Proof.
  induction 1 as [x|x y z [Hp Hs] _ IH]; [done|]. eapply rtc_l; [|exact IH].
  exists Work. unfold timed_do, work. simpl. rewrite Hs. by destruct (x.1).
Qed.

(** The handler's answer, without the goroutine moving. *)
Definition answered (s : hstate) : hstate :=
  mkH (h_world s) (http_error "request timed out" 504 (h_rw s)) (h_forwards s).

Lemma timeout_steps s p :
  rtc (tstep fuel mcGraph req) (mkTimed s p HSelect false None)
    (mkTimed (answered s) p (HReturned true) false None).
Proof.
  eapply rtc_l; [by exists Expire|].
  do 3 (eapply rtc_l; [exists Answer; unfold timed_do; simpl; reflexivity|]).
  eapply rtc_l; [exists Answer; unfold timed_do; cbn [t_misuse t_crash t_handler]; by rewrite run_act|].
  eapply rtc_l; [by exists Answer|]. done.
Qed.

(** The goroutine uses the writer of the handler that has returned. *)
Lemma misuse_step s p b :
  uses_writer p = true →
  tstep fuel mcGraph req (mkTimed s p (HReturned b) false None) (mkTimed s p (HReturned b) true None).
Proof. intros Hu. exists Work. unfold timed_do, work. simpl. rewrite Hu. by destruct p. Qed.

(** The minute can be over at any point of the goroutine: the client then gets the text "request timed out" after what the goroutine had sent by then, with status 504 if that was nothing, or at the end of a body announced as JSON with the goroutine's status; and if the goroutine's next step uses the response writer, it uses that of a handler that has returned, which net/http forbids. *)
Lemma timeout_at_any_point s p ss :
  rtc (alone fuel mcGraph req) (WStart, s) (p, ss) →
  ∃ st, timed_reachable fuel mcGraph req s st ∧ t_crash st = None ∧
    t_handler st = HReturned true ∧ t_worker st = p ∧
    h_rw (t_state st) = http_error "request timed out" 504 (h_rw ss) ∧
    (uses_writer p = true →
     ∃ st', tstep fuel mcGraph req st st' ∧ t_misuse st' = true).
Proof.
  intros Hr%alone_timed. exists (mkTimed (answered ss) p (HReturned true) false None).
  split; [unfold timed_reachable; etrans; [exact Hr|apply timeout_steps]|]. split_and!; [done..|].
  intros Hu. exists (mkTimed (answered ss) p (HReturned true) true None). split; [|done].
  by apply misuse_step.
Qed.

(** Both the goroutine and the handler are about to write the header map. *)
Definition sets_header (p : worker) : bool :=
  match p with
  | WError (ASet _ _ :: _) | WHeader _ | WFail _ (ASet _ _ :: _) => true
  | _ => false
  end.
Definition header_race (st : timed) : Prop :=
  sets_header (t_worker st) = true ∧ ∃ k v acts, t_handler st = HError (ASet k v :: acts).

(** Routing does not touch the writer. *)
Lemma start_writer s s1 p : worker_step fuel mcGraph req WStart s = (s1, Done p) → h_rw s1 = h_rw s.
Proof.
  cbn [worker_step]. destruct (req_body_error req); [by intros [= <- <-]|].
  intros (s2 & [[b st] err] & Hr & Hk)%run_bind_inv. injection Hk as <- _.
  unfold in_world in Hr. destruct (routeStep _ _ _ _ _ (h_world s)) as [w o].
  by injection Hr as <- _.
Qed.

(** The first thing the goroutine does with the writer. *)
Lemma first_use s s' :
  graph_worker fuel mcGraph req s = (s', Done tt) →
  ∃ s1 p, worker_step fuel mcGraph req WStart s = (s1, Done p) ∧
          sets_header p = true ∧ uses_writer p = true.
Proof.
  unfold graph_worker. cbn [worker_step]. destruct (req_body_error req).
  - intros _. by eexists _, _.
  - intros (s1 & [[b st] err] & Hr & _)%run_bind_inv.
    rewrite (run_bind_Done _ _ _ _ _ Hr). eexists s1, _. split; [done|]. by destruct err.
Qed.

(** C19: for every request the goroutine would serve, there are executions in which the goroutine and the handler are about to write the header map at the same time, and executions in which the client is answered 504 and the goroutine uses the response writer afterwards: nothing orders the two. *)
Theorem timeout_races s s' :
  graph_worker fuel mcGraph req s = (s', Done tt) → h_rw s = fresh_writer →
  (∃ st, timed_reachable fuel mcGraph req s st ∧ header_race st) ∧
  (∃ st, timed_reachable fuel mcGraph req s st ∧ t_handler st = HReturned true ∧
         t_misuse st = true ∧ sent_code (h_rw (t_state st)) = Some 504%Z ∧
         rw_body (h_rw (t_state st)) = [timeout_line]).
Proof.
  intros Hrun Hrw. destruct (first_use s s' Hrun) as (s1 & p & Hs & Hset & Huse). split.
  - exists (mkTimed s1 p (HError timeout_actions) false None). split; [|split; [done|by eexists _, _, _]].
    apply (rtc_l _ _ (mkTimed s1 p HSelect false None)); [|apply rtc_once; by exists Expire].
    exists Work. unfold timed_do, work. cbn [t_misuse t_crash t_handler t_worker t_state timed_init].
    cbn [ended stale_use]. by rewrite Hs.
  - assert (same_but_rw s (answered s)) as Hsame by (by split_and!; [..|simpl; rewrite Hrw]).
    destruct (worker_step_parallel WStart s (answered s) s1 p Hs Hsame) as (a & s2 & Hs2 & _ & E1 & E2).
    exists (mkTimed s2 p (HReturned true) true None). split.
    + unfold timed_reachable. etrans; [apply timeout_steps|].
      apply (rtc_l _ _ (mkTimed s2 p (HReturned true) false None));
        [|apply rtc_once; by apply misuse_step].
      exists Work. unfold timed_do, work.
      cbn [t_misuse t_crash t_handler t_worker t_state ended stale_use uses_writer]. by rewrite Hs2.
    + cbn [t_state t_handler t_misuse]. rewrite (start_writer _ _ _ Hs2). simpl. by rewrite Hrw.
Qed.

(** ** No execution is stuck *)

Lemma misuse_returned s st :
  timed_reachable fuel mcGraph req s st → t_misuse st = true → ∃ b, t_handler st = HReturned b.
Proof.
  unfold timed_reachable. intros Hr. assert (t_misuse (timed_init s) = true →
    ∃ b, t_handler (timed_init s) = HReturned b) as Hinit by done.
  revert Hinit. induction Hr as [|x y z [m Hm] _ IH]; [done|]. intros Hx. apply IH. clear IH Hx.
  unfold timed_do in Hm. destruct (t_misuse x) eqn:Em, (t_crash x); try done.
  destruct m; [unfold work in Hm|destruct (t_handler x) as [|[|a acts]|]..]; try done.
  - destruct (ended _); [done|]. destruct (stale_use _ _) eqn:Es.
    + injection Hm as <-. intros _. simpl. destruct (t_handler x); try done. by eexists.
    + destruct (worker_step _ _ _ _ _) as [s1 [p'|e|]]; simplify_eq/=; by rewrite Em.
  - destruct (t_worker x); by simplify_eq/=.
  - by simplify_eq/=.
  - by simplify_eq/=.
  - destruct (act a (t_state x)). by simplify_eq/=.
Qed.

Lemma answers_run acts s p :
  ∃ s', timed_run fuel mcGraph req (replicate (S (length acts)) Answer)
          (mkTimed s p (HError acts) false None) = Some (mkTimed s' p (HReturned true) false None).
Proof.
  revert s. induction acts as [|a acts IH]; intros s; [by exists s|].
  cbn [length replicate timed_run timed_do t_misuse t_crash t_handler t_worker t_state].
  rewrite run_act. apply IH.
Qed.

(** C18: as long as it has not returned and the process has not crashed, the handler can return by at most six moves of its own, whatever the goroutine does: a request whose routing does not end, or whose backend does not answer, is answered all the same. *)
Theorem graph_handler_can_return s st :
  timed_reachable fuel mcGraph req s st → t_crash st = None → (∀ b, t_handler st ≠ HReturned b) →
  ∃ ms st', Forall (λ m, m ≠ Work) ms ∧ length ms <= 6 ∧
    timed_run fuel mcGraph req ms st = Some st' ∧ t_handler st' = HReturned true.
Proof.
  intros Hr Hc Hh. destruct (timed_reachable_inv s st Hr Hc) as [(ss & _ & _ & [_ Hov]) _].
  assert (t_misuse st = false) as Hm.
  { destruct (t_misuse st) eqn:E; [|done]. destruct (misuse_returned s st Hr E) as [b Hb].
    by destruct (Hh b). }
  destruct st as [hs p hp mis cr]. simpl in *. subst mis cr. destruct hp as [|acts|b].
  - destruct (answers_run timeout_actions hs p) as [s' E].
    exists (Expire :: replicate 5 Answer). eexists. split_and!; [|simpl; lia|exact E|done].
    by repeat constructor.
  - destruct (answers_run acts hs p) as [s' E].
    exists (replicate (S (length acts)) Answer). eexists. split_and!; [| |exact E|done].
    + apply Forall_replicate. done.
    + rewrite length_replicate. destruct Hov as (k & -> & _). rewrite length_drop. simpl. lia.
  - by destruct (Hh b).
Qed.

Lemma timed_run_reachable ms s st :
  timed_run fuel mcGraph req ms (timed_init s) = Some st → timed_reachable fuel mcGraph req s st.
Proof.
  unfold timed_reachable. generalize (timed_init s). induction ms as [|m ms IH]; intros x; simpl.
  { by intros [= <-]. }
  destruct (timed_do fuel mcGraph req m x) as [y|] eqn:E; [|done].
  intros Hy%IH. eapply rtc_l; [by exists m|done].
Qed.

(** A panic of the goroutine is not recovered by net/http: the process ends. *)
Lemma graph_worker_panic_crashes s s1 m :
  worker_step fuel mcGraph req WStart s = (s1, Panic m) →
  ∃ st, timed_reachable fuel mcGraph req s st ∧ t_crash st = Some m.
Proof.
  intros Hs. exists (mkTimed s1 WStart HSelect false (Some m)). split; [|done].
  apply rtc_once. exists Work. unfold timed_do, work. simpl. simpl in Hs. by rewrite Hs.
Qed.
End timeout.

(** ** Concrete executions *)

Section witnesses.
#[local] Existing Instance UpEnv.
#[local] Existing Instance DemoHttp.

(** The graph of one step, whose answer is one piece of a body. *)
Definition slow_graph : GMConnector := one_step failing_step.
Definition after (ms : list tmove) : timed :=
  default (timed_init start) (timed_run 1 slow_graph demo_request ms (timed_init start)).

Lemma after_reachable ms :
  timed_run 1 slow_graph demo_request ms (timed_init start) = Some (after ms) →
  timed_reachable 1 slow_graph demo_request start (after ms).
Proof. apply timed_run_reachable. Qed.

Lemma demo_connected ps : write_error ps = None.
Proof. done. Qed.

(** The goroutine to its end; the time-out after the first piece. *)
Definition in_time : list tmove := replicate 7 Work ++ [Finish].
Definition midstream : list tmove := replicate 4 Work ++ Expire :: replicate 5 Answer.

Lemma graph_handler_without_timeout_witness :
  t_handler (after in_time) = HReturned false ∧
  mcGraphHandler false 1 slow_graph demo_request start = (t_state (after in_time), Done tt).
Proof.
  split; [by vm_compute|].
  apply (graph_handler_without_timeout 1 slow_graph demo_request demo_connected);
    [by apply after_reachable; vm_compute|by vm_compute..].
Defined.

Lemma timed_out_response_witness :
  sent_code (h_rw (t_state (after midstream))) = Some 200%Z ∧
  length (rw_body (h_rw (t_state (after midstream)))) = 2 ∧
  ∃ ss l1 l2, rtc (alone 1 slow_graph demo_request) (WStart, start) (t_worker (after midstream), ss) ∧
    h_world (t_state (after midstream)) = h_world ss ∧
    rw_body (h_rw ss) = l1 ++ l2 ∧
    rw_body (h_rw (t_state (after midstream))) = l1 ++ timeout_line :: l2 ∧
    (sent_code (h_rw (t_state (after midstream))) = Some 504%Z ∨
     (sent_code (h_rw (t_state (after midstream))) = sent_code (h_rw ss) ∧
      is_Some (sent_code (h_rw ss)))).
Proof.
  split; [by vm_compute|]. split; [by vm_compute|].
  apply (timed_out_response 1 slow_graph demo_request demo_connected);
    [by apply after_reachable; vm_compute|by vm_compute..].
Defined.

(** The goroutine about to write its piece. *)
Definition about_to_write : timed := after (replicate 3 Work).

Lemma timeout_at_any_point_witness :
  ∃ st, timed_reachable 1 slow_graph demo_request start st ∧ t_crash st = None ∧
    t_handler st = HReturned true ∧ t_worker st = t_worker about_to_write ∧
    h_rw (t_state st) = http_error "request timed out" 504 (h_rw (t_state about_to_write)) ∧
    (uses_writer (t_worker about_to_write) = true →
     ∃ st', tstep 1 slow_graph demo_request st st' ∧ t_misuse st' = true).
Proof.
  apply (timeout_at_any_point 1 slow_graph demo_request demo_connected start
           (t_worker about_to_write) (t_state about_to_write)).
  apply (rtc_l _ _ (t_worker (after [Work]), t_state (after [Work])));
    [split; by vm_compute|].
  apply (rtc_l _ _ (t_worker (after [Work; Work]), t_state (after [Work; Work])));
    [split; by vm_compute|].
  apply rtc_once. split; by vm_compute.
Defined.

Definition served : hstate := (graph_worker 1 slow_graph demo_request start).1.

Lemma timeout_races_witness :
  (∃ st, timed_reachable 1 slow_graph demo_request start st ∧ header_race st) ∧
  (∃ st, timed_reachable 1 slow_graph demo_request start st ∧ t_handler st = HReturned true ∧
         t_misuse st = true ∧ sent_code (h_rw (t_state st)) = Some 504%Z ∧
         rw_body (h_rw (t_state st)) = [timeout_line]).
Proof.
  apply (timeout_races 1 slow_graph demo_request demo_connected start served);
    [by vm_compute|by vm_compute].
Defined.

Lemma graph_handler_can_return_witness :
  ∃ ms st', Forall (λ m, m ≠ Work) ms ∧ length ms <= 6 ∧
    timed_run 1 slow_graph demo_request ms (after [Work]) = Some st' ∧
    t_handler st' = HReturned true.
Proof.
  apply (graph_handler_can_return 1 slow_graph demo_request demo_connected start);
    [by apply after_reachable; vm_compute|by vm_compute|intros []; by vm_compute].
Defined.
End witnesses.
