(* ===== verification/Certificates.v ===== *)
(** * The webhook's certificates

    internal/controller/cert.go: [composeDNSNames], [generateCert] and
    [GenerateX509Cert].  The crypto, random and clock packages are parameters
    ([CryptoEnv]) with the documented behaviour the properties use
    ([CryptoLaws]); a run keeps the number of readings of the random source and
    of the clock. *)

From Stdlib Require Import Ascii.
From S2P Require Import Prelude GoStrings.

#[local] Open Scope prog_scope.

(** ** Certificates *)

Inductive ext_usage := ClientAuth | ServerAuth.

(** [x509.KeyUsageDigitalSignature] and [x509.KeyUsageCertSign] *)
Definition DigitalSignature : Z := Z.shiftl 1 0.
Definition CertSign : Z := Z.shiftl 1 5.

(** The fields of [x509.Certificate] that [generateCert] sets. *)
Record cert_template := mkTemplate {
  SerialNumber : Z;
  Organization : list string;
  CommonName : string;
  DNSNames : list string;
  NotBefore : Z;
  NotAfter : Z;
  IsCA : bool;
  ExtKeyUsage : list ext_usage;
  KeyUsage : Z;
  BasicConstraintsValid : bool
}.

(** Code outside the repository: crypto/rand, crypto/rsa, crypto/x509,
    crypto/tls, encoding/pem and time; the first argument of an operation that
    is not deterministic counts the readings made before. *)
Class CryptoEnv := {
  private_key : Type;
  public_key : Type;
  tls_certificate : Type;
  PublicKey : private_key → public_key;
  rand_Int : nat → Z → error + Z;
  rsa_GenerateKey : nat → Z → error + private_key;
  (** [CreateCertificate(rand, template, parent, pub, priv)] *)
  CreateCertificate : nat → cert_template → cert_template → public_key → private_key → error + string;
  MarshalPKCS1PrivateKey : private_key → string;
  (** a block of the type and the bytes *)
  pem_Encode : string → string → error + string;
  X509KeyPair : string → string → error + tls_certificate;
  (** in whole seconds, the precision of a certificate *)
  time_Now : nat → Z;
  (** [t.AddDate(1, 0, 0)] *)
  add_year : Z → Z
}.

Definition org : string := "opea.dev".

Definition composeDNSNames (webhookName webhookNamespace : string) : error + list string * string :=
  if decide (webhookName = "" ∨ webhookNamespace = "") then
    inl "webhook name or namespace is empty"
  else
    inr ([webhookName;
          webhookName +:+ "." +:+ webhookNamespace;
          webhookName +:+ "." +:+ webhookNamespace +:+ ".svc"],
         webhookName +:+ "." +:+ webhookNamespace +:+ ".svc").

Section certificates.
Context `{CryptoEnv}.

(** A reading of the random source or of the clock. *)
Definition reading {A} (f : nat → A) : prog nat A := λ n, (S n, Done (f n)).

(** [new(big.Int).Lsh(big.NewInt(1), 128)] *)
Definition serialNumberLimit : Z := Z.shiftl 1 128.

Definition serial_error (e : error) : error := "failed to generate serial number: " +:+ e.

(** The CA's PEM, the certificate's PEM and its key's PEM. *)
Definition generateCert (orgs dnsNames : list string) (commonName : string)
    : prog nat (error + string * string * string) :=
  serialNumber ←? reading (λ n, rand_Int n serialNumberLimit) wrapped serial_error;
  notBefore ← reading time_Now;
  notAfter ← reading (λ n, add_year (time_Now n));
  let ca := mkTemplate serialNumber orgs "" [] notBefore notAfter true
              [ClientAuth; ServerAuth] (Z.lor DigitalSignature CertSign) true in
  caPrivateKey ←? reading (λ n, rsa_GenerateKey n 4096);
  caBytes ←? reading (λ n, CreateCertificate n ca ca (PublicKey caPrivateKey) caPrivateKey);
  caPEM ←? mret (pem_Encode "CERTIFICATE" caBytes);
  serialNumber ←? reading (λ n, rand_Int n serialNumberLimit) wrapped serial_error;
  notBefore ← reading time_Now;
  notAfter ← reading (λ n, add_year (time_Now n));
  let newCert := mkTemplate serialNumber orgs commonName dnsNames notBefore notAfter false
                   [ClientAuth; ServerAuth] DigitalSignature false in
  newPrivateKey ←? reading (λ n, rsa_GenerateKey n 4096);
  newCertBytes ←? reading (λ n, CreateCertificate n newCert ca (PublicKey newPrivateKey) caPrivateKey);
  newCertPEM ←? mret (pem_Encode "CERTIFICATE" newCertBytes)
    wrapped (λ e, "failed to encode certificate: " +:+ e);
  newPrivateKeyPEM ←? mret (pem_Encode "RSA PRIVATE KEY" (MarshalPKCS1PrivateKey newPrivateKey))
    wrapped (λ e, "failed to encode key: " +:+ e);
  mret (inr (caPEM, newCertPEM, newPrivateKeyPEM)).

(** The certificate to serve and the CA's PEM. *)
Definition GenerateX509Cert (webhookName webhookNamespace : string)
    : prog nat (error + tls_certificate * string) :=
  names ←? mret (composeDNSNames webhookName webhookNamespace);
  let '(dnsNames, commonName) := names in
  pems ←? generateCert [org] dnsNames commonName;
  let '(caPEM, certPEM, keyPEM) := pems in
  cert ←? mret (X509KeyPair certPEM keyPEM);
  mret (inr (cert, caPEM)).
End certificates.

(** ** Trust *)

(** A certificate as its readers see it: the fields of the template, the
    subject of the issuer, its key, the key that signed it. *)
Record certificate `{CryptoEnv} := mkCertificate {
  cert_fields : cert_template;
  cert_issuer : list string * string;
  cert_key : public_key;
  cert_signer : public_key
}.

Definition subject (t : cert_template) : list string * string := (Organization t, CommonName t).

(** What the certificates here are: of the organization, with the usages of
    [generateCert], a CA only with valid basic constraints. *)
Definition plain_template (t : cert_template) : Prop :=
  Organization t = [org] ∧
  (KeyUsage t = DigitalSignature ∨ KeyUsage t = Z.lor DigitalSignature CertSign) ∧
  (IsCA t = true → BasicConstraintsValid t = true).

(** The documented behaviour of these packages: decoding gives back what was
    encoded; a created certificate that parses has the fields of its template and
    is signed by the given key on behalf of the parent, and one without names
    parses; a pair's leaf is its first CERTIFICATE block, which parses. *)
Class CryptoLaws `{CryptoEnv} := {
  (** the first block *)
  pem_Decode : string → option (string * string);
  ParseCertificate : string → option certificate;
  leaf : tls_certificate → string;
  pem_roundtrip b p : pem_Encode "CERTIFICATE" b = inr p → pem_Decode p = Some ("CERTIFICATE", b);
  create_parse n t parent pub priv b c :
    plain_template t → CreateCertificate n t parent pub priv = inr b → ParseCertificate b = Some c →
    c = mkCertificate _ t (subject parent) pub (PublicKey priv);
  nameless_parses n t parent pub priv b :
    plain_template t → CommonName t = "" → DNSNames t = [] →
    CreateCertificate n t parent pub priv = inr b → is_Some (ParseCertificate b);
  key_pair_leaf c k cert b :
    X509KeyPair c k = inr cert → pem_Decode c = Some ("CERTIFICATE", b) →
    leaf cert = b ∧ is_Some (ParseCertificate b)
}.

Section trust.
Context `{CryptoLaws}.

(** The certificate is within its validity at [t]. *)
Definition valid_at (t : Z) (c : certificate) : Prop :=
  (NotBefore (cert_fields c) <= t <= NotAfter (cert_fields c))%Z.

(** At [t], a client that has the roots of [bundle] accepts a server that
    presents [served] under the name [dns]: the root is a CA that may sign, the
    certificate was signed by its key on behalf of its subject, is for the name
    and for servers, and both are valid. *)
Definition trusts (bundle : string) (served : tls_certificate) (dns : string) (t : Z) : Prop :=
  ∃ b root crt, pem_Decode bundle = Some ("CERTIFICATE", b) ∧ ParseCertificate b = Some root ∧
    ParseCertificate (leaf served) = Some crt ∧
    IsCA (cert_fields root) = true ∧ BasicConstraintsValid (cert_fields root) = true ∧
    Z.testbit (KeyUsage (cert_fields root)) 5 = true ∧
    cert_signer crt = cert_key root ∧ cert_issuer crt = subject (cert_fields root) ∧
    dns ∈ DNSNames (cert_fields crt) ∧ ServerAuth ∈ ExtKeyUsage (cert_fields crt) ∧
    valid_at t root ∧ valid_at t crt.

Lemma reading_done {A} (f : nat → A) n n' a : reading f n = (n', Done a) → n' = S n ∧ a = f n.
Proof. by intros [= <- <-]. Qed.

(** What [generateCert] gives: the pair is trusted for each of the names, and
    exactly while both certificates are valid: each from a reading of the clock
    to a year after the next one. *)
Lemma generateCert_trusted dns cn n n' ca crt key served d t :
  generateCert [org] dns cn n = (n', Done (inr (ca, crt, key))) →
  X509KeyPair crt key = inr served → d ∈ dns →
  n' = 10 + n ∧
  (trusts ca served d t ↔
     (time_Now (S n) <= t <= add_year (time_Now (2 + n)))%Z ∧
     (time_Now (6 + n) <= t <= add_year (time_Now (7 + n)))%Z).
Proof.
  unfold generateCert.
  intros (n1 & sn & E1 & Hr)%try_bind_inr. apply reading_done in E1 as [-> E1].
  apply run_bind_inv in Hr as (n2 & nb & [-> ->]%reading_done & Hr).
  apply run_bind_inv in Hr as (n3 & na & [-> ->]%reading_done & Hr).
  apply try_bind_inr in Hr as (n4 & cak & [-> E2]%reading_done & Hr).
  apply try_bind_inr in Hr as (n5 & cab & [-> E3]%reading_done & Hr).
  apply try_bind_inr in Hr as (n6 & cap & [= <- E4] & Hr).
  apply try_bind_inr in Hr as (n7 & sn' & [-> E5]%reading_done & Hr).
  apply run_bind_inv in Hr as (n8 & nb' & [-> ->]%reading_done & Hr).
  apply run_bind_inv in Hr as (n9 & na' & [-> ->]%reading_done & Hr).
  apply try_bind_inr in Hr as (n10 & k & [-> E6]%reading_done & Hr).
  apply try_bind_inr in Hr as (n11 & cb & [-> E7]%reading_done & Hr).
  apply try_bind_inr in Hr as (n12 & cp & [= <- E8] & Hr).
  apply try_bind_inr in Hr as (n13 & kp & [= <- E9] & Hr).
  injection Hr as <- <- <- <-. intros Hpair Hd. split; [lia|].
  apply pem_roundtrip in E4. apply pem_roundtrip in E8.
  destruct (key_pair_leaf _ _ _ _ Hpair E8) as [Hleaf [crt Hcrt]].
  set (ca := mkTemplate sn _ _ _ _ _ true _ _ _) in *.
  set (new := mkTemplate sn' _ _ _ _ _ false _ _ _) in *.
  assert (plain_template ca ∧ plain_template new) as [Hca Hnew].
  { split; (split; [done|split; [|done]]); [by right|by left]. }
  destruct (nameless_parses _ ca _ _ _ _ Hca eq_refl eq_refl (eq_sym E3)) as [root Hroot].
  pose proof (create_parse _ _ _ _ _ _ _ Hca (eq_sym E3) Hroot) as ->.
  pose proof (create_parse _ _ _ _ _ _ _ Hnew (eq_sym E7) Hcrt) as ->.
  unfold trusts. rewrite Hleaf. split.
  - intros (b & root & crt & Eb & Er & Ec & _ & _ & _ & _ & _ & _ & _ & Hv1 & Hv2).
    rewrite E4 in Eb. injection Eb as <-. rewrite Hroot in Er. injection Er as <-.
    rewrite Hcrt in Ec. injection Ec as <-. done.
  - intros [Hv1 Hv2]. eexists _, _, _. split; [exact E4|]. split; [exact Hroot|].
    split; [exact Hcrt|]. split_and!; try done. by right; left.
Qed.
End trust.
