(* ===== verification/CryptoDemo.v ===== *)
(** * Sample certificates for the witnesses

    An instance of [CryptoEnv] and of its laws in which a certificate is the
    encoding of its fields, a key is a number and its public half is itself, the
    clock advances by a second at each reading: it shows that the documented
    behaviour can hold.  It is not a model of crypto/x509. *)

From Stdlib Require Import Ascii.
From S2P Require Import Prelude GoStrings Certificates.

(** ** Encoding *)

Fixpoint bits (p : positive) : string :=
  match p with xH => "" | xO p => String "0" (bits p) | xI p => String "1" (bits p) end.
Fixpoint of_bits (s : string) : positive :=
  match s with
  | EmptyString => xH
  | String c s => if decide (c = "0"%char) then xO (of_bits s) else xI (of_bits s)
  end.

Lemma of_bits_bits p : of_bits (bits p) = p.
Proof. induction p as [p IH|p IH|]; simpl; by rewrite ?IH. Qed.

Definition encode_text `{Countable A} (x : A) : string := bits (encode x).
Definition decode_text `{Countable A} (s : string) : option A := decode (of_bits s).

Lemma encode_text_roundtrip `{Countable A} (x : A) : decode_text (encode_text x) = Some x.
Proof. unfold decode_text, encode_text. by rewrite of_bits_bits, decode_encode. Qed.

(** ** Certificates *)

#[global] Instance ext_usage_eq_dec : EqDecision ext_usage.
Proof. solve_decision. Defined.
#[global] Instance ext_usage_countable : Countable ext_usage :=
  inj_countable' (λ u, bool_decide (u = ClientAuth)) (λ b : bool, if b then ClientAuth else ServerAuth)
    (λ u, match u with ClientAuth => eq_refl | ServerAuth => eq_refl end).

#[global] Instance cert_template_eq_dec : EqDecision cert_template.
Proof. solve_decision. Defined.
#[global] Instance cert_template_countable : Countable cert_template.
Proof.
  refine (inj_countable
    (λ t, [encode (SerialNumber t); encode (Organization t); encode (CommonName t);
           encode (DNSNames t); encode (NotBefore t); encode (NotAfter t); encode (IsCA t);
           encode (ExtKeyUsage t); encode (KeyUsage t); encode (BasicConstraintsValid t)])
    (λ l, match l with
          | [a; b; c; d; e; f; g; h; i; j] =>
              a ← decode a; b ← decode b; c ← decode c; d ← decode d; e ← decode e;
              f ← decode f; g ← decode g; h ← decode h; i ← decode i; j ← decode j;
              Some (mkTemplate a b c d e f g h i j)
          | _ => None
          end) _).
  intros [sn o cn dns nb na ca eku ku bc]. cbv beta iota. cbn [SerialNumber Organization CommonName DNSNames NotBefore
    NotAfter IsCA ExtKeyUsage KeyUsage BasicConstraintsValid].
  unfold mbind, option_bind. by rewrite !decode_encode.
Defined.

Definition demo_year : Z := 31536000.

#[export] Instance DemoCrypto : CryptoEnv := {|
  private_key := Z; public_key := Z; tls_certificate := string;
  PublicKey k := k;
  rand_Int n limit := inr (Z.of_nat n mod limit)%Z;
  rsa_GenerateKey n bits := inr (Z.of_nat n);
  CreateCertificate n t parent pub priv := inr (encode_text (t, subject parent, pub, priv));
  MarshalPKCS1PrivateKey k := encode_text k;
  pem_Encode ty b := inr (encode_text (ty, b));
  X509KeyPair c k := match decode_text c : option (string * string) with
                     | Some (_, b) =>
                         match decode_text b : option (cert_template * (list string * string) * Z * Z) with
                         | Some _ => inr b
                         | None => inl "x509: malformed certificate"
                         end
                     | None => inl "tls: failed to find any PEM data in certificate input"
                     end;
  time_Now n := Z.of_nat n;
  add_year t := (t + demo_year)%Z
|}.

#[export] Instance DemoCryptoLaws : CryptoLaws.
Proof.
  refine {| pem_Decode p := decode_text p;
            ParseCertificate b :=
              (λ x : cert_template * (list string * string) * Z * Z,
                 let '(t, i, k, s) := x in mkCertificate DemoCrypto t i k s) <$> decode_text b;
            leaf (c : @tls_certificate DemoCrypto) := (c : string) |}.
  - intros b p [= <-]. apply encode_text_roundtrip.
  - intros n t parent pub priv b c _ [= <-]. rewrite encode_text_roundtrip. by intros [= <-].
  - intros n t parent pub priv b _ _ _ [= <-]. rewrite encode_text_roundtrip. by eexists.
  - intros c k cert b. cbn [X509KeyPair DemoCrypto pem_Decode].
    intros Hp Hd. rewrite Hd in Hp.
    destruct (decode_text (A := cert_template * (list string * string) * Z * Z) b) as [x|] eqn:E; [|done].
    injection Hp as <-. split; [done|]. by eexists.
Defined.
