(* ===== verification/Kube.v ===== *)
(** * The cluster, as the controller sees it

    The Kubernetes objects the controller builds and reads, the requests it
    makes to the API server, and the code it calls outside the repository
    ([KubeEnv]): the API server (an answer for each request, given the requests
    made before), the YAML decoder, the template engine, the timers, Go's map
    enumeration order, the manifest files. *)

From S2P Require Import Prelude GoStrings ApiTypes.

(** ** Objects *)

(** [corev1.ServicePort] *)
Record service_port := mkPort { Port : Z; NodePort : Z }.

(** What the code uses of [corev1.Service]'s spec and status. *)
Record service_spec := mkServiceSpec {
  Selector : option (gmap string string);
  svc_Type : string;
  Ports : list service_port;
  Ingress : list string;
  ExternalName : string
}.

Record container := mkContainer {
  c_Name : string; Env : list (string * string); Args : list string
}.

(** [appsv1.Deployment]'s spec: the replicas and the label selector are
    pointers. *)
Record deployment_spec := mkDeploymentSpec {
  Replicas : option Z;
  MatchLabels : option (option (gmap string string));
  TemplateLabels : option (gmap string string);
  Containers : list container
}.

Inductive payload :=
  | PService (s : service_spec)
  | PDeployment (d : deployment_spec)
  | POther (raw : string).

(** [unstructured.Unstructured]: the fields the code reads and writes. *)
Record kobj := mkKobj {
  o_Kind : string;
  o_APIVersion : string;
  o_Name : string;
  o_Namespace : string;
  o_ResourceVersion : string;
  o_Owner : option (string * string);
  o_Payload : payload
}.

Definition set_Namespace (ns : string) (o : kobj) : kobj :=
  mkKobj (o_Kind o) (o_APIVersion o) (o_Name o) ns (o_ResourceVersion o) (o_Owner o) (o_Payload o).
Definition set_Name (n : string) (o : kobj) : kobj :=
  mkKobj (o_Kind o) (o_APIVersion o) n (o_Namespace o) (o_ResourceVersion o) (o_Owner o) (o_Payload o).
Definition set_ResourceVersion (v : string) (o : kobj) : kobj :=
  mkKobj (o_Kind o) (o_APIVersion o) (o_Name o) (o_Namespace o) v (o_Owner o) (o_Payload o).
Definition set_Payload (p : payload) (o : kobj) : kobj :=
  mkKobj (o_Kind o) (o_APIVersion o) (o_Name o) (o_Namespace o) (o_ResourceVersion o) (o_Owner o) p.

(** [appsv1.Deployment] as read back: its owners and its status. *)
Record condition := mkCondition {
  c_Type : string; c_Status : string; c_Reason : string; c_Message : string
}.
Record deployment_status := mkDeploymentStatus {
  UpdatedReplicas : Z; StatusReplicas : Z; AvailableReplicas : Z; UnavailableReplicas : Z;
  Conditions : option (list condition)
}.
Record deployment := mkDeployment {
  dep_Name : string;
  dep_Namespace : string;
  (** the kind and the name of each owner reference *)
  OwnerReferences : list (string * string);
  SpecReplicas : option Z;
  DeployStatus : deployment_status
}.

#[global] Instance condition_eq_dec : EqDecision condition.
Proof. solve_decision. Defined.
#[global] Instance deployment_status_eq_dec : EqDecision deployment_status.
Proof. solve_decision. Defined.

(** ** Requests *)

(** An API error: [apierr.IsNotFound] tells the first from the others. *)
Inductive kerr := NotFound | OtherError (e : error).

Definition kerr_text (e : kerr) : error :=
  match e with NotFound => "not found" | OtherError e => e end.

Inductive api_request :=
  | GetGraph (ns name : string)
  | GetDeployment (ns name : string)
  | GetObject (kind apiVersion ns name : string)
  | CreateObject (o : kobj)
  | UpdateObject (o : kobj)
  | DeleteObject (kind apiVersion ns name : string)
  | UpdateStatus (g : GMConnector).

(** What the select of [applyResourceToK8s] receives. *)
Inductive timer_event := Tick | TimedOut | Cancelled.

(** A decoded manifest of kind Service. *)
Record service_manifest := mkManifest {
  sm_Kind : string; sm_Name : string; sm_Ports : list Z
}.

(** The values put in the router's template. *)
Record RouterCfg := mkRouterCfg {
  cfg_Namespace : string; cfg_SvcName : string; cfg_DplymntName : string;
  cfg_NoProxy : string; cfg_HttpProxy : string; cfg_HttpsProxy : string; cfg_GRAPH_JSON : string
}.

(** Code outside the repository; the first argument of an answer is the list
    of the requests made before. *)
Class KubeEnv := {
  on_get_graph : list api_request → string → string → kerr + GMConnector;
  on_get_deployment : list api_request → string → string → kerr + deployment;
  on_get_object : list api_request → string → string → string → string → kerr + kobj;
  (** the object as the server stored it *)
  on_create : list api_request → kobj → kerr + kobj;
  on_update : list api_request → kobj → kerr + kobj;
  on_delete : list api_request → string → string → string → string → option kerr;
  (** [Status().Update]: the graph in the answer, which is decoded into the
      object that was sent *)
  on_update_status : list api_request → GMConnector → kerr + GMConnector;
  (** the [n]-th event of a retry loop started after the given requests *)
  next_event : list api_request → nat → timer_event;
  (** [controllerutil.SetControllerReference] *)
  set_controller_reference : GMConnector → kobj → error + kobj;
  (** the enumeration orders of Go's maps *)
  range_config : gmap string string → list (string * string);
  range_nodes : gmap string ApiTypes.Router → list string;
  range_annotations : gmap string string → list string;
  (** files, YAML, templates, the serialized graph *)
  read_file : string → error + string;
  yaml_decode : string → error + kobj;
  decode_service : string → error + service_manifest;
  render : string → RouterCfg → error + string;
  marshal_graph : GMConnectorSpec → string
}.

(** Go's ranges visit every entry once, in some order. *)
Class GoRanges `{KubeEnv} := {
  range_config_perm m : range_config m ≡ₚ map_to_list m;
  range_nodes_perm m : range_nodes m ≡ₚ (map_to_list m).*1;
  range_annotations_perm m : range_annotations m ≡ₚ (map_to_list m).*1
}.

(** The ticker ticks every 100 ms and the timer fires after one minute: at most
    600 ticks are received. *)
Class Timers `{KubeEnv} := { ticks_bounded l n : 600 <= n → next_event l n ≠ Tick }.

(** ** The state of a reconciliation *)

(** The requests made, and the graph object, which the functions share by
    pointer and update in place. *)
Record rstate := mkR { r_log : list api_request; r_graph : GMConnector }.

Definition log_request (q : api_request) (s : rstate) : rstate := mkR (r_log s ++ [q]) (r_graph s).
Definition upd_graph (f : GMConnector → GMConnector) : prog rstate unit :=
  modify (λ s, mkR (r_log s) (f (r_graph s))).

(** A request with its answer. *)
Definition request {A} (q : api_request) (answer : list api_request → A) : prog rstate A :=
  λ s, (log_request q s, Done (answer (r_log s))).
