(* ===== verification/Manager.v ===== *)
(** * The controller's manager

    internal/controller/webhook_config.go and cmd/main.go: the configuration of
    the validating webhook that the API server calls, how it is created or
    updated, the start of the manager ([main], up to the manager's run), the
    handler of the log level.  The client, the manager and the log library are
    parameters ([ManagerEnv]). *)

From Stdlib Require Import Ascii.
From S2P Require Import Prelude GoStrings ApiTypes Kube Certificates HttpWriter.

#[local] Open Scope prog_scope.

(** ** The configuration *)

(** [int32(n)] *)
Definition int32 (n : Z) : Z := ((n + 2 ^ 31) mod 2 ^ 32 - 2 ^ 31)%Z.

Record service_ref := mkServiceRef {
  sr_Name : string; sr_Namespace : string; sr_Path : option string; sr_Port : option Z
}.

Record webhook_rule := mkRule {
  rule_Operations : list string;
  rule_APIGroups : list string;
  rule_APIVersions : list string;
  rule_Resources : list string;
  rule_Scope : option string
}.

(** [admissionregistrationv1.ValidatingWebhook]; pointers are options. *)
Record validating_webhook := mkWebhook {
  wh_Name : string;
  wh_CABundle : string;
  wh_Service : option service_ref;
  wh_AdmissionReviewVersions : list string;
  wh_SideEffects : option string;
  wh_Rules : list webhook_rule;
  wh_FailurePolicy : option string
}.

Record webhook_config := mkWebhookConfig {
  wc_Name : string; wc_ResourceVersion : string; Webhooks : list validating_webhook
}.

#[global] Instance service_ref_eq_dec : EqDecision service_ref.
Proof. solve_decision. Defined.
#[global] Instance webhook_rule_eq_dec : EqDecision webhook_rule.
Proof. solve_decision. Defined.
#[global] Instance validating_webhook_eq_dec : EqDecision validating_webhook.
Proof. solve_decision. Defined.

Definition apiGroup : string := "gmc.opea.io".
Definition apiVersion : string := "v1alpha3".
Definition resource : string := "gmconnector".
Definition webhookConfigName : string := "validating-webhook-configuration".

Definition validatingPath : string :=
  "/validate-" +:+ replace_n apiGroup "." "-" 2 +:+ "-" +:+ apiVersion +:+ "-" +:+ resource.

Definition GetEnvWithDefault (value defaultValue : string) : string :=
  if decide (value = "") then defaultValue else value.

(** The object [CreateOrUpdateValidatingWebhookConfiguration] builds. *)
Definition desired_webhook (caPEM : string) (port : Z) (webhookService webhookNamespace : string)
    : validating_webhook :=
  mkWebhook ("v" +:+ resource +:+ "." +:+ apiGroup) caPEM
    (Some (mkServiceRef webhookService webhookNamespace (Some validatingPath) (Some port)))
    ["v1"] (Some "None")
    [mkRule ["CREATE"; "UPDATE"] [apiGroup] [apiVersion] [resource +:+ "s"] None]
    (Some "Fail").
Definition desired_config (caPEM : string) (port : Z) (webhookService webhookNamespace version : string)
    : webhook_config :=
  mkWebhookConfig webhookConfigName version
    [desired_webhook caPEM port webhookService webhookNamespace].

(** ** The API server *)

Inductive webhook_request :=
  | GetConfig (name : string)
  | CreateConfig (c : webhook_config)
  | UpdateConfig (c : webhook_config).

(** Code outside the repository: the clientset, given the requests made before;
    the log library; the errors of the manager's set-up. *)
Class ManagerEnv := {
  on_get_config : list webhook_request → string → kerr + webhook_config;
  on_create_config : list webhook_request → webhook_config → option kerr;
  on_update_config : list webhook_request → webhook_config → option kerr;
  get_config_error : option error;
  new_clientset_error : option error;
  (** adding client-go's types to a scheme, and the types of a builder under
      their group and version *)
  clientgo_AddToScheme : option error;
  builder_AddToScheme : string * string → list string → option error;
  DefaultPort : Z;
  new_manager_error : option error;
  complete_webhook_error : option error;
  setup_controller_error : option error;
  healthz_error : option error;
  readyz_error : option error;
  (** the error [mgr.Start] returns with; [None] when it is stopped *)
  start_error : option error;
  (** decoding the member "log_level" of a JSON body, parsing a level *)
  decode_log_level : string → error + string;
  parse_level : string → error + string
}.

(** The readings of [Certificates] and the requests made. *)
Record mstate := mkM { m_readings : nat; m_log : list webhook_request }.

Section manager.
Context `{CryptoEnv} `{ManagerEnv}.

Definition config_request {A} (q : webhook_request) (answer : list webhook_request → A)
    : prog mstate A :=
  λ s, (mkM (m_readings s) (m_log s ++ [q]), Done (answer (m_log s))).

(** The fields compared; both lists have one webhook. *)
Definition same_webhook (found desired : validating_webhook) : bool :=
  bool_decide (wh_Name found = wh_Name desired) &&
  bool_decide (wh_AdmissionReviewVersions found = wh_AdmissionReviewVersions desired) &&
  bool_decide (wh_SideEffects found = wh_SideEffects desired) &&
  bool_decide (wh_FailurePolicy found = wh_FailurePolicy desired) &&
  bool_decide (wh_Rules found = wh_Rules desired) &&
  bool_decide (wh_CABundle found = wh_CABundle desired) &&
  bool_decide (wh_Service found = wh_Service desired).

Definition CreateOrUpdateValidatingWebhookConfiguration (caPEM : string) (port : Z)
    (webhookService webhookNamespace : string) : prog mstate (option error) :=
  let desired := desired_config caPEM port webhookService webhookNamespace in
  found ← config_request (GetConfig webhookConfigName) (λ l, on_get_config l webhookConfigName);
  match found with
  | inl NotFound =>
      r ← config_request (CreateConfig (desired "")) (λ l, on_create_config l (desired ""));
      mret (match r with
            | Some e => Some ("failed to create the validatingWebhookConfiguration("
                              +:+ webhookConfigName +:+ "): " +:+ kerr_text e)
            | None => None
            end)
  | inl (OtherError e) =>
      mret (Some ("failed to check the validatingWebhookConfiguration("
                  +:+ webhookConfigName +:+ "): " +:+ e))
  | inr found =>
      let changed := match Webhooks found with
                     | [w] => negb (same_webhook w (desired_webhook caPEM port webhookService webhookNamespace))
                     | _ => true
                     end in
      if changed then
        let c := desired (wc_ResourceVersion found) in
        r ← config_request (UpdateConfig c) (λ l, on_update_config l c);
        mret (match r with
              | Some e => Some ("failed to update the validatingWebhookConfiguration("
                                +:+ webhookConfigName +:+ "): " +:+ kerr_text e)
              | None => None
              end)
      else mret None
  end.

(** [GetClient]: the error it returns; the client is the API server above. *)
Definition GetClient : option error :=
  match get_config_error with
  | Some err => Some err
  | None => new_clientset_error
  end.

(** ** The API's types

    groupversion_info.go and the [init] functions of gmconnector_types.go and
    main.go. *)

Definition GroupVersion : string * string := ("gmc.opea.io", "v1alpha3").

(** The types registered with the scheme builder, by the names of their Go
    types. *)
Definition SchemeBuilder : list string := ["GMConnector"; "GMConnectorList"].

(** [utilruntime.Must] *)
Definition Must (err : option error) : outcome unit :=
  match err with Some e => Panic e | None => Done tt end.

Definition init_scheme : prog mstate unit :=
  _ ← lift_outcome (Must clientgo_AddToScheme);
  lift_outcome (Must (builder_AddToScheme GroupVersion SchemeBuilder)).

(** The webhook of the type is completed by the builder of
    controller-runtime. *)
Definition SetupWebhookWithManager : option error := complete_webhook_error.

(** ** main *)

(** The flags of [main], and their defaults. *)
Record manager_flags := mkFlags {
  metricsAddr : string;
  probeAddr : string;
  enableLeaderElection : bool;
  secureMetrics : bool;
  enableHTTP2 : bool
}.

Definition default_flags : manager_flags := mkFlags ":8080" ":8081" false false false.

(** What the code sets of [tls.Config]. *)
Record tls_config := mkTLS {
  NextProtos : list string;
  MinVersion : option Z;
  (** the certificate that [GetCertificate] returns *)
  GetCertificate : option tls_certificate
}.

Definition VersionTLS12 : Z := 771.

Definition disableHTTP2 (c : tls_config) : tls_config :=
  mkTLS ["http/1.1"] (MinVersion c) (GetCertificate c).

Definition tlsOpts (fl : manager_flags) : list (tls_config → tls_config) :=
  if enableHTTP2 fl then [] else [disableHTTP2].

(** The option of the webhook server. *)
Definition webhook_tls (certificate_pair : tls_certificate) (cfg : tls_config) : tls_config :=
  mkTLS (NextProtos cfg) (Some VersionTLS12) (Some certificate_pair).

(** [ctrl.Options], with the webhook server's port and options. *)
Record manager_options := mkOptions {
  mo_BindAddress : string;
  mo_SecureServing : bool;
  mo_TLSOpts : list (tls_config → tls_config);
  mo_WebhookPort : Z;
  mo_WebhookTLSOpts : list (tls_config → tls_config);
  mo_HealthProbeBindAddress : string;
  mo_LeaderElection : bool;
  mo_LeaderElectionID : string
}.

Definition options_of (fl : manager_flags) (certificate_pair : tls_certificate) : manager_options :=
  mkOptions (metricsAddr fl) (secureMetrics fl) (tlsOpts fl) DefaultPort [webhook_tls certificate_pair]
    (probeAddr fl) (enableLeaderElection fl) "6aba56f0.opea.io".

(** The process exits with status 1 after the log line, or the manager has run
    with its options, and stopped. *)
Inductive main_end := Exit1 (msg : string) | Ran (options : manager_options).

(** The steps that follow, each with the log line of its failure. *)
Fixpoint manager_setup (todo : list (option error * string)) (options : manager_options) : main_end :=
  match todo with
  | [] => Ran options
  | (None, _) :: rest => manager_setup rest options
  | (Some _, msg) :: _ => Exit1 msg
  end.

Definition in_readings {A} (p : prog nat A) : prog mstate A := λ s,
  let '(n, o) := p (m_readings s) in (mkM n (m_log s), o).

(** [main], from the values of its flags and of the two environment variables. *)
Definition manager_main (fl : manager_flags) (service_name namespace : string) : prog mstate main_end :=
  let webhookServiceName := GetEnvWithDefault service_name "gmc-validating-webhook-service" in
  let webhookServiceNamespace := GetEnvWithDefault namespace "system" in
  cert ← in_readings (GenerateX509Cert webhookServiceName webhookServiceNamespace);
  match cert with
  | inl _ => mret (Exit1 "failed to generate x509 cert")
  | inr (certificate_pair, CABytes) =>
      match GetClient with
      | Some _ => mret (Exit1 "unable to get client config")
      | None =>
          err ← CreateOrUpdateValidatingWebhookConfiguration CABytes (int32 DefaultPort)
                  webhookServiceName webhookServiceNamespace;
          match err with
          | Some _ => mret (Exit1 "failed to create or update the validation webhook configuration")
          | None =>
              mret (manager_setup
                [(new_manager_error, "unable to start manager");
                 (SetupWebhookWithManager, "unable to create validating webhook");
                 (setup_controller_error, "unable to create controller");
                 (healthz_error, "unable to set up health check");
                 (readyz_error, "unable to set up ready check");
                 (start_error, "problem running manager")] (options_of fl certificate_pair))
          end
      end
  end.

(** The program: the packages' initialisation, then [main]. *)
Definition controller_program (fl : manager_flags) (service_name namespace : string)
    : prog mstate main_end :=
  _ ← init_scheme;
  manager_main fl service_name namespace.

(** ** The log level *)

(** [logLevelHandler]: the level and the response. *)
Definition logLevelHandler (method body : string) (level : string) (w : writer) : string * writer :=
  if decide (method = "GET") then
    (level, write_piece ("current log level: " +:+ level +:+ newline) w)
  else if decide (method = "PUT") then
    match decode_log_level body with
    | inl e => (level, http_error ("invalid request body: " +:+ e +:+ newline) 400 w)
    | inr l =>
        if decide (l = "") then (level, http_error ("log_level field is required" +:+ newline) 400 w)
        else
          match parse_level l with
          | inl e => (level, http_error ("invalid log level: " +:+ e +:+ newline) 400 w)
          | inr l => (l, write_piece ("log level set to " +:+ l +:+ newline) w)
          end
    end
  else (level, http_error "method not allowed" 405 w).
End manager.
