(* ===== verification/ManagerTheorems.v ===== *)
(** * What the controller's manager guarantees

    The webhook configuration in effect after the start, the certificates and
    the protocols of its servers, the log level. *)

From Stdlib Require Import Ascii.
From S2P Require Import Prelude GoStrings ApiTypes Kube Certificates CryptoDemo HttpWriter Manager.

Section config.
Context `{CryptoEnv} `{ManagerEnv}.

(** The configuration [c] is the server's after the requests that lead from
    [s] to [s']: it was found, or accepted by the last request. *)
Definition in_effect (s s' : mstate) (c : webhook_config) : Prop :=
  let log := m_log s ++ [GetConfig webhookConfigName] in
  (m_log s' = log ∧ on_get_config (m_log s) webhookConfigName = inr c) ∨
  (m_log s' = log ++ [CreateConfig c] ∧ on_create_config log c = None) ∨
  (m_log s' = log ++ [UpdateConfig c] ∧ on_update_config log c = None).

Lemma same_webhook_true found desired :
  same_webhook found desired = true ↔ found = desired.
Proof.
  unfold same_webhook. rewrite !andb_true_iff, !bool_decide_eq_true.
  destruct found, desired; simpl. intuition congruence.
Qed.

Lemma CreateOrUpdate_in_effect ca port svc ns s s' :
  CreateOrUpdateValidatingWebhookConfiguration ca port svc ns s = (s', Done None) →
  m_readings s' = m_readings s ∧
  ∃ c, in_effect s s' c ∧ Webhooks c = [desired_webhook ca port svc ns].
Proof.
  unfold CreateOrUpdateValidatingWebhookConfiguration, in_effect.
  intros (s1 & found & [= <- <-] & Hr)%run_bind_inv.
  destruct (on_get_config (m_log s) webhookConfigName) as [[|e]|found] eqn:Eg; [|done|].
  - apply run_bind_inv in Hr as (s2 & [e|] & Hq & Hr); [done|]. injection Hq as <- Hq.
    injection Hr as <-. split; [done|]. eexists. split; [right; left; done|done].
  - destruct (Webhooks found) as [|w [|w' ws]] eqn:Ew.
    2: destruct (same_webhook w (desired_webhook ca port svc ns)) eqn:Es.
    2:{ simpl in Hr. injection Hr as <-. split; [done|]. exists found.
        apply same_webhook_true in Es as ->. split; [by left|done]. }
    all: simpl in Hr; apply run_bind_inv in Hr as (s2 & [e|] & Hq & Hr); [done|];
      injection Hq as <- Hq; injection Hr as <-; (split; [done|]);
      eexists; (split; [right; right; done|done]).
Qed.

(** The configuration converges: once a call has succeeded, a call with the
    same arguments, on a server that still has the webhooks then in effect,
    only reads it. *)
Lemma webhook_config_converges ca port svc ns s s' c s1 c1 :
  CreateOrUpdateValidatingWebhookConfiguration ca port svc ns s = (s', Done None) →
  in_effect s s' c →
  on_get_config (m_log s1) webhookConfigName = inr c1 → Webhooks c1 = Webhooks c →
  CreateOrUpdateValidatingWebhookConfiguration ca port svc ns s1 =
    (mkM (m_readings s1) (m_log s1 ++ [GetConfig webhookConfigName]), Done None).
Proof.
  intros Hrun Heff Hget Hsame.
  apply CreateOrUpdate_in_effect in Hrun as [_ (c' & Heff' & Hw)].
  assert (c = c') as ->.
  { unfold in_effect in *. destruct Heff as [[E1 E2]|[[E1 E2]|[E1 E2]]],
      Heff' as [[F1 F2]|[[F1 F2]|[F1 F2]]]; try congruence;
      rewrite E1 in F1;
      try (apply (f_equal length) in F1; rewrite !length_app in F1; simpl in F1; lia);
      apply app_inj_tail in F1 as [_ F1]; congruence. }
  unfold CreateOrUpdateValidatingWebhookConfiguration, config_request, mbind, prog_bind.
  rewrite Hget, Hsame, Hw. by rewrite (proj2 (same_webhook_true _ _) eq_refl).
Qed.
End config.

Section startup.
Context `{CryptoLaws} `{ManagerEnv}.

Lemma GenerateX509Cert_trusted name ns n n' served ca :
  GenerateX509Cert name ns n = (n', Done (inr (served, ca))) →
  let dns := name +:+ "." +:+ ns +:+ ".svc" in
  ∃ i j, n <= i ∧ S i < j ∧ S j < n' ∧ ∀ t, trusts ca served dns t ↔
    (time_Now i <= t <= add_year (time_Now (S i)))%Z ∧ (time_Now j <= t <= add_year (time_Now (S j)))%Z.
Proof.
  unfold GenerateX509Cert, composeDNSNames. case_decide; [done|].
  intros (n1 & [dns cn] & Hn & Hr)%try_bind_inr. injection Hn as <- <- <-.
  apply try_bind_inr in Hr as (n2 & [[ca' crt] key] & Hg & Hr).
  apply try_bind_inr in Hr as (n3 & pair & Hp & Hr). injection Hp as <- Hp. injection Hr as <- <- <-.
  assert (∀ t, _) as Ht by (intros t; apply (generateCert_trusted _ _ _ _ _ _ _ _
    (name +:+ "." +:+ ns +:+ ".svc") t Hg Hp); by right; right; left).
  exists (S n), (6 + n). destruct (Ht 0%Z) as [-> _]. split_and!; [lia..|]. intros t. apply Ht.
Qed.

Lemma manager_setup_ran todo p q : manager_setup todo p = Ran q → q = p.
Proof.
  induction todo as [|[[e|] msg] todo IH]; simpl; [by intros [= ->]|done|done].
Qed.

(** A server configures TLS by its options, one after the other. *)
Definition configured (opts : list (tls_config → tls_config)) (base : tls_config) : tls_config :=
  foldl (λ c f, f c) base opts.

(** The initialisation changes nothing, or panics. *)
Lemma init_scheme_state s s' : init_scheme s = (s', Done ()) → s' = s.
Proof.
  unfold init_scheme, lift_outcome, Must, mbind, prog_bind.
  destruct clientgo_AddToScheme; [done|]. destruct (builder_AddToScheme _ _); [done|].
  by intros [= <-].
Qed.

(** C28: a manager that has started has a webhook the API server can call: the
    configuration in effect names the service, the path and the port it serves,
    for creations and updates of gmconnectors in the group and version the
    program registers its types in, and its CA bundle makes the
    certificate the server presents (with TLS 1.2 at least) trusted for the
    service's DNS name exactly while both of its certificates are valid: each
    from a reading of the clock during the start until AddDate(1, 0, 0) of the next
    reading.  After a year it is trusted no more (nothing renews it) and, the
    failure policy being Fail, creations and updates are rejected. *)
Theorem started_webhook_trusted fl service_name namespace s s' options :
  controller_program fl service_name namespace s = (s', Done (Ran options)) →
  let svc := GetEnvWithDefault service_name "gmc-validating-webhook-service" in
  let ns := GetEnvWithDefault namespace "system" in
  ∃ s0 c w served, m_log s0 = m_log s ∧ in_effect s0 s' c ∧ Webhooks c = [w] ∧
    mo_WebhookPort options = DefaultPort ∧
    wh_Service w = Some (mkServiceRef svc ns (Some validatingPath) (Some (int32 DefaultPort))) ∧
    wh_Rules w = [mkRule ["CREATE"; "UPDATE"] [GroupVersion.1] [GroupVersion.2] ["gmconnectors"] None] ∧
    wh_FailurePolicy w = Some "Fail" ∧
    (∀ base, GetCertificate (configured (mo_WebhookTLSOpts options) base) = Some served ∧
             MinVersion (configured (mo_WebhookTLSOpts options) base) = Some VersionTLS12) ∧
    ∃ i j, m_readings s <= i ∧ S i < j ∧ S j < m_readings s' ∧
      ∀ t, trusts (wh_CABundle w) served (svc +:+ "." +:+ ns +:+ ".svc") t ↔
        (time_Now i <= t <= add_year (time_Now (S i)))%Z ∧
        (time_Now j <= t <= add_year (time_Now (S j)))%Z.
Proof.
  unfold controller_program. intros (s1 & [] & ->%init_scheme_state & Hmain)%run_bind_inv.
  revert Hmain. unfold manager_main. set (svc := GetEnvWithDefault service_name _).
  set (ns := GetEnvWithDefault namespace _). cbv zeta. intros Hr.
  apply run_bind_inv in Hr as (s0 & [e|[pair ca]] & Hc & Hr); [done|].
  unfold in_readings in Hc.
  destruct (GenerateX509Cert svc ns (m_readings s)) as [n o] eqn:Eg. injection Hc as <- ->.
  destruct GetClient; [done|].
  apply run_bind_inv in Hr as (s1 & [e|] & Hcfg & Hr); [done|].
  unfold mret, prog_ret in Hr. apply pair_eq in Hr as [<- Hran].
  apply (inj Done), manager_setup_ran in Hran as ->.
  apply CreateOrUpdate_in_effect in Hcfg as [Hread (c & Heff & Hw)]. simpl in Hread.
  pose proof (GenerateX509Cert_trusted svc ns _ _ _ _ Eg) as Htrust.
  eexists _, c, _, pair. split; [|split; [exact Heff|split; [exact Hw|]]]; [done|].
  rewrite Hread. split_and!; try done.
Qed.

(** The flag about HTTP/2 reaches the metrics server only: without it that
    server offers HTTP/1.1 alone, while the webhook server keeps the protocols
    it starts with, whatever the flag. *)
Lemma http2_flag fl service_name namespace s s' options base :
  manager_main fl service_name namespace s = (s', Done (Ran options)) →
  NextProtos (configured (mo_TLSOpts options) base) =
    (if enableHTTP2 fl then NextProtos base else ["http/1.1"]) ∧
  NextProtos (configured (mo_WebhookTLSOpts options) base) = NextProtos base.
Proof.
  unfold manager_main. cbv zeta. intros (s0 & [e|[pair ca]] & _ & Hr)%run_bind_inv; [done|].
  destruct GetClient; [done|].
  apply run_bind_inv in Hr as (s1 & [e|] & _ & Hr); [done|].
  unfold mret, prog_ret in Hr. apply pair_eq in Hr as [_ Hran].
  apply (inj Done), manager_setup_ran in Hran as ->. simpl. unfold tlsOpts. by destruct (enableHTTP2 fl).
Qed.
End startup.

(** The log level changes only by a PUT whose body names a level. *)
Lemma logLevelHandler_sets `{ManagerEnv} method body level w l w' :
  logLevelHandler method body level w = (l, w') →
  l = level ∨ method = "PUT" ∧ ∃ t, decode_log_level body = inr t ∧ t ≠ "" ∧ parse_level t = inr l.
Proof.
  unfold logLevelHandler. case_decide; [intros [= -> _]; by left|].
  case_decide as Hm; [|intros [= -> _]; by left].
  destruct (decode_log_level body) as [e|t] eqn:Ed; [intros [= -> _]; by left|].
  case_decide; [intros [= -> _]; by left|].
  destruct (parse_level t) as [e|l1] eqn:Ep; [intros [= -> _]; by left|].
  intros [= <- _]. right. split; [done|]. by exists t.
Qed.

(** ** Concrete instances *)

Section witnesses.

(** A cluster without the configuration, on which every call succeeds. *)
#[local] Instance FreshCluster : ManagerEnv := {|
  on_get_config l name := match last l with
                          | Some (CreateConfig c) => inr (mkWebhookConfig (wc_Name c) "7" (Webhooks c))
                          | _ => inl NotFound
                          end;
  on_create_config l c := None; on_update_config l c := None;
  get_config_error := None; new_clientset_error := None;
  clientgo_AddToScheme := None; builder_AddToScheme gv ts := None; DefaultPort := 9443;
  new_manager_error := None; complete_webhook_error := None; setup_controller_error := None;
  healthz_error := None; readyz_error := None; start_error := None;
  decode_log_level b := inr b; parse_level l := inr l
|}.

Definition before_config : mstate := mkM 0 [].
Definition demo_config : webhook_config := desired_config "CA" 9443 "svc" "ns" "".
Definition after_config : mstate :=
  mkM 0 [GetConfig webhookConfigName; CreateConfig demo_config].

Lemma webhook_config_converges_witness :
  CreateOrUpdateValidatingWebhookConfiguration "CA" 9443 "svc" "ns" after_config =
    (mkM 0 (m_log after_config ++ [GetConfig webhookConfigName]), Done None).
Proof.
  apply (webhook_config_converges "CA" 9443 "svc" "ns" before_config after_config demo_config
    after_config (mkWebhookConfig webhookConfigName "7" (Webhooks demo_config)));
    [vm_compute; reflexivity| |reflexivity|reflexivity].
  right. left. split; reflexivity.
Defined.

Lemma started_webhook_trusted_witness :
  ∃ s' options, controller_program default_flags "" "gmc" before_config = (s', Done (Ran options)) ∧
    ∃ s0 c w served, m_log s0 = [] ∧ in_effect s0 s' c ∧ Webhooks c = [w] ∧
      GetCertificate (configured (mo_WebhookTLSOpts options) (mkTLS ["h2"] None None)) = Some served ∧
      (∀ t, (10 <= t <= demo_year)%Z →
        trusts (wh_CABundle w) served "gmc-validating-webhook-service.gmc.svc" t) ∧
      ¬ trusts (wh_CABundle w) served "gmc-validating-webhook-service.gmc.svc" (10 + demo_year).
Proof.
  destruct (controller_program default_flags "" "gmc" before_config) as [s' [[msg|options]|m|]] eqn:E.
  - exfalso. apply (f_equal (λ x, match x.2 with Done (Exit1 _) => true | _ => false end)) in E.
    vm_compute in E. discriminate E.
  - exists s', options. split; [reflexivity|].
    assert (m_readings s' = 10) as E10.
    { apply (f_equal (λ x, m_readings x.1)) in E. vm_compute in E. symmetry. exact E. }
    destruct (started_webhook_trusted default_flags "" "gmc" before_config s' options E)
      as (s0 & c & w & served & Hlog & Heff & Hw & _ & _ & _ & _ & Hs & i & j & Hi & Hij & Hj & Ht).
    exists s0, c, w, served. split; [exact Hlog|]. split; [exact Heff|]. split; [exact Hw|].
    split; [apply Hs|]. rewrite E10 in Hj. cbn [time_Now add_year DemoCrypto] in Ht.
    split; [intros t Hr; apply Ht; lia|]. intros Hr%Ht. lia.
  - exfalso. apply (f_equal (λ x, match x.2 with Panic _ => true | _ => false end)) in E.
    vm_compute in E. discriminate E.
  - exfalso. apply (f_equal (λ x, match x.2 with OutOfFuel => true | _ => false end)) in E.
    vm_compute in E. discriminate E.
Defined.
End witnesses.
