(* ===== verification/Controller.v ===== *)
(** * The GMConnector controller

    internal/controller/gmconnector_controller.go: the manifest table, the
    provisioning of a step's resources, the retry loop that applies an object,
    the bookkeeping in the annotations of the graph's status, the router
    service, the status collection, [Reconcile] and the event filters.  The
    names that clash with the API types have the suffix [_key]. *)

From Stdlib Require Import Ascii.
From S2P Require Import Prelude GoStrings ApiTypes Kube.

(** ** Constants *)

Definition yaml_dir : string := "/tmp/microservices/yamls/".
Definition Router_key : string := "router".
Definition VectorDB : string := "VectorDB".
Definition Service_kind : string := "Service".
Definition Deployment_kind : string := "Deployment".
Definition dplymtSubfix : string := "-deployment".
Definition DefaultRouterServiceName : string := "router-service".

Definition yamlDict : gmap string string := list_to_map [
  ("TeiEmbedding", yaml_dir +:+ "tei.yaml");
  ("TeiEmbeddingGaudi", yaml_dir +:+ "tei_gaudi.yaml");
  ("Embedding", yaml_dir +:+ "embedding-usvc.yaml");
  ("VectorDB", yaml_dir +:+ "redis-vector-db.yaml");
  ("Retriever", yaml_dir +:+ "retriever-usvc.yaml");
  ("Reranking", yaml_dir +:+ "reranking-usvc.yaml");
  ("TeiReranking", yaml_dir +:+ "teirerank.yaml");
  ("Tgi", yaml_dir +:+ "tgi.yaml");
  ("TgiGaudi", yaml_dir +:+ "tgi_gaudi.yaml");
  ("TgiNvidia", yaml_dir +:+ "tgi_nv.yaml");
  ("Llm", yaml_dir +:+ "llm-uservice.yaml");
  ("DocSum", yaml_dir +:+ "docsum-llm-uservice.yaml");
  ("router", yaml_dir +:+ "gmc-router.yaml");
  ("WebRetriever", yaml_dir +:+ "web-retriever.yaml");
  ("Asr", yaml_dir +:+ "asr.yaml");
  ("Tts", yaml_dir +:+ "tts.yaml");
  ("SpeechT5", yaml_dir +:+ "speecht5.yaml");
  ("SpeechT5Gaudi", yaml_dir +:+ "speecht5_gaudi.yaml");
  ("Whisper", yaml_dir +:+ "whisper.yaml");
  ("WhisperGaudi", yaml_dir +:+ "whisper_gaudi.yaml");
  ("DataPrep", yaml_dir +:+ "data-prep.yaml");
  ("UI", yaml_dir +:+ "ui.yaml")].

Definition lookupManifestDir (step : string) : string := default "" (yamlDict !! step).

(** ** Downstream services *)

Definition isDownStreamEndpointKey (keyname : string) : bool :=
  bool_decide (keyname ∈ ["TEI_EMBEDDING_ENDPOINT"; "TEI_RERANKING_ENDPOINT"; "TGI_LLM_ENDPOINT";
                          "REDIS_URL"; "ASR_ENDPOINT"; "TTS_ENDPOINT"; "TEI_ENDPOINT"]).

(** [findDownStreamService]; [None] is the nil pointer. *)
Definition findDownStreamService (dsName : string) (steps : list Step) : option Step :=
  snd <$> list_find (λ s, ServiceName (InternalService s) = dsName ∧
                          IsDownstreamService (InternalService s) = true) steps.

Definition getNsNameFromStep (step : Step) : string * string :=
  if decide (ExternalService step = "")
  then (NameSpace (InternalService step), ServiceName (InternalService step))
  else ("", "").

(** [fmt.Sprintf("%s.%s.svc.cluster.local:%d", name, ns, port)] *)
Definition cluster_host (name ns : string) (port : Z) : string :=
  name +:+ "." +:+ ns +:+ ".svc.cluster.local:" +:+ itoa port.

Definition getServiceURL (o : kobj) (s : service_spec) : string :=
  if decide (svc_Type s = "ClusterIP") then
    match Ports s with
    | p :: _ => "http://" +:+ cluster_host (o_Name o) (o_Namespace o) (Port p)
    | [] => ""
    end
  else if decide (svc_Type s = "NodePort") then
    match Ports s with p :: _ => "<node-ip>:" +:+ itoa (NodePort p) | [] => "" end
  else if decide (svc_Type s = "LoadBalancer") then
    match Ports s, Ingress s with
    | p :: _, ip :: _ => ip +:+ ":" +:+ itoa (Port p)
    | _, _ => ""
    end
  else if decide (svc_Type s = "ExternalName") then ExternalName s
  else "".

(** The key of a resource in the annotations. *)
Definition record_key (o : kobj) : string :=
  o_Kind o +:+ ":" +:+ o_APIVersion o +:+ ":" +:+ o_Name o +:+ ":" +:+ o_Namespace o.

(** ** Updates of the graph object *)

Definition set_Annotations (a : gmap string string) (g : GMConnector) : GMConnector :=
  mkGMConnector (gmc_TypeMeta g) (gmc_ObjectMeta g) (Spec g)
    (mkStatus (status_Condition (gmc_Status g)) (Status (gmc_Status g)) (AccessURL (gmc_Status g))
       (Some a)).
Definition set_Status (t : string) (g : GMConnector) : GMConnector :=
  mkGMConnector (gmc_TypeMeta g) (gmc_ObjectMeta g) (Spec g)
    (mkStatus (status_Condition (gmc_Status g)) t (AccessURL (gmc_Status g))
       (AnnotationsMap (gmc_Status g))).
Definition set_AccessURL (u : string) (g : GMConnector) : GMConnector :=
  mkGMConnector (gmc_TypeMeta g) (gmc_ObjectMeta g) (Spec g)
    (mkStatus (status_Condition (gmc_Status g)) (Status (gmc_Status g)) u
       (AnnotationsMap (gmc_Status g))).
Definition annotate (k v : string) (g : GMConnector) : GMConnector :=
  set_Annotations (<[k := v]> (Annotations (gmc_Status g))) g.
Definition set_TypeMeta (t : TypeMeta) (g : GMConnector) : GMConnector :=
  mkGMConnector t (gmc_ObjectMeta g) (Spec g) (gmc_Status g).
Definition set_GraphVersion (v : string) (g : GMConnector) : GMConnector :=
  let m := gmc_ObjectMeta g in
  mkGMConnector (gmc_TypeMeta g)
    (mkObjectMeta (Name m) (Namespace m) (Labels m) (DeletionTimestamp m) v)
    (Spec g) (gmc_Status g).

(** [graph.Spec.Nodes[nodeName].Steps[i].ServiceURL = url], for an index in
    range. *)
Definition set_step_url (nodeName : string) (i : nat) (url : string) (g : GMConnector)
    : GMConnector :=
  mkGMConnector (gmc_TypeMeta g) (gmc_ObjectMeta g)
    (mkSpec ((λ ns, alter (λ r, mkRouter (RouterType r)
                              (alter (set_ServiceURL url) i <$> StepsSlice r)) nodeName ns)
               <$> NodesMap (Spec g)) (SpecRouterConfig (Spec g)))
    (gmc_Status g).

Section controller.
Context `{KubeEnv}.

(** ** Manifests *)

Definition getTemplateBytes (resourceType : string) : error + string :=
  let tmpltFile := lookupManifestDir resourceType in
  if decide (tmpltFile = "") then inl "unexpected target" else read_file tmpltFile.

(** The documents of a manifest: split at "---", without those that are empty
    or have no "kind:". *)
Definition documents (yaml : string) : list string :=
  filter (λ res, res ≠ "" ∧ str_contains res "kind:" = true) (split yaml "---").

Fixpoint service_details (docs : list string) : error + (string * Z) :=
  match docs with
  | [] => inl "service name or port not found"
  | res :: rest =>
      if decide (res = "" ∨ str_contains res "kind: Service" = false) then service_details rest
      else
        match decode_service res with
        | inl e => inl e
        | inr svc =>
            if decide (sm_Kind svc = "Service") then
              match sm_Ports svc with
              | p :: _ => inr (sm_Name svc, p)
              | [] => service_details rest
              end
            else service_details rest
        end
  end.

Definition getServiceDetailsFromManifests (filePath : string) : error + (string * Z) :=
  match read_file filePath with
  | inl e => inl e
  | inr data => service_details (split data "---")
  end.

Definition getDownstreamSvcEndpoint (graphNs dsName : string) (stepCfg : option Step)
    : error + string :=
  match stepCfg with
  | None => inl ("empty stepCfg for " +:+ dsName)
  | Some step =>
      let tmplt := lookupManifestDir (StepName step) in
      if decide (tmplt = "") then inl ("failed to find yaml file for " +:+ dsName)
      else
        match getServiceDetailsFromManifests tmplt with
        | inl e => inl ("failed to get service details for " +:+ dsName +:+ ": " +:+ e +:+ bytes [10])
        | inr (svcName, port) =>
            let '(altNs, altSvcName) := getNsNameFromStep step in
            let altNs := if decide (altNs = "") then graphNs else altNs in
            let altSvcName := if decide (altSvcName = "") then svcName else altSvcName in
            if decide (StepName step = VectorDB)
            then inr ("redis://" +:+ cluster_host altSvcName altNs port)
            else inr ("http://" +:+ cluster_host altSvcName altNs port)
        end
  end.

(** ** applyResourceToK8s *)

Definition apply_fuel : nat := 601.

(** The loop from its [n]-th event on; [obj] is the object, updated in place. *)
Fixpoint apply_loop (fuel : nat) (started : list api_request) (graph : GMConnector) (n : nat)
    (obj : kobj) : prog rstate (error + kobj) :=
  match fuel with
  | 0 => out_of_fuel
  | S fuel' =>
      match next_event started n with
      | Cancelled => mret (inl "context cancelled")
      | TimedOut => mret (inl "timed out while trying to update or create resource")
      | Tick =>
          match set_controller_reference graph obj with
          | inl e => mret (inl ("failed to set controller reference: " +:+ e))
          | inr obj =>
              latest ← request
                (GetObject (o_Kind obj) (o_APIVersion obj) (o_Namespace obj) (o_Name obj))
                (λ l, on_get_object l (o_Kind obj) (o_APIVersion obj) (o_Namespace obj) (o_Name obj));
              match latest with
              | inl NotFound =>
                  r ← request (CreateObject obj) (λ l, on_create l obj);
                  match r with
                  | inl e => mret (inl ("failed to create resource: " +:+ kerr_text e))
                  | inr obj => mret (inr obj)
                  end
              | inl (OtherError _) => apply_loop fuel' started graph (S n) obj
              | inr latest =>
                  let obj := set_ResourceVersion (o_ResourceVersion latest) obj in
                  r ← request (UpdateObject obj) (λ l, on_update l obj);
                  match r with
                  | inl _ => apply_loop fuel' started graph (S n) obj
                  | inr obj => mret (inr obj)
                  end
              end
          end
      end
  end.

Definition applyResourceToK8s (obj : kobj) : prog rstate (error + kobj) :=
  started ← gets r_log;
  graph ← gets r_graph;
  apply_loop apply_fuel started graph 0 obj.

(** ** The resources of a step *)

(** [m["app"] = svc], a panic on a nil map. *)
Definition set_app (svc : string) (m : option (gmap string string))
    : outcome (option (gmap string string)) :=
  match m with Some m => Done (Some (<["app" := svc]> m)) | None => Panic nil_map_write end.

(** The environment variables of the step's configuration. *)
Fixpoint config_env (graphNs : string) (steps : list Step) (cfg : list (string * string))
    : error + list (string * string) :=
  match cfg with
  | [] => inr []
  | (name, value) :: rest =>
      if decide (name = "endpoint" ∨ name = "nodes") then config_env graphNs steps rest
      else
        let v := if isDownStreamEndpointKey name
                 then getDownstreamSvcEndpoint graphNs value (findDownStreamService value steps)
                 else inr value in
        match v with
        | inl e => inl e
        | inr value =>
            match config_env graphNs steps rest with
            | inl e => inl e
            | inr env => inr ((name, value) :: env)
            end
        end
  end.

Definition add_env (env : list (string * string)) (c : container) : container :=
  mkContainer (c_Name c) (Env c ++ env) (Args c).

(** The object of one document, with the user's namespace, service name and
    environment. *)
Definition customize (graphNs : string) (stepCfg : Step) (steps : list Step) (obj : kobj)
    : outcome (error + kobj) :=
  let ns := if decide (NameSpace (InternalService stepCfg) ≠ "")
            then NameSpace (InternalService stepCfg) else graphNs in
  let svc := ServiceName (InternalService stepCfg) in
  let obj := if decide (ns ≠ "") then set_Namespace ns obj else obj in
  if decide (o_Kind obj = Service_kind ∧ svc ≠ "") then
    match o_Payload obj with
    | PService s =>
        match set_app svc (Selector s) with
        | Done sel => Done (inr (set_Payload (PService (mkServiceSpec sel (svc_Type s) (Ports s)
                                                (Ingress s) (ExternalName s))) (set_Name svc obj)))
        | Panic m => Panic m
        | OutOfFuel => OutOfFuel
        end
    | _ => Done (inl "failed to convert to service")
    end
  else if decide (o_Kind obj = Deployment_kind) then
    match o_Payload obj with
    | PDeployment d =>
        match (if decide (svc = "") then Done d else
                 match MatchLabels d with
                 | None => Panic nil_deref
                 | Some labels =>
                     match set_app svc labels, set_app svc (TemplateLabels d) with
                     | Done l, Done t => Done (mkDeploymentSpec (Replicas d) (Some l) t (Containers d))
                     | _, _ => Panic nil_map_write
                     end
                 end) with
        | Done d =>
            let obj := if decide (svc = "") then obj else set_Name (svc +:+ dplymtSubfix) obj in
            match config_env graphNs steps
                    (range_config (default ∅ (Config (InternalService stepCfg)))) with
            | inl e => Done (inl e)
            | inr env =>
                Done (inr (set_Payload
                  (PDeployment (mkDeploymentSpec (Replicas d) (MatchLabels d) (TemplateLabels d)
                                  (add_env env <$> Containers d))) obj))
            end
        | Panic m => Panic m
        | OutOfFuel => OutOfFuel
        end
    | _ => Done (inl "failed to convert to deployment")
    end
  else Done (inr obj).

(** The loop over the documents. *)
Fixpoint reconcile_documents (graphNs : string) (stepCfg : Step) (steps : list Step)
    (docs : list string) : prog rstate (error + list kobj) :=
  match docs with
  | [] => mret (inr [])
  | res :: rest =>
      match yaml_decode res with
      | inl e => mret (inl e)
      | inr obj =>
          c ← lift_outcome (customize graphNs stepCfg steps obj);
          match c with
          | inl e => mret (inl e)
          | inr obj =>
              r ← applyResourceToK8s obj;
              match r with
              | inl e => mret (inl e)
              | inr obj =>
                  os ← reconcile_documents graphNs stepCfg steps rest;
                  match os with
                  | inl e => mret (inl e)
                  | inr os => mret (inr (obj :: os))
                  end
              end
          end
      end
  end.

Definition reconcileResource (graphNs : string) (stepCfg : Step) (steps : list Step)
    : prog rstate (error + list kobj) :=
  match getTemplateBytes (StepName stepCfg) with
  | inl e => mret (inl e)
  | inr yamlFile => reconcile_documents graphNs stepCfg steps (documents yamlFile)
  end.

(** ** Recording a resource *)

Definition recordResource (nodeName : string) (stepIdx : nat) (obj : kobj)
    : prog rstate (option error) :=
  _ ← upd_graph (annotate (record_key obj) "provisioned");
  if decide (o_Kind obj = Service_kind) then
    match o_Payload obj with
    | PService s =>
        g ← gets r_graph;
        match Steps (node_at (Spec g) nodeName) with
        | [] =>
            let url := getServiceURL obj s in
            _ ← upd_graph (annotate (record_key obj) url);
            _ ← upd_graph (set_AccessURL url);
            mret None
        | steps =>
            match steps !! stepIdx with
            | None => panic index_out_of_range
            | Some step =>
                let url := getServiceURL obj s +:+ map_get (Config (InternalService step)) "endpoint" in
                _ ← upd_graph (set_step_url nodeName stepIdx url);
                _ ← upd_graph (annotate (record_key obj) url);
                mret None
            end
        end
    | _ => mret (Some ("Failed to convert service " +:+ o_Name obj))
    end
  else mret None.

Fixpoint record_all (nodeName : string) (stepIdx : nat) (objs : list kobj)
    : prog rstate (option error) :=
  match objs with
  | [] => mret None
  | obj :: rest =>
      e ← recordResource nodeName stepIdx obj;
      match e with
      | Some e => mret (Some e)
      | None => record_all nodeName stepIdx rest
      end
  end.

(** ** The router service *)

Definition backslash_quote : string := bytes [92; 39].

Definition router_config (g : GMConnector) : RouterCfg :=
  let rc := SpecRouterConfig (Spec g) in
  let routerNs := if decide (rc_NameSpace rc ≠ "") then rc_NameSpace rc
                  else Namespace (gmc_ObjectMeta g) in
  let name := if decide (rc_ServiceName rc ≠ "") then rc_ServiceName rc
              else DefaultRouterServiceName in
  mkRouterCfg routerNs name (name +:+ dplymtSubfix) "" "" ""
    ("'" +:+ replace_all (marshal_graph (Spec g)) "'" backslash_quote +:+ "'").

Definition applyRouterConfigToTemplates (step : string) (cfg : RouterCfg) (yamlFile : string)
    : error + string :=
  if decide (step = Router_key) then render yamlFile cfg else inr yamlFile.

Fixpoint router_documents (docs : list string) : prog rstate (option error) :=
  match docs with
  | [] => mret None
  | res :: rest =>
      match yaml_decode res with
      | inl e => mret (Some e)
      | inr obj =>
          r ← applyResourceToK8s obj;
          match r with
          | inl e => mret (Some e)
          | inr obj =>
              e ← recordResource "" 0 obj;
              match e with
              | Some e => mret (Some e)
              | None => router_documents rest
              end
          end
      end
  end.

Definition reconcileRouterService : prog rstate (option error) :=
  g ← gets r_graph;
  match getTemplateBytes Router_key with
  | inl e => mret (Some ("Failed to get template bytes for " +:+ Router_key +:+ ": " +:+ e))
  | inr templateBytes =>
      match applyRouterConfigToTemplates Router_key (router_config g) templateBytes with
      | inl e => mret (Some e)
      | inr appliedCfg => router_documents (documents appliedCfg)
      end
  end.

(** ** Status *)

(** [strings.Split(key, ":")[i]] *)
Definition key_field (key : string) (i : nat) : prog rstate string :=
  match split key ":" !! i with Some f => mret f | None => panic index_out_of_range end.

Definition deleteRecordedResource (key : string) : prog rstate unit :=
  kind ← key_field key 0;
  apiVersion ← key_field key 1;
  name ← key_field key 2;
  ns ← key_field key 3;
  _ ← request (DeleteObject kind apiVersion ns name)
        (λ l, on_delete l kind apiVersion ns name);
  mret tt.

Definition status_line (d : deployment) (replicas : Z) : string :=
  let st := DeployStatus d in
  "Replicas: " +:+ itoa replicas +:+ " desired | " +:+ itoa (UpdatedReplicas st) +:+ " updated | "
    +:+ itoa (StatusReplicas st) +:+ " total | " +:+ itoa (AvailableReplicas st)
    +:+ " available | " +:+ itoa (UnavailableReplicas st) +:+ " unavailable" +:+ bytes [10].

Definition condition_lines (c : condition) : string :=
  "  Type: " +:+ c_Type c +:+ bytes [10] +:+ "  Status: " +:+ c_Status c +:+ bytes [10]
    +:+ "  Reason: " +:+ c_Reason c +:+ bytes [10] +:+ "  Message: " +:+ c_Message c +:+ bytes [10].

Definition status_text (d : deployment) (replicas : Z) : string :=
  foldl (λ t c, t +:+ condition_lines c)
    (status_line d replicas +:+ "Conditions:" +:+ bytes [10])
    (default [] (Conditions (DeployStatus d))).

(** The loop over the annotations, with the counts of ready and all
    deployments. *)
Fixpoint collect_loop (names : list string) (readyCnt totalCnt : Z) : prog rstate (Z * Z) :=
  match names with
  | [] => mret (readyCnt, totalCnt)
  | resName :: rest =>
      kind ← key_field resName 0;
      name ← key_field resName 2;
      ns ← key_field resName 3;
      if decide (kind = Deployment_kind) then
        r ← request (GetDeployment ns name) (λ l, on_get_deployment l ns name);
        match r with
        | inl _ => collect_loop rest readyCnt (totalCnt + 1)%Z
        | inr d =>
            match SpecReplicas d with
            | None => panic nil_deref
            | Some replicas =>
                _ ← upd_graph (annotate resName (status_text d replicas));
                if decide (AvailableReplicas (DeployStatus d) = replicas)
                then collect_loop rest (readyCnt + 1)%Z (totalCnt + 1)%Z
                else collect_loop rest readyCnt (totalCnt + 1)%Z
            end
        end
      else collect_loop rest readyCnt totalCnt
  end.

Definition status_format (ready external total : Z) : string :=
  itoa ready +:+ "/" +:+ itoa external +:+ "/" +:+ itoa total.

Definition collectResourceStatus : prog rstate (option error) :=
  g ← gets r_graph;
  if decide (Annotations (gmc_Status g) = ∅) then
    mret (Some "graph is empty or no annotations")
  else
    counts ← collect_loop (range_annotations (Annotations (gmc_Status g))) 0 0;
    let '(readyCnt, totalCnt) := counts in
    g ← gets r_graph;
    match split (Status (gmc_Status g)) "/" !! 1 with
    | None => panic index_out_of_range
    | Some externalResourceCntStr =>
        match atoi externalResourceCntStr with
        | (_, Some err) =>
            mret (Some ("Error converting externalResourceCnt to int: " +:+
                        num_error_text "Atoi" externalResourceCntStr err))
        | (externalResourceCnt, None) =>
            _ ← upd_graph (set_Status (status_format readyCnt externalResourceCnt totalCnt));
            let ns := Namespace (gmc_ObjectMeta g) in
            let name := Name (gmc_ObjectMeta g) in
            latest ← request (GetGraph ns name) (λ l, on_get_graph l ns name);
            _ ← match latest with
                | inl NotFound => mret tt
                | inl (OtherError _) => upd_graph (set_GraphVersion "")
                | inr l => upd_graph (set_GraphVersion (ResourceVersion (gmc_ObjectMeta l)))
                end;
            g ← gets r_graph;
            e ← request (UpdateStatus g) (λ l, on_update_status l g);
            match e with
            | inl e => mret (Some ("Failed to Update CR status to " +:+ Status (gmc_Status g)
                                   +:+ ": " +:+ kerr_text e))
            | inr stored => _ ← upd_graph (λ _, stored); mret None
            end
        end
    end.

(** ** Reconcile *)

(** [ctrl.Result]: whether it asks for a requeue, and the error. *)
Abbreviation reconcile_result := (bool * option error)%type.

(** The steps of a node; the count is of the external services. *)
Fixpoint reconcile_steps (nodeName : string) (steps : list Step) (i : nat) (todo : list Step)
    (externalService : Z) : prog rstate (error + Z) :=
  match todo with
  | [] => mret (inr externalService)
  | step :: rest =>
      if decide (NodeName step ≠ "") then
        reconcile_steps nodeName steps (S i) rest externalService
      else if decide (ExternalService step = "") then
        g ← gets r_graph;
        objs ← reconcileResource (Namespace (gmc_ObjectMeta g)) step steps;
        match objs with
        | inl e => mret (inl ("Failed to reconcile service for " +:+ StepName step +:+ ": " +:+ e))
        | inr objs =>
            e ← record_all nodeName i objs;
            match e with
            | Some e =>
                mret (inl ("Resource created with failure " +:+ StepName step +:+ ": " +:+ e))
            | None => reconcile_steps nodeName steps (S i) rest externalService
            end
        end
      else
        _ ← upd_graph (set_step_url nodeName i (ExternalService step));
        reconcile_steps nodeName steps (S i) rest (externalService + 1)%Z
  end.

Fixpoint reconcile_nodes (names : list string) (externalService : Z) : prog rstate (error + Z) :=
  match names with
  | [] => mret (inr externalService)
  | nodeName :: rest =>
      g ← gets r_graph;
      let steps := Steps (node_at (Spec g) nodeName) in
      r ← reconcile_steps nodeName steps 0 steps externalService;
      match r with
      | inl e => mret (inl e)
      | inr n => reconcile_nodes rest n
      end
  end.

(** The removal of the resources that are no longer recorded. *)
Fixpoint delete_stale (keys : list string) : prog rstate unit :=
  match keys with
  | [] => mret tt
  | k :: rest =>
      g ← gets r_graph;
      match Annotations (gmc_Status g) !! k with
      | Some _ => delete_stale rest
      | None => _ ← deleteRecordedResource k; delete_stale rest
      end
  end.

Definition default_TypeMeta (g : GMConnector) : GMConnector :=
  if decide (gmc_TypeMeta g = mkTypeMeta "" "")
  then set_TypeMeta (mkTypeMeta "gmc.opea.io/v1alpha3" "GMConnector") g else g.

(** [Reconcile] once the graph was read. *)
Definition reconcile_graph (graph : GMConnector) : prog rstate reconcile_result :=
  let graph := default_TypeMeta graph in
  let oldAnnotations := Annotations (gmc_Status graph) in
  _ ← upd_graph (λ _, set_Annotations ∅ graph);
  r ← reconcile_nodes (range_nodes (Nodes (Spec graph))) 0;
  match r with
  | inl e => mret (true, Some e)
  | inr externalService =>
      e ← reconcileRouterService;
      match e with
      | Some e => mret (true, Some ("Failed to reconcile router service: " +:+ e))
      | None =>
          _ ← delete_stale (range_annotations oldAnnotations);
          _ ← upd_graph (set_Status (status_format 0 externalService 0));
          e ← collectResourceStatus;
          match e with
          | Some e => mret (true, Some ("Failed to collect service status: " +:+ e))
          | None => mret (false, None)
          end
      end
  end.

(** The owners of a deployment that changed; a failed collection returns the
    error of the [Get], which is nil. *)
Fixpoint handle_owners (ns : string) (owners : list (string * string))
    : prog rstate reconcile_result :=
  match owners with
  | [] => mret (false, None)
  | (kind, name) :: rest =>
      if decide (kind = "GMConnector") then
        r ← request (GetGraph ns name) (λ l, on_get_graph l ns name);
        match r with
        | inl _ => handle_owners ns rest
        | inr graph =>
            _ ← upd_graph (λ _, graph);
            ue ← collectResourceStatus;
            match ue with
            | Some _ => mret (false, None)
            | None => handle_owners ns rest
            end
        end
      else handle_owners ns rest
  end.

Definition handleStatusUpdate (d : deployment) : prog rstate reconcile_result :=
  handle_owners (dep_Namespace d) (OwnerReferences d).

Definition Reconcile (ns name : string) : prog rstate reconcile_result :=
  r ← request (GetGraph ns name) (λ l, on_get_graph l ns name);
  match r with
  | inl NotFound =>
      d ← request (GetDeployment ns name) (λ l, on_get_deployment l ns name);
      match d with
      | inr d => handleStatusUpdate d
      | inl _ => mret (false, None)
      end
  | inl (OtherError e) => mret (false, Some ("Failed to get GMConnector " +:+ name +:+ ": " +:+ e))
  | inr graph => reconcile_graph graph
  end.
End controller.

(** ** Event filters *)

(** [isMetadataChanged] on two object metas, nil or not. *)
Definition isMetadataChanged (oldObject newObject : option ObjectMeta) : bool :=
  match oldObject, newObject with
  | Some o, Some n =>
      negb (bool_decide (Name o = Name n)) || negb (bool_decide (Namespace o = Namespace n)) ||
      negb (bool_decide (Labels o = Labels n)) ||
      negb (bool_decide (DeletionTimestamp o = DeletionTimestamp n))
  | None, None => false
  | _, _ => true
  end.

(** The two objects of an update event. *)
Inductive event_object := EvGraph (g : GMConnector) | EvDeployment (d : deployment).

Definition isGMCSpecOrMetadataChanged (oldO newO : event_object) : bool :=
  match oldO, newO with
  | EvGraph o, EvGraph n =>
      negb (bool_decide (Spec o = Spec n)) ||
      isMetadataChanged (Some (gmc_ObjectMeta o)) (Some (gmc_ObjectMeta n))
  | _, _ => true
  end.

(** The status of the last "Available" condition. *)
Definition available_status (d : deployment) : string :=
  foldl (λ st c, if decide (c_Type c = "Available") then c_Status c else st) "Unknown"
    (default [] (Conditions (DeployStatus d))).

Definition isDeploymentStatusChanged (oldO newO : event_object) : bool :=
  match oldO, newO with
  | EvDeployment o, EvDeployment n =>
      if decide (OwnerReferences n = []) then false
      else if decide (DeployStatus o = DeployStatus n) then false
      else
        let oldStatus := available_status o in
        let newStatus := available_status n in
        bool_decide ((oldStatus = "True" ∧ oldStatus ≠ newStatus) ∨
                     (newStatus = "True" ∧ oldStatus ≠ newStatus))
  | _, _ => true
  end.

(** ** SetupWithManager *)

(** The events of a watched object, and [predicate.Funcs], whose functions can
    be nil. *)
Inductive watch_event :=
  | CreateEvent (o : event_object)
  | UpdateEvent (oldO newO : event_object)
  | DeleteEvent (o : event_object)
  | GenericEvent (o : event_object).

Record predicate_Funcs := mkFuncs {
  CreateFunc : option (event_object → bool);
  DeleteFunc : option (event_object → bool);
  UpdateFunc : option (event_object → event_object → bool);
  GenericFunc : option (event_object → bool)
}.

Definition gmcfilter : predicate_Funcs := mkFuncs None None (Some isGMCSpecOrMetadataChanged) None.

Definition deploymentFilter : predicate_Funcs :=
  mkFuncs (Some (λ _, false)) (Some (λ _, false)) (Some isDeploymentStatusChanged) None.

(** The kinds that are watched, each with its predicate. *)
Inductive watched_kind := GMConnectorKind | DeploymentKind.

Definition SetupWithManager (k : watched_kind) : predicate_Funcs :=
  match k with GMConnectorKind => gmcfilter | DeploymentKind => deploymentFilter end.

Section watches.
(** controller-runtime: what it does with an event whose function is nil, and
    the namespace and name that [EnqueueRequestForObject] enqueues. *)
Context (unset_func : bool) (event_key : watch_event → string * string).

Definition lets_through (p : predicate_Funcs) (e : watch_event) : bool :=
  match e with
  | CreateEvent o => from_option (λ f, f o) unset_func (CreateFunc p)
  | UpdateEvent o n => from_option (λ f, f o n) unset_func (UpdateFunc p)
  | DeleteEvent o => from_option (λ f, f o) unset_func (DeleteFunc p)
  | GenericEvent o => from_option (λ f, f o) unset_func (GenericFunc p)
  end.

(** The request for which [Reconcile] is called, if any. *)
Definition enqueued (k : watched_kind) (e : watch_event) : option (string * string) :=
  if lets_through (SetupWithManager k) e then Some (event_key e) else None.
End watches.
