(* ===== verification/ControllerProps.v ===== *)
(** * Properties of the controller

    The retry loop ends and reports what the API server accepted; the records
    kept in the annotations address the objects they were made for; a
    reconciliation deletes exactly the recorded resources it did not apply
    again; the status line counts; the event filters. *)

From Stdlib Require Import Ascii.
From S2P Require Import Prelude GoStrings ApiTypes Validation Kube Controller.

(** ** Request logs *)

(** The deletions among the requests. *)
Definition is_delete (q : api_request) : Prop :=
  match q with DeleteObject _ _ _ _ => True | _ => False end.
#[global] Instance is_delete_dec q : Decision (is_delete q).
Proof. destruct q; apply _. Defined.

Definition deletes (l : list api_request) : list api_request := filter is_delete l.

Lemma deletes_app l k : deletes (l ++ k) = deletes l ++ deletes k.
Proof. apply filter_app. Qed.

(** The state moves without deleting anything. *)
Definition keeps_deletes (s s' : rstate) : Prop := deletes (r_log s') = deletes (r_log s).

#[global] Instance keeps_deletes_preorder : PreOrder keeps_deletes.
Proof. split; [done|]. unfold keeps_deletes. intros s1 s2 s3. congruence. Qed.

Lemma keeps_deletes_request {A} q (answer : list api_request → A) :
  ¬ is_delete q → keeps keeps_deletes (request q answer).
Proof.
  intros Hq s. unfold keeps_deletes, request, log_request. simpl.
  rewrite deletes_app. unfold deletes at 2. by rewrite filter_cons_False, app_nil_r.
Qed.

#[export] Hint Constants Opaque : prog.

Lemma keeps_deletes_upd f : keeps keeps_deletes (upd_graph f).
Proof. done. Qed.

Lemma keeps_deletes_gets {A} (f : rstate → A) : keeps keeps_deletes (gets f).
Proof. done. Qed.

Lemma keeps_deletes_lift {A} (o : outcome A) : keeps keeps_deletes (lift_outcome o).
Proof. done. Qed.

Lemma keeps_deletes_panic {A} m : keeps keeps_deletes (panic m : prog rstate A).
Proof. done. Qed.

Lemma keeps_deletes_fuel {A} : keeps keeps_deletes (out_of_fuel : prog rstate A).
Proof. done. Qed.

#[export] Hint Resolve keeps_deletes_upd keeps_deletes_gets keeps_deletes_lift
  keeps_deletes_panic keeps_deletes_fuel : prog.
#[export] Hint Extern 1 (keeps keeps_deletes (request _ _)) =>
  apply keeps_deletes_request; exact id : prog.

Section props.
Context `{KubeEnv}.

(** ** The retry loop *)

Lemma keeps_deletes_apply_loop fuel started g n o :
  keeps keeps_deletes (apply_loop fuel started g n o).
Proof. revert n o. induction fuel as [|fuel IH]; intros n o; simpl; [done|]. prog_walk. Qed.

Lemma keeps_deletes_apply o : keeps keeps_deletes (applyResourceToK8s o).
Proof. unfold applyResourceToK8s. auto using keeps_deletes_apply_loop with prog typeclass_instances. Qed.

#[local] Hint Resolve keeps_deletes_apply : prog.

Lemma total_request {A} q (answer : list api_request → A) : total (request q answer).
Proof. done. Qed.

Lemma total_upd_graph f : total (upd_graph f).
Proof. done. Qed.

#[local] Hint Resolve total_request total_upd_graph : prog.

Lemma total_apply_loop `{!Timers} fuel started g n o :
  n <= 600 < fuel + n → total (apply_loop fuel started g n o).
Proof.
  revert n o. induction fuel as [|fuel IH]; intros n o Hn; simpl; [lia|].
  destruct (next_event started n) eqn:E; [|done|done].
  assert (S n <= 600 < fuel + S n) as Hn'.
  { destruct (decide (600 <= n)); [|lia]. by destruct (ticks_bounded started n). }
  destruct (set_controller_reference g o) as [|o']; [done|].
  prog_walk_with ltac:(eauto with prog).
Qed.

(** What the loop requests: reads and updates, and one accepted creation or
    update at the end. *)
Definition about (o : kobj) (q : api_request) : Prop :=
  match q with
  | GetObject kind api ns name =>
      kind = o_Kind o ∧ api = o_APIVersion o ∧ ns = o_Namespace o ∧ name = o_Name o
  | UpdateObject o' => record_key o' = record_key o
  | _ => False
  end.

(** [SetControllerReference] only sets the owner. *)
Definition owner_only : Prop := ∀ g o o', set_controller_reference g o = inr o' →
  o_Kind o' = o_Kind o ∧ o_APIVersion o' = o_APIVersion o ∧ o_Namespace o' = o_Namespace o ∧
  o_Name o' = o_Name o ∧ o_Payload o' = o_Payload o.

Lemma about_same o o' q :
  o_Kind o' = o_Kind o → o_APIVersion o' = o_APIVersion o → o_Namespace o' = o_Namespace o →
  o_Name o' = o_Name o → about o' q → about o q.
Proof. intros H1 H2 H3 H4. destruct q; simpl; unfold record_key; rewrite ?H1, ?H2, ?H3, ?H4; tauto. Qed.

(** The object [o'] is [o] but for its owner and version. *)
Definition same_content (o o' : kobj) : Prop :=
  o_Kind o' = o_Kind o ∧ o_APIVersion o' = o_APIVersion o ∧ o_Namespace o' = o_Namespace o ∧
  o_Name o' = o_Name o ∧ o_Payload o' = o_Payload o.

Lemma same_content_trans o1 o2 o3 : same_content o1 o2 → same_content o2 o3 → same_content o1 o3.
Proof. unfold same_content. intuition congruence. Qed.

Lemma same_content_version v o : same_content o (set_ResourceVersion v o).
Proof. done. Qed.

Lemma about_content o o' q : same_content o o' → about o' q → about o q.
Proof. intros (? & ? & ? & ? & _). by apply about_same. Qed.

(** The last request of a successful application: accepted, about [o]. *)
Definition accepted (o : kobj) (l : list api_request) (q : api_request) (o' : kobj) : Prop :=
  ∃ sent, same_content o sent ∧
    ((q = CreateObject sent ∧ on_create l sent = inr o') ∨
     (q = UpdateObject sent ∧ on_update l sent = inr o')).

Lemma apply_loop_accepted fuel started g n o s s' o' :
  owner_only → apply_loop fuel started g n o s = (s', Done (inr o')) →
  r_graph s' = r_graph s ∧
  ∃ pre q, r_log s' = r_log s ++ pre ++ [q] ∧ Forall (about o) pre ∧
           accepted o (r_log s ++ pre) q o'.
Proof.
  intros Hown. revert n o s. induction fuel as [|fuel IH]; intros n o s; simpl; [done|].
  destruct (next_event started n); [|done|done].
  destruct (set_controller_reference g o) as [e|o1] eqn:Ho1; [done|].
  assert (same_content o o1) as Hc1 by (by apply (Hown g)).
  unfold mbind, prog_bind, request, log_request. simpl.
  set (q1 := GetObject (o_Kind o1) (o_APIVersion o1) (o_Namespace o1) (o_Name o1)).
  assert (about o q1) as Hq1 by (by destruct Hc1 as (? & ? & ? & ? & _)).
  destruct (on_get_object _ _ _ _ _) as [[|e]|latest]; simpl.
  - destruct (on_create _ _) as [e|o2] eqn:E; [done|]. intros [= <- <-]. simpl. split; [done|].
    exists [q1], (CreateObject o1). rewrite <- app_assoc. split; [done|].
    split; [by constructor|]. exists o1. split; [done|]. by left.
  - intros Hrun. apply IH in Hrun as [Hg (pre & q & Hl & Hf & Ha)]. simpl in *. split; [done|].
    exists (q1 :: pre), q. rewrite Hl, <- !app_assoc. split; [done|]. split.
    + constructor; [done|]. eapply Forall_impl; [exact Hf|]. intros. by eapply about_content.
    + rewrite <- app_assoc in Ha. destruct Ha as (sent & Hs & Ha). exists sent.
      split; [by eapply same_content_trans|done].
  - set (o2 := set_ResourceVersion (o_ResourceVersion latest) o1).
    assert (same_content o o2) as Hc2 by (by eapply same_content_trans, same_content_version).
    assert (about o (UpdateObject o2)) as Hq2.
    { destruct Hc2 as (E1 & E2 & E3 & E4 & _). simpl. unfold record_key. by rewrite E1, E2, E3, E4. }
    destruct (on_update _ o2) as [e|o3] eqn:E.
    + intros Hrun. apply IH in Hrun as [Hg (pre & q & Hl & Hf & Ha)]. simpl in *. split; [done|].
      exists (q1 :: UpdateObject o2 :: pre), q. rewrite Hl, <- !app_assoc. split; [done|]. split.
      * do 2 (constructor; [done|]). eapply Forall_impl; [exact Hf|]. intros. by eapply about_content.
      * rewrite <- !app_assoc in Ha. destruct Ha as (sent & Hs & Ha). exists sent.
        split; [by eapply same_content_trans|done].
    + intros [= <- <-]. simpl. split; [done|]. exists [q1], (UpdateObject o2).
      rewrite <- app_assoc. split; [done|]. split; [by constructor|]. exists o2. split; [done|]. by right.
Qed.

(** ** Everything but the garbage collection deletes nothing *)

Ltac del_walk := prog_walk_with
  ltac:(first [auto 3 with prog nocore; fail | simple apply keeps_ret; apply _]).

Lemma keeps_deletes_documents ns step steps docs :
  keeps keeps_deletes (reconcile_documents ns step steps docs).
Proof. induction docs as [|d docs IH]; simpl; del_walk. Qed.

Lemma keeps_deletes_record n i o : keeps keeps_deletes (recordResource n i o).
Proof. unfold recordResource. del_walk. Qed.
#[local] Hint Resolve keeps_deletes_documents keeps_deletes_record : prog.

Lemma keeps_deletes_record_all n i os : keeps keeps_deletes (record_all n i os).
Proof. induction os as [|o os IH]; simpl; del_walk. Qed.
#[local] Hint Resolve keeps_deletes_record_all : prog.

Lemma keeps_deletes_steps n steps i todo e : keeps keeps_deletes (reconcile_steps n steps i todo e).
Proof.
  revert i e. induction todo as [|s todo IH]; intros i e; cbn [reconcile_steps].
  { apply keeps_ret, _. }
  unfold reconcileResource. del_walk.
Qed.
#[local] Hint Resolve keeps_deletes_steps : prog.

Lemma keeps_deletes_nodes ns e : keeps keeps_deletes (reconcile_nodes ns e).
Proof. revert e. induction ns as [|n ns IH]; intros e; cbn [reconcile_nodes]; del_walk. Qed.

Lemma keeps_deletes_router : keeps keeps_deletes reconcileRouterService.
Proof.
  assert (∀ docs, keeps keeps_deletes (router_documents docs)) as Hd.
  { induction docs as [|d docs IH]; cbn [router_documents]; del_walk. }
  unfold reconcileRouterService. del_walk.
Qed.

Lemma keeps_deletes_key_field k i : keeps keeps_deletes (key_field k i).
Proof. unfold key_field. by destruct (split k ":" !! i). Qed.
#[local] Hint Resolve keeps_deletes_key_field : prog.

Lemma keeps_deletes_collect : keeps keeps_deletes collectResourceStatus.
Proof.
  assert (∀ names r t, keeps keeps_deletes (collect_loop names r t)) as Hl.
  { induction names as [|n names IH]; intros r t; cbn [collect_loop]; del_walk. }
  unfold collectResourceStatus. del_walk.
Qed.

(** ** What provisioning does to the graph

    The functions that provision write to the graph object only through the
    annotations, the access URL and the service URLs of its steps: they move it
    along every preorder that has these writes. *)

Section graph_writes.
Context (R : relation GMConnector) `{!PreOrder R}.
Context (R_annotate : ∀ k v g, R g (annotate k v g)) (R_access : ∀ u g, R g (set_AccessURL u g)).

Definition on_graph (s s' : rstate) : Prop := R (r_graph s) (r_graph s').

#[local] Instance on_graph_preorder : PreOrder on_graph.
Proof. unfold on_graph. split; [by intros s|]. intros s1 s2 s3 ? ?. by etrans. Qed.

Lemma keeps_graph_request {A} q (answer : list api_request → A) : keeps on_graph (request q answer).
Proof. intros s. by unfold on_graph. Qed.
Lemma keeps_graph_gets {A} (f : rstate → A) : keeps on_graph (gets f).
Proof. intros s. by unfold on_graph. Qed.
Lemma keeps_graph_lift {A} (o : outcome A) : keeps on_graph (lift_outcome o).
Proof. intros s. by unfold on_graph. Qed.
Lemma keeps_graph_panic {A} m : keeps on_graph (panic m : prog rstate A).
Proof. intros s. by unfold on_graph. Qed.
Lemma keeps_graph_fuel {A} : keeps on_graph (out_of_fuel : prog rstate A).
Proof. intros s. by unfold on_graph. Qed.
Lemma keeps_graph_annotate k v : keeps on_graph (upd_graph (annotate k v)).
Proof. intros s. apply R_annotate. Qed.
Lemma keeps_graph_access u : keeps on_graph (upd_graph (set_AccessURL u)).
Proof. intros s. apply R_access. Qed.

#[local] Hint Resolve keeps_graph_request keeps_graph_gets keeps_graph_lift keeps_graph_panic
  keeps_graph_fuel keeps_graph_annotate keeps_graph_access : prog.

Lemma keeps_graph_apply_loop fuel started g n o : keeps on_graph (apply_loop fuel started g n o).
Proof.
  revert n o. induction fuel as [|fuel IH]; intros n o; cbn [apply_loop]; del_walk.
Qed.
#[local] Hint Resolve keeps_graph_apply_loop : prog.

Lemma keeps_graph_apply o : keeps on_graph (applyResourceToK8s o).
Proof. unfold applyResourceToK8s. del_walk. Qed.
#[local] Hint Resolve keeps_graph_apply : prog.

Lemma keeps_graph_resource ns step steps : keeps on_graph (reconcileResource ns step steps).
Proof.
  assert (∀ docs, keeps on_graph (reconcile_documents ns step steps docs)) as Hd.
  { induction docs as [|d docs IH]; cbn [reconcile_documents]; del_walk. }
  unfold reconcileResource. del_walk.
Qed.
#[local] Hint Resolve keeps_graph_resource : prog.

(** The preorder has the writes to the URL of step [i] of node [n]. *)
Definition url_ok (n : string) (i : nat) : Prop := ∀ u g, R g (set_step_url n i u g).

Lemma keeps_graph_url n i u : url_ok n i → keeps on_graph (upd_graph (set_step_url n i u)).
Proof. intros Hu s. apply Hu. Qed.

Lemma keeps_graph_record n i o : url_ok n i → keeps on_graph (recordResource n i o).
Proof. intros Hu. pose proof (λ u, keeps_graph_url n i u Hu). unfold recordResource. del_walk. Qed.

Lemma keeps_graph_record_all n i os : url_ok n i → keeps on_graph (record_all n i os).
Proof.
  intros Hu. pose proof (λ o, keeps_graph_record n i o Hu).
  induction os as [|o os IH]; cbn [record_all]; del_walk.
Qed.

Lemma keeps_graph_steps n steps i todo e :
  (∀ j, i <= j → url_ok n j) → keeps on_graph (reconcile_steps n steps i todo e).
Proof.
  revert i e. induction todo as [|s todo IH]; intros i e Hu; cbn [reconcile_steps].
  { apply keeps_ret, _. }
  assert (∀ j, S i <= j → url_ok n j) as Hu' by (intros j Hj; apply Hu; lia).
  pose proof (λ e, IH (S i) e Hu'). pose proof (λ u, keeps_graph_url n i u (Hu i (le_n i))).
  pose proof (λ os, keeps_graph_record_all n i os (Hu i (le_n i))). del_walk.
Qed.

Lemma keeps_graph_nodes names e :
  (∀ n i, url_ok n i) → keeps on_graph (reconcile_nodes names e).
Proof.
  intros Hu. pose proof (λ n steps i todo e, keeps_graph_steps n steps i todo e (λ j _, Hu n j)).
  revert e. induction names as [|n names IH]; intros e; cbn [reconcile_nodes]; del_walk.
Qed.

Lemma keeps_graph_router : url_ok "" 0 → keeps on_graph reconcileRouterService.
Proof.
  intros Hu. pose proof (λ o, keeps_graph_record "" 0 o Hu).
  assert (∀ docs, keeps on_graph (router_documents docs)) as Hd.
  { induction docs as [|d docs IH]; cbn [router_documents]; del_walk. }
  unfold reconcileRouterService. del_walk.
Qed.
End graph_writes.

(** Of the specification only the [ServiceURL]s of the steps change. *)
Definition shape (g : GMConnector) : gmap string (list Step) :=
  (λ r, set_ServiceURL "" <$> Steps r) <$> Nodes (Spec g).

Definition same_shape (g g' : GMConnector) : Prop := shape g' = shape g.

#[global] Instance same_shape_preorder : PreOrder same_shape.
Proof. split; [done|]. unfold same_shape. intros g1 g2 g3. congruence. Qed.

Lemma shape_set_step_url n i url g : shape (set_step_url n i url g) = shape g.
Proof.
  unfold shape, set_step_url, Nodes. simpl. destruct (NodesMap (Spec g)) as [ns|]; [|done]. simpl.
  apply map_eq. intros m. rewrite !lookup_fmap, lookup_alter. case_decide as E; [|done]. subst.
  destruct (ns !! m) as [r|]; [|done]. simpl. f_equal. unfold Steps. simpl.
  destruct (StepsSlice r) as [l|]; [|done]. simpl.
  revert i. induction l as [|x l IH]; intros [|i]; csimpl; [done..|]. by rewrite IH.
Qed.

Lemma keeps_shape_steps n steps i todo e :
  keeps (on_graph same_shape) (reconcile_steps n steps i todo e).
Proof. apply keeps_graph_steps; try done; [apply _|]. intros j _ u g. apply shape_set_step_url. Qed.

Lemma keeps_shape_router : keeps (on_graph same_shape) reconcileRouterService.
Proof. apply keeps_graph_router; try done; [apply _|]. intros u g. apply shape_set_step_url. Qed.

(** The name and the namespace of the graph do not change. *)
Definition same_meta (g g' : GMConnector) : Prop := gmc_ObjectMeta g' = gmc_ObjectMeta g.

#[global] Instance same_meta_preorder : PreOrder same_meta.
Proof. split; [done|]. unfold same_meta. intros g1 g2 g3. congruence. Qed.

Lemma keeps_meta_nodes names e : keeps (on_graph same_meta) (reconcile_nodes names e).
Proof. apply keeps_graph_nodes; try done. apply _. Qed.

Lemma keeps_meta_router : keeps (on_graph same_meta) reconcileRouterService.
Proof. apply keeps_graph_router; try done. apply _. Qed.

(** ** Counting the external steps *)

Definition external (s : Step) : Prop := NodeName s = "" ∧ ExternalService s ≠ "".
#[global] Instance external_dec s : Decision (external s).
Proof. unfold external. apply _. Defined.

Definition count_external (l : list Step) : Z := Z.of_nat (length (filter external l)).

Lemma count_external_cons s l :
  count_external (s :: l) = ((if decide (external s) then 1 else 0) + count_external l)%Z.
Proof. unfold count_external. rewrite filter_cons. case_decide; simpl; lia. Qed.

Lemma count_external_app l k : count_external (l ++ k) = (count_external l + count_external k)%Z.
Proof. unfold count_external. rewrite filter_app, length_app. lia. Qed.

#[global] Instance count_external_perm : Proper ((≡ₚ) ==> eq) count_external.
Proof. intros l k E. unfold count_external. by rewrite E. Qed.

Lemma reconcile_steps_count n steps i todo e s s' e' :
  reconcile_steps n steps i todo e s = (s', Done (inr e')) → e' = (e + count_external todo)%Z.
Proof.
  revert i e s. induction todo as [|x todo IH]; intros i e s; cbn [reconcile_steps].
  { intros [= _ <-]. unfold count_external. simpl. lia. }
  rewrite count_external_cons. unfold external.
  destruct (decide (NodeName x ≠ "")) as [Hn|Hn].
  { intros E%IH. rewrite decide_False by tauto. lia. }
  destruct (decide (ExternalService x = "")) as [He|He].
  - rewrite decide_False by tauto. intros (s1 & g & _ & Hr)%run_bind_inv.
    apply run_bind_inv in Hr as (s2 & [er|os] & _ & Hr); [by injection Hr|].
    apply run_bind_inv in Hr as (s3 & [er|] & _ & Hr); [by injection Hr|].
    apply IH in Hr. lia.
  - rewrite decide_True by (split; [by apply dec_stable|done]).
    intros (s1 & [] & _ & Hr)%run_bind_inv. apply IH in Hr. lia.
Qed.

(** The external steps of a node depend on the shape only. *)
Definition node_external (g : GMConnector) (n : string) : Z :=
  count_external (Steps (node_at (Spec g) n)).

Lemma count_external_erase l : count_external (set_ServiceURL "" <$> l) = count_external l.
Proof.
  induction l as [|s l IH]; csimpl; [done|]. rewrite !count_external_cons, IH. reflexivity.
Qed.

Lemma node_external_shape g n :
  node_external g n = count_external (default [] (shape g !! n)).
Proof.
  unfold node_external, node_at, shape. rewrite lookup_fmap.
  destruct (Nodes (Spec g) !! n) as [r|]; simpl; [by rewrite count_external_erase|done].
Qed.

Lemma reconcile_nodes_count names e s s' e' :
  reconcile_nodes names e s = (s', Done (inr e')) →
  shape (r_graph s') = shape (r_graph s) ∧
  e' = (e + foldr Z.add 0 (node_external (r_graph s) <$> names))%Z.
Proof.
  revert e s. induction names as [|n names IH]; intros e s; cbn [reconcile_nodes].
  { intros [= <- <-]. simpl. split; [done|lia]. }
  intros (s1 & g & Hg & Hr)%run_bind_inv. injection Hg as <- <-.
  apply run_bind_inv in Hr as (s2 & [er|e2] & Hs & Hr); [by injection Hr|].
  pose proof (keeps_shape_steps n (Steps (node_at (Spec (r_graph s)) n)) 0
    (Steps (node_at (Spec (r_graph s)) n)) e s) as Hk. rewrite Hs in Hk.
  apply reconcile_steps_count in Hs. apply IH in Hr as [Hsh ->]. unfold on_graph, same_shape in Hk. simpl in Hk.
  split; [congruence|]. csimpl. unfold node_external at 2. rewrite Hs.
  assert (∀ n, node_external (r_graph s2) n = node_external (r_graph s) n) as E.
  { intros m. by rewrite !node_external_shape, Hk. }
  rewrite (list_fmap_ext _ (node_external (r_graph s)) names) by auto. lia.
Qed.

(** The count over all nodes, in any enumeration. *)
Lemma node_external_all g names :
  names ≡ₚ (map_to_list (Nodes (Spec g))).*1 →
  foldr Z.add 0%Z (node_external g <$> names) = count_external (spec_steps g).
Proof.
  assert (∀ l k : list Z, l ≡ₚ k → foldr Z.add 0%Z l = foldr Z.add 0%Z k) as Hsum.
  { induction 1; simpl; lia. }
  intros E. rewrite (Hsum _ _ (fmap_Permutation _ _ _ E)). unfold spec_steps.
  assert (∀ es : list (string * ApiTypes.Router), (∀ n r, (n, r) ∈ es → Nodes (Spec g) !! n = Some r) →
    foldr Z.add 0%Z (node_external g <$> es.*1) = count_external (all_steps es)) as Hgen.
  { induction es as [|[n r] es IH]; intros Hes; [done|]. csimpl.
    change (all_steps ((n, r) :: es)) with (Steps r ++ all_steps es).
    rewrite count_external_app, IH by (intros; apply Hes; by right).
    f_equal. unfold node_external. by rewrite (node_at_Some _ _ _ (Hes n r ltac:(left))). }
  apply Hgen. intros n r. by rewrite elem_of_map_to_list.
Qed.

(** ** The deletions of the garbage collection *)

(** The request that removes the resource of a key. *)
Definition delete_of (k : string) : api_request :=
  let f i := default "" (split k ":" !! i) in DeleteObject (f 0) (f 1) (f 3) (f 2).

Lemma key_field_inv k i s s' f :
  key_field k i s = (s', Done f) → s' = s ∧ default "" (split k ":" !! i) = f.
Proof.
  unfold key_field. destruct (split k ":" !! i); [|done]. by intros [= <- <-].
Qed.

Lemma deleteRecordedResource_inv k s s' :
  deleteRecordedResource k s = (s', Done tt) → s' = log_request (delete_of k) s.
Proof.
  unfold deleteRecordedResource.
  intros (s1 & f0 & [-> <-]%key_field_inv & Hr)%run_bind_inv.
  apply run_bind_inv in Hr as (s2 & f1 & [-> <-]%key_field_inv & Hr).
  apply run_bind_inv in Hr as (s3 & f2 & [-> <-]%key_field_inv & Hr).
  apply run_bind_inv in Hr as (s4 & f3 & [-> <-]%key_field_inv & Hr).
  apply run_bind_inv in Hr as (s5 & e & Hq & Hr). injection Hq as <- <-. by injection Hr.
Qed.

Definition annotations (s : rstate) : gmap string string := Annotations (gmc_Status (r_graph s)).

Lemma delete_stale_inv keys s s' :
  delete_stale keys s = (s', Done tt) →
  r_graph s' = r_graph s ∧
  r_log s' = r_log s ++ (delete_of <$> filter (λ k, annotations s !! k = None) keys).
Proof.
  revert s. induction keys as [|k keys IH]; intros s; cbn [delete_stale].
  { intros [= <-]. simpl. by rewrite app_nil_r. }
  intros (s1 & g & Hg & Hr)%run_bind_inv. injection Hg as <- <-. rewrite filter_cons.
  change (Annotations (gmc_Status (r_graph s))) with (annotations s) in Hr.
  destruct (annotations s !! k) eqn:E.
  - rewrite decide_False by done. by apply IH.
  - rewrite decide_True by done. apply run_bind_inv in Hr as (s2 & [] & Hd & Hr).
    apply deleteRecordedResource_inv in Hd as ->. apply IH in Hr as [Hg Hl].
    split; [done|]. rewrite Hl. simpl. by rewrite <- app_assoc.
Qed.

Lemma Annotations_annotate k v g :
  Annotations (gmc_Status (annotate k v g)) = <[k := v]> (Annotations (gmc_Status g)).
Proof. done. Qed.

(** ** Collecting the status *)

(** The keys of recorded deployments. *)
Definition is_deployment (k : string) : Prop := split k ":" !! 0 = Some Deployment_kind.
#[global] Instance is_deployment_dec k : Decision (is_deployment k).
Proof. unfold is_deployment. apply _. Defined.

(** What the collection leaves unchanged: everything but the status, the
    version and the values of the annotations. *)
Definition same_but_status (g g' : GMConnector) : Prop :=
  Spec g' = Spec g ∧ gmc_TypeMeta g' = gmc_TypeMeta g ∧
  Name (gmc_ObjectMeta g') = Name (gmc_ObjectMeta g) ∧
  Namespace (gmc_ObjectMeta g') = Namespace (gmc_ObjectMeta g) ∧
  Labels (gmc_ObjectMeta g') = Labels (gmc_ObjectMeta g) ∧
  DeletionTimestamp (gmc_ObjectMeta g') = DeletionTimestamp (gmc_ObjectMeta g) ∧
  AccessURL (gmc_Status g') = AccessURL (gmc_Status g) ∧
  dom (Annotations (gmc_Status g')) = dom (Annotations (gmc_Status g)).

#[global] Instance same_but_status_preorder : PreOrder same_but_status.
Proof.
  split; [done|]. intros g1 g2 g3. unfold same_but_status. intuition congruence.
Qed.

(** The request for the deployment of a key. *)
Definition key_part (k : string) (i : nat) : string := default "" (split k ":" !! i).
Definition deployment_request (k : string) : api_request := GetDeployment (key_part k 3) (key_part k 2).

(** The answers to the requests for the deployments [ks], one after the other,
    the first one after the requests [l]. *)
Fixpoint deployment_answers (l : list api_request) (ks : list string) : list (kerr + deployment) :=
  match ks with
  | [] => []
  | k :: ks => on_get_deployment l (key_part k 3) (key_part k 2) ::
               deployment_answers (l ++ [deployment_request k]) ks
  end.

(** A deployment with as many replicas available as desired. *)
Definition ready (a : kerr + deployment) : Prop :=
  match a with inr d => SpecReplicas d = Some (AvailableReplicas (DeployStatus d)) | inl _ => False end.
#[global] Instance ready_dec a : Decision (ready a).
Proof. destruct a; unfold ready; apply _. Defined.

Definition count_ready (l : list (kerr + deployment)) : Z := Z.of_nat (length (filter ready l)).

Lemma count_ready_cons a l :
  count_ready (a :: l) = ((if decide (ready a) then 1 else 0) + count_ready l)%Z.
Proof. unfold count_ready. rewrite filter_cons. case_decide; simpl; lia. Qed.

Lemma same_but_status_annotate k v g :
  is_Some (Annotations (gmc_Status g) !! k) → same_but_status g (annotate k v g).
Proof.
  intros Hk%elem_of_dom. unfold same_but_status. split_and!; try done.
  rewrite Annotations_annotate, dom_insert_L. set_solver.
Qed.

Lemma collect_loop_inv names r t s s' r' t' :
  Forall (λ k, is_Some (annotations s !! k)) names →
  collect_loop names r t s = (s', Done (r', t')) →
  let ks := filter is_deployment names in
  same_but_status (r_graph s) (r_graph s') ∧
  Status (gmc_Status (r_graph s')) = Status (gmc_Status (r_graph s)) ∧
  r_log s' = r_log s ++ (deployment_request <$> ks) ∧
  t' = (t + Z.of_nat (length ks))%Z ∧ r' = (r + count_ready (deployment_answers (r_log s) ks))%Z.
Proof.
  intros Hn. revert r t s Hn. induction names as [|k names IH]; intros r t s Hn; cbn [collect_loop].
  { intros [= <- <- <-]. simpl. rewrite app_nil_r. split_and!; [done..| |]; unfold count_ready; simpl; lia. }
  apply Forall_cons in Hn as [Hk Hn].
  intros (s1 & f0 & Hf0 & Hr)%run_bind_inv.
  assert (split k ":" !! 0 = Some f0 ∧ s1 = s) as [Hf ->].
  { unfold key_field in Hf0. destruct (split k ":" !! 0); [|done]. by injection Hf0 as -> ->. }
  apply run_bind_inv in Hr as (s2 & f2 & [-> E2]%key_field_inv & Hr).
  apply run_bind_inv in Hr as (s3 & f3 & [-> E3]%key_field_inv & Hr).
  rewrite filter_cons. destruct (decide (f0 = Deployment_kind)) as [->|Hne].
  2:{ rewrite decide_False by (unfold is_deployment; congruence). by apply IH. }
  rewrite decide_True by done. cbn [length fmap list_fmap deployment_answers].
  unfold deployment_request at 1 3. unfold key_part at 1 2 3 4 5 6. rewrite E2, E3.
  rewrite Nat2Z.inj_succ, count_ready_cons.
  apply run_bind_inv in Hr as (s4 & d & Hd & Hr). unfold request, log_request in Hd. injection Hd as <- Hd.
  rewrite Hd. assert (∀ l ks, l ++ GetDeployment f3 f2 :: ks = (l ++ [GetDeployment f3 f2]) ++ ks) as El
    by (intros; by rewrite <- app_assoc).
  rewrite El. destruct d as [e|d].
  { apply IH in Hr as (Hs & Hst & Hl & -> & ->); [|done]. cbn [r_log r_graph] in *.
    split_and!; [done..|lia|]. rewrite decide_False by (by intros []). lia. }
  destruct (SpecReplicas d) as [replicas|] eqn:Erep; [|done].
  apply run_bind_inv in Hr as (s5 & [] & Hu & Hr). injection Hu as <-. cbn [r_log r_graph] in Hr.
  assert (∀ r1, collect_loop names r1 (t + 1)
    (mkR (r_log s ++ [GetDeployment f3 f2]) (annotate k (status_text d replicas) (r_graph s))) =
    (s', Done (r', t')) → same_but_status (r_graph s) (r_graph s') ∧
    Status (gmc_Status (r_graph s')) = Status (gmc_Status (r_graph s)) ∧
    r_log s' = (r_log s ++ [GetDeployment f3 f2]) ++ (deployment_request <$> filter is_deployment names) ∧
    t' = (t + 1 + Z.of_nat (length (filter is_deployment names)))%Z ∧
    r' = (r1 + count_ready (deployment_answers (r_log s ++ [GetDeployment f3 f2])
                              (filter is_deployment names)))%Z) as Hrest.
  { intros r1 Hrun. apply IH in Hrun as (Hs & Hst & Ht & Hle).
    - split; [|done]. etrans; [|exact Hs]. by apply same_but_status_annotate.
    - eapply Forall_impl; [exact Hn|]. intros k' Hk'. unfold annotations. cbn [r_graph].
      rewrite Annotations_annotate, lookup_insert_is_Some'. by right. }
  destruct (decide (AvailableReplicas (DeployStatus d) = replicas)) as [Ea|Ea];
    apply Hrest in Hr as (? & ? & ? & -> & ->); (split_and!; [done..|lia|]).
  - rewrite decide_True by (simpl; congruence). lia.
  - rewrite decide_False by (simpl; congruence). lia.
Qed.
End props.
