(* ===== verification/ControllerTheorems.v ===== *)
(** * What the controller guarantees

    The theorems on the retry loop, the records of the status, the garbage
    collection and the status line of [Reconcile], the router's configuration,
    the manifests the webhook's step names have, and the event filters. *)

From Stdlib Require Import Ascii.
From S2P Require Import Prelude GoStrings ApiTypes Validation JsonText GraphJson.
From S2P Require Import Kube Controller ControllerProps.

(** ** Manifests *)

(** Every step name the webhook admits has a manifest, except "Router": a
    resource with a step of that name is admitted and can never be provisioned,
    the manifest being filed under "router". *)
Lemma admitted_names_provisionable name :
  name ∈ stepNames → (lookupManifestDir name = "" ↔ name = "Router").
Proof.
  intros Hn. repeat (apply elem_of_cons in Hn as [->|Hn]; [vm_compute; split; congruence|]).
  by apply elem_of_nil in Hn.
Qed.

Lemma admitted_names_provisionable_witness :
  "Router" ∈ stepNames ∧ (lookupManifestDir "Router" = "" ↔ "Router" = "Router").
Proof.
  assert ("Router" ∈ stepNames) as Hin by (vm_compute; set_solver).
  split; [exact Hin|]. exact (admitted_names_provisionable "Router" Hin).
Defined.

(** ** Keys *)

Lemma split_record_key o :
  no_byte ":" (o_Kind o) → no_byte ":" (o_APIVersion o) → no_byte ":" (o_Name o) →
  no_byte ":" (o_Namespace o) →
  split (record_key o) ":" = [o_Kind o; o_APIVersion o; o_Name o; o_Namespace o].
Proof.
  intros H1 H2 H3 H4.
  change (record_key o) with (join [o_Kind o; o_APIVersion o; o_Name o; o_Namespace o] ":").
  apply split_join; [done|]. by repeat constructor.
Qed.

(** The key under which an object is recorded addresses it: deleting the
    record requests the deletion of exactly that object (no field of a
    Kubernetes object contains a colon). *)
Lemma recorded_key_addresses_object `{KubeEnv} o s :
  no_byte ":" (o_Kind o) → no_byte ":" (o_APIVersion o) → no_byte ":" (o_Name o) →
  no_byte ":" (o_Namespace o) →
  deleteRecordedResource (record_key o) s =
    (log_request (DeleteObject (o_Kind o) (o_APIVersion o) (o_Namespace o) (o_Name o)) s, Done tt).
Proof.
  intros H1 H2 H3 H4. unfold deleteRecordedResource, key_field.
  by rewrite (split_record_key o H1 H2 H3 H4).
Qed.

Section controller.
Context `{KubeEnv}.

(** ** The retry loop *)

Lemma apply_run o s :
  applyResourceToK8s o s = apply_loop apply_fuel (r_log s) (r_graph s) 0 o s.
Proof.
  unfold applyResourceToK8s. generalize apply_fuel. intros fuel.
  unfold mbind, prog_bind, gets. reflexivity.
Qed.

(** With timers that end the loop after a minute, [applyResourceToK8s]
    returns, whatever the API server answers. *)
Lemma applyResourceToK8s_terminates `{!Timers} o s : (applyResourceToK8s o s).2 ≠ OutOfFuel.
Proof.
  rewrite apply_run. apply total_apply_loop. unfold apply_fuel. lia.
Qed.

(** C36: when [applyResourceToK8s] reports success, its last request is a
    creation or an update of the object (its content, with the owner and the
    version set) that the API server accepted; before it the loop only read the
    object and tried to update it. *)
Theorem applyResourceToK8s_accepted o s s' o' :
  owner_only → applyResourceToK8s o s = (s', Done (inr o')) →
  r_graph s' = r_graph s ∧
  ∃ pre q, r_log s' = r_log s ++ pre ++ [q] ∧ Forall (about o) pre ∧
           accepted o (r_log s ++ pre) q o'.
Proof. intros Ho. rewrite apply_run. by apply apply_loop_accepted. Qed.

(** ** Reconcile *)

(** The last request stored the status of [sent], and the graph is what the
    server answered. *)
Definition submitted (s' : rstate) (sent : GMConnector) : Prop :=
  ∃ pre, r_log s' = pre ++ [UpdateStatus sent] ∧ on_update_status pre sent = inr (r_graph s').

Lemma submitted_unique s' sent sent' : submitted s' sent → submitted s' sent' → sent' = sent.
Proof. intros (pre & E & _) (pre' & E' & _). rewrite E in E'. by apply app_inj_tail in E' as [_ [= ->]]. Qed.

Lemma collect_inv `{!GoRanges} s s' :
  collectResourceStatus s = (s', Done None) →
  ∃ sent txt ext, submitted s' sent ∧ same_but_status (r_graph s) sent ∧
    split (Status (gmc_Status (r_graph s))) "/" !! 1 = Some txt ∧ atoi txt = (ext, None) ∧
    let ks := filter is_deployment (range_annotations (annotations s)) in
    Status (gmc_Status sent) =
      status_format (count_ready (deployment_answers (r_log s) ks)) ext (Z.of_nat (length ks)) ∧
    r_log s' = r_log s ++ (deployment_request <$> ks) ++
      [GetGraph (Namespace (gmc_ObjectMeta (r_graph s))) (Name (gmc_ObjectMeta (r_graph s)));
       UpdateStatus sent].
Proof.
  unfold collectResourceStatus. intros (s1 & g & Hg & Hr)%run_bind_inv. injection Hg as <- <-.
  change (Annotations (gmc_Status (r_graph s))) with (annotations s) in Hr.
  destruct (decide (annotations s = ∅)); [by injection Hr|].
  apply run_bind_inv in Hr as (s2 & [r t] & Hl & Hr).
  apply collect_loop_inv in Hl as (Hsame & Hst & Hlog & Ht & Hrd).
  2:{ apply Forall_forall. intros k. rewrite range_annotations_perm, list_elem_of_fmap.
      intros ([k' v] & -> & Hk%elem_of_map_to_list). by exists v. }
  apply run_bind_inv in Hr as (s3 & g & Hg & Hr). injection Hg as <- <-. rewrite Hst in Hr.
  destruct (split (Status (gmc_Status (r_graph s))) "/" !! 1) as [txt|] eqn:Etxt; [|done].
  destruct (atoi txt) as [ext [e|]] eqn:Ea; [by injection Hr|].
  apply run_bind_inv in Hr as (s4 & [] & Hu & Hr). injection Hu as <-.
  apply run_bind_inv in Hr as (s5 & latest & Hq & Hr). injection Hq as <- <-.
  apply run_bind_inv in Hr as (s6 & [] & Hv & Hr).
  set (g4 := set_Status (status_format r ext t) (r_graph s2)) in *.
  set (q := GetGraph _ _) in *.
  assert (same_but_status g4 (r_graph s6) ∧ r_log s6 = r_log s2 ++ [q] ∧
          Status (gmc_Status (r_graph s6)) = Status (gmc_Status g4)) as (Hs6 & Hl6 & Hst6).
  { destruct (on_get_graph _ _ _) as [[|e]|l]; injection Hv as <-; done. }
  apply run_bind_inv in Hr as (s7 & g & Hg & Hr). injection Hg as <- <-.
  apply run_bind_inv in Hr as (s8 & [e|stored] & Hq & Hr); [by injection Hr|].
  injection Hq as <- Hacc. apply run_bind_inv in Hr as (s9 & [] & Hu & Hr). injection Hu as <-.
  injection Hr as <-. exists (r_graph s6), txt, ext. split; [by exists (r_log s6)|].
  split; [etrans; [exact Hsame|]; by etrans; [|exact Hs6]|]. split; [done|]. split; [done|]. split.
  - rewrite Hst6. simpl. f_equal; lia.
  - cbn [r_log log_request]. rewrite Hl6, Hlog, <- !app_assoc. do 3 f_equal. unfold q.
    destruct Hsame as (_ & _ & -> & -> & _). done.
Qed.

Lemma reconcile_graph_inv g s s' :
  reconcile_graph g s = (s', Done (false, None)) →
  ∃ s1 s2 ext,
    reconcile_nodes (range_nodes (Nodes (Spec (default_TypeMeta g)))) 0
      (mkR (r_log s) (set_Annotations ∅ (default_TypeMeta g))) = (s1, Done (inr ext)) ∧
    reconcileRouterService s1 = (s2, Done None) ∧
    ∃ s3, delete_stale (range_annotations (Annotations (gmc_Status g))) s2 = (s3, Done tt) ∧
    collectResourceStatus (mkR (r_log s3) (set_Status (status_format 0 ext 0) (r_graph s3))) =
      (s', Done None).
Proof.
  unfold reconcile_graph. intros (s0 & [] & Hu & Hr)%run_bind_inv. injection Hu as <-.
  apply run_bind_inv in Hr as (s1 & [e|ext] & Hn & Hr); [by injection Hr|].
  apply run_bind_inv in Hr as (s2 & [e|] & Hrt & Hr); [by injection Hr|].
  apply run_bind_inv in Hr as (s3 & [] & Hd & Hr).
  apply run_bind_inv in Hr as (s4 & [] & Hu & Hr). injection Hu as <-.
  apply run_bind_inv in Hr as (s5 & [e|] & Hc & Hr); [by injection Hr|].
  injection Hr as <-. exists s1, s2, ext. split; [done|]. split; [done|]. exists s3. split; [|done].
  rewrite <- Hd. f_equal. unfold default_TypeMeta. by case_decide.
Qed.

Lemma deletes_fmap ks : deletes (delete_of <$> ks) = delete_of <$> ks.
Proof.
  unfold deletes. induction ks as [|k ks IH]; [done|]. csimpl.
  rewrite filter_cons_True by done. by rewrite IH.
Qed.

Lemma filter_absent_ext (m m' : gmap string string) (ks : list string) :
  dom m' = dom m → filter (λ k, m' !! k = None) ks = filter (λ k, m !! k = None) ks.
Proof.
  intros E. apply list_filter_iff. intros k. rewrite <- !not_elem_of_dom. by rewrite E.
Qed.

(** A successful reconciliation of a resource deletes the recorded
    resources it has not recorded again, and nothing else: the deletions it
    requests are those of the old annotations' keys missing from those it
    stores, one each, in the order of the enumeration. *)
Lemma reconcile_deletes `{!GoRanges} g s s' sent :
  reconcile_graph g s = (s', Done (false, None)) → submitted s' sent →
  deletes (r_log s') = deletes (r_log s) ++
    (delete_of <$> filter (λ k, Annotations (gmc_Status sent) !! k = None)
                     (range_annotations (Annotations (gmc_Status g)))).
Proof.
  intros (s1 & s2 & ext & Hn & Hr & s3 & Hd & Hc)%reconcile_graph_inv Hsent.
  pose proof (keeps_deletes_nodes (range_nodes (Nodes (Spec (default_TypeMeta g)))) 0
    (mkR (r_log s) (set_Annotations ∅ (default_TypeMeta g)))) as H1. rewrite Hn in H1.
  pose proof (keeps_deletes_router s1) as H2. rewrite Hr in H2.
  apply delete_stale_inv in Hd as [Hg3 Hl3].
  pose proof (keeps_deletes_collect
    (mkR (r_log s3) (set_Status (status_format 0 ext 0) (r_graph s3)))) as H4. rewrite Hc in H4.
  apply collect_inv in Hc as (sent' & _ & _ & Hsent' & (_ & _ & _ & _ & _ & _ & _ & Hdom) & _).
  rewrite (submitted_unique _ _ _ Hsent Hsent') in Hdom.
  unfold keeps_deletes in *. simpl in *.
  rewrite H4, Hl3, deletes_app, H2, H1, deletes_fmap. f_equal. f_equal.
  symmetry. apply filter_absent_ext. unfold annotations. rewrite Hdom, Hg3. done.
Qed.

Lemma split_status_format e :
  (0 <= e)%Z → split (status_format 0 e 0) "/" = ["0"; itoa e; "0"].
Proof.
  intros He. unfold status_format. change (itoa 0) with "0".
  change ("0" +:+ "/" +:+ itoa e +:+ "/" +:+ "0") with (join ["0"; itoa e; "0"] "/").
  apply split_join; [done|]. repeat constructor; try done.
  rewrite <- (Z2Nat.id e) by done. apply itoa_nat_no_byte. by repeat constructor.
Qed.

(** C23: a successful reconciliation ends by asking once for every deployment it
    has recorded, and then storing the status line "ready/external/total":
    [total] is the number of these deployments, [ready] the number of those that
    the server answered with as many replicas available as desired, [external]
    the number of steps with an external service over all nodes; in the graph
    it stores, only the addresses of the steps differ from the steps it was
    given. *)
Theorem reconcile_reports_status `{!GoRanges} g s s' :
  (count_external (spec_steps g) < 2 ^ 63)%Z →
  reconcile_graph g s = (s', Done (false, None)) →
  ∃ sent ks before,
    ks ≡ₚ filter is_deployment (map_to_list (Annotations (gmc_Status sent))).*1 ∧
    r_log s' = before ++ (deployment_request <$> ks) ++
      [GetGraph (Namespace (gmc_ObjectMeta g)) (Name (gmc_ObjectMeta g)); UpdateStatus sent] ∧
    Status (gmc_Status sent) =
      status_format (Z.of_nat (length (filter ready (deployment_answers before ks))))
        (count_external (spec_steps g)) (Z.of_nat (length ks)) ∧
    shape sent = shape g.
Proof.
  intros Hb (s1 & s2 & ext & Hn & Hr & s3 & Hd & Hc)%reconcile_graph_inv.
  assert (Spec (default_TypeMeta g) = Spec g ∧ gmc_ObjectMeta (default_TypeMeta g) = gmc_ObjectMeta g)
    as [Hspec Hmeta] by (unfold default_TypeMeta; by case_decide).
  pose proof (keeps_meta_nodes (range_nodes (Nodes (Spec (default_TypeMeta g)))) 0
    (mkR (r_log s) (set_Annotations ∅ (default_TypeMeta g)))) as Hm1. rewrite Hn in Hm1.
  pose proof (keeps_meta_router s1) as Hm2. rewrite Hr in Hm2.
  unfold on_graph, same_meta in Hm1, Hm2. simpl in Hm1, Hm2.
  apply reconcile_nodes_count in Hn as [Hs1 Hext].
  assert (ext = count_external (spec_steps g)) as ->.
  { rewrite Hext, Z.add_0_l. simpl.
    transitivity (foldr Z.add 0%Z (node_external g <$> range_nodes (Nodes (Spec g)))).
    - rewrite Hspec. f_equal. apply list_fmap_ext. intros _ n _. unfold node_external. simpl.
      by rewrite Hspec.
    - apply node_external_all, range_nodes_perm. }
  pose proof (keeps_shape_router s1) as Hs2. rewrite Hr in Hs2. unfold on_graph, same_shape in Hs2. simpl in Hs2.
  apply delete_stale_inv in Hd as [Hg3 _].
  apply collect_inv in Hc as (sent & t & e & _ & Hsame & Ht & Ha & Hst & Hl).
  simpl in Ht. rewrite split_status_format in Ht by (unfold count_external; lia).
  injection Ht as <-. rewrite atoi_itoa in Ha by (unfold count_external in *; lia).
  injection Ha as <-. eexists sent, _, (r_log s3). split; [|split; [|split; [exact Hst|]]].
  - rewrite range_annotations_perm. destruct Hsame as (_ & _ & _ & _ & _ & _ & _ & Hdom).
    f_equiv. apply NoDup_Permutation; [apply NoDup_fst_map_to_list..|].
    intros k. rewrite !list_elem_of_fmap. unfold annotations.
    split; intros ([k' v] & -> & Hk%elem_of_map_to_list); apply elem_of_dom_2 in Hk;
      [rewrite <- Hdom in Hk|rewrite Hdom in Hk]; apply elem_of_dom in Hk as [v' Hk];
      exists (k', v'); by rewrite elem_of_map_to_list.
  - rewrite Hl. cbn [r_log r_graph]. change (gmc_ObjectMeta (set_Status ?x ?y)) with (gmc_ObjectMeta y).
    by rewrite Hg3, Hm2, Hm1, Hmeta.
  - destruct Hsame as (Hsp & _). unfold shape. rewrite Hsp. simpl. rewrite Hg3.
    change (shape (r_graph s2) = shape g). rewrite Hs2, Hs1. unfold shape. simpl. by rewrite Hspec.
Qed.

(** Storing the status does not start another reconciliation: the update
    event between the graph before the collection and the graph that is sent is
    filtered out. *)
Lemma status_update_is_filtered `{!GoRanges} s s' sent :
  collectResourceStatus s = (s', Done None) → submitted s' sent →
  isGMCSpecOrMetadataChanged (EvGraph (r_graph s)) (EvGraph sent) = false.
Proof.
  intros (sent' & _ & _ & Hs' & (Hsp & _ & Hn & Hns & Hl & Hd & _ & _) & _)%collect_inv Hs.
  rewrite (submitted_unique _ _ _ Hs Hs') in *. unfold isGMCSpecOrMetadataChanged.
  unfold isMetadataChanged. rewrite Hsp, Hn, Hns, Hl, Hd, !bool_decide_true by done. done.
Qed.

(** A deployment's change never reports an error or asks for a retry: when
    the status of an owner cannot be collected or stored, the error returned is
    that of the preceding successful read, nil. *)
Lemma handleStatusUpdate_swallows_errors d s s' r :
  handleStatusUpdate d s = (s', Done r) → r = (false, None).
Proof.
  unfold handleStatusUpdate. generalize (OwnerReferences d). intros owners. revert s.
  induction owners as [|[kind name] owners IH]; intros s; cbn [handle_owners].
  { by intros [= _ <-]. }
  case_decide; [|apply IH]. intros (s1 & [e|g] & _ & Hr)%run_bind_inv; [by eapply IH|].
  apply run_bind_inv in Hr as (s2 & [] & _ & Hr).
  apply run_bind_inv in Hr as (s3 & [e|] & _ & Hr); [by injection Hr|by eapply IH].
Qed.
End controller.

(** ** Event filters *)

Definition is_available (d : deployment) : bool := bool_decide (available_status d = "True").

(** An update of a deployment is let through exactly when the deployment
    has an owner and changes between available and not available. *)
Lemma deployment_filter_iff o n :
  isDeploymentStatusChanged (EvDeployment o) (EvDeployment n) = true ↔
  OwnerReferences n ≠ [] ∧ is_available o ≠ is_available n.
Proof.
  unfold isDeploymentStatusChanged, is_available. case_decide as Ho; [naive_solver|].
  case_decide as Hs.
  - unfold available_status. rewrite Hs. naive_solver.
  - rewrite bool_decide_eq_true. split.
    + intros [[E Hne]|[E Hne]]; split; try done; rewrite E in *;
        [rewrite bool_decide_true, bool_decide_false by congruence
        |rewrite bool_decide_false, bool_decide_true by congruence]; done.
    + intros [_ Hne]. repeat case_bool_decide; try done; intuition congruence.
Qed.

(** What starts a reconciliation (a nil function letting everything through): a
    graph that appears, disappears or changes in more than its status; a
    deployment with an owner whose availability changes, never one that appears
    or disappears. *)
Lemma enqueued_graph key e :
  is_Some (enqueued true key GMConnectorKind e) ↔
  match e with UpdateEvent o n => isGMCSpecOrMetadataChanged o n = true | _ => True end.
Proof.
  unfold enqueued. destruct e as [o|o n|o|o]; simpl; try (by split; eauto).
  destruct (isGMCSpecOrMetadataChanged o n); (split; [|try done; eauto]); [done|by intros []].
Qed.

Lemma enqueued_deployment unset key e :
  (∀ d, e ≠ GenericEvent d) → (∀ o n g, e = UpdateEvent o n → o ≠ EvGraph g ∧ n ≠ EvGraph g) →
  is_Some (enqueued unset key DeploymentKind e) ↔
  ∃ o n, e = UpdateEvent (EvDeployment o) (EvDeployment n) ∧
         OwnerReferences n ≠ [] ∧ is_available o ≠ is_available n.
Proof.
  intros Hg Hd. unfold enqueued. destruct e as [o|o n|o|o]; cbn [lets_through SetupWithManager deploymentFilter
    CreateFunc UpdateFunc DeleteFunc from_option].
  - split; [by intros []|by intros (? & ? & ? & _)].
  - destruct o as [o|o]; [by destruct (Hd _ _ o eq_refl)|].
    destruct n as [n|n]; [by destruct (Hd _ _ n eq_refl)|].
    pose proof (deployment_filter_iff o n) as Hiff.
    destruct (isDeploymentStatusChanged _ _).
    + split; [intros _; exists o, n; naive_solver|eauto].
    + split; [by intros []|]. intros (? & ? & [= <- <-] & Hn). by apply Hiff in Hn.
  - split; [by intros []|by intros (? & ? & ? & _)].
  - by destruct (Hg o).
Qed.

(** ** A sample cluster *)

Section witnesses.
Definition demo_service : kobj :=
  mkKobj "Service" "v1" "svc" "ns" "1" None
    (PService (mkServiceSpec (Some ∅) "ClusterIP" [mkPort 80 0] [] "")).
Definition demo_deployment : kobj :=
  mkKobj "Deployment" "apps/v1" "dep" "ns" "1" None
    (PDeployment (mkDeploymentSpec (Some 1%Z) (Some (Some ∅)) (Some ∅) [mkContainer "c" [] []])).

(** An empty cluster that accepts everything. *)
#[local] Instance DemoKube : KubeEnv := {|
  on_get_graph l ns name := inl NotFound;
  on_get_deployment l ns name :=
    inr (mkDeployment name ns [("GMConnector", "demo")] (Some 1%Z)
           (mkDeploymentStatus 1 1 1 0 None));
  on_get_object l kind api ns name := inl NotFound;
  on_create l o := inr o;
  on_update l o := inr o;
  on_delete l kind api ns name := None;
  on_update_status l g := inr g;
  next_event l n := if decide (n < 600) then Tick else TimedOut;
  set_controller_reference g o :=
    inr (mkKobj (o_Kind o) (o_APIVersion o) (o_Name o) (o_Namespace o) (o_ResourceVersion o)
           (Some ("GMConnector", Name (gmc_ObjectMeta g))) (o_Payload o));
  range_config m := map_to_list m;
  range_nodes m := (map_to_list m).*1;
  range_annotations m := (map_to_list m).*1;
  read_file p := inr "kind: Service---kind: Deployment";
  yaml_decode d := inr (if str_contains d "Deployment" then demo_deployment else demo_service);
  decode_service d := inr (mkManifest "Service" "svc" [80%Z]);
  render t c := inr t;
  marshal_graph s := jprint (enc_graph s)
|}.

#[local] Instance demo_ranges : GoRanges.
Proof. by split. Qed.

#[local] Instance demo_timers : Timers.
Proof. split. intros l n Hn. simpl. by rewrite decide_False by lia. Qed.

Lemma demo_owner_only : owner_only.
Proof. by intros g o o' [= <-]. Qed.

(** An Embedding step and an external one; a recorded ConfigMap is stale. *)
Definition demo_resource : GMConnector :=
  mkGMConnector (mkTypeMeta "" "") (mkObjectMeta "demo" "ns" None None "7")
    (mkSpec (Some {["root" := mkRouter "Sequence" (Some
       [mkStep "Embedding" (mkExecutor "" (mkGMCTarget "emb" "" None false) "") "" "" "" "";
        mkStep "Llm" (mkExecutor "" (mkGMCTarget "" "" None false) "http://llm") "" "" "" ""])]})
       (mkRouterConfig "router" "" "" None))
    (mkStatus zero_Condition "" "" (Some {["ConfigMap:v1:old:ns" := "provisioned"]})).

Definition demo_start : rstate := mkR [] demo_resource.
Definition demo_end : rstate := (reconcile_graph demo_resource demo_start).1.

Lemma demo_reconciles : reconcile_graph demo_resource demo_start = (demo_end, Done (false, None)).
Proof.
  rewrite (surjective_pairing (reconcile_graph demo_resource demo_start)). unfold demo_end.
  apply (f_equal2 pair); [reflexivity|]. vm_compute. reflexivity.
Qed.

Lemma recorded_key_addresses_object_witness :
  deleteRecordedResource "Service:v1:svc:ns" demo_start =
    (log_request (DeleteObject "Service" "v1" "ns" "svc") demo_start, Done tt).
Proof. apply (recorded_key_addresses_object demo_service demo_start); reflexivity. Defined.

Lemma applyResourceToK8s_terminates_witness :
  (applyResourceToK8s demo_service demo_start).2 ≠ OutOfFuel.
Proof. apply (applyResourceToK8s_terminates demo_service demo_start). Defined.

Definition applied : rstate := (applyResourceToK8s demo_service demo_start).1.

Lemma applyResourceToK8s_accepted_witness :
  ∃ o', r_graph applied = demo_resource ∧
  ∃ pre q, r_log applied = [] ++ pre ++ [q] ∧ Forall (about demo_service) pre ∧
           accepted demo_service ([] ++ pre) q o'.
Proof.
  eexists. apply (applyResourceToK8s_accepted demo_service demo_start applied).
  - apply demo_owner_only.
  - unfold applied. vm_compute. reflexivity.
Defined.

(** The sample cluster answers with what it was sent. *)
Lemma demo_submitted : submitted demo_end (r_graph demo_end).
Proof. eexists (take (Nat.pred (length (r_log demo_end))) (r_log demo_end)). split; vm_compute; reflexivity. Qed.

Lemma reconcile_deletes_witness :
  annotations demo_end !! "ConfigMap:v1:old:ns" = None ∧
  deletes (r_log demo_end) = deletes (r_log demo_start) ++
    (delete_of <$> filter (λ k, annotations demo_end !! k = None)
                     (range_annotations (Annotations (gmc_Status demo_resource)))).
Proof.
  split; [vm_compute; reflexivity|].
  apply (reconcile_deletes demo_resource demo_start demo_end (r_graph demo_end) demo_reconciles).
  exact demo_submitted.
Defined.

Lemma reconcile_reports_status_witness :
  Status (gmc_Status (r_graph demo_end)) = "2/1/2" ∧
  ∃ sent ks before,
    ks ≡ₚ filter is_deployment (map_to_list (Annotations (gmc_Status sent))).*1 ∧
    r_log demo_end = before ++ (deployment_request <$> ks) ++ [GetGraph "ns" "demo"; UpdateStatus sent] ∧
    Status (gmc_Status sent) =
      status_format (Z.of_nat (length (filter ready (deployment_answers before ks)))) 1 (Z.of_nat (length ks)) ∧
    shape sent = shape demo_resource.
Proof.
  split; [vm_compute; reflexivity|].
  apply (reconcile_reports_status demo_resource demo_start demo_end); [by vm_compute|].
  apply demo_reconciles.
Defined.

Definition collecting : rstate :=
  mkR [] (set_Annotations {["Deployment:apps/v1:dep:ns" := "provisioned"]}
            (set_Status "0/1/0" demo_resource)).

Lemma status_update_is_filtered_witness :
  isGMCSpecOrMetadataChanged (EvGraph (r_graph collecting))
    (EvGraph (r_graph (collectResourceStatus collecting).1)) = false.
Proof.
  apply (status_update_is_filtered collecting (collectResourceStatus collecting).1).
  - rewrite (surjective_pairing (collectResourceStatus collecting)).
    apply (f_equal2 pair); [reflexivity|]. vm_compute. reflexivity.
  - eexists (take 2 (r_log (collectResourceStatus collecting).1)). split; vm_compute; reflexivity.
Defined.

Lemma handleStatusUpdate_swallows_errors_witness :
  ∃ r, (handleStatusUpdate
         (mkDeployment "dep" "ns" [("GMConnector", "demo")] (Some 1%Z)
            (mkDeploymentStatus 1 1 1 0 None)) demo_start).2 = Done r ∧ r = (false, None).
Proof.
  eexists. split; [vm_compute; reflexivity|].
  eapply (handleStatusUpdate_swallows_errors
    (mkDeployment "dep" "ns" [("GMConnector", "demo")] (Some 1%Z)
       (mkDeploymentStatus 1 1 1 0 None)) demo_start).
  vm_compute. reflexivity.
Defined.
End witnesses.
