(* ===== verification/RouterManifest.v ===== *)
(** * The router's manifest

    config/gmcrouter/gmc-router.yaml, the template that [reconcileRouterService]
    (internal/controller/gmconnector_controller.go) renders with the names of
    the router and the JSON of the graph, splits at "---" and decodes.  Here its
    text is the list of its pieces; what text/template and the YAML decoder make
    of it, documented behaviour of code outside the repository, is the class
    [RouterManifest].  When the JSON has neither a single quote nor "---" the
    decoder gets a Deployment with the whole JSON as an argument and a Service;
    otherwise it does not. *)

From Stdlib Require Import Ascii.
From S2P Require Import Prelude GoStrings ApiTypes Kube Controller ControllerProps ControllerTheorems.

(** ** Three dashes in a row *)

Definition dash : ascii := "-"%char.
Definition rule : string := "---".

(** The dashes at the end of a text that has no three in a row, [k] dashes
    being before it. *)
Fixpoint dashes (k : nat) (s : string) : option nat :=
  match s with
  | EmptyString => Some k
  | String c s => if decide (c = dash) then (if decide (2 <= k) then None else dashes (S k) s)
                  else dashes 0 s
  end.

Lemma dashes_app k s t : dashes k (s +:+ t) = (j ← dashes k s; dashes j t).
Proof. revert k. induction s as [|c s IH]; intros k; simpl; [done|]. by repeat case_decide. Qed.

Lemma dashes_rule k t : dashes k (rule +:+ t) = None.
Proof. rewrite dashes_app. simpl. by repeat case_decide; try lia. Qed.

Lemma dashes_le k s j : k <= 2 → dashes k s = Some j → j <= 2.
Proof.
  revert k. induction s as [|c s IH]; intros k Hk; simpl; [by intros [= <-]|].
  repeat case_decide; [done|..]; apply IH; lia.
Qed.

(** Fewer dashes before it. *)
Lemma dashes_fewer k k' s : k' <= k → dashes k s = Some 0 → dashes k' s = Some 0.
Proof.
  revert k k'. induction s as [|c s IH]; intros k k' Hk; simpl.
  { intros [= ->]. f_equal. lia. }
  repeat case_decide; try done; try lia. apply IH. lia.
Qed.

Lemma dashes_prefix c s t : dashes 0 (String c s) = Some 0 → has_prefix rule (String c s +:+ t) = false.
Proof.
  simpl. unfold dash.
  destruct (decide (c = "-"%char)) as [->|Hc]; [|by rewrite decide_False by congruence].
  rewrite decide_True by done.
  destruct s as [|c s]; [done|]. simpl. unfold dash.
  destruct (decide (c = "-"%char)) as [->|Hc]; [|by rewrite decide_False by congruence].
  rewrite decide_True by done.
  destruct s as [|c s]; [done|]. simpl. unfold dash.
  destruct (decide (c = "-"%char)) as [->|Hc]; [done|by rewrite decide_False by congruence].
Qed.

Lemma dashes_tail c s : dashes 0 (String c s) = Some 0 → dashes 0 s = Some 0.
Proof. simpl. case_decide; [apply dashes_fewer; lia|done]. Qed.

Lemma split_rule a t : dashes 0 a = Some 0 → split (a +:+ rule +:+ t) rule = a :: split t rule.
Proof.
  intros Ha. unfold split.
  assert (split_go rule 0 (a +:+ rule +:+ t) =
    (a, let '(h, t) := split_go rule 0 t in h :: t)) as ->; [|by destruct (split_go rule 0 t)].
  revert Ha. induction a as [|c a IH]; intros Ha.
  - simpl. by destruct (split_go rule 0 t).
  - pose proof (dashes_prefix c a (rule +:+ t) Ha) as Hp. apply dashes_tail, IH in Ha.
    change (String c a +:+ rule +:+ t) with (String c (a +:+ rule +:+ t)) in *.
    cbn [split_go]. by rewrite Hp, Ha.
Qed.

(** A text without three dashes in a row is not split. *)
Lemma split_no_rule s : is_Some (dashes 0 s) → split s rule = [s].
Proof.
  intros [j Hs]. unfold split. assert (split_go rule 0 s = (s, [])) as ->; [|done].
  assert (∀ k, k <= 2 → dashes k s = Some j → has_prefix rule s = false ∧ split_go rule 0 s = (s, [])) as H.
  { clear Hs. induction s as [|c s IH]; intros k Hk Hs; [done|].
    assert (has_prefix rule (String c s) = false) as Hp.
    { apply not_true_is_false. intros E%has_prefix_drop. by rewrite E, dashes_rule in Hs. }
    split; [done|]. cbn [split_go]. rewrite Hp. simpl in Hs.
    destruct (decide (c = dash)); [case_decide; [done|]; destruct (IH (S k) ltac:(lia) Hs) as [_ ->]; done|].
    by destruct (IH 0 ltac:(lia) Hs) as [_ ->]. }
  by destruct (H 0 ltac:(lia) Hs) as [_ ->].
Qed.

(** The first three dashes in a row. *)
Lemma first_rule s : dashes 0 s = None → ∃ a b, s = a +:+ rule +:+ b ∧ dashes 0 a = Some 0.
Proof.
  assert (∀ k, k <= 2 → dashes k s = None → ∃ a b,
    str_take k rule +:+ s = a +:+ rule +:+ b ∧ dashes 0 a = Some 0) as H; [|by apply (H 0); lia].
  induction s as [|c s IH]; intros k Hk; simpl; [done|]. case_decide as Hc; [subst|].
  - case_decide; [intros _; exists "", s; by destruct k as [|[|[|]]]; try lia|].
    intros (a & b & E & Ha)%IH; [|lia]. exists a, b. split; [|done].
    etrans; [|exact E]. by destruct k as [|[|[|]]]; try lia.
  - intros (a & b & E & Ha)%IH; [|lia]. simpl in E. exists (str_take k rule +:+ String c a), b.
    split; [rewrite <- str_app_assoc; simpl; by rewrite E|].
    rewrite dashes_app. destruct k as [|[|[|]]]; try lia; simpl; by rewrite !decide_False.
Qed.

Lemma contains_rule s : str_contains s rule = true ↔ dashes 0 s = None.
Proof.
  split.
  - intros (a & b & ->)%str_contains_inv. rewrite dashes_app.
    destruct (dashes 0 a) as [j|] eqn:E; [|done]. apply dashes_le in E; [|lia].
    by destruct j as [|[|[|]]]; try lia.
  - intros (a & b & -> & _)%first_rule. apply str_contains_app.
Qed.

Lemma contains_no_rule s : str_contains s rule = false ↔ is_Some (dashes 0 s).
Proof.
  rewrite <- not_true_iff_false, contains_rule, eq_None_not_Some.
  destruct (dashes 0 s) as [j|]; split; [by eauto|by intros _ []; eauto|intros []; by intros [? [=]]|by intros []].
Qed.

(** ** Replacing a byte *)

Lemma replace_all_cons c d s new :
  replace_all (String d s) (String c "") new =
    (if decide (d = c) then new else String d "") +:+ replace_all s (String c "") new.
Proof.
  unfold replace_all. destruct (decide (d = c)) as [->|Hd].
  - change (String c s) with ("" +:+ String c s). rewrite split_app by done.
    by rewrite join_cons_nonempty by apply split_not_nil.
  - unfold split. cbn [split_go has_prefix]. rewrite decide_False by congruence.
    destruct (split_go (String c "") 0 s) as [h t]. by destruct t.
Qed.

Lemma replace_all_app c s t new :
  replace_all (s +:+ t) (String c "") new =
    replace_all s (String c "") new +:+ replace_all t (String c "") new.
Proof.
  induction s as [|d s IH]; [done|]. cbn [String.append].
  rewrite !replace_all_cons, IH. by rewrite str_app_assoc.
Qed.

Lemma replace_all_none c s new : no_byte c s → replace_all s (String c "") new = s.
Proof. intros Hs. unfold replace_all. by rewrite split_no_byte. Qed.

(** ** The template *)

(** A field of [RouterCfg] by its name in a template. *)
Inductive cfg_field := F_Namespace | F_SvcName | F_DplymntName | F_NoProxy | F_HttpProxy
  | F_HttpsProxy | F_GRAPH_JSON.

Definition field_name (f : cfg_field) : string :=
  match f with
  | F_Namespace => "Namespace" | F_SvcName => "SvcName" | F_DplymntName => "DplymntName"
  | F_NoProxy => "NoProxy" | F_HttpProxy => "HttpProxy" | F_HttpsProxy => "HttpsProxy"
  | F_GRAPH_JSON => "GRAPH_JSON"
  end.

Definition field_value (cfg : RouterCfg) (f : cfg_field) : string :=
  match f with
  | F_Namespace => cfg_Namespace cfg | F_SvcName => cfg_SvcName cfg
  | F_DplymntName => cfg_DplymntName cfg | F_NoProxy => cfg_NoProxy cfg
  | F_HttpProxy => cfg_HttpProxy cfg | F_HttpsProxy => cfg_HttpsProxy cfg
  | F_GRAPH_JSON => cfg_GRAPH_JSON cfg
  end.

(** The pieces of a template: text, and the value of a field. *)
Inductive piece := Text (t : string) | Action (f : cfg_field).

Definition piece_source (p : piece) : string :=
  match p with Text t => t | Action f => "{{." +:+ field_name f +:+ "}}" end.
Definition piece_value (cfg : RouterCfg) (p : piece) : string :=
  match p with Text t => t | Action f => field_value cfg f end.

Definition template_source (ps : list piece) : string := foldr (λ p s, piece_source p +:+ s) "" ps.
Definition template_value (cfg : RouterCfg) (ps : list piece) : string :=
  foldr (λ p s, piece_value cfg p +:+ s) "" ps.

Definition plain_text (p : piece) : bool :=
  match p with Text t => negb (contains_byte t "{"%char) | Action _ => true end.

Definition line_end : string := bytes [10].
Definition lines (l : list string) : string := foldr (λ t s, t +:+ line_end +:+ s) "" l.

(** gmc-router.yaml: the comments, the Deployment up to the JSON of the graph,
    the Service. *)
Definition router_header : string :=
  lines ["# Copyright (C) 2024 Intel Corporation"; "# SPDX-License-Identifier: Apache-2.0"; ""].

Definition deployment_head : list piece :=
  [Text (lines [""; "apiVersion: apps/v1"; "kind: Deployment"; "metadata:"] +:+ "  name: ");
   Action F_DplymntName; Text (line_end +:+ "  namespace: "); Action F_Namespace;
   Text (lines [""; "spec:"; "  replicas: 1"; "  selector:"; "    matchLabels:";
                "      app: router-service"; "  template:"; "    metadata:"; "      labels:";
                "        app: router-service"; "    spec:"; "      serviceAccountName: default";
                "      containers:"; "      - name: router-server";
                "        image: opea/gmcrouter:latest"; "        imagePullPolicy: IfNotPresent";
                "        ports:"; "        - containerPort: 8080"; "        env:";
                "        - name: no_proxy"] +:+ "          value: ");
   Action F_NoProxy;
   Text (lines [""; "        - name: http_proxy"] +:+ "          value: "); Action F_HttpProxy;
   Text (lines [""; "        - name: https_proxy"] +:+ "          value: "); Action F_HttpsProxy;
   Text (lines [""; "        args:"; "        - " +:+ bytes [34] +:+ "--graph-json" +:+ bytes [34]]
         +:+ "        - ")].

Definition service_pieces : list piece :=
  [Text (lines [""; "apiVersion: v1"; "kind: Service"; "metadata:"] +:+ "  name: ");
   Action F_SvcName; Text (line_end +:+ "  namespace: "); Action F_Namespace;
   Text (lines [""; "spec:"; "  type: ClusterIP"; "  selector:"; "    app: router-service";
                "  ports:"; "    - protocol: TCP"; "      port: 8080"; "      targetPort: 8080"])].

Definition router_pieces : list piece :=
  [Text router_header; Text rule] ++ deployment_head ++ [Action F_GRAPH_JSON; Text line_end; Text rule]
    ++ service_pieces.

Definition router_yaml : string := template_source router_pieces.

(** The two documents of the manifest. *)
Definition deployment_document (cfg : RouterCfg) : string :=
  template_value cfg (deployment_head ++ [Action F_GRAPH_JSON; Text line_end]).
Definition service_document (cfg : RouterCfg) : string := template_value cfg service_pieces.

(** ** The values *)

(** A single-quoted scalar of YAML for a text of one line: a quote in it is
    written twice. *)
Definition yaml_single_quoted (t : string) : string := "'" +:+ replace_all t "'" "''" +:+ "'".

Definition with_json (value : string) (cfg : RouterCfg) : RouterCfg :=
  mkRouterCfg (cfg_Namespace cfg) (cfg_SvcName cfg) (cfg_DplymntName cfg) (cfg_NoProxy cfg)
    (cfg_HttpProxy cfg) (cfg_HttpsProxy cfg) value.

(** A text of printable ASCII characters. *)
Fixpoint printable (t : string) : bool :=
  match t with
  | EmptyString => true
  | String c t => bool_decide (32 <= nat_of_ascii c <= 126) && printable t
  end.

(** A name of Kubernetes that begins with a letter, that YAML does not read as
    anything but a text and that has, with the suffix of the Deployment, no three
    dashes in a row. *)
Definition name_char (c : ascii) : bool :=
  let n := nat_of_ascii c in
  bool_decide (97 <= n <= 122) || bool_decide (48 <= n <= 57) || bool_decide (c = dash).
Fixpoint name_chars (t : string) : bool :=
  match t with EmptyString => true | String c t => name_char c && name_chars t end.
Definition plain_name (t : string) : bool :=
  match t with EmptyString => false | String c _ => bool_decide (97 <= nat_of_ascii c <= 122) end
  && name_chars t
  && negb (bool_decide (t ∈ ["true"; "false"; "null"; "yes"; "no"; "on"; "off"; "y"; "n"]))
  && negb (str_contains (t +:+ dplymtSubfix) rule).

(** Code outside the repository: the template is installed under the directory
    of the manifests; text/template copies text and puts the value of a field
    for its action; the YAML decoder reads the two documents of the manifest,
    made for plain names and a quoted text of printable characters. *)
Class RouterManifest `{KubeEnv} := {
  template_installed : read_file (lookupManifestDir Router_key) = inr router_yaml;
  render_pieces ps cfg : forallb plain_text ps = true →
    render (template_source ps) cfg = inr (template_value cfg ps);
  decode_router_deployment ns name text :
    plain_name ns = true → plain_name name = true → printable text = true →
    ∃ o d env, yaml_decode (deployment_document
        (mkRouterCfg ns name (name +:+ dplymtSubfix) "" "" "" (yaml_single_quoted text))) = inr o ∧
      o_Kind o = "Deployment" ∧ o_APIVersion o = "apps/v1" ∧
      o_Name o = name +:+ "-deployment" ∧ o_Namespace o = ns ∧ o_Payload o = PDeployment d ∧
      Containers d = [mkContainer "router-server" env ["--graph-json"; text]];
  decode_router_service ns name value :
    plain_name ns = true → plain_name name = true →
    ∃ o s, yaml_decode (service_document
        (mkRouterCfg ns name (name +:+ dplymtSubfix) "" "" "" value)) = inr o ∧
      o_Kind o = "Service" ∧ o_APIVersion o = "v1" ∧ o_Name o = name ∧ o_Namespace o = ns ∧
      o_Payload o = PService s ∧ svc_Type s = "ClusterIP" ∧ head (Ports s) = Some (mkPort 8080 0)
}.

Section documents.
Context `{RouterManifest}.

Lemma template_value_app cfg ps qs :
  template_value cfg (ps ++ qs) = template_value cfg ps +:+ template_value cfg qs.
Proof. unfold template_value. induction ps as [|p ps IH]; simpl; [done|]. by rewrite IH, str_app_assoc. Qed.

Lemma rendered cfg :
  applyRouterConfigToTemplates Router_key cfg router_yaml =
    inr (router_header +:+ rule +:+
         (template_value cfg deployment_head +:+ cfg_GRAPH_JSON cfg +:+ line_end) +:+
         rule +:+ service_document cfg).
Proof.
  unfold applyRouterConfigToTemplates, router_yaml. rewrite decide_True by done.
  rewrite render_pieces by (vm_compute; done). f_equal. unfold router_pieces.
  rewrite !template_value_app. cbn [template_value foldr piece_value field_value].
  rewrite <- !str_app_assoc. reflexivity.
Qed.

Lemma deployment_document_value cfg :
  deployment_document cfg = template_value cfg deployment_head +:+ cfg_GRAPH_JSON cfg +:+ line_end.
Proof. unfold deployment_document. by rewrite template_value_app. Qed.

(** Texts without three dashes in a row that neither begin nor end with one,
    and values that are followed by such a text. *)
Definition apart_text (t : string) : bool :=
  match t with
  | EmptyString => false
  | String c _ => bool_decide (c ≠ dash) && bool_decide (dashes 0 t = Some 0)
  end.
Fixpoint apart_pieces (ps : list piece) : bool :=
  match ps with
  | [] => true
  | Text t :: ps => apart_text t && apart_pieces ps
  | Action F_GRAPH_JSON :: _ => false
  | Action _ :: ps => match ps with Text _ :: _ => apart_pieces ps | _ => false end
  end.

Definition no_rules (cfg : RouterCfg) : Prop :=
  ∀ f, f ≠ F_GRAPH_JSON → str_contains (field_value cfg f) rule = false.

Lemma dashes_apart_text k t s : apart_text t = true → dashes k (t +:+ s) = dashes 0 s.
Proof.
  destruct t as [|c t]; [done|]. simpl. rewrite andb_true_iff, !bool_decide_eq_true. intros [Hc Ht].
  rewrite decide_False in * by done. by rewrite dashes_app, Ht.
Qed.

Lemma dashes_pieces cfg ps :
  no_rules cfg → apart_pieces ps = true → dashes 0 (template_value cfg ps) = Some 0.
Proof.
  intros Hn. induction ps as [|[t|f] ps IH]; intros Hp; [done|..].
  - simpl in Hp. apply andb_true_iff in Hp as [Ht Hp].
    cbn [template_value foldr piece_value]. rewrite dashes_apart_text by done. by apply IH.
  - assert (f ≠ F_GRAPH_JSON) as Hf by by destruct f.
    destruct ps as [|[t|f'] ps]; [by destruct f| |by destruct f].
    assert (apart_pieces (Text t :: ps) = true) as Hps by by destruct f.
    specialize (IH Hps). simpl in Hps. apply andb_true_iff in Hps as [Ht _].
    destruct (proj1 (contains_no_rule _) (Hn f Hf)) as [j Hj].
    cbn [template_value foldr piece_value] in *. rewrite dashes_app, Hj. simpl.
    by rewrite dashes_apart_text in * by done.
Qed.

(** The documents of a manifest whose value for the graph is [v]. *)
Definition has_kind (d : string) : bool := str_contains d "kind:".

Lemma filter_document d docs :
  has_kind d = true →
  filter (λ res, res ≠ "" ∧ str_contains res "kind:" = true) (d :: docs) =
  d :: filter (λ res, res ≠ "" ∧ str_contains res "kind:" = true) docs.
Proof. intros Hd. rewrite filter_cons_True; [done|]. split; [by intros ->|done]. Qed.

Lemma has_kind_head cfg t : has_kind (template_value cfg deployment_head +:+ t) = true.
Proof.
  unfold has_kind, deployment_head, template_value. cbn [foldr piece_value].
  rewrite <- str_app_assoc.
  change (lines [""; "apiVersion: apps/v1"; "kind: Deployment"; "metadata:"] +:+ "  name: ")
    with ((line_end +:+ "apiVersion: apps/v1" +:+ line_end) +:+ "kind:" +:+
          (" Deployment" +:+ line_end +:+ "metadata:" +:+ line_end +:+ "  name: ")).
  rewrite <- !str_app_assoc. apply (str_contains_app (line_end +:+ "apiVersion: apps/v1" +:+ line_end)).
Qed.

Lemma has_kind_service cfg : has_kind (service_document cfg) = true.
Proof.
  unfold has_kind, service_document, service_pieces, template_value. cbn [foldr piece_value].
  change (lines [""; "apiVersion: v1"; "kind: Service"; "metadata:"] +:+ "  name: ")
    with ((line_end +:+ "apiVersion: v1" +:+ line_end) +:+ "kind:" +:+
          (" Service" +:+ line_end +:+ "metadata:" +:+ line_end +:+ "  name: ")).
  rewrite <- !str_app_assoc. apply (str_contains_app (line_end +:+ "apiVersion: v1" +:+ line_end)).
Qed.

(** The comments are no document; the rest is split at the value's dashes. *)
Lemma documents_of_value cfg v :
  no_rules cfg →
  let head := template_value cfg deployment_head in
  documents (router_header +:+ rule +:+ (head +:+ v +:+ line_end) +:+ rule +:+ service_document cfg) =
    filter (λ res, res ≠ "" ∧ str_contains res "kind:" = true)
      (split ((head +:+ v +:+ line_end) +:+ rule +:+ service_document cfg) rule).
Proof.
  intros Hn head. unfold documents. change "---" with rule. rewrite split_rule by by vm_compute.
  rewrite filter_cons_False; [done|]. intros [_ Hk]. by vm_compute in Hk.
Qed.

Lemma documents_whole cfg v :
  no_rules cfg → is_Some (dashes 0 v) →
  documents (router_header +:+ rule +:+ (template_value cfg deployment_head +:+ v +:+ line_end) +:+
             rule +:+ service_document cfg) =
    [template_value cfg deployment_head +:+ v +:+ line_end; service_document cfg].
Proof.
  intros Hn [j Hv]. rewrite documents_of_value by done.
  assert (dashes 0 (template_value cfg deployment_head +:+ v +:+ line_end) = Some 0) as Hd.
  { rewrite dashes_app, dashes_pieces by (done || by vm_compute). simpl.
    by rewrite dashes_app, Hv. }
  rewrite split_rule by done. rewrite filter_document by apply has_kind_head.
  assert (dashes 0 (service_document cfg) = Some 0) as Hs by (apply dashes_pieces; [done|by vm_compute]).
  rewrite split_no_rule by by exists 0. by rewrite filter_document by apply has_kind_service.
Qed.

(** A value with dashes: the Deployment ends at the first ones. *)
Lemma documents_cut cfg a b :
  no_rules cfg → dashes 0 a = Some 0 →
  ∃ rest, documents (router_header +:+ rule +:+
      (template_value cfg deployment_head +:+ (a +:+ rule +:+ b) +:+ line_end) +:+
      rule +:+ service_document cfg) = (template_value cfg deployment_head +:+ a) :: rest.
Proof.
  intros Hn Ha. rewrite documents_of_value by done.
  assert (dashes 0 (template_value cfg deployment_head +:+ a) = Some 0) as Hd.
  { rewrite dashes_app, dashes_pieces by (done || by vm_compute). done. }
  rewrite <- !str_app_assoc, (str_app_assoc (template_value cfg deployment_head)).
  rewrite split_rule by done. rewrite filter_document by apply has_kind_head. by eexists.
Qed.

(** The names of the router have no dashes in a row. *)
Lemma contains_rule_app_l s t : str_contains (s +:+ t) rule = false → str_contains s rule = false.
Proof.
  rewrite !contains_no_rule, dashes_app. by destruct (dashes 0 s); [eauto|intros []].
Qed.

Lemma router_no_rules g :
  str_contains (cfg_Namespace (router_config g)) rule = false →
  str_contains (cfg_DplymntName (router_config g)) rule = false → no_rules (router_config g).
Proof.
  intros Hns Hsvc [] Hf; try done. by apply contains_rule_app_l in Hsvc.
Qed.

Lemma quotes_differ t q :
  replace_all t "'" backslash_quote +:+ q = replace_all t "'" "''" +:+ q → no_byte "'" t.
Proof.
  induction t as [|c t IH]; [done|]. rewrite !replace_all_cons.
  destruct (decide (c = "'"%char)); [done|].
  rewrite <- !str_app_assoc. intros [= E]. apply no_byte_cons. split; [done|by apply IH].
Qed.

(** The value in the template is the single-quoted scalar of the JSON when it
    has no quote; with one they differ. *)
Lemma graph_value g :
  cfg_GRAPH_JSON (router_config g) = yaml_single_quoted (marshal_graph (Spec g)) ↔
  no_byte "'" (marshal_graph (Spec g)).
Proof.
  unfold router_config, yaml_single_quoted. cbn [cfg_GRAPH_JSON]. split.
  - intros E. injection E as E. by eapply quotes_differ.
  - intros Hq. by rewrite !replace_all_none.
Qed.

(** Writing a quote in another way neither makes nor breaks rows of dashes. *)
Lemma dashes_quotes k t new :
  (∀ j, dashes j new = Some 0) → dashes k (replace_all t "'" new) = dashes k t.
Proof.
  intros Hn. revert k. induction t as [|c t IH]; intros k; [done|].
  rewrite replace_all_cons. case_decide as Hc; [subst|].
  - rewrite dashes_app, Hn. simpl. apply IH.
  - simpl. by rewrite !IH.
Qed.

Lemma dashes_single_quoted t : is_Some (dashes 0 (yaml_single_quoted t)) ↔ str_contains t rule = false.
Proof.
  rewrite contains_no_rule. unfold yaml_single_quoted. simpl. rewrite dashes_app, dashes_quotes by done.
  destruct (dashes 0 t); simpl; [by split; eauto|done].
Qed.

Lemma dashes_graph_value g :
  is_Some (dashes 0 (cfg_GRAPH_JSON (router_config g))) ↔ str_contains (marshal_graph (Spec g)) rule = false.
Proof.
  rewrite contains_no_rule. unfold router_config. cbn [cfg_GRAPH_JSON]. simpl.
  rewrite dashes_app, dashes_quotes by done.
  destruct (dashes 0 (marshal_graph (Spec g))); simpl; [by split; eauto|done].
Qed.

(** The parts of a text split at three dashes have no three dashes in a row. *)
Lemma split_parts_apart x s : x ∈ split s rule → is_Some (dashes 0 x).
Proof.
  remember (String.length s) as n eqn:En. revert s En.
  induction (lt_wf n) as [n _ IH]. intros s ->.
  destruct (dashes 0 s) as [j|] eqn:Es.
  - rewrite split_no_rule by by eexists. intros ->%list_elem_of_singleton. by eexists.
  - apply first_rule in Es as (a & b & -> & Ha). rewrite split_rule by done.
    intros [->|Hx]%elem_of_cons; [by eexists|]. refine (IH _ _ b eq_refl Hx).
    clear. unfold rule. induction a as [|c a IH]; simpl in *; lia.
Qed.

Lemma str_app_inj_l (a s t : string) : a +:+ s = a +:+ t → s = t.
Proof. induction a as [|c a IH]; simpl; [done|]. by intros [= ?%IH]. Qed.
Lemma str_app_inj_r (a s t : string) : s +:+ a = t +:+ a → s = t.
Proof.
  assert (∀ b u : string, u = b +:+ u → b = "") as Hnil.
  { intros b u E. destruct b as [|c b]; [done|]. apply (f_equal String.length) in E. simpl in E.
    assert (String.length u <= String.length (b +:+ u)) as Hle; [|lia].
    clear. induction b as [|c b IH]; simpl; lia. }
  revert t. induction s as [|c s IH]; intros [|d t]; simpl; intros E; [done|..].
  - by apply (Hnil (String d t)) in E.
  - symmetry in E. by apply (Hnil (String c s)) in E.
  - injection E as -> E. f_equal. by apply IH.
Qed.

(** C37: what the decoder gets of the router's manifest (for names of the
    router and of its deployment without three dashes in a row).  It gets the Deployment of the
    template, with the graph's JSON as a YAML scalar, and the Service exactly
    when the JSON has neither a single quote nor three dashes in a row: a quote
    (in a condition, say) is escaped with a backslash, which single-quoted YAML
    does not know, and at the dashes the Deployment is cut in the middle of the
    scalar. *)
Theorem router_manifest_documents g :
  let cfg := router_config g in
  let json := marshal_graph (Spec g) in
  str_contains (cfg_Namespace cfg) "---" = false → str_contains (cfg_DplymntName cfg) "---" = false →
  ∃ applied, applyRouterConfigToTemplates Router_key cfg router_yaml = inr applied ∧
    (documents applied = [deployment_document (with_json (yaml_single_quoted json) cfg); service_document cfg]
       ↔ no_byte "'" json ∧ str_contains json "---" = false) ∧
    (no_byte "'" json → str_contains json "---" = true →
       ∃ a b rest, json = a +:+ "---" +:+ b ∧
         documents applied = (template_value cfg deployment_head +:+ "'" +:+ a) :: rest).
Proof.
  intros cfg json Hns Hsvc. pose proof (router_no_rules g Hns Hsvc) as Hn. fold cfg in Hn.
  eexists. split; [apply rendered|]. rewrite deployment_document_value.
  change (template_value (with_json ?v cfg) deployment_head) with (template_value cfg deployment_head).
  cbn [cfg_GRAPH_JSON with_json]. split; [split|].
  - intros E.
    assert (str_contains json "---" = false) as Hj.
    { apply dashes_single_quoted. rewrite documents_of_value in E by done.
      match type of E with _ = [?d; _] => assert (d ∈ [d; service_document cfg]) as Hin by by left end.
      rewrite <- E in Hin.
      apply list_elem_of_filter in Hin as [_ Hin%split_parts_apart]. revert Hin.
      rewrite dashes_app, dashes_pieces by (done || by vm_compute). cbn [mbind option_bind].
      rewrite dashes_app. destruct (dashes 0 (yaml_single_quoted json)); [eauto|intros [? E']; simpl in E'; done]. }
    split; [|done]. apply dashes_graph_value in Hj.
    rewrite documents_whole in E by done. injection E as E.
    apply str_app_inj_l in E.
    apply (str_app_inj_r line_end (cfg_GRAPH_JSON cfg) (yaml_single_quoted json)) in E.
    by apply graph_value.
  - intros [Hq Hr]. apply graph_value in Hq as Ev. fold cfg json in Ev. rewrite Ev.
    apply documents_whole; [done|]. by apply dashes_single_quoted.
  - intros Hq (a & b & Ej & Ha)%contains_rule%first_rule.
    apply graph_value in Hq as Ev. fold cfg json in Ev. rewrite Ev. unfold yaml_single_quoted.
    rewrite replace_all_none by done.
    destruct (documents_cut cfg ("'" +:+ a) (b +:+ "'") Hn) as [rest E]; [done|].
    exists a, b, rest. split; [done|]. rewrite <- E, Ej. by rewrite <- !str_app_assoc.
Qed.

(** What the router is configured with when nothing stands in the way. *)
Definition servable (g : GMConnector) : Prop :=
  let json := marshal_graph (Spec g) in
  plain_name (cfg_Namespace (router_config g)) = true ∧ plain_name (cfg_SvcName (router_config g)) = true ∧
  printable json = true ∧ no_byte "'" json ∧ str_contains json rule = false.

#[global] Instance servable_dec g : Decision (servable g).
Proof. unfold servable. apply _. Defined.

(** The router's two objects. *)
Definition router_deployment (g : GMConnector) (o : kobj) : Prop :=
  o_Kind o = "Deployment" ∧ o_APIVersion o = "apps/v1" ∧
  o_Name o = cfg_SvcName (router_config g) +:+ "-deployment" ∧
  o_Namespace o = cfg_Namespace (router_config g) ∧
  ∃ d env, o_Payload o = PDeployment d ∧
    Containers d = [mkContainer "router-server" env ["--graph-json"; marshal_graph (Spec g)]].
Definition router_service (g : GMConnector) (o : kobj) : Prop :=
  o_Kind o = "Service" ∧ o_APIVersion o = "v1" ∧ o_Name o = cfg_SvcName (router_config g) ∧
  o_Namespace o = cfg_Namespace (router_config g) ∧
  ∃ s, o_Payload o = PService s ∧ svc_Type s = "ClusterIP" ∧ head (Ports s) = Some (mkPort 8080 0).

Lemma plain_name_no_rule t : plain_name t = true → str_contains (t +:+ dplymtSubfix) rule = false.
Proof. unfold plain_name. rewrite !andb_true_iff, (negb_true_iff (str_contains _ _)). tauto. Qed.

(** The documents the decoder gets, and what it makes of them. *)
Lemma router_objects g :
  servable g →
  getTemplateBytes Router_key = inr router_yaml ∧
  ∃ applied d1 d2 o1 o2, applyRouterConfigToTemplates Router_key (router_config g) router_yaml = inr applied ∧
    documents applied = [d1; d2] ∧ yaml_decode d1 = inr o1 ∧ yaml_decode d2 = inr o2 ∧
    router_deployment g o1 ∧ router_service g o2.
Proof.
  intros (Hns & Hsvc & Hp & Hq & Hr). set (cfg := router_config g) in *.
  set (json := marshal_graph (Spec g)) in *.
  assert (cfg = mkRouterCfg (cfg_Namespace cfg) (cfg_SvcName cfg) (cfg_SvcName cfg +:+ dplymtSubfix)
    "" "" "" (yaml_single_quoted json)) as Ecfg.
  { apply graph_value in Hq. fold cfg json in Hq. unfold cfg, router_config in *. cbn in *. by rewrite Hq. }
  assert (no_rules cfg) as Hn.
  { apply router_no_rules.
    - by apply (contains_rule_app_l _ dplymtSubfix), plain_name_no_rule.
    - by apply plain_name_no_rule in Hsvc. }
  destruct (decode_router_deployment _ _ json Hns Hsvc Hp) as (o1 & d & env & E1 & Ho1).
  destruct (decode_router_service _ _ (yaml_single_quoted json) Hns Hsvc) as (o2 & s & E2 & Ho2).
  rewrite <- Ecfg in E1, E2.
  split; [unfold getTemplateBytes; rewrite decide_False by (by vm_compute); apply template_installed|].
  eexists _, _, _, o1, o2. split; [apply rendered|]. fold cfg. split.
  { apply documents_whole; [done|]. rewrite Ecfg. cbn [cfg_GRAPH_JSON]. by apply dashes_single_quoted. }
  rewrite deployment_document_value in E1. split; [exact E1|]. split; [exact E2|].
  unfold router_deployment, router_service. fold cfg json. naive_solver.
Qed.
End documents.

(** ** The requests *)

Section configured.
Context `{RouterManifest}.

Definition same_log (s s' : rstate) : Prop := r_log s' = r_log s.
#[local] Instance same_log_preorder : PreOrder same_log.
Proof. split; [done|]. unfold same_log. intros s1 s2 s3. congruence. Qed.

Lemma keeps_log_record n i o : keeps same_log (recordResource n i o).
Proof.
  assert (∀ f, keeps same_log (upd_graph f)) as Hu by done.
  assert (∀ A (f : rstate → A), keeps same_log (gets f)) as Hg by done.
  assert (∀ A m, keeps same_log (panic m : prog rstate A)) as Hp by done.
  unfold recordResource. prog_walk_with
    ltac:(first [apply Hu | apply Hg | apply Hp | simple apply keeps_ret; apply _]).
Qed.

(** A request that stores no object under the key [k]. *)
Definition stores_not (k : string) (q : api_request) : Prop :=
  match q with CreateObject o | UpdateObject o => record_key o ≠ k | _ => True end.

Lemma about_stores_not o k q : about o q → record_key o ≠ k → stores_not k q.
Proof. destruct q; simpl; try done. congruence. Qed.

Lemma accepted_stores_not o l q o' k : accepted o l q o' → record_key o ≠ k → stores_not k q.
Proof.
  intros (sent & (E1 & E2 & E3 & E4 & _) & [[-> _]|[-> _]]) Hk; simpl; unfold record_key in *;
    by rewrite E1, E2, E3, E4.
Qed.

(** The server accepted the router's Deployment for [g], with its JSON as an
    argument, and nothing was stored in its place later. *)
Definition router_configured (l : list api_request) (g : GMConnector) : Prop :=
  ∃ before q after dep stored, l = before ++ [q] ++ after ∧ accepted dep before q stored ∧
    router_deployment g dep ∧ Forall (stores_not (record_key dep)) after.

Lemma router_configures s s' :
  owner_only → servable (r_graph s) → reconcileRouterService s = (s', Done None) →
  router_configured (r_log s') (r_graph s).
Proof.
  intros Hown (Ht & applied & d1 & d2 & o1 & o2 & Ha & Hd & E1 & E2 & H1 & H2)%router_objects Hr.
  assert (record_key o2 ≠ record_key o1) as Hne.
  { destruct H1 as (K1 & _), H2 as (K2 & _). unfold record_key. by rewrite K1, K2. }
  unfold reconcileRouterService in Hr. apply run_bind_inv in Hr as (s1 & g & Hg & Hr).
  injection Hg as <- <-. rewrite Ht, Ha, Hd in Hr. cbn [router_documents] in Hr. rewrite E1 in Hr.
  apply run_bind_inv in Hr as (s2 & [e|p1] & Hp1 & Hr); [by injection Hr|].
  apply run_bind_inv in Hr as (s3 & [e|] & Hr1 & Hr); [by injection Hr|]. rewrite E2 in Hr.
  apply run_bind_inv in Hr as (s4 & [e|p2] & Hp2 & Hr); [by injection Hr|].
  apply run_bind_inv in Hr as (s5 & [e|] & Hr2 & Hr); [by injection Hr|]. injection Hr as <-.
  pose proof (keeps_log_record "" 0 p1 s2) as L1. rewrite Hr1 in L1.
  pose proof (keeps_log_record "" 0 p2 s4) as L2. rewrite Hr2 in L2. unfold same_log in L1, L2. simpl in L1, L2.
  rewrite apply_run in Hp1, Hp2.
  apply apply_loop_accepted in Hp1 as (_ & pre & q & Hl1 & _ & Ha1); [|done].
  apply apply_loop_accepted in Hp2 as (_ & pre' & q' & Hl2 & Hf2 & Ha2); [|done].
  exists (r_log s ++ pre), q, (pre' ++ [q']), o1, p1.
  split; [by rewrite L2, Hl2, L1, Hl1, <- !app_assoc|]. split; [done|]. split; [done|].
  rewrite Forall_app, Forall_singleton. split.
  - eapply Forall_impl; [exact Hf2|]. intros r Hr. by eapply about_stores_not.
  - by eapply accepted_stores_not.
Qed.

Lemma router_configured_app l l' g :
  router_configured l g → Forall (λ q, ∀ k, stores_not k q) l' → router_configured (l ++ l') g.
Proof.
  intros (before & q & after & dep & stored & -> & Ha & Hd & Hf) Hl.
  exists before, q, (after ++ l'), dep, stored. split; [by rewrite <- !app_assoc|].
  split; [done|]. split; [done|]. rewrite Forall_app. split; [done|].
  eapply Forall_impl; [exact Hl|]. auto.
Qed.
End configured.
