(* ===== verification/ManifestDemo.v ===== *)
(** * A sample cluster with the router's manifest

    An instance of [KubeEnv] on which the router's manifest is installed and
    decoded, for the witnesses: a renderer of templates of texts and fields, a
    decoder that reads the lines of the manifest's two documents, the sample
    cluster of ControllerTheorems otherwise.  It shows that the documented
    behaviour in [RouterManifest] can hold; it is not a model of text/template
    or of a YAML decoder. *)

From Stdlib Require Import Ascii.
From S2P Require Import Prelude GoStrings ApiTypes Kube Controller ControllerProps ControllerTheorems.
From S2P Require Import RouterManifest.

(** ** Rendering *)

Definition value_of_name (cfg : RouterCfg) (name : string) : string :=
  from_option (λ f, field_value cfg f) ""
    (snd <$> list_find (λ f, field_name f = name)
       [F_Namespace; F_SvcName; F_DplymntName; F_NoProxy; F_HttpProxy; F_HttpsProxy; F_GRAPH_JSON]).

(** Copying, in the name of an action, or at its end. *)
Inductive render_mode := Copying | Naming (name : string) | Closing.

Fixpoint render_text (cfg : RouterCfg) (m : render_mode) (s : string) : string :=
  match s with
  | EmptyString => ""
  | String c s =>
      match m with
      | Copying => if decide (c = "{"%char) then render_text cfg (Naming "") s
                   else String c (render_text cfg Copying s)
      | Naming n => if decide (c = "}"%char) then value_of_name cfg n +:+ render_text cfg Closing s
                    else if decide (c = "{"%char ∨ c = "."%char) then render_text cfg (Naming n) s
                    else render_text cfg (Naming (n +:+ String c "")) s
      | Closing => render_text cfg Copying s
      end
  end.

Lemma render_copy cfg t s :
  contains_byte t "{"%char = false → render_text cfg Copying (t +:+ s) = t +:+ render_text cfg Copying s.
Proof.
  induction t as [|c t IH]; simpl; [done|]. case_decide; [done|]. intros Ht. by rewrite IH.
Qed.

Lemma render_action cfg f s :
  render_text cfg Copying (piece_source (Action f) +:+ s) = field_value cfg f +:+ render_text cfg Copying s.
Proof. by destruct f. Qed.

Lemma render_template cfg ps :
  forallb plain_text ps = true → render_text cfg Copying (template_source ps) = template_value cfg ps.
Proof.
  induction ps as [|[t|f] ps IH]; cbn [forallb plain_text template_source template_value foldr];
    [done|..]; intros Hp.
  - apply andb_true_iff in Hp as [Ht%negb_true_iff Hp]. cbn [piece_source piece_value].
    rewrite render_copy by done. f_equal. by apply IH.
  - rewrite render_action. f_equal. by apply IH.
Qed.

(** ** Decoding *)

(** A single-quoted text, and what follows it is left aside. *)
Fixpoint unquoted (s : string) : string :=
  match s with
  | String c s' =>
      if decide (c = "'"%char) then
        match s' with
        | String c' s'' => if decide (c' = "'"%char) then String c (unquoted s'') else ""
        | EmptyString => ""
        end
      else String c (unquoted s')
  | EmptyString => ""
  end.

Lemma unquoted_quoted t : unquoted (replace_all t "'" "''" +:+ "'") = t.
Proof.
  induction t as [|c t IH]; [done|]. rewrite replace_all_cons. case_decide as Hc.
  - subst. simpl. by rewrite IH.
  - simpl. by rewrite decide_False, IH.
Qed.

(** The lines of the documents that have values. *)
Definition line_at (d : string) (i : nat) : string := default "" (split d line_end !! i).

Definition decode_lines (d : string) : kobj :=
  let name := str_drop 8 (line_at d 4) in
  let ns := str_drop 13 (line_at d 5) in
  if decide (line_at d 2 = "kind: Deployment") then
    mkKobj "Deployment" "apps/v1" name ns "" None
      (PDeployment (mkDeploymentSpec (Some 1%Z) (Some (Some ∅)) (Some ∅)
        [mkContainer "router-server" [] ["--graph-json"; unquoted (str_drop 11 (line_at d 32))]]))
  else
    mkKobj "Service" "v1" name ns "" None
      (PService (mkServiceSpec (Some ∅) "ClusterIP" [mkPort 8080 0] [] "")).

Lemma plain_name_no_line t : plain_name t = true → no_byte (ascii_of_nat 10) t.
Proof.
  unfold plain_name. rewrite !andb_true_iff. intros [[[_ Ht] _] _].
  induction t as [|c t IH]; [done|]. simpl in Ht. apply andb_true_iff in Ht as [Hc Ht].
  apply no_byte_cons. split; [|by apply IH]. intros ->. by vm_compute in Hc.
Qed.

Lemma printable_no_line t : printable t = true → no_byte (ascii_of_nat 10) t.
Proof.
  induction t as [|c t IH]; [done|]. simpl. rewrite andb_true_iff. intros [Hc Ht].
  apply no_byte_cons. split; [|by apply IH]. intros ->. by vm_compute in Hc.
Qed.

Lemma quoted_no_line t : no_byte (ascii_of_nat 10) t → no_byte (ascii_of_nat 10) (yaml_single_quoted t).
Proof.
  intros Ht. unfold yaml_single_quoted. rewrite !no_byte_app. split_and!; [done| |done].
  induction t as [|c t IH]; [done|]. apply no_byte_cons in Ht as [Hc Ht].
  rewrite replace_all_cons. apply no_byte_app. split; [|by apply IH].
  case_decide; [done|]. by apply no_byte_cons.
Qed.

(** The documents, line by line. *)
Definition deployment_lines (ns name value : string) : list string :=
  [""; "apiVersion: apps/v1"; "kind: Deployment"; "metadata:"; "  name: " +:+ name +:+ dplymtSubfix;
   "  namespace: " +:+ ns; "spec:"; "  replicas: 1"; "  selector:"; "    matchLabels:";
   "      app: router-service"; "  template:"; "    metadata:"; "      labels:";
   "        app: router-service"; "    spec:"; "      serviceAccountName: default"; "      containers:";
   "      - name: router-server"; "        image: opea/gmcrouter:latest";
   "        imagePullPolicy: IfNotPresent"; "        ports:"; "        - containerPort: 8080";
   "        env:"; "        - name: no_proxy"; "          value: "; "        - name: http_proxy";
   "          value: "; "        - name: https_proxy"; "          value: "; "        args:";
   "        - " +:+ bytes [34] +:+ "--graph-json" +:+ bytes [34]; "        - " +:+ value; ""].

Definition service_lines (ns name : string) : list string :=
  [""; "apiVersion: v1"; "kind: Service"; "metadata:"; "  name: " +:+ name; "  namespace: " +:+ ns;
   "spec:"; "  type: ClusterIP"; "  selector:"; "    app: router-service"; "  ports:";
   "    - protocol: TCP"; "      port: 8080"; "      targetPort: 8080"; ""].

Lemma deployment_by_lines ns name value :
  deployment_document (mkRouterCfg ns name (name +:+ dplymtSubfix) "" "" "" value) =
    join (deployment_lines ns name value) line_end.
Proof.
  reflexivity.
Qed.

Lemma service_by_lines ns name dn value :
  service_document (mkRouterCfg ns name dn "" "" "" value) = join (service_lines ns name) line_end.
Proof. reflexivity. Qed.

Lemma lines_of_deployment ns name text :
  plain_name ns = true → plain_name name = true → printable text = true →
  split (join (deployment_lines ns name (yaml_single_quoted text)) line_end) line_end =
    deployment_lines ns name (yaml_single_quoted text).
Proof.
  intros Hns%plain_name_no_line Hname%plain_name_no_line Ht%printable_no_line%quoted_no_line.
  apply split_join; [done|]. unfold deployment_lines, line_end.
  repeat (apply Forall_cons; split); try apply Forall_nil; rewrite ?no_byte_app; split_and?;
    first [assumption|vm_compute; reflexivity].
Qed.

Lemma lines_of_service ns name :
  plain_name ns = true → plain_name name = true →
  split (join (service_lines ns name) line_end) line_end = service_lines ns name.
Proof.
  intros Hns%plain_name_no_line Hname%plain_name_no_line.
  apply split_join; [done|]. unfold service_lines, line_end.
  repeat (apply Forall_cons; split); try apply Forall_nil; rewrite ?no_byte_app; split_and?;
    first [assumption|vm_compute; reflexivity].
Qed.

Lemma decode_deployment_lines ns name text :
  plain_name ns = true → plain_name name = true → printable text = true →
  decode_lines (join (deployment_lines ns name (yaml_single_quoted text)) line_end) =
    mkKobj "Deployment" "apps/v1" (name +:+ dplymtSubfix) ns "" None
      (PDeployment (mkDeploymentSpec (Some 1%Z) (Some (Some ∅)) (Some ∅)
        [mkContainer "router-server" [] ["--graph-json"; text]])).
Proof.
  intros Hns Hname Ht. unfold decode_lines, line_at. rewrite lines_of_deployment by done.
  rewrite decide_True by reflexivity.
  change (str_drop 11 (default "" (deployment_lines ns name (yaml_single_quoted text) !! 32)))
    with (replace_all text "'" "''" +:+ "'").
  by rewrite unquoted_quoted.
Qed.

Lemma decode_service_lines ns name :
  plain_name ns = true → plain_name name = true →
  decode_lines (join (service_lines ns name) line_end) =
    mkKobj "Service" "v1" name ns "" None (PService (mkServiceSpec (Some ∅) "ClusterIP" [mkPort 8080 0] [] "")).
Proof.
  intros Hns Hname. unfold decode_lines, line_at. rewrite lines_of_service by done. reflexivity.
Qed.

(** ** The cluster *)

#[local] Existing Instances DemoKube.

(** A manifest of one line is that of the sample cluster. *)
Definition one_line (d : string) : bool := negb (contains_byte d (ascii_of_nat 10)).

Definition ServingKube : KubeEnv := {|
  on_get_graph := on_get_graph; on_get_deployment := on_get_deployment; on_get_object := on_get_object;
  on_create := on_create; on_update := on_update; on_delete := on_delete;
  on_update_status := on_update_status; next_event := next_event;
  set_controller_reference := set_controller_reference;
  range_config := range_config; range_nodes := range_nodes; range_annotations := range_annotations;
  read_file p := if decide (p = lookupManifestDir Router_key) then inr router_yaml else read_file p;
  yaml_decode d := if one_line d then yaml_decode d else inr (decode_lines d);
  decode_service := decode_service;
  render t cfg := inr (render_text cfg Copying t);
  marshal_graph := marshal_graph
|}.

Lemma serving_ranges : GoRanges (H := ServingKube).
Proof. by split. Qed.

Lemma serving_manifest : RouterManifest (H := ServingKube).
Proof.
  split.
  - reflexivity.
  - intros ps cfg Hps. simpl. by rewrite render_template.
  - intros ns name text Hns Hname Ht. rewrite deployment_by_lines.
    eexists _, _, []. split; [exact (f_equal inr (decode_deployment_lines ns name text Hns Hname Ht))|].
    by split_and!.
  - intros ns name value Hns Hname. rewrite service_by_lines.
    eexists _, _. split; [exact (f_equal inr (decode_service_lines ns name Hns Hname))|].
    by split_and!.
Qed.

Lemma serving_owner_only : owner_only (H := ServingKube).
Proof. by intros g o o' [= <-]. Qed.

(** ** Sample runs *)

#[local] Existing Instances ServingKube serving_manifest serving_ranges.

(** The sample graph on this cluster. *)
Definition serving_end : rstate := (reconcile_graph demo_resource demo_start).1.
Definition served : GMConnector := r_graph serving_end.

Lemma serving_reconciles : reconcile_graph demo_resource demo_start = (serving_end, Done (false, None)).
Proof.
  rewrite (surjective_pairing (reconcile_graph demo_resource demo_start)). unfold serving_end.
  apply (f_equal2 pair); [reflexivity|]. vm_compute. reflexivity.
Qed.

Lemma serving_submitted : submitted serving_end served.
Proof.
  eexists (take (Nat.pred (length (r_log serving_end))) (r_log serving_end)). split; vm_compute; reflexivity.
Qed.

Lemma served_servable : servable served.
Proof. apply (bool_decide_unpack (servable served)). vm_compute. exact I. Qed.

(** A graph with an address that has three dashes in a row. *)
Definition dashed_resource : GMConnector :=
  mkGMConnector (gmc_TypeMeta demo_resource) (gmc_ObjectMeta demo_resource)
    (mkSpec (Some {["root" := mkRouter "Sequence" (Some
       [mkStep "Llm" (mkExecutor "" (mkGMCTarget "" "" None false) "http://a---b") "" "" "" ""])]})
       (SpecRouterConfig (Spec demo_resource)))
    (gmc_Status demo_resource).

Lemma router_manifest_documents_witness :
  str_contains (marshal_graph (Spec dashed_resource)) "---" = true ∧
  ∃ applied, applyRouterConfigToTemplates Router_key (router_config dashed_resource) router_yaml = inr applied ∧
    documents applied ≠
      [deployment_document (with_json (yaml_single_quoted (marshal_graph (Spec dashed_resource)))
         (router_config dashed_resource)); service_document (router_config dashed_resource)] ∧
    ∃ a b rest, marshal_graph (Spec dashed_resource) = a +:+ "---" +:+ b ∧
      documents applied =
        (template_value (router_config dashed_resource) deployment_head +:+ "'" +:+ a) :: rest.
Proof.
  split; [vm_compute; reflexivity|].
  destruct (router_manifest_documents dashed_resource) as (applied & Ha & Hiff & Hcut);
    [vm_compute; reflexivity..|].
  exists applied. split; [exact Ha|]. split.
  - intros [_ Hr]%Hiff. vm_compute in Hr. done.
  - apply Hcut; [|vm_compute; reflexivity].
    apply (bool_decide_unpack (no_byte "'" (marshal_graph (Spec dashed_resource)))). vm_compute. exact I.
Defined.
