(* ===== verification/GarbageCollection.v ===== *)
(** * Which resources a graph has

    [Reconcile] (internal/controller/gmconnector_controller.go) records what it
    applies in the annotations of the graph, and compares them with the
    annotations it found.  Here the keys of a graph's resources are computed
    from the graph and the manifests alone ([graph_keys], [router_keys]); a
    successful reconciliation whose router's manifest arrives whole records
    exactly these, so that the garbage collection removes exactly the recorded
    resources the graph no longer has, and a second reconciliation of the same
    graph removes nothing. *)

From S2P Require Import Prelude GoStrings ApiTypes Validation Kube Controller ControllerProps.
From S2P Require Import ControllerTheorems RouterManifest ManifestDemo.

(** ** The keys of a graph *)

Section keys.
Context `{KubeEnv}.

(** The key under which the object of a document is recorded, with the
    namespace and the names of the step. *)
Definition customized_key (graphNs : string) (step : Step) (obj : kobj) : string :=
  let ns := if decide (NameSpace (InternalService step) ≠ "")
            then NameSpace (InternalService step) else graphNs in
  let svc := ServiceName (InternalService step) in
  let obj := if decide (ns ≠ "") then set_Namespace ns obj else obj in
  if decide (svc = "") then record_key obj
  else if decide (o_Kind obj = Service_kind) then record_key (set_Name svc obj)
  else if decide (o_Kind obj = Deployment_kind) then record_key (set_Name (svc +:+ dplymtSubfix) obj)
  else record_key obj.

(** The keys of the documents of a manifest that decode. *)
Definition document_keys (key : kobj → string) (docs : list string) : list string :=
  docs ≫= λ res, match yaml_decode res with inr obj => [key obj] | inl _ => [] end.

(** A nested node and an external service have no resources of their own. *)
Definition step_keys (graphNs : string) (step : Step) : list string :=
  if decide (NodeName step ≠ "" ∨ ExternalService step ≠ "") then []
  else match getTemplateBytes (StepName step) with
       | inr yaml => document_keys (customized_key graphNs step) (documents yaml)
       | inl _ => []
       end.

Definition graph_keys (g : GMConnector) : list string :=
  spec_steps g ≫= step_keys (Namespace (gmc_ObjectMeta g)).

(** The Deployment and the Service of the router. *)
Definition router_keys (g : GMConnector) : list string :=
  let cfg := router_config g in
  ["Deployment:apps/v1:" +:+ cfg_DplymntName cfg +:+ ":" +:+ cfg_Namespace cfg;
   "Service:v1:" +:+ cfg_SvcName cfg +:+ ":" +:+ cfg_Namespace cfg].

(** The keys of all the resources of a graph. *)
Definition all_keys (g : GMConnector) : list string := graph_keys g ++ router_keys g.

(** What the keys of a graph depend on: its steps without their addresses, its
    name and namespace, the names of its router. *)
Definition same_outline (g g' : GMConnector) : Prop :=
  shape g' = shape g ∧ gmc_ObjectMeta g' = gmc_ObjectMeta g ∧
  SpecRouterConfig (Spec g') = SpecRouterConfig (Spec g).

#[global] Instance same_outline_preorder : PreOrder same_outline.
Proof. split; [done|]. unfold same_outline. intros g1 g2 g3. intuition congruence. Qed.

Lemma same_outline_url n i u g : same_outline g (set_step_url n i u g).
Proof. split; [apply shape_set_step_url|done]. Qed.

Lemma step_keys_erase ns step : step_keys ns (set_ServiceURL "" step) = step_keys ns step.
Proof. by destruct step. Qed.

(** The keys of a node. *)
Definition node_keys (g : GMConnector) (n : string) : list string :=
  Steps (node_at (Spec g) n) ≫= step_keys (Namespace (gmc_ObjectMeta g)).

Lemma node_keys_outline g g' n : same_outline g g' → node_keys g' n = node_keys g n.
Proof.
  assert (∀ g, node_keys g n =
    default [] (shape g !! n) ≫= step_keys (Namespace (gmc_ObjectMeta g))) as E.
  { intros h. unfold node_keys, node_at, shape. rewrite lookup_fmap.
    destruct (Nodes (Spec h) !! n) as [r|]; simpl; [|done].
    rewrite list_fmap_bind. apply list_bind_ext; [|done]. intros step. symmetry. apply step_keys_erase. }
  intros (Hs & Hm & _). by rewrite !E, Hs, Hm.
Qed.

Lemma graph_keys_nodes g names :
  names ≡ₚ (map_to_list (Nodes (Spec g))).*1 → ∀ k, k ∈ names ≫= node_keys g ↔ k ∈ graph_keys g.
Proof.
  intros Hp k. rewrite Hp. unfold graph_keys, spec_steps, all_steps, node_keys. split.
  - intros (n & (step & Hk & Hstep)%list_elem_of_bind & Hn)%list_elem_of_bind.
    apply list_elem_of_fmap in Hn as ([n' r] & -> & Hr). apply list_elem_of_bind.
    exists step. split; [done|]. apply list_elem_of_bind. exists (n', r). split; [|done].
    simpl in *. apply elem_of_map_to_list in Hr. by rewrite (node_at_Some _ _ _ Hr) in Hstep.
  - intros (step & Hk & ([n r] & Hstep & Hr)%list_elem_of_bind)%list_elem_of_bind.
    apply list_elem_of_bind. exists n. split; [|by apply list_elem_of_fmap; exists (n, r)].
    apply list_elem_of_bind. exists step. split; [done|].
    apply elem_of_map_to_list in Hr. by rewrite (node_at_Some _ _ _ Hr).
Qed.

Lemma graph_keys_outline g g' k : same_outline g g' → k ∈ graph_keys g' ↔ k ∈ graph_keys g.
Proof.
  intros Ho. rewrite <- (graph_keys_nodes g (map_to_list (Nodes (Spec g))).*1) by done.
  rewrite <- (graph_keys_nodes g' (map_to_list (Nodes (Spec g'))).*1) by done.
  assert (∀ n, n ∈ (map_to_list (Nodes (Spec g'))).*1 ↔ n ∈ (map_to_list (Nodes (Spec g))).*1) as Hn.
  { intros n. assert (∀ h, n ∈ (map_to_list (Nodes (Spec h))).*1 ↔ n ∈ dom (shape h)) as E.
    { intros h. unfold shape. rewrite dom_fmap, elem_of_dom, list_elem_of_fmap. split.
      - intros ([m r] & -> & Hr%elem_of_map_to_list). by exists r.
      - intros [r Hr]. exists (n, r). by rewrite elem_of_map_to_list. }
    rewrite !E. by destruct Ho as (-> & _). }
  split; intros (n & Hk & Hin)%list_elem_of_bind; apply list_elem_of_bind; exists n.
  - rewrite (node_keys_outline g g' n Ho) in Hk. by rewrite <- Hn.
  - rewrite (node_keys_outline g g' n Ho). by rewrite Hn.
Qed.

(** The names of the router do not depend on the addresses of the steps. *)
Lemma router_keys_outline g g' : same_outline g g' → router_keys g' = router_keys g.
Proof. intros (_ & Hm & Hc). unfold router_keys, router_config. by rewrite Hm, Hc. Qed.

Lemma all_keys_outline g g' k : same_outline g g' → k ∈ all_keys g' ↔ k ∈ all_keys g.
Proof.
  intros Ho. unfold all_keys. by rewrite !elem_of_app, (router_keys_outline g g' Ho),
    (graph_keys_outline g g' k Ho).
Qed.
End keys.

(** ** The router's part of a reconciliation *)

Section router_run.
Context `{KubeEnv}.

Lemma keeps_run {A} (R : relation rstate) (p : prog rstate A) s s' o : keeps R p → p s = (s', o) → R s s'.
Proof. intros Hk E. specialize (Hk s). by rewrite E in Hk. Qed.

(** No step is at the place that the router's own service is recorded for. *)
Definition kept_spec (g g' : GMConnector) : Prop :=
  Nodes (Spec g) !! "" = None → Spec g' = Spec g.
#[local] Instance kept_spec_preorder : PreOrder kept_spec.
Proof.
  split; [done|]. unfold kept_spec. intros g1 g2 g3 H12 H23 Hn. specialize (H12 Hn).
  rewrite H23; [done|]. by rewrite H12.
Qed.

Lemma url_ok_root : url_ok kept_spec "" 0.
Proof.
  intros u g. unfold kept_spec, set_step_url, Nodes. destruct (Spec g) as [[m|] rc]; simpl; [|done].
  intros Hn. f_equal. f_equal. apply map_eq. intros k. rewrite lookup_alter.
  case_decide as Hk; [|done]. by rewrite <- Hk, Hn.
Qed.

Lemma keeps_outline_nodes names e : keeps (on_graph same_outline) (reconcile_nodes names e).
Proof. apply keeps_graph_nodes; try done; [apply _|]. intros n i u g. apply same_outline_url. Qed.

(** A request that stores no object. *)
Definition stores_nothing (q : api_request) : Prop :=
  match q with CreateObject _ | UpdateObject _ => False | _ => True end.

(** The graph that the router is configured with is the one whose status is
    stored; what follows the router's configuration stores no object. *)
Lemma reconcile_router `{!GoRanges} g s s' sent :
  Nodes (Spec g) !! "" = None → reconcile_graph g s = (s', Done (false, None)) → submitted s' sent →
  ∃ s1 s2 ext,
    reconcile_nodes (range_nodes (Nodes (Spec g))) 0
      (mkR (r_log s) (set_Annotations ∅ (default_TypeMeta g))) = (s1, Done (inr ext)) ∧
    reconcileRouterService s1 = (s2, Done None) ∧
    same_outline g (r_graph s1) ∧ Spec sent = Spec (r_graph s1) ∧
    Namespace (gmc_ObjectMeta sent) = Namespace (gmc_ObjectMeta (r_graph s1)) ∧
    dom (Annotations (gmc_Status sent)) = dom (annotations s2) ∧
    ∃ post, r_log s' = r_log s2 ++ post ∧ Forall stores_nothing post.
Proof.
  intros Hroot (s1 & s2 & ext & Hn & Hr & s3 & Hd & Hc)%reconcile_graph_inv Hsub.
  assert (same_outline g (set_Annotations ∅ (default_TypeMeta g)) ∧ Spec (default_TypeMeta g) = Spec g)
    as [Hdef Hspec] by (unfold default_TypeMeta; by case_decide).
  rewrite Hspec in Hn. exists s1, s2, ext. split; [done|]. split; [done|].
  assert (same_outline g (r_graph s1)) as Ho.
  { etrans; [exact Hdef|]. exact (keeps_run (on_graph same_outline) _ _ _ _ (keeps_outline_nodes _ _) Hn). }
  split; [done|].
  assert (Spec (r_graph s2) = Spec (r_graph s1)) as E2.
  { refine (keeps_run (on_graph kept_spec) _ _ _ _ _ Hr _).
    - by apply keeps_graph_router; [apply _|..|apply url_ok_root].
    - destruct Ho as [Hsh _]. apply (f_equal (lookup "")) in Hsh. unfold shape in Hsh.
      rewrite !lookup_fmap, Hroot in Hsh. by destruct (Nodes (Spec (r_graph s1)) !! ""). }
  pose proof (keeps_run _ _ _ _ _ keeps_meta_router Hr) as Hm. unfold on_graph, same_meta in Hm.
  apply delete_stale_inv in Hd as [Hg3 Hl3].
  apply collect_inv in Hc as (sent' & _ & _ & Hsub' & (F1 & _ & _ & F2 & _ & _ & _ & F3) & _ & _ & _ & Hl).
  pose proof (submitted_unique _ _ _ Hsub Hsub') as ->. simpl in F1, F2, F3. rewrite Hg3 in F1, F2, F3.
  split; [congruence|]. split; [congruence|]. split; [done|].
  eexists. split; [rewrite Hl; cbn [r_log]; rewrite Hl3, <- !app_assoc; done|].
  rewrite !Forall_app, !Forall_fmap. split_and!; [by apply Forall_true..|by repeat constructor].
Qed.

Lemma servable_ext g g' :
  Spec g = Spec g' → Namespace (gmc_ObjectMeta g) = Namespace (gmc_ObjectMeta g') →
  servable g → servable g'.
Proof. unfold servable, router_config. by intros -> ->. Qed.
End router_run.

(** ** What a provisioning records *)

Section records.
Context `{KubeEnv}.

(** The API server stores an object under the kind, version, name and namespace
    it was sent with. *)
Definition identity_kept : Prop := ∀ l o o',
  on_create l o = inr o' ∨ on_update l o = inr o' → record_key o' = record_key o.

Definition recorded (s : rstate) : gset string := dom (annotations s).

Context (Howner : owner_only) (Hid : identity_kept).

Lemma same_content_key o o' : same_content o o' → record_key o' = record_key o.
Proof. intros (E1 & E2 & E3 & E4 & _). unfold record_key. by rewrite E1, E2, E3, E4. Qed.

Lemma applied_key o s s' o' :
  applyResourceToK8s o s = (s', Done (inr o')) →
  r_graph s' = r_graph s ∧ record_key o' = record_key o.
Proof.
  rewrite apply_run. intros (Hg & pre & q & _ & _ & sent & Hs & Hq)%apply_loop_accepted; [|done].
  split; [done|]. rewrite <- (same_content_key _ _ Hs).
  destruct Hq as [[_ E]|[_ E]]; eapply Hid; eauto.
Qed.

Lemma customize_key ns step steps obj obj' :
  customize ns step steps obj = Done (inr obj') → record_key obj' = customized_key ns step obj.
Proof.
  unfold customize, customized_key. cbv zeta.
  set (o := if decide (_ ≠ "") then set_Namespace _ obj else obj). clearbody o.
  destruct (decide (ServiceName (InternalService step) = "")) as [Hsvc|Hsvc].
  - rewrite decide_False by tauto. case_decide; [|by intros [= <-]].
    destruct (o_Payload o); [done| |done].
    destruct (config_env _ _ _); [done|]. by intros [= <-].
  - destruct (decide (o_Kind o = Service_kind)) as [Hk|Hk].
    + rewrite decide_True by done. destruct (o_Payload o); [|done..].
      destruct (set_app _ _); [|done..]. by intros [= <-].
    + rewrite decide_False by tauto. case_decide; [|by intros [= <-]].
      destruct (o_Payload o) as [|d|]; [done| |done].
      destruct (MatchLabels d) as [labels|]; [|done].
      destruct (set_app _ labels); [|done..]. destruct (set_app _ (TemplateLabels d)); [|done..].
      destruct (config_env _ _ _); [done|]. by intros [= <-].
Qed.

Lemma documents_keys ns step steps docs s s' os :
  reconcile_documents ns step steps docs s = (s', Done (inr os)) →
  r_graph s' = r_graph s ∧ record_key <$> os = document_keys (customized_key ns step) docs.
Proof.
  revert s os s'. induction docs as [|d docs IH]; intros s os s'; cbn [reconcile_documents].
  { by intros [= <- <-]. }
  unfold document_keys. csimpl. destruct (yaml_decode d) as [e|obj]; [by intros [=]|].
  intros (s1 & c & Hc & Hr)%run_bind_inv. unfold lift_outcome in Hc. injection Hc as <- Hc.
  destruct c as [e|obj']; [by injection Hr|]. apply customize_key in Hc.
  apply run_bind_inv in Hr as (s2 & [e|o] & Ha & Hr); [by injection Hr|].
  apply applied_key in Ha as [Hg2 Hk].
  apply run_bind_inv in Hr as (s3 & [e|os'] & Hd & Hr); [by injection Hr|].
  apply IH in Hd as [Hg3 Hks]. injection Hr as <- <-. split; [congruence|].
  csimpl. by rewrite Hk, Hc, Hks.
Qed.

Lemma resource_keys ns step steps s s' os :
  NodeName step = "" → ExternalService step = "" →
  reconcileResource ns step steps s = (s', Done (inr os)) →
  r_graph s' = r_graph s ∧ record_key <$> os = step_keys ns step.
Proof.
  intros Hn He. unfold reconcileResource, step_keys.
  rewrite decide_False by (rewrite Hn, He; tauto).
  destruct (getTemplateBytes _); [done|]. apply documents_keys.
Qed.

Lemma recorded_annotate k v s :
  recorded (mkR (r_log s) (annotate k v (r_graph s))) = {[k]} ∪ recorded s.
Proof. unfold recorded, annotations. simpl. apply dom_insert_L. Qed.

Lemma recordResource_recorded n i o s s' :
  recordResource n i o s = (s', Done None) → recorded s' = {[record_key o]} ∪ recorded s.
Proof.
  unfold recordResource. intros (s1 & [] & Hu & Hr)%run_bind_inv. injection Hu as <-.
  case_decide; [|injection Hr as <-; apply recorded_annotate].
  destruct (o_Payload o) as [sv| |]; [|done..].
  apply run_bind_inv in Hr as (s2 & g & Hg & Hr). injection Hg as <- <-.
  assert (∀ v g, dom (Annotations (gmc_Status (annotate (record_key o) v g))) =
    {[record_key o]} ∪ dom (Annotations (gmc_Status g))) as E by (intros; apply dom_insert_L).
  destruct (Steps _) as [|st sts].
  - apply run_bind_inv in Hr as (s3 & [] & Hu & Hr). injection Hu as <-.
    apply run_bind_inv in Hr as (s4 & [] & Hu & Hr). injection Hu as <-. injection Hr as <-.
    unfold recorded, annotations. cbn [r_graph].
    change (Annotations (gmc_Status (set_AccessURL ?u ?g))) with (Annotations (gmc_Status g)).
    rewrite !E. set_solver.
  - destruct ((st :: sts) !! i); [|done].
    apply run_bind_inv in Hr as (s3 & [] & Hu & Hr). injection Hu as <-.
    apply run_bind_inv in Hr as (s4 & [] & Hu & Hr). injection Hu as <-. injection Hr as <-.
    unfold recorded, annotations. cbn [r_graph].
    rewrite E. change (Annotations (gmc_Status (set_step_url ?n ?i ?u ?g))) with (Annotations (gmc_Status g)).
    rewrite E. set_solver.
Qed.

Lemma record_all_recorded n i os s s' :
  record_all n i os s = (s', Done None) →
  recorded s' = list_to_set (record_key <$> os) ∪ recorded s.
Proof.
  revert s. induction os as [|o os IH]; intros s; cbn [record_all].
  { intros [= <-]. set_solver. }
  intros (s1 & [e|] & H1 & Hr)%run_bind_inv; [by injection Hr|].
  apply recordResource_recorded in H1. apply IH in Hr. rewrite Hr, H1. csimpl. set_solver.
Qed.

Lemma router_documents_recorded docs s s' :
  router_documents docs s = (s', Done None) →
  recorded s' = list_to_set (document_keys record_key docs) ∪ recorded s.
Proof.
  revert s. induction docs as [|d docs IH]; intros s; cbn [router_documents].
  { intros [= <-]. set_solver. }
  unfold document_keys. csimpl. destruct (yaml_decode d) as [e|obj]; [by intros [=]|].
  intros (s1 & [e|o] & Ha & Hr)%run_bind_inv; [by injection Hr|].
  apply applied_key in Ha as [Hg Hk].
  apply run_bind_inv in Hr as (s2 & [e|] & H2 & Hr); [by injection Hr|].
  apply recordResource_recorded in H2. apply IH in Hr. rewrite Hr, H2, Hk.
  unfold recorded, annotations. rewrite Hg. unfold document_keys. csimpl. set_solver.
Qed.

(** With a manifest that arrives whole. *)
Lemma router_recorded `{!RouterManifest} s s' :
  servable (r_graph s) → reconcileRouterService s = (s', Done None) →
  recorded s' = list_to_set (router_keys (r_graph s)) ∪ recorded s.
Proof.
  intros (Ht & applied & d1 & d2 & o1 & o2 & Ha & Hd & E1 & E2 & H1 & H2)%router_objects Hr.
  unfold reconcileRouterService in Hr. apply run_bind_inv in Hr as (s1 & g & Hg & Hr).
  injection Hg as <- <-. rewrite Ht, Ha, Hd in Hr. apply router_documents_recorded in Hr. rewrite Hr.
  unfold document_keys, router_keys. csimpl. rewrite E1, E2. csimpl.
  destruct H1 as (K1 & A1 & N1 & S1 & _), H2 as (K2 & A2 & N2 & S2 & _). unfold record_key.
  by rewrite K1, A1, N1, S1, K2, A2, N2, S2.
Qed.

Lemma keeps_outline_steps n steps i todo e :
  keeps (on_graph same_outline) (reconcile_steps n steps i todo e).
Proof. apply keeps_graph_steps; try done; [apply _|]. intros j _ u g. apply same_outline_url. Qed.

Lemma keeps_outline_record_all n i os : keeps (on_graph same_outline) (record_all n i os).
Proof. apply keeps_graph_record_all; try done; [apply _|]. intros u g. apply same_outline_url. Qed.

Lemma steps_recorded n steps i todo e s s' e' :
  reconcile_steps n steps i todo e s = (s', Done (inr e')) →
  recorded s' = list_to_set (todo ≫= step_keys (Namespace (gmc_ObjectMeta (r_graph s)))) ∪ recorded s.
Proof.
  revert i e s. induction todo as [|x todo IH]; intros i e s; cbn [reconcile_steps].
  { intros [= <- _]. set_solver. }
  rewrite bind_cons, list_to_set_app_L. destruct (decide (NodeName x ≠ "")) as [Hn|Hn].
  { intros Hr%IH. rewrite Hr. unfold step_keys at 2. rewrite decide_True by tauto. set_solver. }
  apply dec_stable in Hn. destruct (decide (ExternalService x = "")) as [He|He].
  - intros (s1 & g & Hg & Hr)%run_bind_inv. injection Hg as <- <-.
    apply run_bind_inv in Hr as (s2 & [er|os] & H2 & Hr); [by injection Hr|].
    apply resource_keys in H2 as [Hg2 <-]; [|done..].
    apply run_bind_inv in Hr as (s3 & [er|] & H3 & Hr); [by injection Hr|].
    pose proof (keeps_outline_record_all n i os s2) as Hk. rewrite H3 in Hk.
    destruct Hk as (_ & Hm & _). simpl in Hm.
    apply record_all_recorded in H3. apply IH in Hr. rewrite Hr, H3, Hm, Hg2.
    unfold recorded, annotations. rewrite Hg2. set_solver.
  - intros (s1 & [] & Hu & Hr)%run_bind_inv. injection Hu as <-. apply IH in Hr. rewrite Hr.
    unfold step_keys at 2. rewrite decide_True by tauto.
    change (recorded (mkR (r_log s) (set_step_url n i (ExternalService x) (r_graph s))))
      with (recorded s). set_solver.
Qed.

Lemma nodes_recorded names e s s' e' :
  reconcile_nodes names e s = (s', Done (inr e')) →
  same_outline (r_graph s) (r_graph s') ∧
  recorded s' = list_to_set (names ≫= node_keys (r_graph s)) ∪ recorded s.
Proof.
  revert e s. induction names as [|n names IH]; intros e s; cbn [reconcile_nodes].
  { intros [= <- _]. split; [done|set_solver]. }
  intros (s1 & g & Hg & Hr)%run_bind_inv. injection Hg as <- <-.
  apply run_bind_inv in Hr as (s2 & [er|e2] & Hs & Hr); [by injection Hr|].
  pose proof (keeps_outline_steps n (Steps (node_at (Spec (r_graph s)) n)) 0
    (Steps (node_at (Spec (r_graph s)) n)) e s) as Hk. rewrite Hs in Hk. unfold on_graph in Hk.
  simpl in Hk. apply steps_recorded in Hs. apply IH in Hr as [Ho Hr].
  split; [by etrans|]. rewrite Hr, Hs, bind_cons, list_to_set_app_L. unfold node_keys at 2.
  rewrite (list_bind_ext _ (node_keys (r_graph s)) names names); [set_solver| |done].
  intros m. by apply node_keys_outline.
Qed.

(** A successful reconciliation with a router's manifest that arrives whole
    records the keys of its graph and of the router. *)
Lemma reconcile_recorded `{!RouterManifest, !GoRanges} g s s' sent k :
  Nodes (Spec g) !! "" = None → reconcile_graph g s = (s', Done (false, None)) →
  submitted s' sent → servable sent →
  Annotations (gmc_Status sent) !! k = None ↔ k ∉ all_keys g.
Proof.
  intros Hroot Hrun Hsub Hserv.
  apply (reconcile_router g s s' sent Hroot Hrun) in Hsub
    as (s1 & s2 & ext & Hn & Hr & Ho & Hsp & Hns & Hdom & _).
  apply nodes_recorded in Hn as [_ Hn].
  apply router_recorded in Hr; [|by apply (servable_ext sent)].
  rewrite <- not_elem_of_dom, Hdom. change (dom (annotations s2)) with (recorded s2).
  rewrite Hr, Hn. change (recorded (mkR _ (set_Annotations ∅ _))) with (dom (∅ : gmap string string)).
  rewrite dom_empty_L, !elem_of_union, !elem_of_list_to_set, elem_of_empty. cbn [r_graph].
  rewrite (graph_keys_nodes (set_Annotations ∅ (default_TypeMeta g)))
    by (etrans; [apply range_nodes_perm|]; unfold default_TypeMeta; by case_decide).
  rewrite (graph_keys_outline g (set_Annotations ∅ (default_TypeMeta g)))
    by (unfold default_TypeMeta; by case_decide).
  rewrite (router_keys_outline g (r_graph s1)) by exact Ho. unfold all_keys. rewrite elem_of_app. tauto.
Qed.

(** C22: when a graph is updated, the reconciliation of its new version deletes
    exactly the resources of the old version that the new one has no more: what
    its nodes' steps name in their manifests, and its router's Deployment and
    Service under the names of the router's configuration, all computed from the
    two graphs alone; each is deleted once, and nothing when the versions differ
    in nothing but the addresses of the steps and the status.  (For graphs
    without a node of the empty name whose router's manifest reaches the YAML
    decoder whole, see C37, and a new version that carries the annotations that
    were stored with the old one.) *)
Theorem update_deletes_difference `{!RouterManifest, !GoRanges} old new s s' sent t t' sent' :
  Nodes (Spec old) !! "" = None → Nodes (Spec new) !! "" = None →
  reconcile_graph old s = (s', Done (false, None)) → submitted s' sent → servable sent →
  Annotations (gmc_Status new) = Annotations (gmc_Status sent) →
  reconcile_graph new t = (t', Done (false, None)) → submitted t' sent' → servable sent' →
  ∃ gone, deletes (r_log t') = deletes (r_log t) ++ (delete_of <$> gone) ∧ NoDup gone ∧
    (∀ k, k ∈ gone ↔ k ∈ all_keys old ∧ k ∉ all_keys new) ∧
    (same_outline old new → gone = []).
Proof.
  intros Hro Hrn Hold Hs Hserv Hann Hnew Hs' Hserv'.
  pose proof (reconcile_deletes new t t' sent' Hnew Hs') as Hdel.
  set (gone := filter _ _) in Hdel. exists gone. split; [done|].
  assert (∀ k, k ∈ gone ↔ k ∈ all_keys old ∧ k ∉ all_keys new) as Hgone.
  { intros k. unfold gone.
    rewrite list_elem_of_filter, (reconcile_recorded new t t' sent' k) by done.
    rewrite range_annotations_perm, Hann, list_elem_of_fmap.
    pose proof (reconcile_recorded old s s' sent k Hro Hold Hs Hserv) as Hk.
    assert ((∃ p, k = p.1 ∧ p ∈ map_to_list (Annotations (gmc_Status sent))) ↔ k ∈ all_keys old)
      as ->; [|tauto].
    split.
    - intros ([k' v] & -> & Hv%elem_of_map_to_list). apply dec_stable. intros Hn.
      apply Hk in Hn. simpl in Hn. congruence.
    - intros Hin. destruct (Annotations (gmc_Status sent) !! k) as [v|] eqn:E; [|by apply Hk in Hin].
      exists (k, v). by rewrite elem_of_map_to_list. }
  split.
  { unfold gone. apply NoDup_filter. rewrite range_annotations_perm. apply NoDup_fst_map_to_list. }
  split; [exact Hgone|]. intros Ho. apply elem_of_nil_inv. intros k [Hk Hn]%Hgone. apply Hn.
  by apply (all_keys_outline old new).
Qed.
End records.

(** ** An update in the sample cluster *)

Section witnesses.
#[local] Existing Instances ServingKube serving_manifest serving_ranges.

Lemma serving_identity : identity_kept.
Proof. intros l o o' [[= <-]|[= <-]]; reflexivity. Qed.

(** The sample graph without its Embedding step, with the status of [g]. *)
Definition updated_from (g : GMConnector) : GMConnector :=
  mkGMConnector (gmc_TypeMeta demo_resource) (gmc_ObjectMeta demo_resource)
    (mkSpec (Some {["root" := mkRouter "Sequence" (Some
       [mkStep "Llm" (mkExecutor "" (mkGMCTarget "" "" None false) "http://llm") "" "" "" ""])]})
       (SpecRouterConfig (Spec demo_resource)))
    (gmc_Status g).

Lemma updated_annotations g :
  Annotations (gmc_Status (updated_from g)) = Annotations (gmc_Status g).
Proof. reflexivity. Qed.

(** As the user updates it after [serving_end]. *)
Definition updated_resource : GMConnector := updated_from served.
Definition updated_start : rstate := mkR [] updated_resource.
Definition updated_end : rstate := (reconcile_graph updated_resource updated_start).1.

Lemma updated_reconciles :
  reconcile_graph updated_resource updated_start = (updated_end, Done (false, None)).
Proof.
  rewrite (surjective_pairing (reconcile_graph updated_resource updated_start)). unfold updated_end.
  apply (f_equal2 pair); [reflexivity|]. vm_compute. reflexivity.
Qed.

Lemma update_deletes_difference_witness :
  "Service:v1:emb:ns" ∈ all_keys demo_resource ∧ "Service:v1:emb:ns" ∉ all_keys updated_resource ∧
  "Service:v1:router-service:ns" ∈ all_keys updated_resource ∧
  deletes (r_log updated_end) ≠ [] ∧
  ∃ gone, deletes (r_log updated_end) = [] ++ (delete_of <$> gone) ∧ NoDup gone ∧
    (∀ k, k ∈ gone ↔ k ∈ all_keys demo_resource ∧ k ∉ all_keys updated_resource) ∧
    (same_outline demo_resource updated_resource → gone = []).
Proof.
  split; [apply (bool_decide_unpack _); vm_compute; exact I|].
  split; [apply (bool_decide_unpack _); vm_compute; exact I|].
  split; [apply (bool_decide_unpack _); vm_compute; exact I|].
  split; [by vm_compute|].
  apply (update_deletes_difference serving_owner_only serving_identity demo_resource updated_resource
           demo_start serving_end served updated_start updated_end (r_graph updated_end)).
  - vm_compute. reflexivity.
  - vm_compute. reflexivity.
  - apply serving_reconciles.
  - exact serving_submitted.
  - exact served_servable.
  - exact (updated_annotations served).
  - apply updated_reconciles.
  - eexists (take (Nat.pred (length (r_log updated_end))) (r_log updated_end)). split; vm_compute; reflexivity.
  - apply (bool_decide_unpack (servable (r_graph updated_end))). vm_compute. exact I.
Defined.
End witnesses.
