(* ===== verification/StepAddresses.v ===== *)
(** * The addresses of the steps

    [Reconcile] (internal/controller/gmconnector_controller.go) writes the
    address of every service step into the graph before it configures the
    router: that of the external service, or that of the last Service in the
    manifest of the step, as the API server stored it, with the step's endpoint.
    Here the address is computed from the step and its manifest alone
    ([expected_address]), and a successful reconciliation is proved to have set
    it, in every order of the nodes. *)

From Stdlib Require Import Ascii.
From S2P Require Import Prelude GoStrings ApiTypes Validation Kube Controller ControllerProps.
From S2P Require Import ControllerTheorems RouterManifest ManifestDemo GarbageCollection.

(** The steps of a graph. *)
Definition graph_steps (s : GMConnectorSpec) (step : Step) : Prop :=
  ∃ name, step ∈ Steps (node_at s name).

Lemma steps_set_step_url n i u g n' :
  Steps (node_at (Spec (set_step_url n i u g)) n') =
    if decide (n = n') then alter (set_ServiceURL u) i (Steps (node_at (Spec g) n'))
    else Steps (node_at (Spec g) n').
Proof.
  unfold set_step_url, node_at, Nodes. simpl. destruct (NodesMap (Spec g)) as [m|]; simpl; cycle 1.
  { rewrite lookup_empty. simpl. by case_decide. }
  rewrite lookup_alter. destruct (decide (n = n')) as [->|]; [|done].
  destruct (m !! n') as [r|]; [|done]. unfold Steps. simpl. by destruct (StepsSlice r).
Qed.

(** ** The address of a step *)

Section expected.
Context `{KubeEnv}.

(** The address of the object of a document of a step's manifest: a service of
    the cluster under the names the step gives it. *)
Definition service_address (graphNs : string) (step : Step) (obj : kobj) : option string :=
  if decide (o_Kind obj = Service_kind) then
    match o_Payload obj with
    | PService s =>
        p ← head (Ports s);
        let ns := if decide (NameSpace (InternalService step) ≠ "")
                  then NameSpace (InternalService step) else graphNs in
        let svc := ServiceName (InternalService step) in
        Some ("http://" +:+ cluster_host (if decide (svc = "") then o_Name obj else svc)
                (if decide (ns = "") then o_Namespace obj else ns) (Port p))
    | _ => None
    end
  else None.

Definition manifest_addresses (graphNs : string) (step : Step) (docs : list string) : list string :=
  docs ≫= λ res, match yaml_decode res with
                 | inr obj => option_list (service_address graphNs step obj)
                 | inl _ => []
                 end.

(** A nested node has no address; a step whose manifest has no service keeps
    the one it has. *)
Definition expected_address (graphNs : string) (step : Step) : option string :=
  if decide (NodeName step ≠ "") then None
  else if decide (ExternalService step ≠ "") then Some (ExternalService step)
  else match getTemplateBytes (StepName step) with
       | inr yaml =>
           (λ a, a +:+ map_get (Config (InternalService step)) "endpoint") <$>
             last (manifest_addresses graphNs step (documents yaml))
       | inl _ => None
       end.

Lemma expected_erase ns x y :
  set_ServiceURL "" x = set_ServiceURL "" y → expected_address ns x = expected_address ns y.
Proof. destruct x, y. unfold set_ServiceURL. simpl. by intros [= -> -> -> -> ->]. Qed.

Lemma expected_not_empty ns step a : expected_address ns step = Some a → a ≠ "".
Proof.
  unfold expected_address. case_decide; [done|]. case_decide as He; [by intros [= <-]|].
  destruct (getTemplateBytes _) as [|yaml]; [done|].
  destruct (last (manifest_addresses ns step (documents yaml))) as [b|] eqn:Eb; [|done].
  intros [= <-]. apply last_Some_elem_of in Eb.
  apply list_elem_of_bind in Eb as (res & Hb & _). destruct (yaml_decode res) as [|obj]; [by apply elem_of_nil in Hb|].
  destruct (service_address ns step obj) as [c|] eqn:Ec; [|by apply elem_of_nil in Hb].
  apply list_elem_of_singleton in Hb as ->. unfold service_address in Ec.
  case_decide; [|done]. destruct (o_Payload obj) as [sv| |]; [|done..].
  destruct (head (Ports sv)); [|done]. by injection Ec as <-.
Qed.

(** The services in the documents are ClusterIP services with a port. *)
Definition cluster_services (docs : list string) : Prop := ∀ res obj,
  res ∈ docs → yaml_decode res = inr obj → o_Kind obj = Service_kind →
  ∃ s, o_Payload obj = PService s ∧ svc_Type s = "ClusterIP" ∧ Ports s ≠ [].

(** The services of the manifest of a step. *)
Definition cluster_step (step : Step) : Prop := ∀ yaml,
  getTemplateBytes (StepName step) = inr yaml → cluster_services (documents yaml).

(** The API server stores an object under its name, and a ClusterIP service
    with its type and its first port. *)
Definition stored_as (o o' : kobj) : Prop :=
  o_Kind o' = o_Kind o ∧ o_APIVersion o' = o_APIVersion o ∧ o_Name o' = o_Name o ∧
  o_Namespace o' = o_Namespace o ∧
  ∀ s, o_Payload o = PService s → svc_Type s = "ClusterIP" →
    ∃ s', o_Payload o' = PService s' ∧ svc_Type s' = "ClusterIP" ∧
          Port <$> head (Ports s') = Port <$> head (Ports s).
Definition stores : Prop := ∀ l o o',
  on_create l o = inr o' ∨ on_update l o = inr o' → stored_as o o'.

(** The address [recordResource] computes. *)
Definition object_address (o : kobj) : option string :=
  if decide (o_Kind o = Service_kind) then
    match o_Payload o with PService s => Some (getServiceURL o s) | _ => None end
  else None.

Context (Howner : owner_only) (Hstores : stores).

Lemma applied_stored o s s' o' :
  applyResourceToK8s o s = (s', Done (inr o')) → r_graph s' = r_graph s ∧ stored_as o o'.
Proof.
  rewrite apply_run. intros (Hg & pre & q & _ & _ & sent & Hs & Hq)%apply_loop_accepted; [|done].
  split; [done|]. assert (stored_as sent o') as Hst by (destruct Hq as [[_ E]|[_ E]]; eauto).
  destruct Hs as (E1 & E2 & E3 & E4 & E5), Hst as (F1 & F2 & F3 & F4 & F5).
  unfold stored_as. rewrite E5 in F5. split_and!; [congruence..|exact F5].
Qed.

Lemma customize_address ns step steps obj obj' :
  customize ns step steps obj = Done (inr obj') →
  o_Kind obj' = o_Kind obj ∧
  ∀ s, o_Kind obj = Service_kind → o_Payload obj = PService s → ∃ s', o_Payload obj' = PService s' ∧
    svc_Type s' = svc_Type s ∧ Ports s' = Ports s ∧
    o_Name obj' = (if decide (ServiceName (InternalService step) = "") then o_Name obj
                   else ServiceName (InternalService step)) ∧
    o_Namespace obj' =
      let n := if decide (NameSpace (InternalService step) ≠ "")
               then NameSpace (InternalService step) else ns in
      if decide (n = "") then o_Namespace obj else n.
Proof.
  unfold customize. cbv zeta.
  set (n := if decide (NameSpace _ ≠ "") then _ else ns).
  set (o := if decide (n ≠ "") then set_Namespace n obj else obj).
  assert (o_Kind o = o_Kind obj ∧ o_Payload o = o_Payload obj ∧ o_Name o = o_Name obj ∧
    o_Namespace o = if decide (n = "") then o_Namespace obj else n) as (<- & <- & <- & <-).
  { unfold o. destruct (decide (n = "")) as [En|En].
    - rewrite decide_False by tauto. done.
    - rewrite decide_True by done. done. }
  clearbody o. destruct (decide (ServiceName (InternalService step) = "")) as [Hsvc|Hsvc].
  - rewrite decide_False by tauto. case_decide as Hk.
    + destruct (o_Payload o); [done| |done]. destruct (config_env _ _ _); [done|].
      intros [= <-]. split; [done|]. intros s Hk'. by rewrite Hk in Hk'.
    + intros [= <-]. split; [done|]. intros s _ ->. by exists s.
  - destruct (decide (o_Kind o = Service_kind)) as [Hk|Hk].
    + rewrite decide_True by done. destruct (o_Payload o) as [s0| |]; [|done..].
      destruct (set_app _ _) as [sel| |]; [|done..]. intros [= <-]. split; [done|].
      intros s _ [= <-]. by eexists.
    + rewrite decide_False by tauto. intros Hc. split; [|done].
      case_decide; [|by injection Hc as <-]. destruct (o_Payload o) as [|d|]; [done| |done].
      destruct (MatchLabels d) as [labels|]; [|done].
      destruct (set_app _ labels); [|done..]. destruct (set_app _ (TemplateLabels d)); [|done..].
      destruct (config_env _ _ _); [done|]. by injection Hc as <-.
Qed.

Lemma stored_address ns step steps docs res obj obj' o' :
  cluster_services docs → res ∈ docs → yaml_decode res = inr obj → customize ns step steps obj = Done (inr obj') → stored_as obj' o' →
  object_address o' = service_address ns step obj.
Proof.
  intros Hcluster Hin Hdec [Hk Hsv]%customize_address (E1 & _ & E3 & E4 & Hst).
  unfold object_address, service_address. rewrite E1, Hk.
  destruct (decide (o_Kind obj = Service_kind)) as [Hkind|]; [|done].
  destruct (Hcluster res obj Hin Hdec Hkind) as (s & Hs & Ht & Hp).
  destruct (Hsv s Hkind Hs) as (s1 & Hs1 & Ht1 & Hp1 & Hname & Hns).
  destruct (Hst s1 Hs1 (eq_trans Ht1 Ht)) as (s2 & Hs2 & Ht2 & Hp2).
  rewrite Hs2, Hs. unfold getServiceURL. rewrite decide_True by done.
  rewrite Hp1 in Hp2. destruct (Ports s) as [|q qs]; [done|].
  destruct (Ports s2) as [|q2 qs2]; [done|]. simpl in Hp2. injection Hp2 as ->. simpl.
  by rewrite E3, E4, Hname, Hns.
Qed.

Lemma documents_addresses ns step steps docs s s' os :
  cluster_services docs → reconcile_documents ns step steps docs s = (s', Done (inr os)) →
  r_graph s' = r_graph s ∧ omap object_address os = manifest_addresses ns step docs.
Proof.
  revert s os s'. induction docs as [|d docs IH]; intros s os s' Hcl; cbn [reconcile_documents].
  { by intros [= <- <-]. }
  assert (cluster_services docs) as Hcl' by (intros res o Hin; apply Hcl; by right).
  unfold manifest_addresses. rewrite bind_cons.
  destruct (yaml_decode d) as [e|obj] eqn:Hdec; [by intros [=]|].
  intros (s1 & c & Hc & Hr)%run_bind_inv. unfold lift_outcome in Hc. injection Hc as <- Hc.
  destruct c as [e|obj']; [by injection Hr|].
  apply run_bind_inv in Hr as (s2 & [e|o] & Ha & Hr); [by injection Hr|].
  apply applied_stored in Ha as [Hg2 Hst].
  apply run_bind_inv in Hr as (s3 & [e|os'] & Hd & Hr); [by injection Hr|].
  apply IH in Hd as [Hg3 Hks]; [|done]. injection Hr as <- <-. split; [congruence|].
  cbn [omap list_omap].
  rewrite (stored_address _ _ _ _ _ _ _ _ Hcl (list_elem_of_here _ _) Hdec Hc Hst).
  fold (omap (M := list) object_address os'). rewrite Hks. by destruct (service_address ns step obj).
Qed.

(** The steps of a node after [recordResource] on one of them. *)
Definition with_address (step : Step) (a : option string) : Step :=
  match a with
  | Some a => set_ServiceURL (a +:+ map_get (Config (InternalService step)) "endpoint") step
  | None => step
  end.

Lemma record_step n i o s s' step :
  Steps (node_at (Spec (r_graph s)) n) !! i = Some step →
  recordResource n i o s = (s', Done None) →
  Steps (node_at (Spec (r_graph s')) n) !! i = Some (with_address step (object_address o)).
Proof.
  intros Hi. unfold recordResource, object_address. intros (s1 & [] & Hu & Hr)%run_bind_inv.
  injection Hu as <-. case_decide; [|by injection Hr as <-].
  destruct (o_Payload o) as [sv| |]; [|done..].
  apply run_bind_inv in Hr as (s2 & g & Hg & Hr). injection Hg as <- <-.
  cbn [r_graph] in Hr. change (Spec (annotate ?k ?v ?g)) with (Spec g) in Hr.
  destruct (Steps (node_at (Spec (r_graph s)) n)) as [|st sts] eqn:Es; [by destruct i|].
  rewrite Hi in Hr.
  apply run_bind_inv in Hr as (s3 & [] & Hu & Hr). injection Hu as <-.
  apply run_bind_inv in Hr as (s4 & [] & Hu & Hr). injection Hu as <-. injection Hr as <-.
  cbn [r_graph]. change (Spec (annotate ?k ?v ?g)) with (Spec g).
  rewrite steps_set_step_url, decide_True by done.
  change (Spec (annotate ?k ?v ?g)) with (Spec g). by rewrite Es, list_lookup_alter_eq, Hi.
Qed.

Lemma with_address_twice step a b :
  with_address (with_address step a) (Some b) = with_address step (Some b).
Proof. by destruct step, a. Qed.

Lemma record_all_step n i os s s' step :
  Steps (node_at (Spec (r_graph s)) n) !! i = Some step →
  record_all n i os s = (s', Done None) →
  Steps (node_at (Spec (r_graph s')) n) !! i = Some (with_address step (last (omap object_address os))).
Proof.
  revert s step. induction os as [|o os IH]; intros s step Hi; cbn [record_all].
  { by intros [= <-]. }
  intros (s1 & [e|] & H1 & Hr)%run_bind_inv; [by injection Hr|].
  pose proof (record_step _ _ _ _ _ _ Hi H1) as Hi1. rewrite (IH _ _ Hi1 Hr). f_equal.
  cbn [omap list_omap]. fold (omap (M := list) object_address os).
  destruct (object_address o) as [a|]; [|done]. rewrite last_cons.
  destruct (last (omap object_address os)); [apply with_address_twice|done].
Qed.
End expected.

(** ** The loops *)

Section loops.
Context `{KubeEnv}.

(** What the address of an internal step depends on. *)
Definition services_stored (step : Step) : Prop := owner_only ∧ stores ∧ cluster_step step.

(** A step keeps its place and everything in it. *)
Definition same_step (n : string) (i : nat) (g g' : GMConnector) : Prop :=
  Steps (node_at (Spec g') n) !! i = Steps (node_at (Spec g) n) !! i.
#[local] Instance same_step_preorder n i : PreOrder (same_step n i).
Proof. split; [done|]. unfold same_step. intros g1 g2 g3. congruence. Qed.

Lemma url_ok_elsewhere n i n' j : n ≠ n' ∨ i ≠ j → url_ok (same_step n' j) n i.
Proof.
  intros Hne u g. unfold same_step. rewrite steps_set_step_url.
  case_decide; [|done]. destruct Hne as [?|?]; [done|]. by rewrite list_lookup_alter_ne.
Qed.

(** The step at a place has its address. *)
Definition published (ns : string) (g : GMConnector) (n : string) (i : nat) : Prop :=
  ∀ step a, Steps (node_at (Spec g) n) !! i = Some step → expected_address ns step = Some a →
    external step ∨ services_stored step → ServiceURL step = a.

Lemma published_same ns n i g g' : same_step n i g g' → published ns g n i → published ns g' n i.
Proof. unfold same_step, published. intros ->. auto. Qed.

(** What [step] is, up to its address. *)
Lemma shape_step g g' n i step :
  same_shape g g' → Steps (node_at (Spec g') n) !! i = Some step →
  ∃ step0, Steps (node_at (Spec g) n) !! i = Some step0 ∧
           set_ServiceURL "" step0 = set_ServiceURL "" step.
Proof.
  intros Hsh Hi. unfold same_shape, shape in Hsh.
  assert ((set_ServiceURL "" <$> Steps (node_at (Spec g') n)) =
          (set_ServiceURL "" <$> Steps (node_at (Spec g) n))) as E.
  { pose proof (f_equal (lookup n) Hsh) as Hn. rewrite !lookup_fmap in Hn. unfold node_at.
    destruct (Nodes (Spec g') !! n), (Nodes (Spec g) !! n); [by injection Hn|done..]. }
  pose proof (f_equal (lookup i) E) as Ei. rewrite !list_lookup_fmap, Hi in Ei. simpl in Ei.
  destruct (Steps (node_at (Spec g) n) !! i) as [step0|]; [|done].
  exists step0. split; [done|]. symmetry. by apply (inj Some).
Qed.

Lemma keeps_same n i n' j steps todo e :
  n ≠ n' ∨ j < i → keeps (on_graph (same_step n' j)) (reconcile_steps n steps i todo e).
Proof.
  intros Hne. apply keeps_graph_steps; try done; [apply _|].
  intros k Hk. apply url_ok_elsewhere. destruct Hne; [by left|right; lia].
Qed.

Lemma external_published ns n i g y :
  Steps (node_at (Spec g) n) !! i = Some y → NodeName y = "" → ExternalService y ≠ "" →
  published ns (set_step_url n i (ExternalService y) g) n i.
Proof.
  intros Hi Hn He x a. rewrite steps_set_step_url, decide_True by done.
  rewrite list_lookup_alter_eq, Hi. intros [= <-].
  change (expected_address ns (set_ServiceURL (ExternalService y) y)) with (expected_address ns y).
  unfold expected_address. rewrite decide_False, decide_True by (try rewrite Hn; tauto).
  by intros [= <-] _.
Qed.

Lemma internal_published x y n i steps s1 s2 s3 os :
  let ns := Namespace (gmc_ObjectMeta (r_graph s1)) in
  NodeName x = "" → ExternalService x = "" → set_ServiceURL "" y = set_ServiceURL "" x →
  Steps (node_at (Spec (r_graph s1)) n) !! i = Some y →
  reconcileResource ns x steps s1 = (s2, Done (inr os)) → record_all n i os s2 = (s3, Done None) →
  published ns (r_graph s3) n i.
Proof.
  intros ns Hn He Exy Hy Hres Hrec z a Hz Ha Hcond.
  assert (r_graph s1 = r_graph s2) as Hg
    by (apply (keeps_run (on_graph eq) _ _ _ _ (keeps_graph_resource eq ns x steps) Hres)).
  rewrite Hg in Hy. unfold reconcileResource in Hres.
  destruct (getTemplateBytes (StepName x)) as [|yaml] eqn:Ht; [done|].
  rewrite (record_all_step _ _ _ _ _ _ Hy Hrec) in Hz. injection Hz as <-.
  assert (∀ o, set_ServiceURL "" (with_address y o) = set_ServiceURL "" x) as Ez.
  { intros o. rewrite <- Exy. by destruct o. }
  destruct Hcond as [[_ Hext]|(Ho & Hst & Hcl)].
  { destruct Hext. etrans; [exact (f_equal ExternalService (Ez _))|exact He]. }
  apply documents_addresses in Hres as [_ Has]; [|done|done|].
  2:{ apply Hcl. rewrite <- Ht. f_equal. exact (f_equal StepName (Ez _)). }
  revert Ha.
  rewrite (expected_erase _ _ _ (Ez _)), Has. unfold expected_address.
  rewrite !decide_False, Ht by tauto.
  assert (Config (InternalService y) = Config (InternalService x)) as <-.
  { apply (f_equal (λ st, Config (InternalService st)) Exy). }
  clear Hcl. destruct (last _) as [c|]; [|done]. by intros [= <-].
Qed.

(** The loop over the steps of a node publishes their addresses. *)
Lemma reconcile_steps_publishes ns n steps i todo e s s' e' :
  ns = Namespace (gmc_ObjectMeta (r_graph s)) →
  (∀ k x, todo !! k = Some x →
     ∃ y, Steps (node_at (Spec (r_graph s)) n) !! (i + k) = Some y ∧
          set_ServiceURL "" y = set_ServiceURL "" x) →
  reconcile_steps n steps i todo e s = (s', Done (inr e')) →
  ∀ k, k < length todo → published ns (r_graph s') n (i + k).
Proof.
  revert i e s. induction todo as [|x todo IH]; intros i e s Hns Htodo Hr; [simpl; lia|].
  assert (∀ s1 e1, reconcile_steps n steps (S i) todo e1 s1 = (s', Done (inr e')) →
    same_outline (r_graph s) (r_graph s1) → published ns (r_graph s1) n i →
    ∀ k, k < S (length todo) → published ns (r_graph s') n (i + k)) as Hrest.
  { intros s1 e1 Hr1 (Hsh & Hm & _) Hp [|k] Hk.
    - rewrite Nat.add_0_r. eapply published_same; [|exact Hp].
      apply (keeps_run _ _ _ _ _ (keeps_same n (S i) n i steps todo e1 (or_intror (le_n (S i)))) Hr1).
    - rewrite Nat.add_succ_r. apply (IH (S i) e1 s1); [by rewrite Hm| |done|lia].
      intros j y Hy. destruct (Htodo (S j) y Hy) as (z & Hz & Ez). rewrite Nat.add_succ_r in Hz.
      destruct (shape_step (r_graph s1) (r_graph s) _ _ _ (eq_sym Hsh) Hz) as (z' & Hz' & Ez').
      exists z'. split; [done|congruence]. }
  destruct (Htodo 0 x eq_refl) as (y & Hy & Ey). rewrite Nat.add_0_r in Hy.
  assert (NodeName y = NodeName x ∧ ExternalService y = ExternalService x) as [En Ee].
  { split; [apply (f_equal NodeName Ey)|apply (f_equal ExternalService Ey)]. }
  cbn [reconcile_steps] in Hr. cbn [length].
  destruct (decide (NodeName x ≠ "")) as [Hn|Hn].
  { apply (Hrest s e Hr); [done|]. intros z a Hz Ha _. revert Ha. rewrite Hy in Hz. injection Hz as <-.
    unfold expected_address. by rewrite decide_True by congruence. }
  apply dec_stable in Hn. destruct (decide (ExternalService x = "")) as [He|He].
  - apply run_bind_inv in Hr as (s1 & g & Hg & Hr). injection Hg as <- <-.
    apply run_bind_inv in Hr as (s2 & [er|os] & H2 & Hr); [by injection Hr|].
    apply run_bind_inv in Hr as (s3 & [er|] & H3 & Hr); [by injection Hr|].
    apply (Hrest s3 e Hr).
    + etrans; [refine (keeps_run (on_graph same_outline) _ _ _ _ _ H2)|
               refine (keeps_run (on_graph same_outline) _ _ _ _ (keeps_outline_record_all n i os) H3)].
      by apply keeps_graph_resource, _.
    + rewrite Hns. by eapply (internal_published x y).
  - apply run_bind_inv in Hr as (s1 & [] & Hu & Hr). injection Hu as <-.
    refine (Hrest _ _ Hr _ _); cbn [r_graph].
    + apply same_outline_url.
    + rewrite <- Ee. apply external_published; congruence.
Qed.

Lemma reconcile_nodes_publishes ns names e s s' e' :
  NoDup names → ns = Namespace (gmc_ObjectMeta (r_graph s)) →
  reconcile_nodes names e s = (s', Done (inr e')) →
  (∀ n i, n ∈ names → published ns (r_graph s') n i) ∧
  (∀ n i, n ∉ names → same_step n i (r_graph s) (r_graph s')).
Proof.
  intros Hnd. revert e s. induction Hnd as [|n names Hn Hnd IH]; intros e s Hns; cbn [reconcile_nodes].
  { intros [= <- _]. split; [by intros n i ?%elem_of_nil|done]. }
  intros (s1 & g & Hg & Hr)%run_bind_inv. injection Hg as <- <-.
  apply run_bind_inv in Hr as (s2 & [er|e2] & Hs & Hr); [by injection Hr|].
  set (steps := Steps (node_at (Spec (r_graph s)) n)) in *.
  pose proof (keeps_run _ _ _ _ _ (keeps_outline_steps n steps 0 steps e) Hs) as (Hsh & Hm & _).
  apply IH in Hr as [Hp Hsame]; [|by rewrite Hm].
  split.
  - intros m i [->|Hi]%elem_of_cons; [|by apply Hp].
    apply published_same with (1 := Hsame n i Hn). intros step a Hstep.
    destruct (shape_step _ _ _ _ _ Hsh Hstep) as (step0 & H0 & _).
    refine (reconcile_steps_publishes ns n steps 0 steps e s s2 e2 Hns _ Hs i _ step a Hstep).
    + intros k x Hx. by exists x.
    + by eapply lookup_lt_Some.
  - intros m i [Hne Hi]%not_elem_of_cons.
    etrans; [|by apply Hsame].
    apply (keeps_run _ _ _ _ _ (keeps_same n 0 m i steps steps e (or_introl (not_eq_sym Hne))) Hs).
Qed.

Lemma reconciled_addresses `{!GoRanges} g s s' sent step a :
  Nodes (Spec g) !! "" = None → reconcile_graph g s = (s', Done (false, None)) → submitted s' sent →
  graph_steps (Spec sent) step → expected_address (Namespace (gmc_ObjectMeta g)) step = Some a →
  external step ∨ services_stored step → ServiceURL step = a.
Proof.
  intros Hroot Hrun Hsub [n Hs].
  apply (reconcile_router g s s' sent Hroot Hrun) in Hsub
    as (s1 & s2 & ext & Hn & _ & (Hsh1 & _) & E & _).
  rewrite E in Hs. apply list_elem_of_lookup in Hs as [i Hs].
  assert (NoDup (range_nodes (Nodes (Spec g)))) as Hnd
    by (rewrite range_nodes_perm; apply NoDup_fst_map_to_list).
  assert (Namespace (gmc_ObjectMeta g) = Namespace (gmc_ObjectMeta (r_graph
    (mkR (r_log s) (set_Annotations ∅ (default_TypeMeta g)))))) as Hns.
  { unfold default_TypeMeta. by case_decide. }
  destruct (reconcile_nodes_publishes _ _ _ _ _ _ Hnd Hns Hn) as [Hp _].
  refine (Hp n i _ step a Hs). rewrite range_nodes_perm, list_elem_of_fmap.
  destruct (Nodes (Spec g) !! n) as [r|] eqn:En.
  - exists (n, r). split; [done|]. by apply elem_of_map_to_list.
  - exfalso. apply (f_equal (lookup n)) in Hsh1. unfold shape in Hsh1.
    rewrite !lookup_fmap, En in Hsh1. unfold node_at in Hs.
    destruct (Nodes (Spec (r_graph s1)) !! n); [done|]. by destruct i.
Qed.

(** The router's Deployment is made from the graph whose status is stored. *)
Lemma reconciled_router `{!RouterManifest, !GoRanges} g s s' sent :
  owner_only → Nodes (Spec g) !! "" = None → reconcile_graph g s = (s', Done (false, None)) →
  submitted s' sent → servable sent → router_configured (r_log s') sent.
Proof.
  intros Hown Hroot Hrun Hsub Hserv.
  apply (reconcile_router g s s' sent Hroot Hrun) in Hsub
    as (s1 & s2 & ext & _ & Hr & _ & E & Ens & _ & post & -> & Hpost).
  apply router_configures in Hr; [|done|by apply (servable_ext sent)].
  apply router_configured_app.
  - revert Hr. unfold router_configured, router_deployment, router_config. by rewrite E, Ens.
  - eapply Forall_impl; [exact Hpost|]. by intros [].
Qed.

(** C21: a successful reconciliation ends by submitting a graph whose steps are
    those of the resource but for their addresses, in which, in every order of
    the nodes, every service step has its address: an external one that of its
    service, an internal one the cluster address of the last service of its
    manifest under the names the step gives it, followed by the step's endpoint
    (when the services of that manifest are ClusterIP services with a port and
    the API server stores them so).  When the router's manifest reaches the YAML
    decoder whole (C37), the server has accepted the router's Deployment with the
    JSON of that very graph as an argument, and nothing was stored in the
    Deployment's place later.  (For a graph without a node of the empty name.) *)
Theorem reconcile_publishes_addresses `{!RouterManifest, !GoRanges} g s s' :
  Nodes (Spec g) !! "" = None → reconcile_graph g s = (s', Done (false, None)) →
  ∃ sent, submitted s' sent ∧ shape sent = shape g ∧
    (∀ step a, graph_steps (Spec sent) step →
       expected_address (Namespace (gmc_ObjectMeta g)) step = Some a →
       external step ∨ services_stored step → ServiceURL step = a) ∧
    (owner_only → servable sent → router_configured (r_log s') sent).
Proof.
  intros Hroot Hrun. destruct (reconcile_graph_inv g s s' Hrun) as (? & ? & ? & _ & _ & s3 & _ & Hc).
  apply collect_inv in Hc as (sent & _ & _ & Hsub & _). exists sent. split; [done|]. split; [|split].
  - destruct (reconcile_router g s s' sent Hroot Hrun Hsub) as (s1 & _ & _ & _ & _ & (Hsh & _) & E & _).
    rewrite <- Hsh. unfold shape. by rewrite E.
  - intros step a. by eapply reconciled_addresses.
  - intros Hown. by eapply reconciled_router.
Qed.
End loops.

(** ** Downstream services

    The environment of a step names the services it calls by the endpoint that
    [getDownstreamSvcEndpoint] reads from their manifests. *)

Section downstream.
Context `{KubeEnv}.

(** The two decoders, of an object and of a typed service, see the same
    services. *)
Definition decoders_agree : Prop := ∀ res,
  (∀ obj s, yaml_decode res = inr obj → o_Kind obj = Service_kind → o_Payload obj = PService s →
     ∃ sm, decode_service res = inr sm ∧ sm_Kind sm = "Service" ∧ sm_Name sm = o_Name obj ∧
           sm_Ports sm = Port <$> Ports s) ∧
  (∀ sm, decode_service res = inr sm → sm_Kind sm = "Service" →
     ∃ obj s, yaml_decode res = inr obj ∧ o_Kind obj = Service_kind ∧ o_Payload obj = PService s).

Lemma service_details_inv docs name port :
  service_details docs = inr (name, port) →
  ∃ res sm, res ∈ docs ∧ str_contains res "kind: Service" = true ∧ decode_service res = inr sm ∧
    sm_Kind sm = "Service" ∧ sm_Name sm = name ∧ head (sm_Ports sm) = Some port.
Proof.
  induction docs as [|res docs IH]; cbn [service_details]; [done|].
  assert (service_details docs = inr (name, port) → ∃ res0 sm, res0 ∈ res :: docs ∧
    str_contains res0 "kind: Service" = true ∧ decode_service res0 = inr sm ∧
    sm_Kind sm = "Service" ∧ sm_Name sm = name ∧ head (sm_Ports sm) = Some port) as Hrest.
  { intros (res0 & sm & Hin & Hr)%IH. exists res0, sm. split; [by right|done]. }
  case_decide as Hc; [done|]. destruct (decode_service res) as [|sm] eqn:E; [done|].
  case_decide as Hk; [|done]. destruct (sm_Ports sm) as [|q qs] eqn:Ep; [done|].
  intros [= <- <-]. exists res, sm. rewrite Ep. split; [by left|]. split; [|done].
  apply not_false_is_true. tauto.
Qed.

(** For an internal step whose manifest has one service, except the vector
    database, the endpoint is the address that is recorded for it, without the
    endpoint of its configuration. *)
Lemma downstream_endpoint_recorded ns dsName step url yaml a :
  decoders_agree → ns ≠ "" → NodeName step = "" → ExternalService step = "" →
  StepName step ≠ VectorDB →
  getTemplateBytes (StepName step) = inr yaml → manifest_addresses ns step (documents yaml) = [a] →
  getDownstreamSvcEndpoint ns dsName (Some step) = inr url →
  url = a ∧ expected_address ns step = Some (url +:+ map_get (Config (InternalService step)) "endpoint").
Proof.
  intros Hdec Hns Hn He Hv Ht Ha Hd. assert (url = a) as ->; [|split; [done|]].
  - unfold getDownstreamSvcEndpoint in Hd. unfold getTemplateBytes in Ht.
    case_decide as Hdir; [done|]. unfold getServiceDetailsFromManifests in Hd. rewrite Ht in Hd.
    destruct (service_details (split yaml "---")) as [|[name port]] eqn:Es; [done|].
    apply service_details_inv in Es as (res & sm & Hres & Hk & Hsm & Hkind & <- & Hport).
    destruct (Hdec res) as [Hyes Hob]. destruct (Hob sm Hsm Hkind) as (obj & s & Hobj & Hok & Hs).
    destruct (Hyes obj s Hobj Hok Hs) as (sm' & Hsm' & _ & Hname & Hports).
    rewrite Hsm in Hsm'. injection Hsm' as <-. rewrite Hports in Hport.
    destruct (Ports s) as [|q qs] eqn:Eq; [done|]. injection Hport as <-.
    assert (res ∈ documents yaml) as Hin.
    { apply list_elem_of_filter. split; [|done]. split; [by intros ->|].
      by apply (str_contains_prefix _ "kind:" " Service"). }
    assert (∀ b, service_address ns step obj = Some b → b = a) as Hb.
    { intros b Hb. apply list_elem_of_singleton. rewrite <- Ha. apply list_elem_of_bind.
      exists res. split; [|done]. rewrite Hobj, Hb. by left. }
    unfold getNsNameFromStep in Hd. rewrite decide_True in Hd by done.
    rewrite (decide_False (P := StepName step = VectorDB)) in Hd by done.
    injection Hd as <-. apply Hb. unfold service_address. rewrite decide_True, Hs, Eq by done. simpl.
    rewrite Hname. repeat case_decide; by try tauto || congruence.
  - unfold expected_address. rewrite !decide_False, Ht, Ha by tauto. done.
Qed.

(** For an external step the endpoint is in the cluster, whatever the address of
    the service: that of the service in a manifest that is never applied. *)
Lemma downstream_external_ignored ns dsName step url :
  ExternalService step ≠ "" → StepName step ≠ VectorDB →
  getDownstreamSvcEndpoint ns dsName (Some step) = inr url →
  ∃ name port, url = "http://" +:+ cluster_host name ns port.
Proof.
  intros He Hv. unfold getDownstreamSvcEndpoint. case_decide; [done|].
  destruct (getServiceDetailsFromManifests _) as [|[name port]]; [done|].
  unfold getNsNameFromStep. rewrite (decide_False (P := ExternalService step = "")) by done.
  rewrite (decide_False (P := StepName step = VectorDB)) by done. intros [= <-]. by exists name, port.
Qed.
End downstream.

(** ** The sample cluster *)

Section witnesses.
#[local] Existing Instances ServingKube serving_manifest serving_ranges.

Lemma serving_stores : stores.
Proof. intros l o o' [[= <-]|[= <-]]; split_and!; try done; intros s -> Ht; by exists s. Qed.

Definition embedding_step : Step :=
  mkStep "Embedding" (mkExecutor "" (mkGMCTarget "emb" "" None false) "") "" "" ""
    "http://emb.ns.svc.cluster.local:80".

(** A step whose manifest is not the router's. *)
Lemma serving_stored step :
  lookupManifestDir (StepName step) ≠ lookupManifestDir Router_key → services_stored step.
Proof.
  intros Hn. split; [exact serving_owner_only|]. split; [exact serving_stores|].
  intros yaml. unfold getTemplateBytes. case_decide as Hd; [done|].
  unfold read_file, ServingKube at 1. rewrite decide_False by done. intros [= <-] res obj.
  change (documents _) with ["kind: Service"; "kind: Deployment"].
  assert (yaml_decode "kind: Service" = inr demo_service ∧ yaml_decode "kind: Deployment" = inr demo_deployment)
    as [E1 E2] by (split; vm_compute; reflexivity).
  intros [->|[->|[]%elem_of_nil]%elem_of_cons]%elem_of_cons.
  - rewrite E1. intros [= <-] _. by eexists.
  - rewrite E2. by intros [= <-].
Qed.

Lemma reconcile_publishes_addresses_witness :
  expected_address "ns" embedding_step = Some "http://emb.ns.svc.cluster.local:80" ∧
  ∃ sent, submitted serving_end sent ∧ shape sent = shape demo_resource ∧
    (∀ step a, graph_steps (Spec sent) step → expected_address "ns" step = Some a →
       lookupManifestDir (StepName step) ≠ lookupManifestDir Router_key → ServiceURL step = a) ∧
    router_configured (r_log serving_end) sent.
Proof.
  split; [vm_compute; reflexivity|].
  destruct (reconcile_publishes_addresses demo_resource demo_start serving_end)
    as (sent & Hsub & Hsh & Ha & Hr); [vm_compute; reflexivity|apply serving_reconciles|].
  exists sent. split; [exact Hsub|]. split; [exact Hsh|]. split.
  - intros step a Hstep He Hn. apply (Ha step a Hstep); [exact He|]. right. exact (serving_stored step Hn).
  - apply Hr; [exact serving_owner_only|].
    rewrite <- (submitted_unique _ _ _ Hsub serving_submitted). exact served_servable.
Defined.
End witnesses.
