(* ===== verification/GraphMemory.v ===== *)
(** * The controller's writes through shared references

    [recordResource] (internal/controller/gmconnector_controller.go) writes the
    URL of a service through [graph.Spec.Nodes[nodeName].Steps[stepIdx]] and
    through [graph.Status.Annotations]: through references, which a value model
    of the graph does not show.  This file has the function on the memory of
    ApiMemory, and shows that it does to the value of the graph what
    Controller.recordResource does, when no two references of the graph are the
    same: which a deep copy, and so what a client of the API server reads from
    its cache, guarantees (DeepCopyTheorems). *)

From S2P Require Import Prelude GoStrings ApiTypes ApiMemory DeepCopy DeepCopyTheorems.
From S2P Require Import Kube Controller.

(** ** The function in memory *)

(** The heap and the struct [*graph]. *)
Abbreviation mem := (gmap nat cell * MGMConnector)%type (only parsing).

Definition in_heap {A} (p : prog heap A) : prog mem A := λ s,
  let '(h, o) := p s.1 in ((h, s.2), o).

(** [graph.Status.Annotations[key] = val] *)
Definition mem_annotate (key val : string) : prog mem unit :=
  g ← gets snd;
  match mt_Annotations (mg_Status g) with
  | None => panic nil_map_write
  | Some a => in_heap (map_store get_strings CStrings a key val)
  end.

(** [graph.Spec.Nodes[nodeName].Steps] *)
Definition mem_Steps (nodeName : string) : prog mem (option slice) :=
  g ← gets snd;
  nodes ← match mp_Nodes (mg_Spec g) with
          | None => mret ∅
          | Some l => in_heap (read get_nodes l)
          end;
  mret (nodes !! nodeName ≫= mr_Steps).

(** [m[key]] for a map that can be nil *)
Definition mem_get (m : option loc) (key : string) : prog heap string :=
  match m with
  | None => mret ""
  | Some l => m ← read get_strings l; mret (default "" (m !! key))
  end.

Definition mem_set_AccessURL (url : string) : prog mem unit :=
  modify (λ s, (s.1, mkMGMConnector (mg_TypeMeta s.2) (mg_ObjectMeta s.2) (mg_Spec s.2)
    (mkMStatus (mt_Condition (mg_Status s.2)) (mt_Status (mg_Status s.2)) url
       (mt_Annotations (mg_Status s.2))))).

Definition mset_ServiceURL (url : string) (s : MStep) : MStep :=
  mkMStep (ms_StepName s) (ms_Executor s) (ms_Data s) (ms_Condition s) (ms_Dependency s) url.

(** [steps[stepIdx].ServiceURL = url] *)
Definition mem_set_url (steps : slice) (stepIdx : nat) (url : string) : prog heap unit :=
  step ← slice_get get_steps steps stepIdx;
  slice_set get_steps CSteps steps stepIdx (mset_ServiceURL url step).

(** A nil slice has no element. *)
Definition nil_slice : slice := mkSlice 0 0 0.

Definition mem_recordResource (nodeName : string) (stepIdx : nat) (obj : kobj)
    : prog mem (option error) :=
  _ ← mem_annotate (record_key obj) "provisioned";
  if decide (o_Kind obj = Service_kind) then
    match o_Payload obj with
    | PService s =>
        steps ← mem_Steps nodeName;
        let steps := default nil_slice steps in
        if decide (s_len steps = 0) then
          let url := getServiceURL obj s in
          _ ← mem_annotate (record_key obj) url;
          _ ← mem_set_AccessURL url;
          mret None
        else
          step ← in_heap (slice_get get_steps steps stepIdx);
          endpoint ← in_heap (mem_get (mt_Config (me_InternalService (ms_Executor step))) "endpoint");
          let url := getServiceURL obj s +:+ endpoint in
          _ ← in_heap (mem_set_url steps stepIdx url);
          _ ← mem_annotate (record_key obj) url;
          mret None
    | _ => mret (Some ("Failed to convert service " +:+ o_Name obj))
    end
  else mret None.

(** ** One write and the value of a struct *)

(** After a write [m] has the same references, is still valid, and its value is
    changed by [f]. *)
Record updated `{Stored M V} (h h' : heap) (m : M) (f : V → V) : Prop := mkUpdated {
  updated_refs : refs h' m = refs h m;
  updated_typed : typed h m → typed h' m;
  updated_view : view h' m = f (view h m)
}.

Lemma updated_frame `{StoredLaws M V} h h' (m : M) : agree m h h' → updated h h' m id.
Proof. intros Ha. split; [by apply refs_frame|by apply typed_frame|by apply view_frame]. Qed.

Lemma agree_insert `{StoredLaws M V} (m : M) h a c : a ∉ refs h m → agree m h (<[a := c]> h).
Proof. intros Ha l Hl. apply lookup_insert_ne. by intros ->. Qed.

Lemma updated_derived {P W} (st : Stored P W) {S V} (parts : S → P) (build : S → W → V)
    h h' s f F :
  @updated P W st h h' (parts s) f →
  build s (f (view h (parts s))) = F (build s (view h (parts s))) →
  @updated S V (derived st parts build) h h' s F.
Proof. intros [Hr Ht Hv] Hb. split; simpl; [done..|]. by rewrite Hv, Hb. Qed.

Lemma updated_pair `{Stored M V, Stored M2 V2} h h' (m : M) (n : M2) f g :
  updated h h' m f → updated h h' n g → updated h h' (m, n) (λ p, (f p.1, g p.2)).
Proof.
  intros [Hr Ht Hv] [Hr2 Ht2 Hv2]. split; simpl.
  - by rewrite Hr, Hr2.
  - intros [? ?]. auto.
  - by rewrite Hv, Hv2.
Qed.

(** A reference whose cell still holds [m]. *)
Lemma updated_ref `{Stored M V} (get : cell → option M) h h' l m f :
  load get h l = Some m → load get h' l = Some m → updated h h' m f →
  @updated _ _ (ref_stored get) h h' (Some l) (fmap f).
Proof.
  intros Hl Hl' [Hr Ht Hv]. split; simpl; unfold view_ref; simpl; rewrite ?Hl, ?Hl'; simpl.
  - by rewrite Hr.
  - done.
  - by rewrite Hv.
Qed.

(** One whose cell was written. *)
Lemma updated_ref_cell `{Stored M V} (get : cell → option M) h h' l m m' f :
  load get h l = Some m → load get h' l = Some m' → refs h' m' = refs h m →
  (typed h m → typed h' m') → view h' m' = f (view h m) →
  @updated _ _ (ref_stored get) h h' (Some l) (fmap f).
Proof.
  intros Hl Hl' Hr Ht Hv. split; simpl; unfold view_ref; simpl; rewrite ?Hl, ?Hl'; simpl.
  - by rewrite Hr.
  - done.
  - by rewrite Hv.
Qed.

(** One entry of a map. *)
Lemma refs_map_delete `{Stored M V} h (m : gmap string M) k x :
  m !! k = Some x → refs h m ≡ₚ refs h x ++ refs h (delete k m).
Proof. intros Hk. simpl. by rewrite <- (map_to_list_delete m k x Hk). Qed.

Lemma updated_map `{StoredLaws M V} h h' (m : gmap string M) k x f :
  m !! k = Some x → updated h h' x f → agree (delete k m) h h' →
  updated h h' m (alter f k).
Proof.
  intros Hk [Hr Ht Hv] Ha.
  assert (Forall (λ y, refs h' y = refs h y) (map_to_list m).*2) as Hrs.
  { rewrite <- (map_to_list_delete m k x Hk). simpl. constructor; [done|].
    apply Forall_forall. intros y Hy. apply refs_frame. intros l Hl. apply Ha. simpl.
    apply list_elem_of_join. exists (refs h y). split; [done|]. by apply list_elem_of_fmap_2. }
  split.
  - simpl. f_equal. by apply Forall_fmap_ext_1.
  - simpl. rewrite <- (map_to_list_delete m k x Hk). simpl. rewrite !Forall_cons.
    intros [? Hd]. split; [auto|]. by apply (typed_frame h h' (delete k m) Ha).
  - pose proof (view_frame h h' (delete k m) Ha) as Hd. simpl in Hd |- *.
    rewrite <- (insert_delete_id m k x Hk), !fmap_insert, Hd, alter_insert_eq.
    by rewrite Hv.
Qed.

(** One element of a slice. *)
Lemma updated_slice `{StoredLaws M V} (get : cell → option (list M)) h h' s ms i x x' f :
  elements get h s = Some ms → elements get h' s = Some (<[i := x']> ms) → ms !! i = Some x →
  agree ms h h' → refs h x' = refs h x → (typed h x → typed h x') → view h x' = f (view h x) →
  @updated _ _ (slice_stored get) h h' (Some s) (fmap (alter f i)).
Proof.
  intros He He' Hx Ha Hr Ht Hv.
  assert (refs h (<[i := x']> ms) = refs h ms) as Hrs.
  { simpl. rewrite list_fmap_insert, Hr. f_equal. apply list_insert_id.
    by rewrite list_lookup_fmap, Hx. }
  assert (agree (<[i := x']> ms) h h') as Ha'.
  { intros l. rewrite Hrs. apply Ha. }
  split; simpl; unfold view_slice; simpl; rewrite He, He'; simpl.
  - f_equal. etrans; [exact (refs_frame h h' _ Ha')|exact Hrs].
  - intros [Hl Hf]. rewrite length_insert. split; [done|].
    apply (typed_frame h h' (<[i := x']> ms) Ha'). simpl. apply Forall_insert; [done|].
    apply Ht. by eapply Forall_lookup_1.
  - f_equal. etrans; [exact (view_frame h h' _ Ha')|]. simpl.
    rewrite list_fmap_insert, Hv. symmetry. apply list_alter_at.
    by rewrite list_lookup_fmap, Hx.
Qed.

(** ** The graph and its value *)

(** The struct [g] in the heap [h] is the value [v]; its references are valid
    and all different, its annotations are a map. *)
Record represents (s : mem) (v : GMConnector) : Prop := mkRepresents {
  rep_typed : typed s.1 s.2;
  rep_distinct : NoDup (refs s.1 s.2);
  rep_annotations : is_Some (mt_Annotations (mg_Status s.2));
  rep_view : view s.1 s.2 = v
}.

(** Only cells of the graph were written. *)
Definition within (h : heap) (g : MGMConnector) (h' : heap) : Prop :=
  refs h' g = refs h g ∧ ∀ l, l ∉ refs h g → h' !! l = h !! l.

Lemma within_trans g h1 h2 h3 : within h1 g h2 → within h2 g h3 → within h1 g h3.
Proof.
  intros [Hr1 H1] [Hr2 H2]. split; [congruence|]. intros l Hl. rewrite H2; [by apply H1|congruence].
Qed.

(** A write in a cell of the graph. *)
Lemma represents_write h g v a c F :
  represents (h, g) v → a ∈ refs h g → updated h (<[a := c]> h) g F →
  represents (<[a := c]> h, g) (F v) ∧ within h g (<[a := c]> h).
Proof.
  intros [Ht Hn Ha Hv] Hin [Hr Ht' Hv']. simpl in *. split; split; simpl; [auto| |done| |done|].
  - by rewrite Hr.
  - by rewrite Hv', Hv.
  - intros l Hl. apply lookup_insert_ne. by intros ->.
Qed.

Lemma refs_connector h g :
  refs h g = refs h (mg_ObjectMeta g) ++ refs h (mg_Spec g) ++ refs h (mg_Status g).
Proof. done. Qed.

(** A write in the status, and one in the spec. *)
Lemma updated_status h g a c F :
  NoDup (refs h g) → a ∈ refs h (mg_Status g) →
  updated h (<[a := c]> h) (mg_Status g) F →
  updated h (<[a := c]> h) g (λ v, mkGMConnector (gmc_TypeMeta v) (gmc_ObjectMeta v) (Spec v)
                                     (F (gmc_Status v))).
Proof.
  rewrite refs_connector. intros (_ & Hd1 & (_ & Hd2 & _)%NoDup_app)%NoDup_app Ha Hu.
  apply (updated_derived _ _ _ _ _ _ (λ p, (id p.1, (λ q, (id q.1, F q.2)) p.2))); [|done].
  apply (updated_pair (H := meta_stored) (H0 := both spec_stored status_stored)
           _ _ _ _ id (λ q, (id q.1, F q.2))).
  - apply updated_frame, agree_insert. intros Hin. apply (Hd1 a Hin), elem_of_app. by right.
  - apply (updated_pair (H := spec_stored) (H0 := status_stored) _ _ _ _ id F); [|exact Hu].
    apply updated_frame, agree_insert. intros Hin. by apply (Hd2 a).
Qed.

Lemma updated_spec h g a c F :
  NoDup (refs h g) → a ∈ refs h (mg_Spec g) →
  updated h (<[a := c]> h) (mg_Spec g) F →
  updated h (<[a := c]> h) g (λ v, mkGMConnector (gmc_TypeMeta v) (gmc_ObjectMeta v) (F (Spec v))
                                     (gmc_Status v)).
Proof.
  rewrite refs_connector. intros (_ & Hd1 & (_ & Hd2 & _)%NoDup_app)%NoDup_app Ha Hu.
  apply (updated_derived _ _ _ _ _ _ (λ p, (id p.1, (λ q, (F q.1, id q.2)) p.2))); [|done].
  apply (updated_pair (H := meta_stored) (H0 := both spec_stored status_stored)
           _ _ _ _ id (λ q, (F q.1, id q.2))).
  - apply updated_frame, agree_insert. intros Hin. apply (Hd1 a Hin), elem_of_app. by left.
  - apply (updated_pair (H := spec_stored) (H0 := status_stored) _ _ _ _ F id); [exact Hu|].
    apply updated_frame, agree_insert. by apply Hd2.
Qed.

(** A map of strings is its own value. *)
Lemma refs_strings h (m : gmap string string) : refs h m = [].
Proof. simpl. by induction (map_to_list m).*2. Qed.
Lemma typed_strings h (m : gmap string string) : typed h m.
Proof. simpl. by apply Forall_forall. Qed.
Lemma view_strings h (m : gmap string string) : view h m = m.
Proof. apply map_fmap_id. Qed.

Lemma mem_annotate_represents k x h g v :
  represents (h, g) v →
  ∃ h', mem_annotate k x (h, g) = ((h', g), Done tt) ∧ represents (h', g) (annotate k x v) ∧
        within h g h'.
Proof.
  intros Hrep. pose proof Hrep as [Ht Hn [a Ha] Hv]. simpl in Ht, Hn, Ha, Hv.
  destruct Ht as (_ & _ & Hst). simpl in Hst. rewrite Ha in Hst. simpl in Hst.
  destruct (load get_strings h a) as [m|] eqn:El; [|done].
  exists (<[a := CStrings (<[k := x]> m)]> h).
  assert (a ∈ refs h (mg_Status g)) as Hin by (simpl; rewrite Ha; simpl; by constructor).
  assert (updated h (<[a := CStrings (<[k := x]> m)]> h) (mg_Status g)
    (λ s, mkStatus (status_Condition s) (Status s) (AccessURL s)
            (Some (<[k := x]> (default ∅ (AnnotationsMap s)))))) as Hu.
  { apply (updated_derived _ _ _ _ _ _ (fmap (insert k x))); rewrite Ha; simpl.
    - eapply (updated_ref_cell get_strings); [exact El|unfold load; by rewrite lookup_insert_eq|..].
      + by rewrite !refs_strings.
      + intros _. apply typed_strings.
      + by rewrite !view_strings.
    - unfold view_ref. simpl. by rewrite El. }
  split; [|apply (represents_write h g v a _ _ Hrep)].
  - unfold mem_annotate, mbind, prog_bind. simpl. rewrite Ha.
    unfold in_heap, map_store. simpl. by rewrite El.
  - rewrite refs_connector, !elem_of_app. by right; right.
  - exact (updated_status h g a _ _ Hn Hin Hu).
Qed.

(** Where the steps of a node are. *)
Record steps_at (h : heap) (g : MGMConnector) (n : string) (s : slice)
    (l : loc) (m : gmap string MRouter) (r : MRouter) (ms : list MStep) : Prop := mkStepsAt {
  at_nodes : mp_Nodes (mg_Spec g) = Some l;
  at_map : load get_nodes h l = Some m;
  at_node : m !! n = Some r;
  at_steps : mr_Steps r = Some s;
  at_elements : elements get_steps h s = Some ms;
  at_length : length ms = s_len s
}.

Lemma mem_Steps_represents n h g v :
  represents (h, g) v →
  ∃ r, mem_Steps n (h, g) = ((h, g), Done r) ∧
    match r with
    | None => Steps (node_at (Spec v) n) = []
    | Some s => ∃ l m r ms, steps_at h g n s l m r ms ∧
                            Steps (node_at (Spec v) n) = view h <$> ms
    end.
Proof.
  intros [Ht Hn Ha <-]. simpl in *. destruct Ht as (_ & [Hnodes _] & _).
  unfold mem_Steps, node_at, Nodes, mbind, prog_bind. simpl in Hnodes |- *. unfold view_ref.
  destruct (mp_Nodes (mg_Spec g)) as [l|] eqn:El; [|by exists None].
  unfold in_heap, read. simpl in Hnodes |- *.
  destruct (load get_nodes h l) as [m|] eqn:Em; [|done]. simpl. rewrite lookup_fmap.
  exists (m !! n ≫= mr_Steps). split; [done|].
  destruct (m !! n) as [r|] eqn:Er; [|done]. simpl.
  unfold Steps. simpl. unfold view_slice. destruct (mr_Steps r) as [s|] eqn:Es; [|done]. simpl.
  assert (typed_slice get_steps h (Some s)) as Hs.
  { simpl in Hnodes. rewrite Forall_forall in Hnodes. rewrite <- Es. apply Hnodes.
    apply (list_elem_of_fmap_2 snd _ (n, r)). by apply elem_of_map_to_list. }
  simpl in Hs. destruct (elements get_steps h s) as [ms|] eqn:Ee; [|done].
  exists l, m, r, ms. split; [split|]; [done..|apply Hs|done].
Qed.

Lemma window_insert {A} (s : slice) i (x : A) l :
  i < s_len s → window s (<[s_off s + i := x]> l) = <[i := x]> (window s l).
Proof.
  intros Hi. unfold window. rewrite drop_insert_ge by lia.
  replace (s_off s + i - s_off s) with i by lia. by apply take_insert_lt.
Qed.

(** The refs of a node are among those of the graph, once. *)
Lemma steps_at_refs h g n s l m r ms :
  steps_at h g n s l m r ms → NoDup (refs h g) →
  s_array s ∈ refs h (mg_Spec g) ∧ s_array s ≠ l ∧ s_array s ∉ refs h ms ∧
  s_array s ∉ refs h (delete n m) ∧ s_array s ∉ refs h (mp_RouterConfig (mg_Spec g)).
Proof.
  intros [Hl Hm Hr Hs He _] Hn. rewrite refs_connector in Hn.
  apply NoDup_app in Hn as (_ & _ & (Hn & _ & _)%NoDup_app).
  assert (refs h (mg_Spec g) = l :: refs h m ++ refs h (mp_RouterConfig (mg_Spec g))) as E.
  { simpl. rewrite Hl. simpl. by rewrite Hm. }
  assert (refs h r = s_array s :: refs h ms) as Er.
  { simpl. rewrite Hs. simpl. by rewrite He. }
  rewrite E in Hn |- *. pose proof (refs_map_delete h m n r Hr) as Hp. rewrite Hp, Er in Hn |- *.
  simpl in Hn. apply NoDup_cons in Hn as [H1 [H2 _]%NoDup_cons].
  rewrite !not_elem_of_app in H2. destruct H2 as [[H2 H3] H4]. set_solver.
Qed.

(** The write of the URL, on the cell of the array. *)
Lemma mem_set_url_run h g n s l m r ms i x url :
  steps_at h g n s l m r ms → ms !! i = Some x →
  ∃ arr, load get_steps h (s_array s) = Some arr ∧
    mem_set_url s i url h
      = (<[s_array s := CSteps (<[s_off s + i := mset_ServiceURL url x]> arr)]> h, Done tt) ∧
    elements get_steps (<[s_array s := CSteps (<[s_off s + i := mset_ServiceURL url x]> arr)]> h) s
      = Some (<[i := mset_ServiceURL url x]> ms).
Proof.
  intros [_ _ _ _ He Hlen] Hx. unfold mem_set_url, mbind, prog_bind, slice_get. rewrite He. simpl.
  rewrite Hx. unfold elements in He |- *. unfold slice_set.
  destruct (load get_steps h (s_array s)) as [arr|] eqn:Ea; [|done]. simpl in He.
  injection He as Hw. exists arr. pose proof (lookup_lt_Some _ _ _ Hx) as Hi.
  assert (i < s_len s ∧ s_off s + i < length arr) as Hb.
  { split; [lia|]. rewrite <- Hw in Hi. unfold window in Hi.
    rewrite length_take, length_drop in Hi. lia. }
  rewrite decide_True by done. split_and!; [done..|].
  unfold load. rewrite lookup_insert_eq. simpl. by rewrite window_insert, Hw by apply Hb.
Qed.

(** The value of the node changes as [set_step_url] changes it. *)
Lemma updated_node h h' g n s l m r ms i x url :
  steps_at h g n s l m r ms → ms !! i = Some x →
  (∀ l', l' ≠ s_array s → h' !! l' = h !! l') → NoDup (refs h g) →
  elements get_steps h' s = Some (<[i := mset_ServiceURL url x]> ms) →
  updated h h' (mg_Spec g) (λ sp, mkSpec
    ((λ ns, alter (λ r, mkRouter (RouterType r) (alter (set_ServiceURL url) i <$> StepsSlice r)) n ns)
       <$> NodesMap sp) (SpecRouterConfig sp)).
Proof.
  intros Hat Hx Hw Hn He'. pose proof Hat as [Hl Hm Hr Hs He _].
  destruct (steps_at_refs _ _ _ _ _ _ _ _ Hat Hn) as (_ & Hal & Hams & Hadel & Harc).
  assert (∀ ls : list nat, s_array s ∉ ls → ∀ l', l' ∈ ls → h' !! l' = h !! l') as Hframe.
  { intros ls Hls l' Hl'. apply Hw. by intros ->. }
  set (f := λ r, mkRouter (RouterType r) (alter (set_ServiceURL url) i <$> StepsSlice r)).
  apply (updated_derived _ _ _ _ _ _ (λ p, ((fmap (alter f n)) p.1, id p.2))); [|done].
  rewrite Hl. apply (updated_pair (H := ref_stored get_nodes) (H0 := router_config_stored)
                       _ _ _ _ (fmap (alter f n)) id).
  2:{ apply updated_frame. exact (Hframe (refs h (mp_RouterConfig (mg_Spec g))) Harc). }
  apply (updated_ref get_nodes h h' l m (alter f n)); [done| |].
  { rewrite <- Hm. apply load_agree, Hw. done. }
  apply (updated_map h h' m n r); [done| |exact (Hframe (refs h (delete n m)) Hadel)].
  apply (updated_derived _ _ _ _ _ _ (fmap (alter (set_ServiceURL url) i))); [|done].
  rewrite Hs. apply (updated_slice get_steps h h' s ms i x (mset_ServiceURL url x)); try done.
  exact (Hframe (refs h ms) Hams).
Qed.

Lemma mem_set_url_represents n h g v s l m r ms i x url :
  represents (h, g) v → steps_at h g n s l m r ms → ms !! i = Some x →
  ∃ h', mem_set_url s i url h = (h', Done tt) ∧ represents (h', g) (set_step_url n i url v) ∧
        within h g h'.
Proof.
  intros Hrep Hat Hx. pose proof Hrep as [_ Hn _ _].
  destruct (mem_set_url_run _ _ _ _ _ _ _ _ _ _ url Hat Hx) as (arr & _ & Hrun & He').
  eexists. split; [exact Hrun|].
  destruct (steps_at_refs _ _ _ _ _ _ _ _ Hat Hn) as [Hin _].
  apply (represents_write h g v (s_array s) _ _ Hrep).
  - rewrite refs_connector, !elem_of_app. by right; left.
  - refine (updated_spec h g (s_array s) _ _ Hn Hin
              (updated_node h _ g n s l m r ms i x url Hat Hx _ Hn He')).
    intros l' Hl'. by apply lookup_insert_ne.
Qed.

(** ** The function and the controller's *)

(** The endpoint of a step. *)
Lemma mem_get_view h (r : option loc) k :
  @typed _ _ (ref_stored get_strings) h r →
  mem_get r k h = (h, Done (map_get (view_ref get_strings h r) k)).
Proof.
  intros Ht. unfold mem_get, map_get, view_ref, read, mbind, prog_bind. destruct r as [l|]; [|done].
  simpl in Ht |- *. destruct (load get_strings h l) as [m|]; [|done]. simpl.
  by rewrite map_fmap_id.
Qed.

Lemma in_heap_Done {A} (p : prog (gmap nat cell) A) h g h' a :
  p h = (h', Done a) → in_heap p (h, g) = ((h', g), Done a).
Proof. intros E. unfold in_heap. simpl. by rewrite E. Qed.

Lemma mem_set_AccessURL_represents url h g v :
  represents (h, g) v →
  ∃ g', mem_set_AccessURL url (h, g) = ((h, g'), Done tt) ∧
        represents (h, g') (set_AccessURL url v) ∧ refs h g' = refs h g.
Proof.
  intros [Ht Hn Ha <-]. eexists. split; [reflexivity|]. split; [|done].
  by split.
Qed.

(** Both functions, after a write they agree on. *)
Definition same_run (p : prog mem (option error)) (q : prog rstate (option error))
    (s : mem) (log : list api_request) (v : GMConnector) : Prop :=
  ∃ s' v' o, p s = (s', o) ∧ q (mkR log v) = (mkR log v', o) ∧ represents s' v' ∧
             within s.1 s.2 s'.1 ∧ refs s'.1 s'.2 = refs s.1 s.2.

Lemma same_run_ret e s log v : represents s v → same_run (mret e) (mret e) s log v.
Proof. intros Hr. by exists s, v, (Done e). Qed.

Lemma same_run_panic msg s log v : represents s v → same_run (panic msg) (panic msg) s log v.
Proof. intros Hr. by exists s, v, (Panic msg). Qed.

(** A write to the heap done by both. *)
Lemma same_run_write {A} (w : prog mem A) (f : GMConnector → GMConnector) k k' h g h1 a log v :
  w (h, g) = ((h1, g), Done a) → within h g h1 →
  same_run (k a) k' (h1, g) log (f v) →
  same_run (w ≫= k) (_ ← upd_graph f; k') (h, g) log v.
Proof.
  intros Hw Hin (s' & v' & o & Hp & Hq & Hr & Hin' & Hrefs). exists s', v', o.
  split_and!; [|exact Hq|done| |].
  - by rewrite (run_bind_Done _ _ _ _ _ Hw).
  - by apply (within_trans g _ h1).
  - simpl in *. rewrite Hrefs. apply Hin.
Qed.

(** Reading the steps, and the graph. *)
Lemma same_run_read n k k' h g log v r :
  mem_Steps n (h, g) = ((h, g), Done r) →
  same_run (k r) (k' v) (h, g) log v →
  same_run (mem_Steps n ≫= k) (gets r_graph ≫= k') (h, g) log v.
Proof.
  intros Hrun (s' & v' & o & Hp & Hq & Hrest). exists s', v', o.
  split_and!; [by rewrite (run_bind_Done _ _ _ _ _ Hrun)|exact Hq|apply Hrest..].
Qed.

(** The router's service: its URL is the graph's. *)
Lemma record_router_url key url h g log v :
  represents (h, g) v →
  same_run (_ ← mem_annotate key url; _ ← mem_set_AccessURL url; mret None)
    (_ ← upd_graph (annotate key url); _ ← upd_graph (set_AccessURL url); mret None) (h, g) log v.
Proof.
  intros Hr. destruct (mem_annotate_represents key url h g v Hr) as (h1 & Hw & Hr1 & Hin).
  apply (same_run_write _ _ _ _ _ _ h1 tt); [done..|].
  destruct (mem_set_AccessURL_represents url h1 g _ Hr1) as (g' & Hw2 & Hr2 & Hrefs).
  exists (h1, g'), (set_AccessURL url (annotate key url v)), (Done None).
  split_and!; [by rewrite (run_bind_Done _ _ _ _ _ Hw2)|done|done|done|done].
Qed.

Lemma steps_at_typed h g n s l m r ms i x :
  typed h g → steps_at h g n s l m r ms → ms !! i = Some x → typed h x.
Proof.
  intros (_ & [Hnodes _] & _) [Hl Hm Hr Hs He _] Hx. simpl in Hnodes. rewrite Hl in Hnodes.
  simpl in Hnodes. rewrite Hm in Hnodes. simpl in Hnodes. rewrite Forall_forall in Hnodes.
  assert (typed h r) as Htr.
  { apply Hnodes, (list_elem_of_fmap_2 snd _ (n, r)). by apply elem_of_map_to_list. }
  simpl in Htr. rewrite Hs in Htr. simpl in Htr. rewrite He in Htr.
  exact (Forall_lookup_1 _ _ _ _ (proj2 Htr) Hx).
Qed.

(** The service of a step. *)
Lemma record_step_url prefix key n i s h g log v l m r ms :
  represents (h, g) v → steps_at h g n s l m r ms → Steps (node_at (Spec v) n) = view h <$> ms →
  same_run
    (step ← in_heap (slice_get get_steps s i);
     endpoint ← in_heap (mem_get (mt_Config (me_InternalService (ms_Executor step))) "endpoint");
     _ ← in_heap (mem_set_url s i (prefix +:+ endpoint));
     _ ← mem_annotate key (prefix +:+ endpoint); mret None)
    (match Steps (node_at (Spec v) n) !! i with
     | None => panic index_out_of_range
     | Some step =>
         let url := prefix +:+ map_get (Config (InternalService step)) "endpoint" in
         _ ← upd_graph (set_step_url n i url); _ ← upd_graph (annotate key url); mret None
     end) (h, g) log v.
Proof.
  intros Hr Hat Hst. pose proof Hat as [_ _ _ _ He _]. rewrite Hst, list_lookup_fmap.
  destruct (ms !! i) as [x|] eqn:Hx; simpl.
  2:{ exists (h, g), v, (Panic index_out_of_range). split_and!; [|done..].
      unfold mbind, prog_bind, in_heap, slice_get. simpl. rewrite He. simpl. by rewrite Hx. }
  pose proof (steps_at_typed h g n s l m r ms i x (rep_typed _ _ Hr) Hat Hx) as Htx.
  set (url := prefix +:+ map_get (view_ref get_strings h
                (mt_Config (me_InternalService (ms_Executor x)))) "endpoint").
  destruct (mem_set_url_represents n h g v s l m r ms i x url Hr Hat Hx) as (h1 & Hw & Hr1 & Hin).
  destruct (mem_annotate_represents key url h1 g _ Hr1) as (h2 & Hw2 & Hr2 & Hin2).
  exists (h2, g), (annotate key url (set_step_url n i url v)), (Done None).
  split_and!; [|done|done|by apply (within_trans g _ h1)|].
  - rewrite (run_bind_Done _ _ _ (h, g) x).
    2:{ apply in_heap_Done. unfold slice_get. rewrite He. simpl. by rewrite Hx. }
    rewrite (run_bind_Done _ _ _ _ _ (in_heap_Done _ _ g _ _ (mem_get_view h _ "endpoint" Htx))).
    rewrite (run_bind_Done _ _ _ _ _ (in_heap_Done _ _ g _ _ Hw)).
    by rewrite (run_bind_Done _ _ _ _ _ Hw2).
  - simpl. etrans; [apply Hin2|apply Hin].
Qed.

(** C15: recordResource, run on the memory where the graph's maps and slices are references, does to the graph's value what the controller's recordResource does to a value, with the same outcome: when the references of the graph are all different, it writes to the graph's own cells only, and they stay different, so that the next call meets the same hypothesis. *)
Theorem recordResource_through_references h g v log nodeName stepIdx obj :
  represents (h, g) v →
  ∃ h' g' v' o,
    mem_recordResource nodeName stepIdx obj (h, g) = ((h', g'), o) ∧
    recordResource nodeName stepIdx obj (mkR log v) = (mkR log v', o) ∧
    represents (h', g') v' ∧ (∀ l, l ∉ refs h g → h' !! l = h !! l).
Proof.
  intros Hr. assert (same_run (mem_recordResource nodeName stepIdx obj)
    (recordResource nodeName stepIdx obj) (h, g) log v) as Hsame.
  { destruct (mem_annotate_represents (record_key obj) "provisioned" h g v Hr)
      as (h1 & Hw & Hr1 & Hin).
    unfold mem_recordResource, recordResource. apply (same_run_write _ _ _ _ _ _ h1 tt); [done..|].
    destruct (decide (o_Kind obj = Service_kind)); [|by apply same_run_ret].
    destruct (o_Payload obj) as [s|d|]; [|by apply same_run_ret..].
    destruct (mem_Steps_represents nodeName h1 g _ Hr1) as (r & Hrun & Hst).
    apply (same_run_read _ _ _ _ _ _ _ _ Hrun). destruct r as [sl|].
    - destruct Hst as (l & m & r & ms & Hat & Hms). pose proof (at_length _ _ _ _ _ _ _ _ Hat) as Hl.
      pose proof (record_step_url (getServiceURL obj s) (record_key obj) nodeName stepIdx sl h1 g log
                    _ l m r ms Hr1 Hat Hms) as Hrec.
      rewrite Hms in Hrec |- *. cbn [default from_option id]. destruct ms as [|x ms], (decide _) as [E|E];
        try (simpl in Hl; congruence); [by apply record_router_url|exact Hrec].
    - rewrite Hst. by apply record_router_url. }
  destruct Hsame as ([h' g'] & v' & o & Hp & Hq & Hr' & [_ Hout] & _).
  by exists h', g', v', o.
Qed.

(** What a deep copy gives meets the hypothesis. *)
Lemma copy_represents h (g : MGMConnector) h' g' :
  is_copy h g h' g' → is_Some (mt_Annotations (mg_Status g')) → represents (h', g') (view h g).
Proof. intros [Hv Ht _ Hn] Ha. by split. Qed.

(** ** Concrete graphs *)

Section demo.

Definition llm_step (config : option loc) : MStep :=
  mkMStep "Llm" (mkMExecutor "" (mkMTarget "llm" "ns" config false) "") "" "" "" "".

(** Two nodes, whose steps are in the arrays [a1] and [a2]. *)
Definition two_nodes (a1 a2 : loc) : gmap nat cell :=
  {[ 0 := CNodes {["root" := mkMRouter "Sequence" (Some (mkSlice a1 0 1));
                   "other" := mkMRouter "Sequence" (Some (mkSlice a2 0 1))]};
     1 := CSteps [llm_step (Some 3)];
     2 := CSteps [llm_step None];
     3 := CStrings {["endpoint" := "/v1"]};
     4 := CStrings ∅ ]}.
Definition two_node_graph : MGMConnector :=
  mkMGMConnector (mkTypeMeta "v1" "GMConnector") (mkMObjectMeta "g" "ns" None None "1")
    (mkMSpec (Some 0) (mkMRouterConfig "router" "svc" "ns" None))
    (mkMStatus zero_Condition "" "" (Some 4)).

Definition llm_service : kobj :=
  mkKobj "Service" "v1" "llm" "ns" "1" None
    (PService (mkServiceSpec None "ClusterIP" [mkPort 80 0] [] "")).

Lemma recordResource_through_references_witness :
  represents (two_nodes 1 2, two_node_graph) (view (two_nodes 1 2) two_node_graph) ∧
  ∃ h' g' v' o,
    mem_recordResource "root" 0 llm_service (two_nodes 1 2, two_node_graph) = ((h', g'), o) ∧
    recordResource "root" 0 llm_service (mkR [] (view (two_nodes 1 2) two_node_graph))
      = (mkR [] v', o) ∧
    represents (h', g') v' ∧
    (∀ l, l ∉ refs (two_nodes 1 2) two_node_graph → h' !! l = two_nodes 1 2 !! l).
Proof.
  assert (represents (two_nodes 1 2, two_node_graph) (view (two_nodes 1 2) two_node_graph)) as Hr.
  { split; [by vm_compute; repeat constructor| |by eexists|done].
    by apply (bool_decide_unpack _); vm_compute. }
  split; [exact Hr|]. exact (recordResource_through_references _ _ _ [] "root" 0 llm_service Hr).
Defined.

(** When two nodes share an array, a write to one is a write to both, and the
    two functions differ. *)
Lemma shared_steps_differ :
  let h := two_nodes 1 1 in
  let s := (mem_recordResource "root" 0 llm_service (h, two_node_graph)).1 in
  let v := r_graph (recordResource "root" 0 llm_service (mkR [] (view h two_node_graph))).1 in
  node_at (Spec (view s.1 s.2)) "root" = node_at (Spec v) "root" ∧
  node_at (Spec (view s.1 s.2)) "other" ≠ node_at (Spec v) "other".
Proof. by vm_compute. Qed.
End demo.
