(* ===== verification/Deployment.v ===== *)
(** * From the controller to the router

    The controller writes the graph it has reconciled, as JSON, into the
    router's manifest (internal/controller/gmconnector_controller.go,
    reconcileRouterService), and the router's [main] (cmd/router/main.go) reads
    it from its flag.  With the manifest of RouterManifest and the addresses of
    StepAddresses: the router serves the graph the controller submits and calls
    its steps where the controller has put them. *)

From Stdlib Require Import Ascii.
From S2P Require Import Prelude GoStrings ApiTypes Json JsonText RouterWorld Router RouterDemo.
From S2P Require Import RouterProps GraphJson Kube Controller ControllerProps ControllerTheorems.
From S2P Require Import RouterManifest ManifestDemo GarbageCollection StepAddresses.

(** ** The router's main *)








(** ** The graph that arrives *)

Section transfer.
Context `{KubeEnv} `{RouterEnv} `{JsonCodec}.







(** The graph that arrives: no name, no namespace, the specification in the form
    that JSON gives it. *)
Definition served_graph (s : GMConnectorSpec) : GMConnector :=
  mkGMConnector (mkTypeMeta "" "") (mkObjectMeta "" "" None None "") (norm_Spec s) zero_Status.


(** A step without an address is called in the empty namespace. *)
Lemma served_without_address s step :
  ServiceURL step = "" →
  getServiceURLByStepTarget step (Namespace (gmc_ObjectMeta (served_graph s)))
    = "http://" +:+ StepName step +:+ "..svc.cluster.local".
Proof. intros Hu. unfold getServiceURLByStepTarget. by rewrite decide_True. Qed.


End transfer.




(** ** A concrete deployment *)

Section witnesses.
#[local] Existing Instances ServingKube serving_manifest serving_ranges TextCodec UpEnv.





End witnesses.
