(* ===== verification/Float64.v ===== *)
(** * Go's float64

    The conversions and operations the programs use, on the Standard Library's
    executable IEEE 754 model (binary64: 53 bits, exponents below 1024, rounding
    to nearest even). *)

From Stdlib Require Import Floats.SpecFloat.
From S2P Require Import Prelude.

Abbreviation float64 := spec_float.

Definition f64_of_Z (n : Z) : float64 := binary_normalize 53 1024 n 0 false.
Definition f64_div (x y : float64) : float64 := SFdiv 53 1024 x y.
Definition f64_add (x y : float64) : float64 := SFadd 53 1024 x y.
Definition f64_zero : float64 := S754_zero false.

(** Neither infinite nor NaN. *)
Definition f64_finite (x : float64) : bool :=
  match x with S754_zero _ | S754_finite _ _ _ => true | _ => false end.

(** Dividing by zero never gives a finite number. *)
Lemma f64_div_zero x : f64_finite (f64_div x f64_zero) = false.
Proof. by destruct x as [[]|[]| |[] m e]. Qed.

Lemma f64_of_nonneg n : (0 <= n)%Z → f64_of_Z n ≠ S754_zero true.
Proof.
  intros Hn. destruct n as [|m|m]; [done| |lia]. unfold f64_of_Z, binary_normalize, binary_round.
  destruct (shl_align _ _ _) as [mz ez]. unfold binary_round_aux.
  repeat case_match; simplify_eq; done.
Qed.

(** Adding zero to a number of whole units. *)
Lemma f64_add_zero n : (0 <= n)%Z → f64_add (f64_of_Z n) f64_zero = f64_of_Z n.
Proof. intros Hn. pose proof (f64_of_nonneg n Hn) as Hz. by destruct (f64_of_Z n) as [[]|[]| |[] m e]. Qed.
