(* ===== verification/ExporterStats.v ===== *)
(** * The exporter's measurements

    collector/common.go and the data of collector/info.go: reading the resctrl
    and cgroup files, parsing their values and time stamps, the rates computed
    from two readings ([processStats]), the tasks files.  The file system, the
    clock and the enumeration order of maps are parameters ([snapshot], [GoRange]); a
    reading takes place in one snapshot of them. *)

From Stdlib Require Import Ascii.
From S2P Require Import Prelude GoStrings Float64.

(** ** Data *)

Record RawMemoryBandwidthStats := mkRawMB {
  TotalBytes : Z; TotalBytesTimeStamp : string;
  LocalBytes : Z; LocalBytesTimeStamp : string
}.
Record RawCPUStats := mkRawCPU { CPU : Z; TimeStamp : string }.

(** [Cache] holds the [LLCOccupancy] of each socket. *)
Record RawStats := mkRaw {
  SocketNum : Z;
  MemoryBandwidth : option (gmap string RawMemoryBandwidthStats);
  Cache : option (gmap string Z);
  CPUUtilization : option RawCPUStats;
  Memory : Z
}.
Definition zero_RawStats : RawStats := mkRaw 0 None None None 0.

Record ProcessedMemoryBandwidthStats := mkMB { TotalMBps : float64; LocalMBps : float64 }.
Definition zero_MB : ProcessedMemoryBandwidthStats := mkMB f64_zero f64_zero.

Record ProcessedStats := mkProcessed {
  p_socketNum : Z;
  SumMemoryBandwidth : ProcessedMemoryBandwidthStats;
  SumCache : float64;
  p_MemoryBandwidth : option (gmap string ProcessedMemoryBandwidthStats);
  p_Cache : option (gmap string float64);
  p_CPUUtilization : float64;
  p_Memory : float64
}.
Definition zero_ProcessedStats : ProcessedStats :=
  mkProcessed 0 zero_MB f64_zero None None f64_zero f64_zero.

(** The struct [stats]. *)
Record stats := mkStats { oldStats : RawStats; processedStats : ProcessedStats }.

(** ** Time stamps *)

(** Days from 1970-01-01 to a civil date. *)
Definition days_from_civil (y m d : Z) : Z :=
  let y' := if bool_decide (m <= 2)%Z then (y - 1)%Z else y in
  let era := (y' / 400)%Z in
  let yoe := (y' - era * 400)%Z in
  let doy := ((153 * (if bool_decide (2 < m)%Z then m - 3 else m + 9) + 2) / 5 + d - 1)%Z in
  let doe := (yoe * 365 + yoe / 4 - yoe / 100 + doy)%Z in
  (era * 146097 + doe - 719468)%Z.

Definition leap (y : Z) : bool :=
  bool_decide (y mod 4 = 0)%Z && (negb (bool_decide (y mod 100 = 0)%Z) || bool_decide (y mod 400 = 0)%Z).

Definition days_in_month (y m : Z) : Z :=
  if bool_decide (m = 2)%Z then (if leap y then 29 else 28)
  else if bool_decide (m ∈ [4; 6; 9; 11])%Z then 30 else 31.

(** [n] digits at the head of a text. *)
Fixpoint digits (n : nat) (acc : Z) (s : string) : option (Z * string) :=
  match n with
  | 0 => Some (acc, s)
  | S n => match s with
           | String c s' => d ← digit_val c; digits n (10 * acc + d)%Z s'
           | EmptyString => None
           end
  end.

Definition lit (c : ascii) (s : string) : option string :=
  match s with String c' s' => if decide (c = c') then Some s' else None | EmptyString => None end.

(** [time.Parse("2006-01-02 15:04:05", s)], in seconds, on texts of the length
    [Format] writes; Parse also takes an hour of one digit and a fraction of a
    second, which no stamp has. *)
Definition parse_time (s : string) : option Z :=
  '(y, s) ← digits 4 0 s; s ← lit "-" s;
  '(mo, s) ← digits 2 0 s; s ← lit "-" s;
  '(d, s) ← digits 2 0 s; s ← lit " " s;
  '(h, s) ← digits 2 0 s; s ← lit ":" s;
  '(mi, s) ← digits 2 0 s; s ← lit ":" s;
  '(se, s) ← digits 2 0 s;
  if bool_decide (s = "" ∧ (1 <= mo <= 12)%Z ∧ (1 <= d <= days_in_month y mo)%Z ∧
                  (h < 24)%Z ∧ (mi < 60)%Z ∧ (se < 60)%Z)
  then Some (days_from_civil y mo d * 86400 + h * 3600 + mi * 60 + se)%Z else None.

Example parse_time_epoch_day : parse_time "2024-02-29 23:59:59" = Some 1709251199%Z.
Proof. reflexivity. Qed.

(** ** The environment *)

(** A snapshot: the contents of the files or the error of reading them, the
    error of opening one, whether [os.Stat] of a path succeeds and, if not, its
    error when it is not the absence of the file, the paths a glob finds or the
    error of its pattern, and [time.Now().Format(fmtTime)] when a path is read. *)
Record snapshot := mkSnapshot {
  file : string → error + string;
  open_error : string → option error;
  exists_path : string → bool;
  stat_error : string → option error;
  glob : string → error + list string;
  stamp : string → string
}.

(** The error of [os.Stat(path)]. *)
Definition os_Stat (fs : snapshot) (path : string) : option error :=
  if exists_path fs path then None
  else Some (default ("stat " +:+ path +:+ ": no such file or directory") (stat_error fs path)).

(** [os.IsNotExist] of the error of [os.Stat(path)]. *)
Definition is_absent (fs : snapshot) (path : string) : bool :=
  negb (exists_path fs path) && match stat_error fs path with None => true | Some _ => false end.

(** ** Reading *)

Definition rootResctrlPath : string := "/sys/fs/resctrl".
Definition cgroupControllerPath : string := "/sys/fs/cgroup/cgroup.controllers".
Definition unavailable : string := "Unavailable".

(** [filepath.Join(dir, name)] of clean paths; empty elements are ignored. *)
Definition path_join (dir name : string) : string :=
  if decide (dir = "") then name else dir +:+ "/" +:+ name.

Definition readStatFrom (fs : snapshot) (path : string) : error + (Z * string) :=
  let now := stamp fs path in
  match file fs path with
  | inl e => inl e
  | inr content =>
      let contextString := trim_space content in
      if decide (contextString = unavailable) then inl (go_quote unavailable +:+ " value from file " +:+ go_quote path)
      else
        match parse_uint 64 contextString with
        | (_, Some _) => inl ("unable to parse " +:+ go_quote content +:+ " as a uint from file " +:+ go_quote path)
        | (stat, None) => inr (stat, now)
        end
  end.

(** The last component of a path split at "_". *)
Definition socket_id (dir : string) : string := default "" (last (split dir "_")).

Fixpoint read_sockets (fs : snapshot) (dirs : list string)
    (mbm : gmap string RawMemoryBandwidthStats) (cmt : gmap string Z)
    : error + (gmap string RawMemoryBandwidthStats * gmap string Z) :=
  match dirs with
  | [] => inr (mbm, cmt)
  | dir :: rest =>
      match readStatFrom fs (path_join dir "llc_occupancy") with
      | inl e => inl e
      | inr (llc, _) =>
          match readStatFrom fs (path_join dir "mbm_total_bytes") with
          | inl e => inl e
          | inr (total, tstamp) =>
              match readStatFrom fs (path_join dir "mbm_local_bytes") with
              | inl e => inl e
              | inr (local, lstamp) =>
                  read_sockets fs rest (<[socket_id dir := mkRawMB total tstamp local lstamp]> mbm)
                    (<[socket_id dir := llc]> cmt)
              end
          end
      end
  end.

Definition getIntelRDTStatsFrom (fs : snapshot) (path : string)
    : error + (Z * gmap string RawMemoryBandwidthStats * gmap string Z) :=
  if is_absent fs path then inl ("mon_groups path " +:+ go_quote path +:+ " does not exist")
  else
    match glob fs (path_join (path_join path "mon_data") "*") with
    | inl e => inl e
    | inr [] => inl ("there is no mon_data stats directories: " +:+ go_quote path)
    | inr dirs =>
        match read_sockets fs dirs ∅ ∅ with
        | inl e => inl e
        | inr (mbm, cmt) => inr (Z.of_nat (length dirs), mbm, cmt)
        end
    end.

Definition getCgroupVersion (fs : snapshot) : string :=
  if exists_path fs cgroupControllerPath then "v2" else "v1".

(** A file that holds one number. *)
Definition read_int (fs : snapshot) (path : string) : error + Z :=
  match os_Stat fs path with
  | Some e => inl e
  | None =>
      match file fs path with
      | inl e => inl e
      | inr content => match parse_int 64 (trim_space content) with
                       | (n, None) => inr n
                       | (_, Some e) => inl (num_error_text "ParseInt" (trim_space content) e)
                       end
      end
  end.

Definition getCgroupV1CpuTime (fs : snapshot) (cgroupPath : string) : error + Z :=
  read_int fs (path_join cgroupPath "cpuacct.usage").

(** The first line whose first column is "usage_usec"; 0 without one. *)
Fixpoint usage_line (lines : list string) : outcome (error + Z) :=
  match lines with
  | [] => Done (inr 0%Z)
  | line :: rest =>
      let columns := split line " " in
      if decide (columns !! 0 = Some "usage_usec") then
        match columns !! 1 with
        | None => Panic index_out_of_range
        | Some c => match parse_int 64 (trim_space c) with
                    | (n, None) => Done (inr n)
                    | (_, Some e) => Done (inl (num_error_text "ParseInt" (trim_space c) e))
                    end
        end
      else usage_line rest
  end.

(** [bufio.Scanner]'s lines, without the line feed and a carriage return before
    it.  A read that fails gives no line, and its error is not looked at. *)
Fixpoint drop_cr (line : string) : string :=
  match line with
  | EmptyString => ""
  | String c EmptyString => if decide (c = ascii_of_nat 13) then "" else line
  | String c rest => String c (drop_cr rest)
  end.
Definition scan_lines (read : error + string) : list string :=
  match read with
  | inl _ => []
  | inr content => drop_cr <$> split content (bytes [10])
  end.

Definition getCgroupV2CpuTime (fs : snapshot) (cgroupPath : string) : outcome (error + Z) :=
  let path := path_join cgroupPath "cpu.stat" in
  match os_Stat fs path with
  | Some e => Done (inl e)
  | None =>
      match open_error fs path with
      | Some e => Done (inl e)
      | None => usage_line (scan_lines (file fs path))
      end
  end.

Definition getCPUUtilizationFrom (fs : snapshot) (path : string) : outcome (error + RawCPUStats) :=
  let now := stamp fs path in
  let cpu := if decide (getCgroupVersion fs = "v1")
             then Done (getCgroupV1CpuTime fs path) else getCgroupV2CpuTime fs path in
  match cpu with
  | Done (inr n) => Done (inr (mkRawCPU n now))
  | Done (inl e) => Done (inl e)
  | Panic m => Panic m
  | OutOfFuel => OutOfFuel
  end.

Definition getMemorySizeFrom (fs : snapshot) (path : string) : error + Z :=
  read_int fs (path_join path (if decide (getCgroupVersion fs = "v1")
                               then "memory.usage_in_bytes" else "memory.current")).

(** ** Rates *)

Definition u64 (n : Z) : Z := (n mod 2 ^ 64)%Z.
Definition s64 (n : Z) : Z := ((n + 2 ^ 63) mod 2 ^ 64 - 2 ^ 63)%Z.

Definition bytesToMiB (b : Z) : float64 := f64_div (f64_of_Z b) (f64_of_Z 1048576).
Definition bytesToMB (b : Z) : float64 := f64_div (f64_of_Z b) (f64_of_Z 1000000).

(** [t.Sub(u)] of two times in seconds: nanoseconds, saturated at 64 bits. *)
Definition time_Sub (t u : Z) : Z :=
  Z.max (- 2 ^ 63) (Z.min (2 ^ 63 - 1) ((t - u) * 1000000000))%Z.

(** The methods [Seconds] and [Microseconds] of a duration. *)
Definition Seconds (d : Z) : float64 :=
  f64_add (f64_of_Z (Z.quot d 1000000000))
    (f64_div (f64_of_Z (Z.rem d 1000000000)) (f64_of_Z 1000000000)).
Definition Microseconds (d : Z) : Z := Z.quot d 1000.

(** The rate in MB/s between two readings of a counter. *)
Definition rate (oldV newV oldT newT : Z) : float64 :=
  f64_div (bytesToMB (u64 (newV - oldV))) (Seconds (time_Sub newT oldT)).

Definition process_socket (o n : RawMemoryBandwidthStats)
    : option ProcessedMemoryBandwidthStats :=
  ot ← parse_time (TotalBytesTimeStamp o);
  nt ← parse_time (TotalBytesTimeStamp n);
  ol ← parse_time (LocalBytesTimeStamp o);
  nl ← parse_time (LocalBytesTimeStamp n);
  Some (mkMB (rate (TotalBytes o) (TotalBytes n) ot nt) (rate (LocalBytes o) (LocalBytes n) ol nl)).

(** The loop over the sockets of the new reading. *)
Fixpoint process_sockets (old : gmap string RawMemoryBandwidthStats)
    (news : list (string * RawMemoryBandwidthStats))
    (acc : gmap string ProcessedMemoryBandwidthStats) (sum : ProcessedMemoryBandwidthStats)
    : error + (gmap string ProcessedMemoryBandwidthStats * ProcessedMemoryBandwidthStats) :=
  match news with
  | [] => inr (acc, sum)
  | (nid, n) :: rest =>
      match old !! nid with
      | None => inl ("missing socket " +:+ go_quote nid +:+ " in oldStats")
      | Some o =>
          match process_socket o n with
          | None => inl "parsing time"
          | Some p =>
              process_sockets old rest (<[nid := p]> acc)
                (mkMB (f64_add (TotalMBps sum) (TotalMBps p)) (f64_add (LocalMBps sum) (LocalMBps p)))
          end
      end
  end.

Definition cpu_rate (o n : RawCPUStats) : option float64 :=
  ot ← parse_time (TimeStamp o);
  nt ← parse_time (TimeStamp n);
  Some (f64_div (f64_of_Z (s64 (CPU n - CPU o))) (f64_of_Z (Microseconds (time_Sub nt ot)))).

Section exporter.
Context `{GoRange}.

(** The results of [processStats]; on an error the callers drop the partial
    result, which is left out. *)
Definition processStats (oldS newS : RawStats) : error + ProcessedStats :=
  let '(cache, sumCache) :=
    match Cache newS with
    | Some c => (Some (bytesToMiB <$> c),
                 foldl (λ sum kv, f64_add sum (bytesToMiB kv.2)) f64_zero (range c))
    | None => (None, f64_zero)
    end in
  let mb :=
    match MemoryBandwidth newS, MemoryBandwidth oldS with
    | Some n, Some o => match process_sockets o (range n) ∅ zero_MB with
                        | inl e => inl e
                        | inr (m, sum) => inr (Some m, sum)
                        end
    | _, _ => inr (None, zero_MB)
    end in
  match mb with
  | inl e => inl e
  | inr (m, sum) =>
      let cpu := match CPUUtilization oldS, CPUUtilization newS with
                 | Some o, Some n => match cpu_rate o n with
                                     | None => inl "parsing time"
                                     | Some r => inr r
                                     end
                 | _, _ => inr f64_zero
                 end in
      match cpu with
      | inl e => inl e
      | inr cpu =>
          inr (mkProcessed (SocketNum newS) sum sumCache m cache cpu
                 (if decide (Memory newS ≠ 0%Z)
                  then f64_div (f64_div (f64_of_Z (Memory newS)) (f64_of_Z 1024)) (f64_of_Z 1024)
                  else f64_zero))
      end
  end.
End exporter.

(** ** Task files *)

Definition line_feed : string := bytes [10].

(** [strings.Trim(s, "\n")] *)
Fixpoint trim_left_nl (s : string) : string :=
  match s with
  | String c s' => if decide (c = ascii_of_nat 10) then trim_left_nl s' else s
  | EmptyString => EmptyString
  end.
Fixpoint trim_right_nl (s : string) : string :=
  match s with
  | String c s' =>
      let t := trim_right_nl s' in
      if decide (t = "" ∧ c = ascii_of_nat 10) then "" else String c t
  | EmptyString => EmptyString
  end.
Definition trim_nl (s : string) : string := trim_right_nl (trim_left_nl s).

Fixpoint parse_tasks (lines : list string) : error + list Z :=
  match lines with
  | [] => inr []
  | line :: rest =>
      let line := trim_space line in
      if decide (line = "") then parse_tasks rest
      else
        match parse_int 32 line with
        | (_, Some e) => inl ("cannot parse cgroup value of line " +:+ line +:+ ", err: " +:+
                              num_error_text "ParseInt" line e)
        | (v, None) => match parse_tasks rest with
                       | inl e => inl e
                       | inr vs => inr (v :: vs)
                       end
        end
  end.

Definition readCPUTasks (fs : snapshot) (path : string) : error + list Z :=
  if decide (path = "") then inr []
  else
    match file fs path with
    | inl e => inl e
    | inr data => parse_tasks (split (trim_nl data) line_feed)
    end.

(** A tasks file: the error of opening it, and that of writing an id into it
    (the kernel refuses the id of a thread that has ended). *)
Record tasks_fs := mkTasksFs {
  tasks_open_error : string → option error;
  task_error : string → Z → option error
}.

(** The loop over the ids: the text written, and the first error. *)
Fixpoint write_ids (err : Z → option error) (pids : list Z) : string * option error :=
  match pids with
  | [] => ("", None)
  | id :: rest =>
      match err id with
      | Some e => ("", Some e)
      | None => let '(t, e) := write_ids err rest in (itoa id +:+ line_feed +:+ t, e)
      end
  end.

(** The file, when it could be opened, and what it holds then. *)
Definition writeTaskIDsToFile (ts : tasks_fs) (pids : list Z) (filename : string)
    : option (string * string) * option error :=
  match tasks_open_error ts filename with
  | Some e => (None, Some e)
  | None => let '(text, e) := write_ids (task_error ts filename) pids in (Some (filename, text), e)
  end.

Definition writePidsToTasks (fs : snapshot) (ts : tasks_fs) (monPath cgroupPath : string)
    : option (string * string) * option error :=
  match readCPUTasks fs (cgroupPath +:+ "/cgroup.threads") with
  | inl e => (None, Some ("failed to read " +:+ cgroupPath +:+ "/cgroup.threads: " +:+ e))
  | inr containerPids =>
      let '(f, err) := writeTaskIDsToFile ts containerPids (monPath +:+ "/tasks") in
      (f, (λ e, "failed to write to " +:+ monPath +:+ "/tasks: " +:+ e) <$> err)
  end.

(** ** Metric selection *)

Definition metrics := gset string.

Definition isNeedCollectMbLLc (m : metrics) : bool := bool_decide ("mb" ∈ m) || bool_decide ("llc" ∈ m).
Definition isNeedCollectCpu (m : metrics) : bool := bool_decide ("cpu" ∈ m).
Definition isNeedCollectMemory (m : metrics) : bool := bool_decide ("memory" ∈ m).

Definition allMetrics : string := "all".
Definition noMetrics : string := "none".

(** The metrics a collector is created with, from its flag. *)
Definition select_metrics (all : list string) (flag : string) : metrics :=
  if decide (flag = allMetrics) then list_to_set all
  else if decide (flag = noMetrics) then ∅ else list_to_set (split flag ",").
