(* ===== verification/Metrics.v ===== *)
(** * Metrics and their descriptions

    collector/info.go: the descriptions of the exporter's metrics (name and
    variable labels; the help texts are left out), and a metric of a scrape.
    [prometheus.BuildFQName] joins namespace, subsystem and name with
    underscores. *)

From S2P Require Import Prelude Float64.

Record desc := mkDesc { d_fqName : string; d_variableLabels : list string }.

Record metric := mkMetric { m_name : string; m_value : float64; m_labels : list string }.

(** [prometheus.MustNewConstMetric(d, GaugeValue, v, labels...)], for as many
    UTF-8 labels as the description has (it panics otherwise). *)
Definition const_metric (d : desc) (v : float64) (labels : list string) : metric :=
  mkMetric (d_fqName d) v labels.

(** ** The container collector *)

Definition sumTotalMemoryBandwidthDesc : desc :=
  mkDesc "rdt_container_sum_total_memory_bandwidth" ["containerId"; "containerName"; "podName"; "nameSpace"].
Definition sumLocalMemoryBandwidthDesc : desc :=
  mkDesc "rdt_container_sum_local_memory_bandwidth" ["containerId"; "containerName"; "podName"; "nameSpace"].
Definition totalMemoryBandwidthDesc : desc :=
  mkDesc "rdt_container_total_memory_bandwidth" ["socketId"; "containerId"; "containerName"; "podName"; "nameSpace"].
Definition localMemoryBandwidthDesc : desc :=
  mkDesc "rdt_container_local_memory_bandwidth" ["socketId"; "containerId"; "containerName"; "podName"; "nameSpace"].
Definition sumLLCacheDesc : desc :=
  mkDesc "rdt_container_sum_llc_occupancy" ["containerId"; "containerName"; "podName"; "nameSpace"].
Definition llcacheDesc : desc :=
  mkDesc "rdt_container_llc_occupancy" ["socketId"; "containerId"; "containerName"; "podName"; "nameSpace"].
Definition cpuUtilizationDesc : desc :=
  mkDesc "rdt_container_cpu_utilization" ["containerId"; "containerName"; "podName"; "nameSpace"].
Definition memoryDesc : desc :=
  mkDesc "rdt_container_memory" ["containerId"; "containerName"; "podName"; "nameSpace"].

(** ** The node collector *)

Definition nodeTotalMemoryBandwidthDesc : desc :=
  mkDesc "rdt_node_total_memory_bandwidth" ["nodeName"].
Definition nodeLocalMemoryBandwidthDesc : desc :=
  mkDesc "rdt_node_local_memory_bandwidth" ["nodeName"].
Definition socketTotalMemoryBandwidthDesc : desc :=
  mkDesc "rdt_socket_total_memory_bandwidth" ["socketId"; "nodeName"].
Definition socketLocalMemoryBandwidthDesc : desc :=
  mkDesc "rdt_socket_local_memory_bandwidth" ["socketId"; "nodeName"].
Definition nodeLLCacheDesc : desc :=
  mkDesc "rdt_node_llc_occupancy" ["nodeName"].
Definition socketLLCacheDesc : desc :=
  mkDesc "rdt_socket_llc_occupancy" ["socketId"; "nodeName"].

(** ** The class collector *)

Definition classTotalMemoryBandwidthDesc : desc :=
  mkDesc "rdt_rdtClass_total_memory_bandwidth" ["className"; "nodeName"].
Definition classLocalMemoryBandwidthDesc : desc :=
  mkDesc "rdt_rdtClass_local_memory_bandwidth" ["className"; "nodeName"].
Definition classLLCacheDesc : desc :=
  mkDesc "rdt_rdtClass_llc_occupancy" ["className"; "nodeName"].
Definition socketClassTotalMemoryBandwidthDesc : desc :=
  mkDesc "rdt_rdtClass_socket_total_memory_bandwidth" ["socketId"; "className"; "nodeName"].
Definition socketClassLocalMemoryBandwidthDesc : desc :=
  mkDesc "rdt_rdtClass_socket_local_memory_bandwidth" ["socketId"; "className"; "nodeName"].
Definition socketClassLLCacheDesc : desc :=
  mkDesc "rdt_rdtClass_socket_llc_occupancy" ["socketId"; "className"; "nodeName"].

(** collector.go *)
Definition scrapeSuccessDesc : desc := mkDesc "rdt_scrape_collector_success" ["collector"].

(** The descriptions of each collector. *)
Definition container_descs : list desc :=
  [sumTotalMemoryBandwidthDesc;
   sumLocalMemoryBandwidthDesc;
   totalMemoryBandwidthDesc;
   localMemoryBandwidthDesc;
   sumLLCacheDesc;
   llcacheDesc;
   cpuUtilizationDesc;
   memoryDesc].
Definition class_descs : list desc :=
  [classTotalMemoryBandwidthDesc;
   classLocalMemoryBandwidthDesc;
   classLLCacheDesc;
   socketClassTotalMemoryBandwidthDesc;
   socketClassLocalMemoryBandwidthDesc;
   socketClassLLCacheDesc].
Definition node_descs : list desc :=
  [nodeTotalMemoryBandwidthDesc;
   nodeLocalMemoryBandwidthDesc;
   socketTotalMemoryBandwidthDesc;
   socketLocalMemoryBandwidthDesc;
   nodeLLCacheDesc;
   socketLLCacheDesc].
