(* ===== verification/Collectors.v ===== *)
(** * The exporter's collectors

    collector/{container,class,node}_collector.go, info/container.go and
    plugin/hook-injector.go: the state each collector keeps between readings,
    what changes it (for the container collector the events [cc_step]: a message
    of the plugin, the timer of a container, a scan of its process ids) and the
    metrics a scrape reads from it; the plugin's handlers and the channel they
    fill.  Here the goroutines run one event at a time; Goroutines.v and
    CollectorRounds.v have them access by access, interleaved. *)

From Stdlib Require Import Ascii.
From S2P Require Import Prelude GoStrings Float64 ExporterStats Metrics.

(** ** Container collector *)

(** info/container.go; [Operation]: 0 delete, 1 add, 2 add and watch. *)
Record ContainerInfo := mkInfo {
  Operation : Z;
  ContainerName : string;
  ContainerId : string;
  PodName : string;
  NameSpace : string;
  CgroupPath : string;
  MonGroupPath : string
}.
Definition zero_info : ContainerInfo := mkInfo 0 "" "" "" "" "" "".

(** The collector; [running] and [watching] are its goroutines: a timer per
    entry of [running], a scan of process ids with its remaining rounds per
    entry of [watching]; [written] are the tasks files the scans wrote. *)
Record containerCollector := mkCC {
  statsCache : gmap string stats;
  containerInfos : gmap string ContainerInfo;
  namespaceWhiteList : list string;
  monTimes : nat;
  cc_metrics : metrics;
  running : list string;
  watching : list (string * nat);
  written : list (string * string)
}.

Definition set_stats (c : containerCollector) (m : gmap string stats) : containerCollector :=
  mkCC m (containerInfos c) (namespaceWhiteList c) (monTimes c) (cc_metrics c) (running c) (watching c)
    (written c).
Definition set_infos (c : containerCollector) (m : gmap string ContainerInfo) : containerCollector :=
  mkCC (statsCache c) m (namespaceWhiteList c) (monTimes c) (cc_metrics c) (running c) (watching c)
    (written c).
Definition set_running (c : containerCollector) (r : list string) : containerCollector :=
  mkCC (statsCache c) (containerInfos c) (namespaceWhiteList c) (monTimes c) (cc_metrics c) r (watching c)
    (written c).
Definition set_watching (c : containerCollector) (w : list (string * nat)) : containerCollector :=
  mkCC (statsCache c) (containerInfos c) (namespaceWhiteList c) (monTimes c) (cc_metrics c) (running c) w
    (written c).
Definition add_written (f : option (string * string)) (c : containerCollector) : containerCollector :=
  mkCC (statsCache c) (containerInfos c) (namespaceWhiteList c) (monTimes c) (cc_metrics c)
    (running c) (watching c) (written c ++ option_list f).

Definition allContainerMetrics : list string := ["mb"; "llc"; "cpu"; "memory"].

(** [NewContainerCollector], from the values of its flags. *)
Definition NewContainerCollector (whiteList flag : string) (times : nat) : containerCollector :=
  mkCC ∅ ∅ (if decide (whiteList = "") then [] else split whiteList ",") times
    (select_metrics allContainerMetrics flag) [] [] [].

Definition stringInSlice (str : string) (list : list string) : bool := bool_decide (str ∈ list).

(** [delete(c.statsCache, id); delete(c.containerInfos, id)] *)
Definition forget (id : string) (c : containerCollector) : containerCollector :=
  set_infos (set_stats c (delete id (statsCache c))) (delete id (containerInfos c)).

(** What [os.Stat] says of a monitor group's path, and the error of creating
    it. *)
Inductive path_stat := Absent | StatFailed (e : error) | NotDir | IsDir.
Record group_fs := mkGroupFs { group_stat : string → path_stat; group_mkdir : string → option error }.

Definition makeMonitorGroup (fs : group_fs) (monPath : string) : option error :=
  match group_stat fs monPath with
  | Absent => match group_mkdir fs monPath with
              | Some e => Some ("failed to create directory: " +:+ e)
              | None => None
              end
  | StatFailed e => Some ("failed to check directory " +:+ monPath +:+ ": " +:+ e)
  | NotDir => Some (monPath +:+ " already exists but is not a directory")
  | IsDir => None
  end.

Section container.
Context `{GoRange}.

(** One entry of a message. *)
Definition process_entry (gfs : group_fs) (id : string) (i : ContainerInfo)
    (c : containerCollector) : containerCollector * option error :=
  if negb (bool_decide (namespaceWhiteList c = [])) &&
     stringInSlice (NameSpace i) (namespaceWhiteList c) then (c, None)
  else
    let c := if decide (Operation i = 0%Z) then forget id c else c in
    let c := if decide (Operation i = 1%Z ∨ Operation i = 2%Z)
             then set_running (set_infos c (<[id := i]> (containerInfos c))) (running c ++ [id])
             else c in
    if decide (Operation i = 2%Z ∧ isNeedCollectMbLLc (cc_metrics c) = true) then
      match makeMonitorGroup gfs (MonGroupPath i) with
      | Some e => (c, Some ("failed to create monitor group: " +:+ e))
      | None => (set_watching c (watching c ++ [(id, monTimes c)]), None)
      end
    else (c, None).

Fixpoint process_entries (gfs : group_fs) (data : list (string * ContainerInfo))
    (c : containerCollector) : containerCollector * option error :=
  match data with
  | [] => (c, None)
  | (id, i) :: rest =>
      match process_entry gfs id i c with
      | (c, Some e) => (c, Some e)
      | (c, None) => process_entries gfs rest c
      end
  end.

Definition processContainerData (gfs : group_fs) (data : gmap string ContainerInfo)
    (c : containerCollector) : containerCollector * option error :=
  process_entries gfs (range data) c.

Definition info_of (c : containerCollector) (id : string) : ContainerInfo :=
  default zero_info (containerInfos c !! id).

(** A reading of a container. *)
Definition read_container (fs : snapshot) (c : containerCollector) (id : string)
    : outcome (error + RawStats) :=
  let i := info_of c id in
  match (if isNeedCollectMbLLc (cc_metrics c) then
           match getIntelRDTStatsFrom fs (MonGroupPath i) with
           | inl e => inl e
           | inr (n, mb, cache) => inr (n, Some mb, Some cache)
           end
         else inr (0%Z, None, None)) with
  | inl e => Done (inl e)
  | inr (n, mb, cache) =>
      match (if isNeedCollectCpu (cc_metrics c) then
               match getCPUUtilizationFrom fs (CgroupPath i) with
               | Done (inl e) => Done (inl e)
               | Done (inr u) => Done (inr (Some u))
               | Panic m => Panic m
               | OutOfFuel => OutOfFuel
               end
             else Done (inr None)) with
      | Done (inl e) => Done (inl e)
      | Done (inr cpu) =>
          if isNeedCollectMemory (cc_metrics c) then
            match getMemorySizeFrom fs (CgroupPath i) with
            | inl e => Done (inl e)
            | inr mem => Done (inr (mkRaw n mb cache cpu mem))
            end
          else Done (inr (mkRaw n mb cache cpu 0))
      | Panic m => Panic m
      | OutOfFuel => OutOfFuel
      end
  end.

(** The statistics after a reading, from the previous ones. *)
Definition next_stats (old : option stats) (newStats : RawStats) : error + stats :=
  match old with
  | Some s => match processStats (oldStats s) newStats with
              | inl e => inl e
              | inr p => inr (mkStats newStats p)
              end
  | None => inr (mkStats newStats zero_ProcessedStats)
  end.

Definition cc_updateStats (fs : snapshot) (id : string) (c : containerCollector)
    : outcome (containerCollector * option error) :=
  match read_container fs c id with
  | Done (inl e) => Done (c, Some e)
  | Done (inr newStats) =>
      match next_stats (statsCache c !! id) newStats with
      | inl e => Done (c, Some e)
      | inr s => Done (set_stats c (<[id := s]> (statsCache c)), None)
      end
  | Panic m => Panic m
  | OutOfFuel => OutOfFuel
  end.

(** One firing of the timer of a container; [true] when it is set again. *)
Definition housekeeping (fs : snapshot) (id : string) (c : containerCollector)
    : outcome (containerCollector * bool) :=
  let path := CgroupPath (info_of c id) in
  if is_absent fs path then Done (forget id c, false)
  else if negb (exists_path fs path) then Done (c, false)
  else
    match cc_updateStats fs id c with
    | Done (c, None) => Done (c, true)
    | Done (c, Some _) => Done (c, false)
    | Panic m => Panic m
    | OutOfFuel => OutOfFuel
    end.

(** One round of the scan for the process ids of a container, with the number
    of rounds it still has; [None] when the goroutine ends. *)
Definition updatePids (fs : snapshot) (ts : tasks_fs) (id : string)
    (rounds : nat) (c : containerCollector) : option (containerCollector * nat) :=
  match rounds, containerInfos c !! id with
  | 0, _ | _, None => None
  | S rounds, Some i =>
      Some (add_written (writePidsToTasks fs ts (MonGroupPath i) (CgroupPath i)).1 c, rounds)
  end.

(** What happens to the collector: a message, the timer of the [n]-th running
    goroutine, a round of the [n]-th scan. *)
Inductive cc_event :=
  | Message (gfs : group_fs) (data : gmap string ContainerInfo)
  | Timer (n : nat) (fs : snapshot)
  | Scan (n : nat) (fs : snapshot) (ts : tasks_fs).

Definition cc_step (c : containerCollector) (ev : cc_event) : outcome containerCollector :=
  match ev with
  | Message gfs data => Done (processContainerData gfs data c).1
  | Timer n fs =>
      match running c !! n with
      | None => Done c
      | Some id =>
          match housekeeping fs id c with
          | Done (c, true) => Done c
          | Done (c, false) => Done (set_running c (delete n (running c)))
          | Panic m => Panic m
          | OutOfFuel => OutOfFuel
          end
      end
  | Scan n fs ts =>
      match watching c !! n with
      | None => Done c
      | Some (id, rounds) =>
          match updatePids fs ts id rounds c with
          | None => Done (set_watching c (delete n (watching c)))
          | Some (c, rounds) => Done (set_watching c (<[n := (id, rounds)]> (watching c)))
          end
      end
  end.

(** The collector after a run of events. *)
Inductive cc_reachable (c0 : containerCollector) : containerCollector → Prop :=
  | cc_refl : cc_reachable c0 c0
  | cc_next c ev c' : cc_reachable c0 c → cc_step c ev = Done c' → cc_reachable c0 c'.

(** The metrics of one container. *)
Definition container_metrics (c : containerCollector) (cid : string) (s : stats) : list metric :=
  let p := processedStats s in
  let labels := [cid; ContainerName (info_of c cid); PodName (info_of c cid);
                 NameSpace (info_of c cid)] in
  (if isNeedCollectMbLLc (cc_metrics c) then
     match p_MemoryBandwidth p with
     | Some mb =>
         const_metric sumTotalMemoryBandwidthDesc (TotalMBps (SumMemoryBandwidth p)) labels ::
         const_metric sumLocalMemoryBandwidthDesc (LocalMBps (SumMemoryBandwidth p)) labels ::
         (range mb ≫= λ kv,
            [const_metric totalMemoryBandwidthDesc (TotalMBps kv.2) (kv.1 :: labels);
             const_metric localMemoryBandwidthDesc (LocalMBps kv.2) (kv.1 :: labels)])
     | None => []
     end ++
     match p_Cache p with
     | Some cache =>
         const_metric sumLLCacheDesc (SumCache p) labels ::
         ((λ kv, const_metric llcacheDesc kv.2 (kv.1 :: labels)) <$> range cache)
     | None => []
     end
   else []) ++
  (if isNeedCollectCpu (cc_metrics c)
   then [const_metric cpuUtilizationDesc (p_CPUUtilization p) labels] else []) ++
  (if isNeedCollectMemory (cc_metrics c)
   then [const_metric memoryDesc (p_Memory p) labels] else []).

Definition cc_Update (c : containerCollector) : list metric :=
  range (statsCache c) ≫= λ kv, container_metrics c kv.1 kv.2.

(** ** Class collector *)

Record classCollector := mkClass {
  class_statsCache : gmap string (option stats);
  class_nodeName : string;
  class_metrics : metrics
}.

Definition allClassMetrics : list string := ["mb"; "llc"].

Definition NewClassCollector (node flag : string) : classCollector :=
  mkClass ∅ node (select_metrics allClassMetrics flag).

Definition excludeDirs : list string := ["info"; "mon_data"; "mon_groups"].

(** A directory entry: its name, and whether it is a directory. *)
Definition add_class (m : gmap string (option stats)) (file : string * bool) : gmap string (option stats) :=
  let '(dirName, isDir) := file in
  if isDir then
    if decide (dirName ∉ excludeDirs ∧ m !! dirName = None) then <[dirName := None]> m else m
  else m.

Definition set_classes (c : classCollector) (m : gmap string (option stats)) : classCollector :=
  mkClass m (class_nodeName c) (class_metrics c).

(** [updateClasses], from what [os.ReadDir] returns for the root of resctrl. *)
Definition updateClasses (ReadDir : error + list (string * bool)) (c : classCollector)
    : classCollector * option error :=
  match ReadDir with
  | inl err => (c, Some err)
  | inr files => (set_classes c (foldl add_class (class_statsCache c) files), None)
  end.

(** A reading of a class or of the node, from the files of its group. *)
Definition read_group (fs : snapshot) (m : metrics) (path : string) : error + RawStats :=
  if isNeedCollectMbLLc m then
    match getIntelRDTStatsFrom fs path with
    | inl e => inl e
    | inr (n, mb, cache) => inr (mkRaw n (Some mb) (Some cache) None 0)
    end
  else inr zero_RawStats.

Definition read_class (fs : snapshot) (m : metrics) (class : string) : error + RawStats :=
  read_group fs m (path_join rootResctrlPath class).

(** The loop over the classes: the first failure ends it. *)
Fixpoint update_class_list (fs : snapshot) (classes : list string) (c : classCollector)
    : classCollector * option error :=
  match classes with
  | [] => (c, None)
  | class :: rest =>
      match read_class fs (class_metrics c) class with
      | inl e => (c, Some e)
      | inr newStats =>
          match next_stats (mjoin (class_statsCache c !! class)) newStats with
          | inl e => (c, Some e)
          | inr s =>
              update_class_list fs rest (set_classes c (<[class := Some s]> (class_statsCache c)))
          end
      end
  end.

Definition class_updateStats (fs : snapshot) (c : classCollector) : classCollector * option error :=
  update_class_list fs (range (class_statsCache c)).*1 c.

Definition class_metric_list (node cid : string) (p : ProcessedStats) : list metric :=
  const_metric classTotalMemoryBandwidthDesc (TotalMBps (SumMemoryBandwidth p)) [cid; node] ::
  const_metric classLocalMemoryBandwidthDesc (LocalMBps (SumMemoryBandwidth p)) [cid; node] ::
  const_metric classLLCacheDesc (SumCache p) [cid; node] ::
  (range (default ∅ (p_MemoryBandwidth p)) ≫= λ kv,
     [const_metric socketClassTotalMemoryBandwidthDesc (TotalMBps kv.2) [kv.1; cid; node];
      const_metric socketClassLocalMemoryBandwidthDesc (LocalMBps kv.2) [kv.1; cid; node]]) ++
  ((λ kv, const_metric socketClassLLCacheDesc kv.2 [kv.1; cid; node])
     <$> range (default ∅ (p_Cache p))).

(** A class without statistics is a nil pointer. *)
Fixpoint class_update_list (node : string) (entries : list (string * option stats))
    : outcome (list metric) :=
  match entries with
  | [] => Done []
  | (cid, Some s) :: rest =>
      match class_update_list node rest with
      | Done ms => Done (class_metric_list node cid (processedStats s) ++ ms)
      | o => o
      end
  | (_, None) :: _ => Panic nil_deref
  end.

Definition class_Update (c : classCollector) : outcome (list metric) :=
  if isNeedCollectMbLLc (class_metrics c)
  then class_update_list (class_nodeName c) (range (class_statsCache c)) else Done [].

(** ** Node collector *)

Record nodeCollector := mkNode {
  node_nodeName : string;
  node_statsCache : option stats;
  monGroupPath : string;
  node_metrics : metrics
}.

Definition allNodeMetrics : list string := ["mb"; "llc"].

Definition NewNodeCollector (node flag : string) : nodeCollector :=
  mkNode node None rootResctrlPath (select_metrics allNodeMetrics flag).

Definition set_node_stats (c : nodeCollector) (s : stats) : nodeCollector :=
  mkNode (node_nodeName c) (Some s) (monGroupPath c) (node_metrics c).

Definition node_updateStats (fs : snapshot) (c : nodeCollector) : nodeCollector * option error :=
  match read_group fs (node_metrics c) (monGroupPath c) with
  | inl e => (c, Some e)
  | inr newStats =>
      match next_stats (node_statsCache c) newStats with
      | inl e => (c, Some e)
      | inr s => (set_node_stats c s, None)
      end
  end.

Definition node_Update (c : nodeCollector) : list metric :=
  match node_statsCache c with
  | None => []
  | Some s =>
      if isNeedCollectMbLLc (node_metrics c) then
        let p := processedStats s in
        let node := node_nodeName c in
        const_metric nodeTotalMemoryBandwidthDesc (TotalMBps (SumMemoryBandwidth p)) [node] ::
        const_metric nodeLocalMemoryBandwidthDesc (LocalMBps (SumMemoryBandwidth p)) [node] ::
        const_metric nodeLLCacheDesc (SumCache p) [node] ::
        ((λ kv, const_metric socketLLCacheDesc kv.2 [kv.1; node]) <$> range (default ∅ (p_Cache p))) ++
        (range (default ∅ (p_MemoryBandwidth p)) ≫= λ kv,
           [const_metric socketTotalMemoryBandwidthDesc (TotalMBps kv.2) [kv.1; node];
            const_metric socketLocalMemoryBandwidthDesc (LocalMBps kv.2) [kv.1; node]])
      else []
  end.
End container.

(** ** Plugin *)

(** The channel of plugin messages: the queue and its capacity. *)
Definition chanSize : nat := 100.
Abbreviation channel := (list (gmap string ContainerInfo)).

(** A send guarded by the length test; the test and the send are separate
    steps of the code, one handler runs at a time. *)
Definition send (i : ContainerInfo) (ch : channel) : channel * option error :=
  if decide (length ch = chanSize) then (ch, Some "ContainerInfoChan is full")
  else (ch ++ [{[ContainerId i := i]}], None).

(** A pod of the runtime; [pod_CgroupParent] is in its Linux section, which the
    runtime sets: a pod without one, on which the handlers would dereference nil,
    is not modelled. *)
Record sandbox := mkSandbox {
  pod_Id : string; pod_Name : string; pod_Namespace : string;
  pod_Annotations : gmap string string; pod_CgroupParent : string
}.
Record nri_container := mkNri {
  nri_Id : string; nri_Name : string; PodSandboxId : string;
  nri_Annotations : gmap string string; nri_Args : list string; nri_Mounts : nat
}.

Definition annRDT : string := "rdt.resources.beta.kubernetes.io/pod".

Definition has_rdt (p : sandbox) : bool := bool_decide (is_Some (pod_Annotations p !! annRDT)).

Definition container_info (op : Z) (p : sandbox) (c : nri_container) : ContainerInfo :=
  mkInfo op (nri_Name c) (nri_Id c) (pod_Name p) (pod_Namespace p)
    ("/sys/fs/cgroup" +:+ pod_CgroupParent p +:+ "/cri-containerd-" +:+ nri_Id c +:+ ".scope")
    ("/sys/fs/resctrl/mon_groups/" +:+ "container-" +:+ nri_Id c).

Definition StartContainer (p : sandbox) (c : nri_container) (ch : channel)
    : channel * option error :=
  if has_rdt p then (ch, None) else send (container_info 1 p c) ch.

Definition StopContainer (p : sandbox) (c : nri_container) (ch : channel)
    : channel * option error :=
  if has_rdt p then (ch, None)
  else send (mkInfo 0 (nri_Name c) (nri_Id c) "" "" "" "") ch.

(** The first pod without the annotation that the container belongs to. *)
Definition pod_of (pods : list sandbox) (c : nri_container) : option sandbox :=
  snd <$> list_find (λ p, has_rdt p = false ∧ pod_Id p = PodSandboxId c) pods.

Fixpoint synchronize_loop (pods : list sandbox) (cs : list nri_container) (seen : gset string)
    (ch : channel) : channel * option error :=
  match cs with
  | [] => (ch, None)
  | c :: rest =>
      if decide (nri_Id c ∈ seen) then synchronize_loop pods rest seen ch
      else
        match pod_of pods c with
        | None => synchronize_loop pods rest ({[nri_Id c]} ∪ seen) ch
        | Some p =>
            match send (container_info 2 p c) ch with
            | (ch, Some e) => (ch, Some e)
            | (ch, None) => synchronize_loop pods rest ({[nri_Id c]} ∪ seen) ch
            end
        end
  end.

Definition Synchronize (pods : list sandbox) (cs : list nri_container) (ch : channel)
    : channel * option error := synchronize_loop pods cs ∅ ch.

(** [CreateContainer]: the hooks to inject, if any. [isNeedMakeMonitorGroup] is
    the package variable [Run] sets; the hook manager is a parameter: from the
    arguments, the annotations and whether there are bind mounts, the hooks it
    puts into the specification. *)
Definition CreateContainer {hooks} (Mgr_Hooks : list string → gmap string string → bool → error + option hooks)
    (isNeedMakeMonitorGroup : bool) (p : sandbox) (c : nri_container) : error + option hooks :=
  if negb isNeedMakeMonitorGroup then inr None
  else if has_rdt p then inr None
  else
    match Mgr_Hooks (nri_Args c) (pod_Annotations p ∪ nri_Annotations c)
            (bool_decide (0 < nri_Mounts c)) with
    | inl err => inl ("hook generation failed: " +:+ err)
    | inr spec_hooks => inr spec_hooks
    end.
