(* ===== verification/Accesses.v ===== *)
(** * Programs of accesses to shared variables

    A goroutine as a program that reads and writes, one access at a time, the
    shared variables of a state: run alone, and in a pool where the goroutines
    take turns in any order.  Two goroutines that are about to access the same
    variable, one of them to write it, race: nothing orders the two accesses,
    and when the variable is a map the Go runtime ends the process
    ("concurrent map writes").  Goroutines.v has the container collector's
    goroutines, CollectorRounds.v those of the class and the node collector. *)

From stdpp Require Import relations.
From S2P Require Import Prelude.

(** ** Programs *)

(** [S] is the state and [M] its shared variables; [Local] changes what is not
    shared. *)
Inductive goroutine (S M A : Type) : Type :=
  | Return (a : A)
  | Read (m : M) {X : Type} (f : S → X) (k : X → goroutine S M A)
  | Write (m : M) (f : S → S) (k : goroutine S M A)
  | Local (f : S → S) (k : goroutine S M A).
Arguments Return {_ _ _} _.
Arguments Read {_ _ _} _ {_} _ _.
Arguments Write {_ _ _} _ _ _.
Arguments Local {_ _ _} _ _.

(** One access. *)
Definition go_step {S M A} (g : goroutine S M A) (s : S) : option (goroutine S M A * S) :=
  match g with
  | Return _ => None
  | Read _ f k => Some (k (f s), s)
  | Write _ f k | Local f k => Some (k, f s)
  end.

(** To its end, alone. *)
Fixpoint run_alone {S M A} (g : goroutine S M A) (s : S) : S * A :=
  match g with
  | Return a => (s, a)
  | Read _ f k => run_alone (k (f s)) s
  | Write _ f k | Local f k => run_alone k (f s)
  end.

(** The program after its reads, up to its first write. *)
Fixpoint advance {S M A} (g : goroutine S M A) (s : S) : goroutine S M A :=
  match g with
  | Read _ f k => advance (k (f s)) s
  | g => g
  end.

(** The variable the next step accesses, and whether it writes it. *)
Definition next_access {S M A} (g : goroutine S M A) : option (M * bool) :=
  match g with
  | Return _ | Local _ _ => None
  | Read m _ _ => Some (m, false)
  | Write m _ _ => Some (m, true)
  end.

(** ** Pools *)

Record thread (S M : Type) := Thread { result : Type; code : goroutine S M result }.
Arguments Thread {_ _ _} _.
Arguments code {_ _} _.

(** The state and the goroutines that are running; a step is an access of one
    of them. *)
Definition pool (S M : Type) : Type := S * list (thread S M).

Definition pool_step {S M} (p p' : pool S M) : Prop :=
  ∃ i t g s, p.2 !! i = Some t ∧ go_step (code t) p.1 = Some (g, s) ∧
             p' = (s, <[i := Thread g]> p.2).

(** Two goroutines about to access the same variable, one of them to write
    it. *)
Definition race {S M} (p : pool S M) : Prop :=
  ∃ i j t u m w1 w2, i ≠ j ∧ p.2 !! i = Some t ∧ p.2 !! j = Some u ∧
    next_access (code t) = Some (m, w1) ∧ next_access (code u) = Some (m, w2) ∧ w1 || w2 = true.

Section pools.
Context {S M : Type}.

Lemma thread_step {A} (g g' : goroutine S M A) s s' ts i :
  ts !! i = Some (Thread g) → go_step g s = Some (g', s') →
  pool_step (s, ts) (s', <[i := Thread g']> ts) ∧
  (<[i := Thread g']> ts : list (thread S M)) !! i = Some (Thread g').
Proof.
  intros Hi Hs. split; [by exists i, (Thread g), g', s'|].
  apply list_lookup_insert_eq. by eapply lookup_lt_Some.
Qed.

(** A goroutine's reads leave the state as it is. *)
Lemma advance_steps {A} (g : goroutine S M A) s ts i :
  ts !! i = Some (Thread g) → rtc pool_step (s, ts) (s, <[i := Thread (advance g s)]> ts).
Proof.
  revert ts. induction g as [a|m X f k IH|m f g IH|f g IH]; intros ts Hi; simpl;
    try (by rewrite list_insert_id).
  destruct (thread_step _ (k (f s)) s s ts i Hi eq_refl) as [Hs Hi'%(IH (f s))].
  rewrite list_insert_insert_eq in Hi'. by eapply rtc_l.
Qed.

(** Two goroutines whose next write, or read, is of the same variable race once
    the first has made its reads. *)
Lemma write_write_race {A B} (g : goroutine S M A) (h : goroutine S M B) s m f f' k k' :
  advance g s = Write m f k → advance h s = Write m f' k' →
  ∃ p, rtc pool_step (s, [Thread g; Thread h]) p ∧ race p.
Proof.
  intros E1 E2. eexists. split.
  - etrans; [apply (advance_steps g s _ 0); done|]. apply (advance_steps h s _ 1). done.
  - rewrite E1, E2. by exists 0, 1, (Thread (Write m f k)), (Thread (Write m f' k')), m, true, true.
Qed.

Lemma write_read_race {A B} (g : goroutine S M A) (h : goroutine S M B) s m f k :
  advance g s = Write m f k → next_access h = Some (m, false) →
  ∃ p, rtc pool_step (s, [Thread g; Thread h]) p ∧ race p.
Proof.
  intros E1 E2. eexists. split; [apply (advance_steps g s _ 0); done|].
  rewrite E1. by exists 0, 1, (Thread (Write m f k)), (Thread h), m, true, false.
Qed.
End pools.
