(* ===== verification/Goroutines.v ===== *)
(** * The container collector's goroutines, access by access

    collector/container_collector.go: the receiving goroutine of [Start], one
    [housekeeping] goroutine per container, one [updatePids] per watched
    container and the scrape's [Update] share the maps [statsCache] and
    [containerInfos], without a lock.  Here each is a program of accesses to
    these maps.  Run alone, such a program is an event of Collectors; run with
    others, one access at a time, two of them can be about to access the same
    map, one to write it, which the Go runtime answers by ending the process
    ("concurrent map writes"). *)

From stdpp Require Import relations.
From S2P Require Import Prelude GoStrings Float64 ExporterStats Metrics Collectors Accesses.

(** ** Accesses *)

Inductive shared_map := StatsCacheMap | ContainerInfosMap.

Abbreviation container_goroutine := (goroutine containerCollector shared_map).

Definition GetInfo {A} (id : string) (k : option ContainerInfo → container_goroutine A)
    : container_goroutine A := Read ContainerInfosMap (λ c, containerInfos c !! id) k.
Definition SetInfo {A} (id : string) (i : ContainerInfo) (k : container_goroutine A)
    : container_goroutine A := Write ContainerInfosMap (λ c, set_infos c (<[id := i]> (containerInfos c))) k.
Definition DelInfo {A} (id : string) (k : container_goroutine A) : container_goroutine A :=
  Write ContainerInfosMap (λ c, set_infos c (delete id (containerInfos c))) k.
Definition GetStats {A} (id : string) (k : option stats → container_goroutine A)
    : container_goroutine A := Read StatsCacheMap (λ c, statsCache c !! id) k.
Definition SetStats {A} (id : string) (s : stats) (k : container_goroutine A) : container_goroutine A :=
  Write StatsCacheMap (λ c, set_stats c (<[id := s]> (statsCache c))) k.
Definition DelStats {A} (id : string) (k : container_goroutine A) : container_goroutine A :=
  Write StatsCacheMap (λ c, set_stats c (delete id (statsCache c))) k.
Definition RangeStats {A} (k : gmap string stats → container_goroutine A) : container_goroutine A :=
  Read StatsCacheMap statsCache k.

(** ** The goroutines of the collector *)

Section goroutines.
Context `{GoRange}.
Context (mets : metrics) (whiteList : list string) (times : nat).

(** [c.containerInfos[id]], the zero value for an absent key *)
Definition get_info {A} (id : string) (k : ContainerInfo → container_goroutine A) : container_goroutine A :=
  GetInfo id (λ i, k (default zero_info i)).

(** [updateStats] from the previous reading on, then the end of the round of
    [housekeeping]: whether the timer is set again. *)
Definition go_store (id : string) (newStats : RawStats) : container_goroutine (outcome bool) :=
  GetStats id (λ old,
    match next_stats old newStats with
    | inl _ => Return (Done false)
    | inr s => SetStats id s (Return (Done true))
    end).

Definition go_memory (fs : snapshot) (id : string) (n : Z)
    (mb : option (gmap string RawMemoryBandwidthStats)) (cache : option (gmap string Z))
    (cpu : option RawCPUStats) : container_goroutine (outcome bool) :=
  if isNeedCollectMemory mets then
    get_info id (λ i,
      match getMemorySizeFrom fs (CgroupPath i) with
      | inl _ => Return (Done false)
      | inr mem => go_store id (mkRaw n mb cache cpu mem)
      end)
  else go_store id (mkRaw n mb cache cpu 0).

Definition go_cpu (fs : snapshot) (id : string) (n : Z)
    (mb : option (gmap string RawMemoryBandwidthStats)) (cache : option (gmap string Z))
    : container_goroutine (outcome bool) :=
  if isNeedCollectCpu mets then
    get_info id (λ i,
      match getCPUUtilizationFrom fs (CgroupPath i) with
      | Done (inl _) => Return (Done false)
      | Done (inr u) => go_memory fs id n mb cache (Some u)
      | Panic m => Return (Panic m)
      | OutOfFuel => Return OutOfFuel
      end)
  else go_memory fs id n mb cache None.

Definition go_updateStats (fs : snapshot) (id : string) : container_goroutine (outcome bool) :=
  if isNeedCollectMbLLc mets then
    get_info id (λ i,
      match getIntelRDTStatsFrom fs (MonGroupPath i) with
      | inl _ => Return (Done false)
      | inr (n, mb, cache) => go_cpu fs id n (Some mb) (Some cache)
      end)
  else go_cpu fs id 0 None None.

(** One firing of the timer; the log lines read the map too. *)
Definition go_housekeeping (fs : snapshot) (id : string) : container_goroutine (outcome bool) :=
  get_info id (λ i,
    if is_absent fs (CgroupPath i) then
      get_info id (λ _, DelStats id (DelInfo id (Return (Done false))))
    else if negb (exists_path fs (CgroupPath i)) then get_info id (λ _, Return (Done false))
    else go_updateStats fs id).

(** One round of [updatePids]; [Some rounds] when the goroutine goes on. *)
Definition go_updatePids (fs : snapshot) (ts : tasks_fs) (id : string)
    (rounds : nat) : container_goroutine (option nat) :=
  match rounds with
  | 0 => Return None
  | S rounds =>
      GetInfo id (λ i, match i with
        | None => Return None
        | Some _ =>
            get_info id (λ i, get_info id (λ j,
              Local (add_written (writePidsToTasks fs ts (MonGroupPath i) (CgroupPath j)).1)
                (Return (Some rounds))))
        end)
  end.

(** One entry of a message, then [k] with its error; the goroutines it starts
    are entries of [running] and [watching]. *)
Definition go_entry {A} (gfs : group_fs) (id : string) (i : ContainerInfo)
    (k : option error → container_goroutine A) : container_goroutine A :=
  if negb (bool_decide (whiteList = [])) && stringInSlice (NameSpace i) whiteList then k None
  else
    let watch :=
      if decide (Operation i = 2%Z ∧ isNeedCollectMbLLc mets = true) then
        get_info id (λ j,
          match makeMonitorGroup gfs (MonGroupPath j) with
          | Some e => k (Some ("failed to create monitor group: " +:+ e))
          | None => Local (λ c, set_watching c (watching c ++ [(id, times)])) (k None)
          end)
      else k None in
    let add :=
      if decide (Operation i = 1%Z ∨ Operation i = 2%Z)
      then SetInfo id i (Local (λ c, set_running c (running c ++ [id])) watch)
      else watch in
    if decide (Operation i = 0%Z) then DelStats id (DelInfo id add) else add.

Fixpoint go_entries (gfs : group_fs) (data : list (string * ContainerInfo))
    : container_goroutine (option error) :=
  match data with
  | [] => Return None
  | (id, i) :: rest =>
      go_entry gfs id i (λ e, match e with Some e => Return (Some e) | None => go_entries gfs rest end)
  end.

Definition go_processContainerData (gfs : group_fs) (data : gmap string ContainerInfo)
    : container_goroutine (option error) := go_entries gfs (range data).

(** The metrics of one container, without the labels that are read from
    [containerInfos]: the description, the value, the socket if any. *)
Definition metric_specs (s : stats) : list (desc * float64 * list string) :=
  let p := processedStats s in
  (if isNeedCollectMbLLc mets then
     match p_MemoryBandwidth p with
     | Some mb =>
         (sumTotalMemoryBandwidthDesc, TotalMBps (SumMemoryBandwidth p), []) ::
         (sumLocalMemoryBandwidthDesc, LocalMBps (SumMemoryBandwidth p), []) ::
         (range mb ≫= λ kv,
            [(totalMemoryBandwidthDesc, TotalMBps kv.2, [kv.1]);
             (localMemoryBandwidthDesc, LocalMBps kv.2, [kv.1])])
     | None => []
     end ++
     match p_Cache p with
     | Some cache =>
         (sumLLCacheDesc, SumCache p, []) :: ((λ kv, (llcacheDesc, kv.2, [kv.1])) <$> range cache)
     | None => []
     end
   else []) ++
  (if isNeedCollectCpu mets then [(cpuUtilizationDesc, p_CPUUtilization p, [])] else []) ++
  (if isNeedCollectMemory mets then [(memoryDesc, p_Memory p, [])] else []).

(** The three labels are three reads of the map. *)
Fixpoint go_metrics (cid : string) (specs : list (desc * float64 * list string)) (acc : list metric)
    (k : list metric → container_goroutine (list metric)) : container_goroutine (list metric) :=
  match specs with
  | [] => k acc
  | (d, v, sid) :: rest =>
      get_info cid (λ i, get_info cid (λ j, get_info cid (λ l,
        go_metrics cid rest
          (acc ++ [const_metric d v (sid ++ [cid; ContainerName i; PodName j; NameSpace l])]) k)))
  end.

Fixpoint go_scrape (entries : list (string * stats)) (acc : list metric) : container_goroutine (list metric) :=
  match entries with
  | [] => Return acc
  | (cid, s) :: rest => go_metrics cid (metric_specs s) acc (go_scrape rest)
  end.

(** [Update]: the length of the cache, then its entries. *)
Definition go_Update : container_goroutine (list metric) :=
  RangeStats (λ m, if decide (size m = 0) then Return [] else RangeStats (λ m, go_scrape (range m) [])).
End goroutines.

(** ** Run alone, they are the events of Collectors *)

Section alone.
Context `{GoRange}.

Lemma run_get_info {A} id (k : ContainerInfo → container_goroutine A) c :
  run_alone (get_info id k) c = run_alone (k (info_of c id)) c.
Proof. done. Qed.

(** A round of a timer that ends in a panic has changed nothing. *)
Definition tick_result (o : outcome (containerCollector * bool)) (c : containerCollector)
    : containerCollector * outcome bool :=
  match o with
  | Done (c', b) => (c', Done b)
  | Panic m => (c, Panic m)
  | OutOfFuel => (c, OutOfFuel)
  end.

Definition update_result (o : outcome (containerCollector * option error)) (c : containerCollector)
    : containerCollector * outcome bool :=
  match o with
  | Done (c', None) => (c', Done true)
  | Done (c', Some _) => (c', Done false)
  | Panic m => (c, Panic m)
  | OutOfFuel => (c, OutOfFuel)
  end.

Lemma run_store id new c :
  run_alone (go_store id new) c =
    match next_stats (statsCache c !! id) new with
    | inl e => (c, Done false)
    | inr s => (set_stats c (<[id := s]> (statsCache c)), Done true)
    end.
Proof. unfold go_store. simpl. by destruct (next_stats _ _). Qed.

Lemma run_updateStats fs id c :
  run_alone (go_updateStats (cc_metrics c) fs id) c = update_result (cc_updateStats fs id c) c.
Proof.
  unfold cc_updateStats, read_container, go_updateStats, go_cpu, go_memory.
  destruct (isNeedCollectMbLLc (cc_metrics c)); [rewrite run_get_info;
    destruct (getIntelRDTStatsFrom _ _) as [e|[[n mb] cache]]; [done|]|];
    (destruct (isNeedCollectCpu (cc_metrics c)); [rewrite run_get_info;
      destruct (getCPUUtilizationFrom _ _) as [[e|u]|m|]; [done| |done|done]|]);
    (destruct (isNeedCollectMemory (cc_metrics c)); [rewrite run_get_info;
      destruct (getMemorySizeFrom _ _) as [e|mem]; [done|]|]);
    rewrite run_store; by destruct (next_stats _ _).
Qed.

Lemma run_housekeeping fs id c :
  run_alone (go_housekeeping (cc_metrics c) fs id) c = tick_result (housekeeping fs id c) c.
Proof.
  unfold go_housekeeping, housekeeping. rewrite run_get_info.
  destruct (is_absent _ _); [done|]. destruct (negb _); [done|].
  rewrite run_updateStats. by destruct (cc_updateStats _ _ _) as [[c' [e|]]|m|].
Qed.

Lemma run_updatePids fs we id rounds c :
  run_alone (go_updatePids fs we id rounds) c =
    match updatePids fs we id rounds c with
    | Some (c', rounds) => (c', Some rounds)
    | None => (c, None)
    end.
Proof.
  unfold updatePids, go_updatePids. destruct rounds as [|rounds]; [done|]. simpl.
  destruct (containerInfos c !! id) as [i|] eqn:Ei; [|done]. simpl. rewrite Ei. simpl.
  by destruct (writePidsToTasks _ _ _ _).
Qed.

Lemma run_entry {A} gfs id i (k : option error → container_goroutine A) c :
  run_alone (go_entry (cc_metrics c) (namespaceWhiteList c) (monTimes c) gfs id i k) c =
    run_alone (k (process_entry gfs id i c).2) (process_entry gfs id i c).1.
Proof.
  unfold go_entry, process_entry. destruct (negb _ && _); [done|].
  assert (∀ c', cc_metrics c' = cc_metrics c → monTimes c' = monTimes c → info_of c' id = i →
    run_alone (if decide (Operation i = 2%Z ∧ isNeedCollectMbLLc (cc_metrics c) = true) then
        get_info id (λ j, match makeMonitorGroup gfs (MonGroupPath j) with
          | Some e => k (Some ("failed to create monitor group: " +:+ e))
          | None => Local (λ c0, set_watching c0 (watching c0 ++ [(id, monTimes c)])) (k None)
          end)
      else k None) c' =
    let r := if decide (Operation i = 2%Z ∧ isNeedCollectMbLLc (cc_metrics c') = true) then
        match makeMonitorGroup gfs (MonGroupPath i) with
        | Some e => (c', Some ("failed to create monitor group: " +:+ e))
        | None => (set_watching c' (watching c' ++ [(id, monTimes c')]), None)
        end else (c', None) in run_alone (k r.2) r.1) as Hw.
  { intros c' Em Et Ei. rewrite Em, Et. case_decide; [|done]. rewrite run_get_info, Ei.
    by destruct (makeMonitorGroup _ _). }
  destruct (decide (Operation i = 0%Z)) as [E0|E0].
  - rewrite !(decide_False (P := Operation i = 1%Z ∨ _)), !(decide_False (P := _ ∧ _)) by lia. done.
  - destruct (decide (Operation i = 1%Z ∨ Operation i = 2%Z)) as [E|E].
    + cbn [run_alone SetInfo]. rewrite Hw; [|done|done|]; [by destruct (decide _); [destruct (makeMonitorGroup _ _)|]|].
      unfold info_of. simpl. by rewrite lookup_insert_eq.
    + rewrite !(decide_False (P := _ ∧ _)) by lia. done.
Qed.

(** What the collector is created with does not change. *)
Lemma process_entry_settings gfs id i c :
  cc_metrics (process_entry gfs id i c).1 = cc_metrics c ∧
  namespaceWhiteList (process_entry gfs id i c).1 = namespaceWhiteList c ∧
  monTimes (process_entry gfs id i c).1 = monTimes c.
Proof.
  unfold process_entry. destruct (negb _ && _); [done|].
  repeat case_decide; try done; by case_match.
Qed.

Lemma run_entries gfs data c :
  run_alone (go_entries (cc_metrics c) (namespaceWhiteList c) (monTimes c) gfs data) c =
    process_entries gfs data c.
Proof.
  revert c. induction data as [|[id i] data IH]; intros c; [done|].
  cbn [go_entries process_entries]. rewrite run_entry.
  destruct (process_entry_settings gfs id i c) as (Em & Ew & Et).
  destruct (process_entry gfs id i c) as [c' [e|]]; [done|]. simpl in *.
  rewrite <- Em, <- Ew, <- Et. apply IH.
Qed.

Lemma container_metrics_specs c cid s :
  container_metrics c cid s = (λ '(d, v, sid), const_metric d v (sid ++ [cid;
    ContainerName (info_of c cid); PodName (info_of c cid); NameSpace (info_of c cid)]))
    <$> metric_specs (cc_metrics c) s.
Proof.
  unfold container_metrics, metric_specs. rewrite !fmap_app.
  repeat f_equal; [|by destruct (isNeedCollectCpu _)|by destruct (isNeedCollectMemory _)].
  destruct (isNeedCollectMbLLc _); [|done]. rewrite fmap_app. f_equal.
  - destruct (p_MemoryBandwidth _) as [mb|]; [|done]. rewrite !fmap_cons, fmap_list_bind. done.
  - destruct (p_Cache _) as [cache|]; [|done]. rewrite fmap_cons, <- list_fmap_compose. done.
Qed.

Lemma run_metrics cid specs acc k c :
  run_alone (go_metrics cid specs acc k) c =
    run_alone (k (acc ++ ((λ '(d, v, sid), const_metric d v (sid ++ [cid;
      ContainerName (info_of c cid); PodName (info_of c cid); NameSpace (info_of c cid)])) <$> specs))) c.
Proof.
  revert acc. induction specs as [|[[d v] sid] specs IH]; intros acc.
  - simpl. by rewrite app_nil_r.
  - cbn [go_metrics]. rewrite !run_get_info, IH, <- app_assoc. done.
Qed.

Lemma run_scrape entries acc c :
  run_alone (go_scrape (cc_metrics c) entries acc) c =
    (c, acc ++ (entries ≫= λ kv, container_metrics c kv.1 kv.2)).
Proof.
  revert acc. induction entries as [|[cid s] entries IH]; intros acc.
  - simpl. by rewrite app_nil_r.
  - cbn [go_scrape]. rewrite run_metrics, IH, <- container_metrics_specs, <- app_assoc. done.
Qed.

Lemma run_Update c : run_alone (go_Update (cc_metrics c)) c = (c, cc_Update c).
Proof.
  unfold go_Update, cc_Update. cbn [run_alone RangeStats].
  destruct (decide (size (statsCache c) = 0)) as [E|E].
  - apply map_size_empty_iff in E. by rewrite E, range_empty.
  - cbn [run_alone RangeStats]. by rewrite run_scrape.
Qed.
End alone.

(** ** Run together *)

Section races.
Context `{GoRange}.

Lemma advance_get_info {A} id (k : ContainerInfo → container_goroutine A) c :
  advance (get_info id k) c = advance (k (info_of c id)) c.
Proof. done. Qed.

Lemma advance_store id new c :
  advance (go_store id new) c =
    match next_stats (statsCache c !! id) new with
    | inl e => Return (Done false)
    | inr s => SetStats id s (Return (Done true))
    end.
Proof. unfold go_store. simpl. by destruct (next_stats _ _). Qed.

(** A round that stores statistics is, after its reads, about to store them. *)
Lemma advance_tick fs id c c' :
  housekeeping fs id c = Done (c', true) →
  ∃ s k, advance (go_housekeeping (cc_metrics c) fs id) c = SetStats id s k.
Proof.
  unfold housekeeping, go_housekeeping, cc_updateStats, read_container, go_updateStats, go_cpu, go_memory.
  rewrite advance_get_info. destruct (is_absent _ _); [done|]. destruct (negb _); [done|].
  destruct (isNeedCollectMbLLc (cc_metrics c)); [rewrite advance_get_info;
    destruct (getIntelRDTStatsFrom _ _) as [e|[[n mb] cache]]; [done|]|];
    (destruct (isNeedCollectCpu (cc_metrics c)); [rewrite advance_get_info;
      destruct (getCPUUtilizationFrom _ _) as [[e|u]|m|]; [done| |done|done]|]);
    (destruct (isNeedCollectMemory (cc_metrics c)); [rewrite advance_get_info;
      destruct (getMemorySizeFrom _ _) as [e|mem]; [done|]|]);
    rewrite advance_store; (destruct (next_stats _ _) as [e|s]; [done|]); intros _; by eexists _, _.
Qed.

Definition tick (fs : snapshot) (id : string) (c : containerCollector)
    : thread containerCollector shared_map :=
  Thread (go_housekeeping (cc_metrics c) fs id).

(** When the timers of two containers have fired and both rounds would store
    their statistics, the two goroutines can be about to write [statsCache] at
    the same time. *)
Lemma rounds_race c fs id id2 c1 c2 :
  housekeeping fs id c = Done (c1, true) → housekeeping fs id2 c = Done (c2, true) →
  ∃ p, rtc pool_step (c, [tick fs id c; tick fs id2 c]) p ∧ race p.
Proof.
  intros (s1 & k1 & E1)%advance_tick (s2 & k2 & E2)%advance_tick.
  exact (write_write_race _ _ _ _ _ _ _ _ E1 E2).
Qed.

(** A scrape can be reading it when a round is about to write it. *)
Lemma round_scrape_race c fs id c1 :
  housekeeping fs id c = Done (c1, true) →
  ∃ p, rtc pool_step (c, [tick fs id c; Thread (go_Update (cc_metrics c))]) p ∧ race p.
Proof. intros (s1 & k1 & E1)%advance_tick. by apply (write_read_race _ _ _ _ _ _ E1). Qed.

(** The arrival of a container is a write of [containerInfos] while any round
    is reading it. *)
Lemma arrival_race c fs id gfs id2 i :
  namespaceWhiteList c = [] → Operation i = 1%Z →
  race (c, [tick fs id c; Thread (go_processContainerData (cc_metrics c) (namespaceWhiteList c)
                                    (monTimes c) gfs {[id2 := i]})]).
Proof.
  intros Hw Ho. eexists 0, 1, _, _, ContainerInfosMap, false, true.
  split_and!; [done|reflexivity|reflexivity|done| |done].
  unfold go_processContainerData. simpl code. rewrite range_singleton. cbn [go_entries].
  unfold go_entry. rewrite bool_decide_true by done. simpl. rewrite Ho. by rewrite decide_False by lia.
Qed.
End races.
