(* ===== verification/ContainerRounds.v ===== *)
(** * The statistics of the container collector

    collector/container_collector.go keeps the information of the containers and
    their statistics in two maps.  As long as its goroutines take turns, event by
    event (Collectors), statistics are held only for tracked containers, and a
    container that stops or whose directory is gone leaves both maps; access by
    access (Goroutines), the stop of a container in the middle of a round leaves
    its statistics behind until its timer fires again. *)

From stdpp Require Import relations.
From S2P Require Import Prelude GoStrings Float64 ExporterStats Metrics Collectors Accesses Goroutines.

Section container.
Context `{GoRange}.

(** ** One event at a time *)

(** [os.Stat] of the empty path finds nothing. *)
Definition stat_empty (ev : cc_event) : Prop :=
  match ev with Timer _ fs => is_absent fs "" = true | _ => True end.

(** An execution: events, one at a time. *)
Inductive cc_execution (c0 : containerCollector) : containerCollector → Prop :=
  | cc_begin : cc_execution c0 c0
  | cc_event_next c ev c' :
      cc_execution c0 c → stat_empty ev → cc_step c ev = Done c' → cc_execution c0 c'.

(** The statistics are those of tracked containers. *)
Definition stats_tracked (c : containerCollector) : Prop := dom (statsCache c) ⊆ dom (containerInfos c).

Lemma stats_tracked_forget id c : stats_tracked c → stats_tracked (forget id c).
Proof. unfold stats_tracked, forget. simpl. rewrite !dom_delete_L. set_solver. Qed.

Lemma stats_tracked_entry gfs id i c : stats_tracked c → stats_tracked (process_entry gfs id i c).1.
Proof.
  intros Hc. unfold process_entry. destruct (negb _ && _); [done|].
  set (c1 := if decide (Operation i = 0%Z) then forget id c else c).
  assert (stats_tracked c1) as H1 by (unfold c1; case_decide; [by apply stats_tracked_forget|done]).
  set (c2 := if decide (Operation i = 1%Z ∨ _) then _ else c1).
  assert (stats_tracked c2) as H2.
  { unfold c2. case_decide; [|done]. unfold stats_tracked in *. simpl. rewrite dom_insert_L. set_solver. }
  clearbody c1 c2. case_decide; [|done]. by destruct (makeMonitorGroup _ _).
Qed.

Lemma stats_tracked_entries gfs data c : stats_tracked c → stats_tracked (process_entries gfs data c).1.
Proof.
  revert c. induction data as [|[id i] data IH]; intros c Hc; simpl; [done|].
  apply (stats_tracked_entry gfs id i) in Hc. destruct (process_entry gfs id i c) as [c' [e|]]; [done|].
  by apply IH.
Qed.

(** What a round does: it forgets the container, ends, or stores statistics. *)
Lemma housekeeping_inv fs id c c' b :
  housekeeping fs id c = Done (c', b) →
  (is_absent fs (CgroupPath (info_of c id)) = true ∧ c' = forget id c ∧ b = false) ∨
  (is_absent fs (CgroupPath (info_of c id)) = false ∧
   ((c' = c ∧ b = false) ∨ ∃ s, c' = set_stats c (<[id := s]> (statsCache c)) ∧ b = true)).
Proof.
  unfold housekeeping, cc_updateStats. destruct (is_absent fs _); [intros [= <- <-]; auto|].
  destruct (exists_path fs _); [|intros [= <- <-]; auto]. simpl.
  destruct (read_container fs c id) as [[e|ns]|m|]; [intros [= <- <-]; auto| |done|done].
  destruct (next_stats _ ns); intros [= <- <-]; naive_solver.
Qed.

Lemma stats_tracked_step c ev c' :
  stat_empty ev → stats_tracked c → cc_step c ev = Done c' → stats_tracked c'.
Proof.
  intros Hev Hc. destruct ev as [gfs data|n fs|n fs ts]; simpl.
  - intros [= <-]. by apply stats_tracked_entries.
  - destruct (running c !! n) as [id|]; [|by intros [= <-]].
    destruct (housekeeping fs id c) as [[c1 b]|m|] eqn:Eh; [|done|done].
    assert (stats_tracked c1) as H1.
    { apply housekeeping_inv in Eh as [(_ & -> & _)|(Ea & [[-> _]|(s & -> & _)])];
        [by apply stats_tracked_forget|done|].
      unfold stats_tracked in *. simpl. rewrite dom_insert_L.
      assert (id ∈ dom (containerInfos c)); [|set_solver].
      apply elem_of_dom. destruct (containerInfos c !! id) as [i|] eqn:Ei; [by exists i|].
      unfold info_of in Ea. rewrite Ei in Ea. simpl in Ea, Hev. congruence. }
    destruct b; by intros [= <-].
  - destruct (watching c !! n) as [[id rounds]|]; [|by intros [= <-]].
    destruct (updatePids fs ts id rounds c) as [[c1 r1]|] eqn:Eu; [|by intros [= <-]].
    intros [= <-]. unfold updatePids in Eu. destruct rounds; [done|].
    destruct (containerInfos c !! id); [|done].
    destruct (writePidsToTasks _ _ _ _); by injection Eu as <- <-.
Qed.

Lemma execution_tracked whiteList flag times c :
  cc_execution (NewContainerCollector whiteList flag times) c → stats_tracked c.
Proof.
  induction 1 as [|c ev c' _ IH Hev Hs]; [done|]. by eapply stats_tracked_step.
Qed.

(** The labels of a container. *)
Definition labels_of (id : string) (i : ContainerInfo) : list string :=
  [id; ContainerName i; PodName i; NameSpace i].

Lemma scraped_labels c m :
  m ∈ cc_Update c → ∃ id sid, is_Some (statsCache c !! id) ∧ m_labels m = sid ++ labels_of id (info_of c id).
Proof.
  unfold cc_Update. intros ([id s] & Hm & Hs)%list_elem_of_bind. apply elem_of_range in Hs.
  rewrite container_metrics_specs in Hm. apply list_elem_of_fmap in Hm as ([[d v] sid] & -> & _).
  exists id, sid. split; [by exists s|done].
Qed.

(** A message that stops a container of a namespace that is not whitelisted. *)
Definition stops (c : containerCollector) (i : ContainerInfo) : Prop :=
  Operation i = 0%Z ∧ (namespaceWhiteList c = [] ∨ NameSpace i ∉ namespaceWhiteList c).

Lemma stop_not_listed c i :
  stops c i → negb (bool_decide (namespaceWhiteList c = [])) &&
              stringInSlice (NameSpace i) (namespaceWhiteList c) = false.
Proof.
  intros [_ Hw]. apply not_true_is_false. unfold stringInSlice.
  rewrite andb_true_iff, negb_true_iff, bool_decide_eq_false, bool_decide_eq_true. tauto.
Qed.

Lemma stop_forgets gfs id i c : stops c i → processContainerData gfs {[id := i]} c = (forget id c, None).
Proof.
  intros Hs. unfold processContainerData. rewrite range_singleton. simpl. unfold process_entry.
  rewrite stop_not_listed by done. destruct Hs as [Ho _]. rewrite Ho, (decide_True (P := 0%Z = 0%Z)) by done.
  by rewrite !decide_False by lia.
Qed.

(** ** Access by access *)

(** A round that stores statistics has read all it needs before it stores. *)
Lemma round_stores fs id c c1 :
  housekeeping fs id c = Done (c1, true) →
  ∃ s, advance (go_housekeeping (cc_metrics c) fs id) c = SetStats id s (Return (Done true)) ∧
       statsCache c1 !! id = Some s.
Proof.
  unfold housekeeping, go_housekeeping, cc_updateStats, read_container, go_updateStats, go_cpu, go_memory.
  rewrite advance_get_info. destruct (is_absent _ _); [done|]. destruct (negb _); [done|].
  destruct (isNeedCollectMbLLc (cc_metrics c)); [rewrite advance_get_info;
    destruct (getIntelRDTStatsFrom _ _) as [e|[[n mb] cache]]; [done|]|];
    (destruct (isNeedCollectCpu (cc_metrics c)); [rewrite advance_get_info;
      destruct (getCPUUtilizationFrom _ _) as [[e|u]|m|]; [done| |done|done]|]);
    (destruct (isNeedCollectMemory (cc_metrics c)); [rewrite advance_get_info;
      destruct (getMemorySizeFrom _ _) as [e|mem]; [done|]|]);
    rewrite advance_store; (destruct (next_stats _ _) as [e|s]; [done|]); intros [= <-]; exists s;
    (split; [done|apply lookup_insert_eq]).
Qed.

(** The goroutine that receives a message. *)
Definition receive_message (gfs : group_fs) (data : gmap string ContainerInfo) (c : containerCollector)
    : thread containerCollector shared_map :=
  Thread (go_processContainerData (cc_metrics c) (namespaceWhiteList c) (monTimes c) gfs data).

(** A stop between the readings of a round and its store. *)
Lemma stop_in_a_round fs gfs id i c c1 :
  stops c i → housekeeping fs id c = Done (c1, true) →
  ∃ s, rtc pool_step (c, [tick fs id c; receive_message gfs {[id := i]} c])
         (s, [Thread (Return (Done true)); Thread (Return (None : option error))]) ∧
       containerInfos s = delete id (containerInfos c) ∧
       statsCache s = <[id := default (mkStats zero_RawStats zero_ProcessedStats) (statsCache c1 !! id)]>
                        (delete id (statsCache c)).
Proof.
  intros Hs (s & Ea & ->)%round_stores.
  assert (receive_message gfs {[id := i]} c = Thread (DelStats id (DelInfo id (Return (None : option error))))) as Er.
  { unfold receive_message, go_processContainerData. f_equal. rewrite range_singleton. cbn [go_entries].
    unfold go_entry. rewrite stop_not_listed by done. destruct Hs as [Ho _].
    rewrite Ho, (decide_True (P := 0%Z = 0%Z)) by done. by rewrite !decide_False by lia. }
  rewrite Er. exists (set_stats (forget id c) (<[id := s]> (delete id (statsCache c)))).
  split; [|done].
  etrans; [apply (advance_steps (go_housekeeping (cc_metrics c) fs id) c _ 0); done|].
  rewrite Ea. simpl.
  eapply rtc_l; [eexists 1, _, _, _; split; [done|]; split; done|]. simpl.
  eapply rtc_l; [eexists 1, _, _, _; split; [done|]; split; done|]. simpl.
  eapply rtc_l; [eexists 0, _, _, _; split; [done|]; split; done|]. reflexivity.
Qed.

(** C25: in every execution of the container collector's events (with the empty
    path not found by os.Stat) statistics are held only for tracked containers,
    so that every metric of a scrape has the labels of a tracked container; a
    timer that finds the cgroup directory of its container missing removes the
    container from both maps and ends, and a message that stops a container
    removes it from both.  Access by access this does not hold: when the stop is
    received between the readings of a round and its store, the statistics of the
    container stay behind without it; scrapes then give it empty labels, until
    its timer fires again, which removes them. *)
Theorem statistics_follow_containers whiteList flag times c :
  cc_execution (NewContainerCollector whiteList flag times) c →
  (dom (statsCache c) ⊆ dom (containerInfos c) ∧
   ∀ m, m ∈ cc_Update c →
     ∃ id i sid, containerInfos c !! id = Some i ∧ m_labels m = sid ++ labels_of id i) ∧
  (∀ n fs id c', running c !! n = Some id → is_absent fs (CgroupPath (info_of c id)) = true →
     cc_step c (Timer n fs) = Done c' →
     containerInfos c' = delete id (containerInfos c) ∧ statsCache c' = delete id (statsCache c) ∧
     running c' = delete n (running c)) ∧
  (∀ gfs id i c', stops c i → cc_step c (Message gfs {[id := i]}) = Done c' →
     containerInfos c' = delete id (containerInfos c) ∧ statsCache c' = delete id (statsCache c)) ∧
  (∀ fs gfs id i c1, stops c i → housekeeping fs id c = Done (c1, true) →
     ∃ s st, rtc pool_step (c, [tick fs id c; receive_message gfs {[id := i]} c])
               (s, [Thread (Return (Done true)); Thread (Return (None : option error))]) ∧
       containerInfos s !! id = None ∧ statsCache s !! id = Some st ∧
       (∀ m, m ∈ container_metrics s id st → ∃ sid, m_labels m = sid ++ [id; ""; ""; ""]) ∧
       ∀ fs', is_absent fs' "" = true → housekeeping fs' id s = Done (forget id s, false)).
Proof.
  intros Hc%execution_tracked. split; [|split; [|split]].
  - split; [exact Hc|]. intros m (id & sid & [s Hs] & Hm)%scraped_labels.
    apply elem_of_dom_2, Hc, elem_of_dom in Hs as [i Hi]. exists id, i, sid. split; [done|].
    unfold info_of in Hm. by rewrite Hi in Hm.
  - intros n fs id c' Hn Ha. simpl. rewrite Hn. unfold housekeeping. rewrite Ha. by intros [= <-].
  - intros gfs id i c' Hs. cbn [cc_step]. rewrite stop_forgets by done. by intros [= <-].
  - intros fs gfs id i c1 Hs Hh. destruct (stop_in_a_round fs gfs id i c c1 Hs Hh) as (s & Hr & Hi & Hst).
    exists s. eexists. split; [exact Hr|].
    assert (containerInfos s !! id = None) as Hn by (rewrite Hi; apply lookup_delete_eq).
    assert (info_of s id = zero_info) as Hz by (unfold info_of; by rewrite Hn).
    split; [done|]. split; [rewrite Hst; apply lookup_insert_eq|]. split.
    + intros m. rewrite container_metrics_specs, Hz.
      intros ([[d v] sid] & -> & _)%list_elem_of_fmap. by exists sid.
    + intros fs' Ha. unfold housekeeping. rewrite Hz. simpl. by rewrite Ha.
Qed.
End container.

(** ** A container that is measured *)

Section witnesses.
#[local] Existing Instance list_range.

(** All files but the empty path. *)
Definition some_files : snapshot :=
  mkSnapshot (λ p, inr "4096") (λ p, None) (λ p, bool_decide (p ≠ "")) (λ p, None) (λ p, inr []) (λ p, "").
Definition plain_groups : group_fs := mkGroupFs (λ p, IsDir) (λ p, None).
Definition measured_info (op : Z) : ContainerInfo :=
  mkInfo op "app" "c1" "pod" "ns" "/sys/fs/cgroup/c1" "/sys/fs/resctrl/mon_groups/c1".

Definition announced_once : containerCollector :=
  (processContainerData plain_groups {["c1" := measured_info 1]} (NewContainerCollector "" "memory" 1)).1.
(** The container was announced and its timer has fired. *)
Definition measured : containerCollector :=
  match cc_step announced_once (Timer 0 some_files) with Done c => c | _ => announced_once end.

Lemma measured_execution : cc_execution (NewContainerCollector "" "memory" 1) measured.
Proof.
  apply (cc_event_next _ announced_once (Timer 0 some_files)); [|by vm_compute|by vm_compute].
  apply (cc_event_next _ (NewContainerCollector "" "memory" 1)
           (Message plain_groups {["c1" := measured_info 1]})); [constructor|done|by vm_compute].
Qed.

Lemma statistics_follow_containers_witness :
  m_labels <$> cc_Update measured = [["c1"; "app"; "pod"; "ns"]] ∧
  dom (statsCache measured) ⊆ dom (containerInfos measured) ∧
  ∃ s st, rtc pool_step (measured, [tick some_files "c1" measured;
                                    receive_message plain_groups {["c1" := measured_info 0]} measured])
            (s, [Thread (Return (Done true)); Thread (Return (None : option error))]) ∧
    containerInfos s !! "c1" = None ∧ statsCache s !! "c1" = Some st ∧
    (∀ m, m ∈ container_metrics s "c1" st → ∃ sid, m_labels m = sid ++ ["c1"; ""; ""; ""]) ∧
    housekeeping some_files "c1" s = Done (forget "c1" s, false).
Proof.
  split; [by vm_compute|].
  destruct (statistics_follow_containers "" "memory" 1 measured measured_execution)
    as ([Hd _] & _ & _ & Hl). split; [exact Hd|].
  destruct (housekeeping some_files "c1" measured) as [[c1 [|]]|m|] eqn:Eh; [|by vm_compute in Eh..].
  destruct (Hl some_files plain_groups "c1" (measured_info 0) c1) as (s & st & Hr & Hn & Hst & Hm & Ht).
  - split; [reflexivity|]. left. reflexivity.
  - exact Eh.
  - exists s, st. split; [exact Hr|]. split; [exact Hn|]. split; [exact Hst|]. split; [exact Hm|].
    apply Ht. reflexivity.
Defined.
End witnesses.
