(* ===== verification/Registry.v ===== *)
(** * The exporter's registry of collectors

    collector/collector.go: the interface every collector implements, the
    enabling of the collectors by their flags, [NewCollector] with its filters
    and its cache of created collectors, and a scrape.  Collectors are objects
    in a store, which their goroutines change while the registry and the
    handlers refer to them; a factory adds an object and starts its
    goroutines. *)

From Stdlib Require Import Ascii.
From S2P Require Import Prelude GoStrings Float64 ExporterStats Metrics Collectors.

(** ** The interface and its implementations *)

(** [Collector]: the metrics [Update] sends, and its error. *)
Class Collector (C : Type) := Update : C → outcome (list metric * option error).

Section collectors.
Context `{GoRange}.

#[global] Instance container_Collector : Collector containerCollector :=
  λ c, Done (cc_Update c, None).
#[global] Instance class_Collector : Collector classCollector := λ c,
  match class_Update c with
  | Done ms => Done (ms, None)
  | Panic m => Panic m
  | OutOfFuel => OutOfFuel
  end.
#[global] Instance node_Collector : Collector nodeCollector := λ c, Done (node_Update c, None).

(** A value of the interface type. *)
Inductive any_collector :=
  | AContainer (c : containerCollector)
  | AClass (c : classCollector)
  | ANode (c : nodeCollector).

#[global] Instance any_Collector : Collector any_collector := λ c,
  match c with AContainer c => Update c | AClass c => Update c | ANode c => Update c end.

(** ** State *)

Definition containerCollectorSubsystem : string := "container".
Definition classCollectorSubsystem : string := "rdtClass".
Definition nodeCollectorSubsystem : string := "node".

(** The package's maps, whose collectors are references into the store
    [objects]; an object keeps the name its factory was called with (in its
    logger). *)
Record registry := mkRegistry {
  collectorState : gmap string bool;
  collectorMetrics : gmap string string;
  initiatedCollectors : gmap string nat;
  objects : list (string * any_collector)
}.

Definition empty_registry : registry := mkRegistry ∅ ∅ ∅ [].

Definition registerCollector (collector : string) (isDefaultEnabled : bool) (r : registry)
    : registry :=
  mkRegistry (<[collector := isDefaultEnabled]> (collectorState r)) (collectorMetrics r)
    (initiatedCollectors r) (objects r).

(** The [init] functions of the package. *)
Definition init_registry : registry :=
  registerCollector nodeCollectorSubsystem false
    (registerCollector containerCollectorSubsystem true
      (registerCollector classCollectorSubsystem false empty_registry)).

(** ** Flags *)

(** The values of the flags; [None] is a nil pointer. *)
Record flags := mkFlags {
  containerCollectorMetrics : option string;
  classCollectorMetrics : option string;
  nodeCollectorMetrics : option string;
  namespaceWhiteListFlag : string;
  monTimesFlag : nat;
  nodeNameFlag : string
}.

(** A branch of [ParseCollectorMetrics]: the state and the metrics of the
    collector [key], from its flag. *)
Definition set_from_flag (key : string) (flag : option string) (r : registry) : registry :=
  let '(enabled, ms) := match flag with
                        | Some f => if decide (f = noMetrics) then (false, noMetrics) else (true, f)
                        | None => (false, noMetrics)
                        end in
  mkRegistry (<[key := enabled]> (collectorState r)) (<[key := ms]> (collectorMetrics r))
    (initiatedCollectors r) (objects r).

Definition needs_nri (flag : option string) : bool :=
  match flag with
  | Some f => bool_decide (f = allMetrics) || str_contains f "mb" || str_contains f "llc"
  | None => false
  end.

Definition parse_key (fl : flags) (acc : registry * bool) (key : string) : registry * bool :=
  let '(r, isNeedNRIPlugin) := acc in
  let '(r, isNeedNRIPlugin) :=
    if decide (key = containerCollectorSubsystem) then
      (set_from_flag key (containerCollectorMetrics fl) r,
       isNeedNRIPlugin || needs_nri (containerCollectorMetrics fl))
    else (r, isNeedNRIPlugin) in
  let r := if decide (key = classCollectorSubsystem)
           then set_from_flag key (classCollectorMetrics fl) r else r in
  let r := if decide (key = nodeCollectorSubsystem)
           then set_from_flag key (nodeCollectorMetrics fl) r else r in
  (r, isNeedNRIPlugin).

Definition ParseCollectorMetrics (fl : flags) (r : registry) : registry * bool :=
  foldl (parse_key fl) (r, false) (range (collectorState r)).*1.

(** ** Creation *)

(** [factories[key](...)]: the constructors of the three collectors never fail,
    they dereference their flag. *)
Definition factory (fl : flags) (key : string) : outcome (error + any_collector) :=
  if decide (key = containerCollectorSubsystem) then
    match containerCollectorMetrics fl with
    | Some f => Done (inr (AContainer (NewContainerCollector (namespaceWhiteListFlag fl) f (monTimesFlag fl))))
    | None => Panic nil_deref
    end
  else if decide (key = classCollectorSubsystem) then
    match classCollectorMetrics fl with
    | Some f => Done (inr (AClass (NewClassCollector (nodeNameFlag fl) f)))
    | None => Panic nil_deref
    end
  else if decide (key = nodeCollectorSubsystem) then
    match nodeCollectorMetrics fl with
    | Some f => Done (inr (ANode (NewNodeCollector (nodeNameFlag fl) f)))
    | None => Panic nil_deref
    end
  else Panic nil_deref.

(** The check of the filters: the error, or the set of them. *)
Fixpoint check_filters (r : registry) (filters : list string) (f : gset string)
    : error + gset string :=
  match filters with
  | [] => inr f
  | filter :: rest =>
      match collectorState r !! filter with
      | None => inl ("missing collector: " +:+ filter)
      | Some false => inl ("disabled collector: " +:+ filter)
      | Some true => check_filters r rest ({[filter]} ∪ f)
      end
  end.

(** [factories[key](...)] as an action: a new object. *)
Definition new_object (fl : flags) (key : string) : prog registry (error + nat) :=
  res ← lift_outcome (factory fl key);
  match res with
  | inl err => mret (inl err)
  | inr c =>
      n ← gets (λ r, length (objects r));
      _ ← modify (λ r, mkRegistry (collectorState r) (collectorMetrics r) (initiatedCollectors r)
                         (objects r ++ [(key, c)]));
      mret (inr n)
  end.

(** The loop over [collectorState]. *)
Fixpoint collect_keys (fl : flags) (f : gset string) (entries : list (string * bool))
    (collectors : gmap string nat) : prog registry (error + gmap string nat) :=
  match entries with
  | [] => mret (inr collectors)
  | (key, enabled) :: rest =>
      if decide (enabled = false ∨ (f ≠ ∅ ∧ key ∉ f)) then collect_keys fl f rest collectors
      else
        initiated ← gets initiatedCollectors;
        match initiated !! key with
        | Some n => collect_keys fl f rest (<[key := n]> collectors)
        | None =>
            res ← new_object fl key;
            match res with
            | inl err => mret (inl err)
            | inr n =>
                _ ← modify (λ r, mkRegistry (collectorState r) (collectorMetrics r)
                                   (<[key := n]> (initiatedCollectors r)) (objects r));
                collect_keys fl f rest (<[key := n]> collectors)
            end
        end
  end.

Definition NewCollector (fl : flags) (filters : list string)
    : prog registry (error + gmap string nat) :=
  r ← gets (λ r, r);
  match check_filters r filters ∅ with
  | inl err => mret (inl err)
  | inr f => collect_keys fl f (range (collectorState r)) ∅
  end.

(** ** A scrape *)

(** What an [MBCollector] describes. *)
Definition Describe : list desc := [scrapeSuccessDesc].

(** [execute]: the metrics of a collector and the gauge of its success. *)
Definition execute (name : string) (c : any_collector) : outcome (list metric) :=
  match Update c with
  | Done (ms, err) =>
      Done (ms ++ [const_metric scrapeSuccessDesc
                     (f64_of_Z (match err with Some _ => 0 | None => 1 end)) [name]])
  | Panic m => Panic m
  | OutOfFuel => OutOfFuel
  end.

(** [Collect]: every collector in its own goroutine, which are waited for; a
    panic in one ends the process. *)
Fixpoint collect_all (r : registry) (entries : list (string * nat)) : outcome (list metric) :=
  match entries with
  | [] => Done []
  | (name, n) :: rest =>
      match objects r !! n with
      | None => Panic nil_deref
      | Some (_, c) =>
          match execute name c with
          | Done ms => match collect_all r rest with Done ms' => Done (ms ++ ms') | o => o end
          | o => o
          end
      end
  end.

Definition Collect (collectors : gmap string nat) (r : registry) : outcome (list metric) :=
  collect_all r (range collectors).

(** ** The goroutines of the collectors *)

(** What the goroutines started by the three [Start] do to their collector; a
    class collector looks for classes only when it is to read them. *)
Inductive object_step : any_collector → any_collector → Prop :=
  | step_container c ev c' : cc_step c ev = Done c' → object_step (AContainer c) (AContainer c')
  | step_classes ReadDir c :
      isNeedCollectMbLLc (class_metrics c) = true →
      object_step (AClass c) (AClass (updateClasses ReadDir c).1)
  | step_class fs c : object_step (AClass c) (AClass (class_updateStats fs c).1)
  | step_node fs c : object_step (ANode c) (ANode (node_updateStats fs c).1).

Definition set_object (n : nat) (key : string) (c : any_collector) (r : registry) : registry :=
  mkRegistry (collectorState r) (collectorMetrics r) (initiatedCollectors r)
    (<[n := (key, c)]> (objects r)).
End collectors.

(** ** What the registry guarantees *)

Section theorems.
Context `{GoRange}.
Implicit Types (fl : flags) (r : registry).

(** The flag of a collector, and whether it enables it. *)
Definition flag_of fl (key : string) : option string :=
  if decide (key = containerCollectorSubsystem) then containerCollectorMetrics fl
  else if decide (key = classCollectorSubsystem) then classCollectorMetrics fl
  else if decide (key = nodeCollectorSubsystem) then nodeCollectorMetrics fl else None.
Definition flag_enables fl (key : string) : bool :=
  match flag_of fl key with Some f => bool_decide (f ≠ noMetrics) | None => false end.

Definition subsystems : list string :=
  [containerCollectorSubsystem; classCollectorSubsystem; nodeCollectorSubsystem].

(** The registries of a running exporter: the flags are parsed once, then
    [NewCollector] is called any number of times, with any filters, while the
    goroutines of the collectors run. *)
Inductive reg_reachable fl : registry → Prop :=
  | reg_parsed : reg_reachable fl (ParseCollectorMetrics fl init_registry).1
  | reg_new r filters r' o :
      reg_reachable fl r → NewCollector fl filters r = (r', o) → reg_reachable fl r'
  | reg_step r n key c c' :
      reg_reachable fl r → objects r !! n = Some (key, c) → object_step c c' →
      reg_reachable fl (set_object n key c' r).

Lemma parse_key_flag fl r b key :
  key ∈ subsystems → (parse_key fl (r, b) key).1 = set_from_flag key (flag_of fl key) r.
Proof.
  unfold parse_key, flag_of, subsystems. rewrite !elem_of_cons.
  repeat case_decide; subst; try discriminate; simpl; try done.
  rewrite elem_of_nil. tauto.
Qed.

Lemma parse_key_state fl r b key k :
  key ∈ subsystems →
  collectorState (parse_key fl (r, b) key).1 !! k =
    (if decide (k = key) then Some (flag_enables fl key) else collectorState r !! k) ∧
  initiatedCollectors (parse_key fl (r, b) key).1 = initiatedCollectors r ∧
  objects (parse_key fl (r, b) key).1 = objects r.
Proof.
  intros Hk. rewrite parse_key_flag by done. unfold set_from_flag, flag_enables.
  destruct (flag_of fl key) as [f|]; [case_bool_decide; case_decide; try tauto|];
    (split; [|done]); simpl; (case_decide; [subst; by rewrite lookup_insert_eq|by rewrite lookup_insert_ne]).
Qed.

Lemma init_state k :
  collectorState init_registry !! k =
    if decide (k ∈ subsystems) then Some (bool_decide (k = containerCollectorSubsystem)) else None.
Proof.
  unfold init_registry, registerCollector, subsystems. cbn [collectorState empty_registry].
  rewrite !lookup_insert, lookup_empty.
  rewrite (decide_ext (k ∈ _) (k = containerCollectorSubsystem ∨ k = classCollectorSubsystem ∨
    k = nodeCollectorSubsystem)) by (rewrite !elem_of_cons, elem_of_nil; tauto).
  repeat case_decide; subst; tauto || done || intuition congruence.
Qed.

Lemma parsed_state fl :
  let r := (ParseCollectorMetrics fl init_registry).1 in
  (∀ k, collectorState r !! k = if decide (k ∈ subsystems) then Some (flag_enables fl k) else None) ∧
  initiatedCollectors r = ∅ ∧ objects r = [].
Proof.
  intros r. unfold r, ParseCollectorMetrics.
  assert (∀ ks r0 b, ks ⊆ subsystems →
    (∀ k, collectorState (foldl (parse_key fl) (r0, b) ks).1 !! k =
      if decide (k ∈ ks) then Some (flag_enables fl k) else collectorState r0 !! k) ∧
    initiatedCollectors (foldl (parse_key fl) (r0, b) ks).1 = initiatedCollectors r0 ∧
    objects (foldl (parse_key fl) (r0, b) ks).1 = objects r0) as Hloop.
  { induction ks as [|key ks IH]; intros r0 b Hks; cbn [foldl].
    { split; [|done]. intros k. by rewrite decide_False by apply not_elem_of_nil. }
    assert (key ∈ subsystems) as Hkey by (apply Hks; by left).
    pose proof (parse_key_state fl r0 b key) as Hst.
    destruct (parse_key fl (r0, b) key) as [r1 b1]. cbn in Hst.
    destruct (IH r1 b1) as (Hl & Hi & Hc); [intros k Hk; apply Hks; by right|].
    destruct (Hst "" Hkey) as (_ & Hi1 & Hc1).
    split; [|by rewrite Hi, Hc]. intros k. rewrite Hl. destruct (Hst k Hkey) as [-> _].
    rewrite (decide_ext (k ∈ key :: ks) (k = key ∨ k ∈ ks)) by apply elem_of_cons.
    repeat case_decide; subst; tauto || done. }
  assert (∀ k, k ∈ (range (collectorState init_registry)).*1 ↔ k ∈ subsystems) as Hr.
  { intros k. rewrite range_perm, list_elem_of_fmap.
    transitivity (is_Some (collectorState init_registry !! k)).
    - split.
      + intros ([k' v] & -> & E%elem_of_map_to_list). by exists v.
      + intros [v E]. exists (k, v). by rewrite elem_of_map_to_list.
    - rewrite init_state. case_decide as Hk; [|by split; [intros []|]].
      split; [done|]. intros _. by eexists. }
  destruct (Hloop (range (collectorState init_registry)).*1 init_registry false) as (Hl & Hi & Hc).
  { intros k. apply Hr. }
  split; [|done]. intros k. rewrite Hl. specialize (Hr k).
  rewrite init_state. repeat case_decide; tauto || done.
Qed.

(** The references of the registry: every created object, under its name. *)
Definition registry_ok fl r : Prop :=
  (∀ k, collectorState r !! k = if decide (k ∈ subsystems) then Some (flag_enables fl k) else None) ∧
  (∀ k n, initiatedCollectors r !! k = Some n ↔ (objects r).*1 !! n = Some k) ∧
  NoDup (objects r).*1.

Lemma flag_enables_factory fl k : flag_enables fl k = true → ∃ c, factory fl k = Done (inr c).
Proof.
  unfold flag_enables, flag_of, factory. repeat case_decide; try done;
    (destruct (_ fl); [|done]); intros _; by eexists.
Qed.

Lemma flag_enables_subsystem fl k : flag_enables fl k = true → k ∈ subsystems.
Proof.
  unfold flag_enables, flag_of, subsystems. rewrite !elem_of_cons. repeat case_decide; tauto || done.
Qed.

(** The registry after a creation. *)
Definition push (k : string) (c : any_collector) (r : registry) : registry :=
  mkRegistry (collectorState r) (collectorMetrics r)
    (<[k := length (objects r)]> (initiatedCollectors r)) (objects r ++ [(k, c)]).

Lemma push_ok fl r k c :
  registry_ok fl r → initiatedCollectors r !! k = None → registry_ok fl (push k c r).
Proof.
  intros (Hst & Hi & Hnd) Hk.
  assert (k ∉ (objects r).*1) as Hnew.
  { intros [n En]%list_elem_of_lookup. apply Hi in En. congruence. }
  split; [done|]. simpl. rewrite fmap_app. simpl. split.
  - intros k' n. rewrite lookup_insert_Some, Hi, lookup_app_Some, length_fmap.
    rewrite list_lookup_singleton_Some. split.
    + intros [[<- <-]|[_ E]]; [right; split_and!; auto; lia|by left].
    + intros [E|[Hle [Hz ->]]].
      * right. split; [|done]. intros ->. by apply list_elem_of_lookup_2 in E.
      * left. split; [done|lia].
  - apply NoDup_app. split; [done|]. split; [|apply NoDup_singleton].
    intros x Hx ->%list_elem_of_singleton. done.
Qed.

(** The collectors refer to objects created for them. *)
Definition refs_ok r (cs : gmap string nat) : Prop :=
  ∀ k n, cs !! k = Some n → (objects r).*1 !! n = Some k.

Lemma refs_ok_insert r cs k n :
  refs_ok r cs → (objects r).*1 !! n = Some k → refs_ok r (<[k := n]> cs).
Proof. intros Hr Hn k' n'. rewrite lookup_insert_Some. intros [[<- <-]|[_ E]]; auto. Qed.

Lemma refs_ok_push r cs k c : refs_ok r cs → refs_ok (push k c r) cs.
Proof. intros Hr k' n' E. simpl. rewrite fmap_app. by apply lookup_app_l_Some, Hr. Qed.

(** The entries the loop takes. *)
Definition taken (f : gset string) (entries : list (string * bool)) (k : string) : Prop :=
  (k, true) ∈ entries ∧ (f = ∅ ∨ k ∈ f).

Lemma taken_skip f key enabled entries (P : Prop) k :
  enabled = false ∨ (f ≠ ∅ ∧ key ∉ f) →
  P ∨ taken f entries k ↔ P ∨ taken f ((key, enabled) :: entries) k.
Proof. unfold taken. rewrite elem_of_cons. naive_solver. Qed.

Lemma taken_insert f key (cs : gmap string nat) n entries k :
  f = ∅ ∨ key ∈ f →
  is_Some (<[key := n]> cs !! k) ∨ taken f entries k ↔
  is_Some (cs !! k) ∨ taken f ((key, true) :: entries) k.
Proof. unfold taken. rewrite elem_of_cons, lookup_insert_is_Some'. naive_solver. Qed.

Lemma collect_keys_ok fl f entries cs r :
  registry_ok fl r → refs_ok r cs →
  Forall (λ e, e.2 = true → flag_enables fl e.1 = true) entries →
  ∃ r' cs', collect_keys fl f entries cs r = (r', Done (inr cs')) ∧ registry_ok fl r' ∧
    objects r `prefix_of` objects r' ∧ refs_ok r' cs' ∧
    ∀ k, is_Some (cs' !! k) ↔ is_Some (cs !! k) ∨ taken f entries k.
Proof.
  intros Hok Hcs Hes. revert r cs Hok Hcs.
  induction Hes as [|[key enabled] entries Hen Hes IH]; intros r cs Hok Hcs; cbn [collect_keys].
  { exists r, cs. split_and!; try done. intros k. unfold taken. rewrite elem_of_nil. tauto. }
  case_decide as Hskip.
  - destruct (IH r cs Hok Hcs) as (r' & cs' & E & Hok' & Hp & Hr & Hd).
    exists r', cs'. split_and!; try done. intros k. rewrite Hd, taken_skip by done. done.
  - assert (enabled = true ∧ (f = ∅ ∨ key ∈ f)) as [-> Hf].
    { destruct enabled; [|tauto]. split; [done|].
      destruct (decide (f = ∅)), (decide (key ∈ f)); tauto. }
    specialize (Hen eq_refl). unfold mbind, prog_bind, gets. simpl.
    destruct (initiatedCollectors r !! key) as [n|] eqn:Ei.
    + apply Hok in Ei as En.
      destruct (IH r (<[key := n]> cs) Hok) as (r' & cs' & E & Hok' & Hp & Hr & Hd);
        [by apply refs_ok_insert|].
      exists r', cs'. split_and!; try done. intros k. by rewrite Hd, taken_insert.
    + destruct (flag_enables_factory fl key Hen) as [c Ec].
      unfold new_object, mbind, prog_bind, lift_outcome. rewrite Ec. simpl.
      destruct (IH (push key c r) (<[key := length (objects r)]> cs)) as (r' & cs' & E & Hok' & Hp & Hr & Hd).
      { by apply push_ok. }
      { apply refs_ok_insert; [by apply refs_ok_push|]. simpl.
        by rewrite fmap_app, lookup_app_r, length_fmap, Nat.sub_diag by (by rewrite length_fmap). }
      exists r', cs'. split_and!; try done.
      * etrans; [|exact Hp]. by exists [(key, c)].
      * intros k. by rewrite Hd, taken_insert.
Qed.

Lemma enabled_state fl r k :
  registry_ok fl r → collectorState r !! k = Some true ↔ flag_enables fl k = true.
Proof.
  intros (Hst & _). rewrite Hst. pose proof (flag_enables_subsystem fl k).
  case_decide; [by split; [intros [= ->]|intros ->]|]. split; [done|tauto].
Qed.

Lemma check_filters_ok fl r filters f :
  registry_ok fl r →
  match check_filters r filters f with
  | inl _ => ∃ k, k ∈ filters ∧ flag_enables fl k = false
  | inr f' => Forall (λ k, flag_enables fl k = true) filters ∧ ∀ k, k ∈ f' ↔ k ∈ f ∨ k ∈ filters
  end.
Proof.
  intros Hok. revert f. induction filters as [|k filters IH]; intros f; simpl.
  { split; [done|]. intros k. rewrite elem_of_nil. tauto. }
  pose proof (enabled_state fl r k Hok) as Hk.
  destruct (collectorState r !! k) as [[]|].
  - specialize (IH ({[k]} ∪ f)). destruct (check_filters _ _ _) as [e|f'].
    + destruct IH as (k' & Hin & E). exists k'. by split; [right|].
    + destruct IH as [Hall Hf]. split; [constructor; [by apply Hk|done]|].
      intros k'. rewrite Hf, elem_of_union, elem_of_singleton, elem_of_cons. tauto.
  - exists k. split; [by left|]. destruct (flag_enables fl k); [|done]. discriminate (proj2 Hk eq_refl).
  - exists k. split; [by left|]. destruct (flag_enables fl k); [|done]. discriminate (proj2 Hk eq_refl).
Qed.

(** What a call of [NewCollector] does to a well-formed registry. *)
Lemma NewCollector_ok fl filters r :
  registry_ok fl r →
  registry_ok fl (NewCollector fl filters r).1 ∧
  match NewCollector fl filters r with
  | (r', Done (inl _)) => r' = r ∧ ∃ k, k ∈ filters ∧ flag_enables fl k = false
  | (r', Done (inr cs)) =>
      Forall (λ k, flag_enables fl k = true) filters ∧
      (∀ k, is_Some (cs !! k) ↔ flag_enables fl k = true ∧ (filters = [] ∨ k ∈ filters)) ∧
      refs_ok r' cs ∧ objects r `prefix_of` objects r'
  | _ => False
  end.
Proof.
  intros Hok. unfold NewCollector, mbind, prog_bind, gets.
  pose proof (check_filters_ok fl r filters ∅ Hok) as Hf. cbn beta iota.
  destruct (check_filters r filters ∅) as [e|f]; [done|]. destruct Hf as [Hall Hf].
  assert (∀ k b, (k, b) ∈ range (collectorState r) ↔ collectorState r !! k = Some b) as Hr.
  { intros k b. apply elem_of_range. }
  destruct (collect_keys_ok fl f (range (collectorState r)) ∅ r) as (r' & cs & E & Hok' & Hp & Hrefs & Hd).
  - done.
  - intros k n. by rewrite lookup_empty.
  - apply Forall_forall. intros [k b] Hin%Hr. simpl. intros ->. by apply (enabled_state fl r).
  - rewrite E. split; [done|]. split; [done|]. split; [|done]. intros k.
    rewrite Hd, lookup_empty. unfold taken. rewrite Hr, (enabled_state fl r) by done.
    assert (f = ∅ ∨ k ∈ f ↔ filters = [] ∨ k ∈ filters) as <-.
    { rewrite Hf, elem_of_empty. destruct filters as [|k' filters].
      - split; [tauto|]. intros _. left. apply set_eq. intros x.
        rewrite Hf, elem_of_nil, elem_of_empty. tauto.
      - split; [|naive_solver]. intros [->|?]; [|tauto]. exfalso.
        apply (not_elem_of_empty (C := gset string) k'), Hf. right. by left. }
    split; [intros [[? [=]]|?]|]; tauto.
Qed.

Lemma reachable_ok fl r : reg_reachable fl r → registry_ok fl r.
Proof.
  induction 1 as [|r filters r' o _ IH E|r n key c c' _ IH En _].
  - destruct (parsed_state fl) as (Hst & Hi & Ho). split; [done|]. rewrite Hi, Ho.
    split; [|constructor]. intros k n. rewrite lookup_empty. done.
  - destruct (NewCollector_ok fl filters r IH) as [Hok _]. by rewrite E in Hok.
  - destruct IH as (Hst & Hi & Hnd). unfold registry_ok, set_object. cbn [collectorState
      initiatedCollectors objects].
    assert ((<[n := (key, c')]> (objects r)).*1 = (objects r).*1) as ->; [|done].
    rewrite list_fmap_insert. apply list_insert_id. by rewrite list_lookup_fmap, En.
Qed.

End theorems.

(** ** A concrete registry *)

Section example.
#[local] Existing Instance list_range.

Definition demo_flags : flags := mkFlags (Some "all") (Some "none") (Some "mb") "" 10 "node1".

(** The registry after a scrape of all collectors. *)
Definition scraped : registry :=
  (NewCollector demo_flags [] (ParseCollectorMetrics demo_flags init_registry).1).1.
End example.
