(* ===== verification/ExporterSystem.v ===== *)
(** * The exporter at work

    The plugin and the container collector together: the runtime calls the
    plugin's handlers (plugin/hook-injector.go), which put messages on the
    bounded channel of info/container.go; the collector's loop takes them off,
    first in first out (collector/container_collector.go), while its timers and
    scans run.  [tracked] is the specification: what the collector should track
    after the messages it took and the directories its timers found missing. *)

From Stdlib Require Import Ascii.
From S2P Require Import Prelude GoStrings Float64 ExporterStats Metrics Collectors.

(** ** The system *)

(** The channel, the collector, and all the messages sent so far. *)
Record exporter := mkExporter {
  x_channel : channel;
  x_collector : containerCollector;
  x_sent : channel
}.

(** The messages a handler added to the channel. *)
Definition newly_sent (before after : channel) : channel := drop (length before) after.

Definition put (ch : channel) (x : exporter) : exporter :=
  mkExporter ch (x_collector x) (x_sent x ++ newly_sent (x_channel x) ch).

Inductive exporter_event :=
  | OnStart (p : sandbox) (c : nri_container)
  | OnStop (p : sandbox) (c : nri_container)
  | OnSynchronize (pods : list sandbox) (cs : list nri_container)
  | Take (gfs : group_fs)
  | Run (ev : cc_event).

Section system.
Context `{GoRange}.

(** [Take]: a round of the collector's loop; an empty channel makes it sleep. *)
Definition exporter_step (x : exporter) (ev : exporter_event) : outcome exporter :=
  match ev with
  | OnStart p c => Done (put (StartContainer p c (x_channel x)).1 x)
  | OnStop p c => Done (put (StopContainer p c (x_channel x)).1 x)
  | OnSynchronize pods cs => Done (put (Synchronize pods cs (x_channel x)).1 x)
  | Take gfs =>
      match x_channel x with
      | [] => Done x
      | m :: rest =>
          match cc_step (x_collector x) (Message gfs m) with
          | Done c => Done (mkExporter rest c (x_sent x))
          | Panic m => Panic m
          | OutOfFuel => OutOfFuel
          end
      end
  | Run (Message _ _) => Done x
  | Run ev =>
      match cc_step (x_collector x) ev with
      | Done c => Done (mkExporter (x_channel x) c (x_sent x))
      | Panic m => Panic m
      | OutOfFuel => OutOfFuel
      end
  end.

Definition start_exporter (whiteList flag : string) (times : nat) : exporter :=
  mkExporter [] (NewContainerCollector whiteList flag times) [].

(** An execution of the exporter. *)
Fixpoint exporter_run (evs : list exporter_event) (x : exporter) : outcome exporter :=
  match evs with
  | [] => Done x
  | ev :: evs =>
      match exporter_step x ev with
      | Done x' => exporter_run evs x'
      | Panic m => Panic m
      | OutOfFuel => OutOfFuel
      end
  end.

(** ** The specification *)

(** What one entry of a message does to the tracked containers. *)
Definition track (wl : list string) (id : string) (i : ContainerInfo)
    (m : gmap string ContainerInfo) : gmap string ContainerInfo :=
  if decide (wl ≠ [] ∧ NameSpace i ∈ wl) then m
  else if decide (Operation i = 0%Z) then delete id m
  else if decide (Operation i = 1%Z ∨ Operation i = 2%Z) then <[id := i]> m
  else m.

(** The plugin's messages have one entry. *)
Definition single (m : gmap string ContainerInfo) : Prop := ∃ id i, m = {[id := i]}.

(** What happens to the tracked containers: a message was taken, a timer found
    the directory of its container missing. *)
Inductive entry := Announced (msg : gmap string ContainerInfo) | Gone (id : string).

Definition track_entry (wl : list string) (m : gmap string ContainerInfo) (e : entry)
    : gmap string ContainerInfo :=
  match e with Announced msg => map_fold (track wl) m msg | Gone id => delete id m end.
Definition tracked (wl : list string) (h : list entry) : gmap string ContainerInfo :=
  foldl (track_entry wl) ∅ h.

(** The messages of a history. *)
Definition announced (h : list entry) : channel :=
  h ≫= λ e, match e with Announced msg => [msg] | Gone _ => [] end.

(** The timers it starts: one for every container that is added. *)
Definition started (wl : list string) (h : list entry) : list string :=
  announced h ≫= λ msg, map_to_list msg ≫= λ '(id, i),
    if decide ((wl = [] ∨ NameSpace i ∉ wl) ∧ (Operation i = 1%Z ∨ Operation i = 2%Z)) then [id] else [].

(** The history of an execution: a round of the loop takes the first message, a
    timer whose container's cgroup directory is missing in what it sees forgets
    the container. *)
Definition happened (wl : list string) (h : list entry) (x : exporter) (ev : exporter_event) : list entry :=
  match ev with
  | Take _ => match x_channel x with [] => [] | msg :: _ => [Announced msg] end
  | Run (Timer n fs) =>
      match running (x_collector x) !! n with
      | Some id =>
          if is_absent fs (CgroupPath (default zero_info (tracked wl h !! id))) then [Gone id] else []
      | None => []
      end
  | _ => []
  end.

Fixpoint history (wl : list string) (h : list entry) (evs : list exporter_event) (x : exporter)
    : list entry :=
  match evs with
  | [] => h
  | ev :: evs =>
      match exporter_step x ev with
      | Done x' => history wl (h ++ happened wl h x ev) evs x'
      | _ => h
      end
  end.

(** After messages alone. *)
Definition expected (wl : list string) (ms : channel) : gmap string ContainerInfo :=
  tracked wl (Announced <$> ms).

(** The specification tracks no container of a whitelisted namespace. *)
Lemma expected_outside wl ms id i :
  expected wl ms !! id = Some i → wl ≠ [] → NameSpace i ∉ wl.
Proof.
  intros Hi Hne. revert id i Hi. unfold expected, tracked.
  assert (∀ m, (∀ id i, m !! id = Some i → NameSpace i ∉ wl) → ∀ id i,
    foldl (track_entry wl) m (Announced <$> ms) !! id = Some i → NameSpace i ∉ wl) as H0.
  { induction ms as [|msg ms IH]; intros m Hm; [exact Hm|]. simpl. apply IH.
    apply (map_fold_weak_ind (λ m' _, ∀ id i, m' !! id = Some i → NameSpace i ∉ wl)); [exact Hm|].
    intros id i msg' m' _ IH' id' i'. unfold track. repeat case_decide; [apply IH'| | |apply IH'].
    - rewrite lookup_delete_Some. intros [_ E]. by eapply IH'.
    - rewrite lookup_insert_Some. intros [[_ <-]|[_ E]]; [tauto|by eapply IH']. }
  apply H0. intros id i E. by rewrite lookup_empty in E.
Qed.

(** ** Handlers only append messages of one entry *)

Definition appends (ch ch' : channel) : Prop :=
  ∃ ms, ch' = ch ++ ms ∧ Forall single ms ∧ (length ch <= chanSize → length ch' <= chanSize).

#[global] Instance appends_preorder : PreOrder appends.
Proof.
  split.
  - intros ch. exists []. rewrite app_nil_r. split; [done|]. by split; [constructor|].
  - intros c1 c2 c3 (m1 & -> & H1 & L1) (m2 & -> & H2 & L2). exists (m1 ++ m2).
    rewrite app_assoc. split; [done|]. split; [by apply Forall_app|auto].
Qed.

Lemma send_appends i ch : appends ch (send i ch).1.
Proof.
  unfold send. case_decide as Hd; simpl; [reflexivity|].
  exists [{[ContainerId i := i]}]. split; [done|].
  split; [apply Forall_singleton; by exists (ContainerId i), i|].
  rewrite length_app. simpl. unfold chanSize in *. lia.
Qed.

Lemma synchronize_appends pods cs seen ch :
  appends ch (synchronize_loop pods cs seen ch).1.
Proof.
  revert seen ch. induction cs as [|c cs IH]; intros seen ch; simpl; [reflexivity|].
  case_decide; [apply IH|]. destruct (pod_of pods c) as [p|]; [|apply IH].
  pose proof (send_appends (container_info 2 p c) ch) as Hs.
  destruct (send _ ch) as [ch1 [e|]]; simpl in *; [done|]. etrans; [exact Hs|apply IH].
Qed.

Lemma start_appends p c ch : appends ch (StartContainer p c ch).1.
Proof. unfold StartContainer. destruct (has_rdt p); [reflexivity|apply send_appends]. Qed.

Lemma stop_appends p c ch : appends ch (StopContainer p c ch).1.
Proof. unfold StopContainer. destruct (has_rdt p); [reflexivity|apply send_appends]. Qed.

(** ** The collector follows the messages *)

Lemma process_entry_infos gfs id i c :
  let wl := namespaceWhiteList c in
  containerInfos (process_entry gfs id i c).1 = track wl id i (containerInfos c) ∧
  namespaceWhiteList (process_entry gfs id i c).1 = wl ∧
  running (process_entry gfs id i c).1 = running c ++
    if decide ((wl = [] ∨ NameSpace i ∉ wl) ∧ (Operation i = 1%Z ∨ Operation i = 2%Z)) then [id] else [].
Proof.
  unfold process_entry, track, stringInSlice. cbv zeta.
  destruct (decide (namespaceWhiteList c ≠ [] ∧ NameSpace i ∈ namespaceWhiteList c)) as [[Hn Hi]|Hw].
  { rewrite bool_decide_false, bool_decide_true by done. simpl. rewrite decide_False by tauto.
    by rewrite app_nil_r. }
  assert (negb (bool_decide (namespaceWhiteList c = [])) &&
          bool_decide (NameSpace i ∈ namespaceWhiteList c) = false) as ->.
  { apply not_true_is_false. rewrite andb_true_iff, negb_true_iff, bool_decide_eq_false,
      bool_decide_eq_true. tauto. }
  assert (namespaceWhiteList c = [] ∨ NameSpace i ∉ namespaceWhiteList c) as Hout.
  { destruct (decide (namespaceWhiteList c = [])); tauto. }
  repeat case_decide; try lia; try tauto; simpl; rewrite ?app_nil_r; try done;
    destruct (makeMonitorGroup gfs _); done.
Qed.

Lemma message_infos gfs m c c' :
  single m → cc_step c (Message gfs m) = Done c' →
  containerInfos c' = track_entry (namespaceWhiteList c) (containerInfos c) (Announced m) ∧
  namespaceWhiteList c' = namespaceWhiteList c ∧
  running c' = running c ++ started (namespaceWhiteList c) [Announced m].
Proof.
  intros (id & i & ->). simpl. intros [= <-].
  unfold processContainerData, started. rewrite range_singleton. simpl.
  rewrite map_to_list_singleton. simpl.
  destruct (process_entry_infos gfs id i c) as (Hi & Hw & Hr). rewrite map_fold_singleton.
  destruct (process_entry gfs id i c) as [c' [e|]]; simpl in *; by rewrite !app_nil_r.
Qed.

(** A timer forgets its container when its cgroup directory is missing, and
    nothing else; it may end. *)
Lemma timer_infos n fs c c' :
  cc_step c (Timer n fs) = Done c' →
  namespaceWhiteList c' = namespaceWhiteList c ∧
  containerInfos c' =
    match running c !! n with
    | Some id => if is_absent fs (CgroupPath (default zero_info (containerInfos c !! id)))
                 then delete id (containerInfos c) else containerInfos c
    | None => containerInfos c
    end ∧
  (running c' = running c ∨ ∃ id, running c !! n = Some id ∧ running c' = delete n (running c)).
Proof.
  simpl. destruct (running c !! n) as [id|]; [|intros [= <-]; auto].
  unfold housekeeping. change (info_of c id) with (default zero_info (containerInfos c !! id)).
  destruct (is_absent fs _) eqn:Ea; [intros [= <-]; naive_solver|].
  destruct (exists_path fs _); [|intros [= <-]; naive_solver]. simpl. unfold cc_updateStats.
  destruct (read_container fs c id) as [[e|ns]|m|]; [intros [= <-]; naive_solver| |done|done].
  destruct (next_stats _ ns); intros [= <-]; naive_solver.
Qed.

Lemma scan_infos n fs ts c c' :
  cc_step c (Scan n fs ts) = Done c' →
  namespaceWhiteList c' = namespaceWhiteList c ∧ containerInfos c' = containerInfos c ∧
  running c' = running c.
Proof.
  simpl. destruct (watching c !! n) as [[id rounds]|]; [|by intros [= <-]].
  destruct (updatePids fs ts id rounds c) as [[c1 r1]|] eqn:Eu; [|by intros [= <-]].
  intros [= <-]. simpl. unfold updatePids in Eu. destruct rounds; [done|].
  destruct (containerInfos c !! id); [|done].
  destruct (writePidsToTasks _ _ _ _); by injection Eu as <- <-.
Qed.

(** [track] is monotone: fewer containers are tracked when some are gone. *)
Lemma track_mono wl id i m m' : m ⊆ m' → track wl id i m ⊆ track wl id i m'.
Proof.
  intros Hm. unfold track. repeat case_decide; try done; [by apply delete_mono|by apply insert_mono].
Qed.

Lemma announced_app h h' : announced (h ++ h') = announced h ++ announced h'.
Proof. apply bind_app. Qed.

Lemma tracked_expected wl h : Forall single (announced h) → tracked wl h ⊆ expected wl (announced h).
Proof.
  unfold expected, tracked. generalize (∅ : gmap string ContainerInfo) at 2.
  assert (∀ m m' : gmap string ContainerInfo, m ⊆ m' → Forall single (announced h) →
    foldl (track_entry wl) m h ⊆ foldl (track_entry wl) m' (Announced <$> announced h)) as Hgen.
  { induction h as [|[msg|id] h IH]; intros m m' Hm Hs; [done|..]; csimpl.
    - apply Forall_app in Hs as [(id & i & ->)%Forall_singleton Hs]. apply IH; [|done].
      simpl. rewrite !map_fold_singleton. by apply track_mono.
    - apply IH; [|done]. etrans; [apply delete_subseteq|done]. }
  intros m. apply Hgen. apply map_empty_subseteq.
Qed.

(** ** The invariant *)

Definition exporter_ok (wl : list string) (h : list entry) (x : exporter) : Prop :=
  namespaceWhiteList (x_collector x) = wl ∧ length (x_channel x) <= chanSize ∧
  Forall single (x_sent x) ∧ x_sent x = announced h ++ x_channel x ∧
  containerInfos (x_collector x) = tracked wl h ∧
  ∃ ended, running (x_collector x) ++ ended ≡ₚ started wl h.

Lemma exporter_ok_put wl h ch x :
  exporter_ok wl h x → appends (x_channel x) ch → exporter_ok wl h (put ch x).
Proof.
  intros (Hw & Hl & Hs & Ht & Hi & Hr) (ms & -> & Hms & Hlen).
  unfold put, newly_sent. rewrite drop_app_length.
  split; [done|]. split; [by apply Hlen|]. split; [by apply Forall_app|].
  split; [simpl; by rewrite Ht, app_assoc|done].
Qed.

Lemma tracked_snoc wl h e : tracked wl (h ++ [e]) = track_entry wl (tracked wl h) e.
Proof. unfold tracked. by rewrite foldl_app. Qed.

Lemma started_snoc wl h e : started wl (h ++ [e]) = started wl h ++ started wl [e].
Proof. unfold started. by rewrite announced_app, bind_app. Qed.

Lemma exporter_ok_take wl h gfs x x' :
  exporter_ok wl h x → exporter_step x (Take gfs) = Done x' →
  exporter_ok wl (h ++ happened wl h x (Take gfs)) x'.
Proof.
  intros Hok. cbn [exporter_step happened].
  destruct (x_channel x) as [|m rest] eqn:Ech; [intros [= <-]; by rewrite app_nil_r|].
  destruct Hok as (Hw & Hl & Hs & Ht & Hi & ended & Hr). rewrite Ech in *.
  destruct (cc_step (x_collector x) (Message gfs m)) as [c|e|] eqn:Ec; [|done..]. intros [= <-].
  assert (single m) as Hm.
  { rewrite Forall_forall in Hs. apply Hs. rewrite Ht. set_solver. }
  apply message_infos in Ec as (Em & Ew & Er); [|done]. rewrite Hw in *.
  split; [done|]. split; [simpl in *; lia|]. split; [done|].
  split; [simpl; by rewrite Ht, announced_app, <- app_assoc|].
  split; [by rewrite tracked_snoc, <- Hi|]. exists ended. simpl.
  rewrite Er, started_snoc, <- Hr. solve_Permutation.
Qed.

Lemma exporter_ok_timer wl h n fs x x' :
  exporter_ok wl h x → exporter_step x (Run (Timer n fs)) = Done x' →
  exporter_ok wl (h ++ happened wl h x (Run (Timer n fs))) x'.
Proof.
  intros (Hw & Hl & Hs & Ht & Hi & ended & Hr). cbn [exporter_step happened].
  destruct (cc_step (x_collector x) (Timer n fs)) as [c|e|] eqn:Ec; [|done..]. intros [= <-].
  apply timer_infos in Ec as (Ew & Ei & Er). rewrite Hi in Ei.
  assert (∃ ended', running c ++ ended' ≡ₚ started wl h) as He.
  { destruct Er as [Er|(id & En & Er)]; [exists ended; by rewrite Er|].
    exists (id :: ended). rewrite Er, <- Hr. pose proof (delete_Permutation _ _ _ En) as Hp.
    etrans; [|apply Permutation_app_tail; symmetry; exact Hp]. solve_Permutation. }
  destruct (running (x_collector x) !! n) as [id|]; [destruct (is_absent _ _)|];
    rewrite ?app_nil_r; [|by split_and!; simpl; try congruence..].
  split; [simpl; congruence|]. split; [done|]. split; [done|].
  split; [simpl; by rewrite announced_app, app_nil_r|]. split; [by rewrite tracked_snoc|].
  rewrite started_snoc. simpl. by rewrite app_nil_r.
Qed.

Lemma exporter_ok_step wl h x ev x' :
  exporter_ok wl h x → exporter_step x ev = Done x' → exporter_ok wl (h ++ happened wl h x ev) x'.
Proof.
  intros Hok Hx. destruct ev as [p c|p c|pods cs|gfs|[gfs m|n fs|n fs ts]].
  - rewrite app_nil_r. injection Hx as <-. apply exporter_ok_put; [done|apply start_appends].
  - rewrite app_nil_r. injection Hx as <-. apply exporter_ok_put; [done|apply stop_appends].
  - rewrite app_nil_r. injection Hx as <-. apply exporter_ok_put; [done|apply synchronize_appends].
  - by apply exporter_ok_take.
  - rewrite app_nil_r. by injection Hx as <-.
  - by apply exporter_ok_timer.
  - rewrite app_nil_r. cbn [exporter_step] in Hx.
    destruct (cc_step (x_collector x) (Scan n fs ts)) as [c|e|] eqn:Ec; [|done..].
    injection Hx as <-. apply scan_infos in Ec as (Ew & Ei & Er).
    destruct Hok as (Hw & Hl & Hs & Ht & Hi & ended & Hr). unfold exporter_ok. simpl.
    rewrite Ew, Ei, Er. split_and!; try done. by exists ended.
Qed.

Lemma exporter_ok_run wl h evs x x' :
  exporter_ok wl h x → exporter_run evs x = Done x' → exporter_ok wl (history wl h evs x) x'.
Proof.
  revert h x. induction evs as [|ev evs IH]; intros h x Hok Hr; simpl in Hr |- *.
  - by injection Hr as <-.
  - destruct (exporter_step x ev) as [x1|m|] eqn:E; [|done|done].
    eapply IH; [|exact Hr]. by apply exporter_ok_step.
Qed.

(** [whitelist] is the list the collector is created with. *)
Definition whitelist_of (whiteList : string) : list string :=
  if decide (whiteList = "") then [] else split whiteList ",".

Lemma exporter_ok_start whiteList flag times :
  exporter_ok (whitelist_of whiteList) [] (start_exporter whiteList flag times).
Proof.
  split; [done|]. split; [simpl; unfold chanSize; lia|]. split; [constructor|].
  split; [done|]. split; [done|]. by exists [].
Qed.

(** C24: in every execution the channel holds the messages sent and not yet
    taken, at most its capacity, in order.  The tracked containers are exactly
    those of its history, which the messages taken (an added container is tracked
    with what the message says, a stopped one no more, one of a whitelisted
    namespace is left aside) and the timers make: a timer forgets its container
    exactly when the cgroup directory that the container is tracked with is
    missing in the file system it sees.  Every container that is added has a
    timer of its own that runs or has ended, and there is no other timer; only
    containers that the messages announce are tracked, none of a whitelisted
    namespace. *)
Theorem exporter_tracks_announced whiteList flag times evs x :
  exporter_run evs (start_exporter whiteList flag times) = Done x →
  let wl := whitelist_of whiteList in
  let h := history wl [] evs (start_exporter whiteList flag times) in
  length (x_channel x) <= chanSize ∧ x_sent x = announced h ++ x_channel x ∧
  containerInfos (x_collector x) = tracked wl h ∧
  (∃ ended, running (x_collector x) ++ ended ≡ₚ started wl h) ∧
  containerInfos (x_collector x) ⊆ expected wl (announced h) ∧
  (∀ id i, containerInfos (x_collector x) !! id = Some i →
     whiteList ≠ "" → NameSpace i ∉ split whiteList ",").
Proof.
  intros Hr wl h.
  destruct (exporter_ok_run _ _ _ _ _ (exporter_ok_start whiteList flag times) Hr)
    as (_ & Hl & Hs & Ht & Hi & Hrun). fold wl in Hs, Ht, Hi, Hrun. fold h in Ht, Hi, Hrun.
  assert (tracked wl h ⊆ expected wl (announced h)) as Hsub.
  { apply tracked_expected. rewrite Ht in Hs. by apply Forall_app in Hs as [Hs _]. }
  split; [done|]. split; [done|]. split; [done|]. split; [done|]. split; [by rewrite Hi|].
  intros id i Ei Hw. rewrite Hi in Ei. eapply lookup_weaken in Ei; [|exact Hsub].
  apply expected_outside in Ei; unfold wl, whitelist_of in *; rewrite decide_False in * by done.
  - done.
  - apply split_not_nil.
Qed.
End system.

(** ** Example *)

#[local] Existing Instance list_range.

Definition demo_pod : sandbox := mkSandbox "p" "pod" "default" ∅ "/kubepods".
Definition demo_container (id : string) : nri_container := mkNri id "app" "p" ∅ [] 0.

(** A file system without a container's directory. *)
Definition no_cgroups : snapshot :=
  mkSnapshot (λ _, inl "no such file") (λ _, Some "no such file") (λ _, false) (λ _, None)
    (λ _, inr []) (λ _, "").

(** Two containers start, one of them stops, the directory of the other is
    missing, and the plugin is asked for all containers; the collector has taken
    three of the four messages. *)
Definition demo_events : list exporter_event :=
  let gfs := mkGroupFs (λ _, IsDir) (λ _, None) in
  [OnStart demo_pod (demo_container "c1"); OnStart demo_pod (demo_container "c2"); Take gfs;
   OnStop demo_pod (demo_container "c1"); Take gfs; Take gfs;
   OnSynchronize [demo_pod] [demo_container "c2"]; Run (Timer 1 no_cgroups)].

Definition demo_end : exporter :=
  match exporter_run demo_events (start_exporter "kube-system" "cpu" 10) with
  | Done x => x
  | _ => start_exporter "" "" 0
  end.

Lemma exporter_tracks_announced_witness :
  let h := history ["kube-system"] [] demo_events (start_exporter "kube-system" "cpu" 10) in
  (∃ i1 i2 i3, h = [Announced {["c1" := i1]}; Announced {["c2" := i2]}; Announced {["c1" := i3]}; Gone "c2"]) ∧
  length (x_channel demo_end) = 1 ∧ containerInfos (x_collector demo_end) = ∅ ∧
  containerInfos (x_collector demo_end) = tracked ["kube-system"] h ∧
  x_sent demo_end = announced h ++ x_channel demo_end ∧
  ∃ ended, running (x_collector demo_end) ++ ended ≡ₚ started ["kube-system"] h.
Proof.
  cbv zeta. split; [do 3 eexists; vm_compute; reflexivity|]. split; [by vm_compute|].
  split; [by vm_compute|].
  destruct (exporter_tracks_announced "kube-system" "cpu" 10 demo_events demo_end)
    as (_ & Hs & Hi & Hr & _); [by vm_compute|].
  split; [exact Hi|]. split; [exact Hs|exact Hr].
Defined.
