(* ===== verification/ExporterTheorems.v ===== *)
(** * What the exporter guarantees

    The rates computed from two readings, the tasks files, the goroutine of a
    container, the class metrics and the plugin's channel. *)

From Stdlib Require Import Ascii.
From S2P Require Import Prelude GoStrings Float64 ExporterStats Metrics Collectors.

(** ** Readings *)

Section readings.
Context `{GoRange}.

(** Megabytes a second, for a counter that advances by [d] in [secs] seconds. *)
Definition mbps (d secs : Z) : float64 :=
  f64_div (f64_div (f64_of_Z d) (f64_of_Z 1000000)) (f64_of_Z secs).

(** [v] is the rate of a 64-bit counter read as [a] and later as [b], its time
    stamps being [ta] and [tb]: those of the counter's advance, modulo 2^64. *)
Definition rate_between (a b : Z) (ta tb : string) (v : float64) : Prop :=
  ∃ t t', parse_time ta = Some t ∧ parse_time tb = Some t' ∧
    ∀ d, (0 <= d < 2 ^ 64)%Z → b = ((a + d) mod 2 ^ 64)%Z → (0 <= t' - t <= 9223372036)%Z →
      v = mbps d (t' - t).

(** The rates of a socket: each of its two counters with its own stamps. *)
Definition rates_between (o n : RawMemoryBandwidthStats) (q : ProcessedMemoryBandwidthStats) : Prop :=
  rate_between (TotalBytes o) (TotalBytes n) (TotalBytesTimeStamp o) (TotalBytesTimeStamp n)
    (TotalMBps q) ∧
  rate_between (LocalBytes o) (LocalBytes n) (LocalBytesTimeStamp o) (LocalBytesTimeStamp n)
    (LocalMBps q).

(** A time stamp of one of the two readings of a socket does not parse. *)
Definition unparsed (o n : RawMemoryBandwidthStats) : Prop :=
  ∃ t, t ∈ [TotalBytesTimeStamp o; TotalBytesTimeStamp n; LocalBytesTimeStamp o; LocalBytesTimeStamp n] ∧
       parse_time t = None.

Definition add_rates (sum q : ProcessedMemoryBandwidthStats) : ProcessedMemoryBandwidthStats :=
  mkMB (f64_add (TotalMBps sum) (TotalMBps q)) (f64_add (LocalMBps sum) (LocalMBps q)).

(** The seconds between two times less than 292 years apart. *)
Lemma Seconds_whole t t' :
  (0 <= t' - t <= 9223372036)%Z → Seconds (time_Sub t' t) = f64_of_Z (t' - t).
Proof.
  intros Ht. unfold Seconds, time_Sub.
  rewrite Z.min_r, Z.max_r by lia. rewrite Z.quot_mul, Z.rem_mul by lia.
  change (f64_div (f64_of_Z 0) (f64_of_Z 1000000000)) with f64_zero. apply f64_add_zero. lia.
Qed.

Lemma u64_advance a b d : (0 <= d < 2 ^ 64)%Z → b = ((a + d) mod 2 ^ 64)%Z → u64 (b - a) = d.
Proof.
  intros Hd ->. unfold u64. rewrite Zminus_mod_idemp_l. replace (a + d - a)%Z with d by lia.
  by apply Z.mod_small.
Qed.

Lemma rate_spec a b ta tb t t' :
  parse_time ta = Some t → parse_time tb = Some t' → rate_between a b ta tb (rate a b t t').
Proof.
  intros Hta Htb. exists t, t'. split; [done|]. split; [done|]. intros d Hd Hb Hs.
  unfold rate. by rewrite (u64_advance a b d), Seconds_whole.
Qed.

Lemma process_socket_spec o n :
  match process_socket o n with Some q => rates_between o n q | None => unparsed o n end.
Proof.
  unfold process_socket, unparsed.
  destruct (parse_time (TotalBytesTimeStamp o)) eqn:E1; csimpl; [|eexists; split; [|exact E1]; set_solver].
  destruct (parse_time (TotalBytesTimeStamp n)) eqn:E2; csimpl; [|eexists; split; [|exact E2]; set_solver].
  destruct (parse_time (LocalBytesTimeStamp o)) eqn:E3; csimpl; [|eexists; split; [|exact E3]; set_solver].
  destruct (parse_time (LocalBytesTimeStamp n)) eqn:E4; csimpl; [|eexists; split; [|exact E4]; set_solver].
  by split; apply rate_spec.
Qed.

Lemma process_sockets_spec os news acc sum :
  NoDup news.*1 →
  match process_sockets os news acc sum with
  | inr (m, s) =>
      (∀ nid, nid ∉ news.*1 → m !! nid = acc !! nid) ∧
      (∀ nid n, (nid, n) ∈ news → ∃ o q, os !! nid = Some o ∧ rates_between o n q ∧ m !! nid = Some q) ∧
      s = foldl (λ s nid, add_rates s (default zero_MB (m !! nid))) sum news.*1
  | inl _ => ∃ nid n, (nid, n) ∈ news ∧ match os !! nid with Some o => unparsed o n | None => True end
  end.
Proof.
  revert acc sum. induction news as [|[nid n] news IH]; intros acc sum Hnd; csimpl.
  { split; [done|]. split; [by intros ? ? []%elem_of_nil|done]. }
  apply NoDup_cons in Hnd as [Hnid Hnd].
  destruct (os !! nid) as [o|] eqn:Ho.
  2:{ exists nid, n. split; [by left|]. by rewrite Ho. }
  pose proof (process_socket_spec o n) as Hq. destruct (process_socket o n) as [q|].
  2:{ exists nid, n. split; [by left|]. by rewrite Ho. }
  specialize (IH (<[nid := q]> acc) (add_rates sum q) Hnd). fold (add_rates sum q).
  destruct (process_sockets _ _ _ _) as [e|[m s]].
  - destruct IH as (nid' & n' & Hin & E). exists nid', n'. split; [by right|done].
  - destruct IH as (Hout & Hin & ->).
    assert (m !! nid = Some q) as Hm by (rewrite Hout by done; by rewrite lookup_insert_eq).
    split; [|split; [|by rewrite Hm]].
    + intros nid' Hn. apply not_elem_of_cons in Hn as [Hne Hn].
      rewrite Hout by done. by rewrite lookup_insert_ne.
    + intros nid' n' [[= -> ->]|Hin']%elem_of_cons; [|by apply Hin]. by exists o, q.
Qed.

(** C38: on two readings with memory bandwidth, [processStats] succeeds with the
    rates of every socket of the new reading and with their sums over all of
    them, or fails because a socket is missing from the old one or a time stamp
    does not parse.  The total and the local rate of a socket each divide the
    advance of their own counter (which may wrap around at 2^64), in millions of
    bytes, by the seconds between their own time stamps, whatever the order in
    which Go enumerates the sockets. *)
Theorem processStats_sockets old new os ns :
  MemoryBandwidth old = Some os → MemoryBandwidth new = Some ns →
  match processStats old new with
  | inr p => ∃ m order, p_MemoryBandwidth p = Some m ∧ dom m = dom ns ∧
      (∀ nid n, ns !! nid = Some n →
         ∃ o q, os !! nid = Some o ∧ m !! nid = Some q ∧ rates_between o n q) ∧
      order ≡ₚ elements (dom ns) ∧
      SumMemoryBandwidth p =
        foldl (λ s nid, add_rates s (default zero_MB (m !! nid))) (mkMB f64_zero f64_zero) order
  | inl _ => (∃ nid n, ns !! nid = Some n ∧ match os !! nid with Some o => unparsed o n | None => True end) ∨
             ∃ co cn, CPUUtilization old = Some co ∧ CPUUtilization new = Some cn ∧
                      (parse_time (TimeStamp co) = None ∨ parse_time (TimeStamp cn) = None)
  end.
Proof.
  intros Ho Hn. unfold processStats. rewrite Ho, Hn.
  destruct (match Cache new with Some _ => _ | None => _ end) as [cache sumCache].
  assert (NoDup (range ns).*1) as Hnd by (rewrite range_perm; apply NoDup_fst_map_to_list).
  assert (∀ nid n, (nid, n) ∈ range ns ↔ ns !! nid = Some n) as Hrange by (intros; apply elem_of_range).
  assert (∀ nid, nid ∈ (range ns).*1 ↔ nid ∈ dom ns) as Hfst.
  { intros nid. rewrite elem_of_dom, list_elem_of_fmap. split.
    - intros ([k v] & -> & Hk%Hrange). by exists v.
    - intros [n Hk]. exists (nid, n). by rewrite Hrange. }
  pose proof (process_sockets_spec os (range ns) ∅ zero_MB Hnd) as Hs.
  destruct (process_sockets os (range ns) ∅ zero_MB) as [e|[m sum]].
  { left. destruct Hs as (nid & n & Hin & E). exists nid, n. by rewrite <- Hrange. }
  destruct Hs as (Hout & Hin & Hsum).
  assert (dom m = dom ns) as Hdom.
  { apply set_eq. intros nid. rewrite <- Hfst. destruct (decide (nid ∈ (range ns).*1)) as [Hk|Hk].
    - split; [done|]. intros _. apply list_elem_of_fmap in Hk as ([k v] & -> & Hk).
      destruct (Hin _ _ Hk) as (? & ? & _ & _ & E). by eapply elem_of_dom_2.
    - split; [|done]. intros [q Hq]%elem_of_dom. by rewrite Hout, lookup_empty in Hq. }
  assert (∀ cpu, let p := mkProcessed (SocketNum new) sum sumCache (Some m) cache cpu
      (if decide (Memory new ≠ 0%Z)
       then f64_div (f64_div (f64_of_Z (Memory new)) (f64_of_Z 1024)) (f64_of_Z 1024) else f64_zero) in
    ∃ m order, p_MemoryBandwidth p = Some m ∧ dom m = dom ns ∧
      (∀ nid n, ns !! nid = Some n →
         ∃ o q, os !! nid = Some o ∧ m !! nid = Some q ∧ rates_between o n q) ∧
      order ≡ₚ elements (dom ns) ∧
      SumMemoryBandwidth p =
        foldl (λ s nid, add_rates s (default zero_MB (m !! nid))) (mkMB f64_zero f64_zero) order) as Hok.
  { intros cpu p. exists m, (range ns).*1. split; [done|]. split; [done|]. split; [|split; [|done]].
    - intros nid n (o & q & ? & ? & ?)%Hrange%Hin. by exists o, q.
    - apply NoDup_Permutation; [done|apply NoDup_elements|]. intros nid. by rewrite Hfst, elem_of_elements. }
  destruct (CPUUtilization old) as [co|], (CPUUtilization new) as [cn|]; try exact (Hok f64_zero).
  destruct (cpu_rate co cn) as [r|] eqn:Ec; [exact (Hok r)|]. right. exists co, cn.
  unfold cpu_rate in Ec. destruct (parse_time (TimeStamp co)); [|by auto].
  csimpl in *. destruct (parse_time (TimeStamp cn)); [done|by auto].
Qed.
End readings.

(** A counter that wraps around between two readings still gives the right
    rate, as long as it advances by less than 2^64; two readings stamped in the
    same second give an infinite or undefined one. *)
Lemma rate_of_counter a d t t' :
  (0 <= d < 2 ^ 64)%Z → (0 <= t' - t <= 9223372036)%Z →
  rate (u64 a) (u64 (a + d)) t t' = f64_div (bytesToMB d) (f64_of_Z (t' - t)) ∧
  f64_finite (rate (u64 a) (u64 (a + d)) t t) = false.
Proof.
  intros Hd Ht. unfold rate. rewrite !Seconds_whole, Z.sub_diag by lia.
  split; [|apply f64_div_zero].
  assert (u64 (u64 (a + d) - u64 a) = d) as ->; [|done].
  unfold u64. rewrite <- Zminus_mod. replace (a + d - a)%Z with d by lia. by apply Z.mod_small.
Qed.

(** A cpu.stat that cannot be read, once it is open, is a CPU time of 0 and not
    an error; the next reading takes the whole CPU time for its interval. *)
Lemma unread_cpu_time_is_zero fs path e :
  let p := path_join path "cpu.stat" in
  exists_path fs p = true → open_error fs p = None → file fs p = inl e →
  getCgroupV2CpuTime fs path = Done (inr 0%Z).
Proof. intros p Hp Ho Hf. unfold getCgroupV2CpuTime, os_Stat. fold p. by rewrite Hp, Ho, Hf. Qed.

(** ** Tasks *)

Lemma trim_right_nl_lines l x :
  no_byte (ascii_of_nat 10) x → x ≠ "" →
  Forall (λ y, no_byte (ascii_of_nat 10) y ∧ y ≠ "") l →
  trim_right_nl (join (x :: l) line_feed +:+ line_feed) = join (x :: l) line_feed.
Proof.
  assert (∀ x t, no_byte (ascii_of_nat 10) x → x ≠ "" →
    trim_right_nl (x +:+ t) = x +:+ trim_right_nl t) as Hx.
  { clear. induction x as [|c x IH]; intros t Hx Hne; [done|]. apply no_byte_cons in Hx as [Hc Hx].
    destruct x as [|c' x].
    - simpl. rewrite decide_False by tauto. done.
    - change (String c (String c' x) +:+ t) with (String c (String c' x +:+ t)).
      cbn [trim_right_nl]. rewrite IH by done. done. }
  intros Hnx Hnex Hl. revert x Hnx Hnex. induction Hl as [|y l [Hy Hney] Hl IH]; intros x Hnx Hnex.
  - simpl. rewrite Hx by done. change (trim_right_nl line_feed) with "". by rewrite str_app_nil_r.
  - change (join (x :: y :: l) line_feed) with (x +:+ line_feed +:+ join (y :: l) line_feed).
    rewrite <- !str_app_assoc, Hx by done. f_equal.
    specialize (IH y Hy Hney). revert IH.
    assert (join (y :: l) line_feed ≠ "") as Hj by (destruct l, y; done).
    generalize dependent (join (y :: l) line_feed). intros j Hj IH.
    change (line_feed +:+ j +:+ line_feed) with (String (ascii_of_nat 10) (j +:+ line_feed)).
    cbn [trim_right_nl]. rewrite IH. by rewrite decide_False by (intros [? _]; done).
Qed.

(** The text of a tasks file, one id per line. *)
Definition task_lines (pids : list Z) : string :=
  foldr (λ id t, itoa id +:+ line_feed +:+ t) "" pids.

Lemma write_ids_all err pids t : write_ids err pids = (t, None) → t = task_lines pids.
Proof.
  revert t. induction pids as [|i pids IH]; intros t; simpl; [by intros [= <-]|].
  destruct (err i); [done|]. destruct (write_ids err pids) as [t' e]. intros [= <- ->].
  by rewrite (IH t').
Qed.

(** The ids are written up to the first the kernel refuses; those after it are
    not, whatever they are. *)
Lemma write_ids_stops err pids id rest e :
  Forall (λ i, err i = None) pids → err id = Some e →
  write_ids err pids = (task_lines pids, None) ∧
  write_ids err (pids ++ id :: rest) = (task_lines pids, Some e).
Proof.
  intros Hp He. induction Hp as [|i pids Hi _ [IH1 IH2]]; simpl; [by rewrite He|].
  by rewrite Hi, IH1, IH2.
Qed.

Lemma write_as_join l : l ≠ [] →
  task_lines l = join (itoa <$> l) line_feed +:+ line_feed.
Proof.
  induction l as [|x l IH]; [done|]. intros _. destruct l as [|y l]; [done|].
  change (task_lines (x :: y :: l)) with (itoa x +:+ line_feed +:+ task_lines (y :: l)).
  rewrite IH by done. csimpl.
  change (join (itoa x :: itoa y :: (itoa <$> l)) line_feed) with
    (itoa x +:+ line_feed +:+ join (itoa y :: (itoa <$> l)) line_feed).
  by rewrite <- !str_app_assoc.
Qed.

Lemma parse_tasks_itoa (ns : list nat) :
  Forall (λ n, (Z.of_nat n < 2 ^ 31)%Z) ns →
  parse_tasks (itoa <$> (Z.of_nat <$> ns)) = inr (Z.of_nat <$> ns).
Proof.
  induction 1 as [|n ns Hn Hns IH]; csimpl; [done|].
  rewrite (trim_space_digits _ (all_digits_itoa n)). rewrite decide_False by apply itoa_nat_not_empty.
  rewrite parse_int_itoa_nat by (done || lia). by rewrite IH.
Qed.

Lemma trim_left_nl_head x t : no_byte (ascii_of_nat 10) x → x ≠ "" → trim_left_nl (x +:+ t) = x +:+ t.
Proof.
  destruct x as [|c x]; [done|]. intros [Hc _]%no_byte_cons _. simpl. by rewrite decide_False.
Qed.

(** The process ids read from a tasks file the exporter wrote are the ones
    it wrote, for all 32-bit ids and for none. *)
Lemma tasks_roundtrip ts fs path text (pids : list nat) :
  path ≠ "" → writeTaskIDsToFile ts (Z.of_nat <$> pids) path = (Some (path, text), None) →
  file fs path = inr text →
  Forall (λ n, (Z.of_nat n < 2 ^ 31)%Z) pids →
  readCPUTasks fs path = inr (Z.of_nat <$> pids).
Proof.
  intros Hpath Hwrite Hfile Hp. unfold readCPUTasks. rewrite decide_False by done.
  assert (text = task_lines (Z.of_nat <$> pids)) as ->.
  { unfold writeTaskIDsToFile in Hwrite. destruct (tasks_open_error ts path); [done|].
    destruct (write_ids _ _) as [t e] eqn:E. injection Hwrite as <- ->. by apply write_ids_all in E. }
  rewrite Hfile. clear Hwrite.
  clear Hfile. destruct pids as [|n pids]; [done|].
  assert (∀ n : nat, no_byte (ascii_of_nat 10) (itoa (Z.of_nat n))) as Hno.
  { intros k. apply itoa_nat_no_byte. by repeat constructor. }
  unfold trim_nl. rewrite write_as_join by done.
  change (itoa <$> (Z.of_nat <$> n :: pids)) with (itoa (Z.of_nat n) :: (itoa <$> (Z.of_nat <$> pids))).
  assert (∀ l t, trim_left_nl (join (itoa (Z.of_nat n) :: l) line_feed +:+ t) =
    join (itoa (Z.of_nat n) :: l) line_feed +:+ t) as Hleft.
  { intros [|y l] t; [apply trim_left_nl_head; [apply Hno|apply itoa_nat_not_empty]|].
    change (join (itoa (Z.of_nat n) :: y :: l) line_feed) with
      (itoa (Z.of_nat n) +:+ line_feed +:+ join (y :: l) line_feed).
    rewrite <- !str_app_assoc. apply trim_left_nl_head; [apply Hno|apply itoa_nat_not_empty]. }
  rewrite Hleft, trim_right_nl_lines; [|apply Hno|apply itoa_nat_not_empty|].
  - unfold line_feed, bytes. cbn [foldr]. rewrite split_join; [|done|].
    + by apply (parse_tasks_itoa (n :: pids)).
    + constructor; [apply Hno|]. rewrite <- list_fmap_compose. apply Forall_fmap, Forall_true. apply Hno.
  - rewrite <- list_fmap_compose. apply Forall_fmap, Forall_true. intros k.
    split; [apply Hno|apply itoa_nat_not_empty].
Qed.

(** ** The container collector *)

Section collectors.
Context `{GoRange}.

(** The first reading of a container that fails ends its monitoring for
    good: the goroutine is not set again, the entry and the last statistics
    stay, and the next scrapes keep exporting them. *)
Lemma failed_reading_freezes_container n fs id c c' e :
  running c !! n = Some id → exists_path fs (CgroupPath (info_of c id)) = true →
  read_container fs c id = Done (inl e) → cc_step c (Timer n fs) = Done c' →
  running c' = delete n (running c) ∧ statsCache c' = statsCache c ∧ cc_Update c' = cc_Update c.
Proof.
  intros Hn Hp Hr. simpl. rewrite Hn. unfold housekeeping, is_absent. rewrite Hp. simpl.
  unfold cc_updateStats. rewrite Hr. by intros [= <-].
Qed.

(** ** The class collector *)

(** A scrape of the class collector panics, and with it the exporter, as
    soon as one registered class has no statistics yet; otherwise it returns. *)
Lemma class_scrape_panics_iff c :
  class_Update c = Panic nil_deref ↔
  isNeedCollectMbLLc (class_metrics c) = true ∧
  ∃ class, class_statsCache c !! class = Some None.
Proof.
  unfold class_Update. destruct (isNeedCollectMbLLc (class_metrics c)); [|naive_solver].
  assert (∀ es, class_update_list (class_nodeName c) es = Panic nil_deref ↔
                ∃ cid, (cid, None) ∈ es) as Hl.
  { induction es as [|[cid [s|]] es IH]; csimpl.
    - split; [done|]. intros [? []%elem_of_nil].
    - assert ((∃ cid', (cid', None) ∈ (cid, Some s) :: es) ↔ ∃ cid', (cid', @None stats) ∈ es) as ->.
      { setoid_rewrite elem_of_cons. naive_solver. }
      rewrite <- IH. by destruct (class_update_list _ es).
    - split; [|done]. intros _. exists cid. by left. }
  rewrite Hl. setoid_rewrite range_perm. setoid_rewrite elem_of_map_to_list. naive_solver.
Qed.

(** ** The plugin *)

Lemma send_bound i ch :
  length ch <= chanSize →
  length (send i ch).1 <= chanSize ∧
  ((send i ch).2 = None → (send i ch).1 = ch ++ [{[ContainerId i := i]}]) ∧
  ((send i ch).2 ≠ None → (send i ch).1 = ch).
Proof.
  intros Hl. unfold send. case_decide; simpl; [done|]. rewrite length_app. simpl.
  split; [unfold chanSize in *; lia|done].
Qed.

(** The messages of a synchronisation, one per container id with a pod. *)
Fixpoint sync_messages (pods : list sandbox) (cs : list nri_container) (seen : gset string)
    : list (gmap string ContainerInfo) :=
  match cs with
  | [] => []
  | c :: rest =>
      if decide (nri_Id c ∈ seen) then sync_messages pods rest seen
      else match pod_of pods c with
           | Some p => {[nri_Id c := container_info 2 p c]} ::
                       sync_messages pods rest ({[nri_Id c]} ∪ seen)
           | None => sync_messages pods rest ({[nri_Id c]} ∪ seen)
           end
  end.

Lemma synchronize_loop_spec pods cs seen ch :
  length ch <= chanSize →
  ∃ k, (synchronize_loop pods cs seen ch).1 = ch ++ take k (sync_messages pods cs seen) ∧
       length (synchronize_loop pods cs seen ch).1 <= chanSize ∧
       ((synchronize_loop pods cs seen ch).2 = None ↔
        length ch + length (sync_messages pods cs seen) <= chanSize) ∧
       ((synchronize_loop pods cs seen ch).2 = None → length (sync_messages pods cs seen) <= k).
Proof.
  revert seen ch. induction cs as [|c cs IH]; intros seen ch Hl; simpl.
  { exists 0. simpl. rewrite app_nil_r, Nat.add_0_r. done. }
  case_decide; [by apply IH|]. destruct (pod_of pods c) as [p|]; [|by apply IH].
  unfold send. simpl. case_decide as Hfull; simpl.
  { exists 0. rewrite take_0, app_nil_r. split; [done|]. split; [done|].
    split; [|done]. split; [done|]. lia. }
  destruct (IH ({[nri_Id c]} ∪ seen) (ch ++ [{[nri_Id c := container_info 2 p c]}]))
    as (k & E & Hb & Hok & Hall).
  { rewrite length_app. simpl. unfold chanSize in *. lia. }
  exists (S k). rewrite E, <- app_assoc in *. simpl. split; [done|]. split; [done|].
  rewrite Hok, length_app. simpl. split; [lia|]. intros Hle. specialize (Hall ltac:(
    rewrite Hok, length_app; simpl; lia)). lia.
Qed.

(** C39: the synchronisation never blocks on a full channel: it queues a prefix
    of its messages (one per container id with an unannotated pod), keeps
    within the capacity of 100, and reports an error exactly when they do not
    all fit; the remaining containers are then never announced. *)
Theorem synchronize_queues_prefix pods cs ch :
  length ch <= chanSize →
  ∃ k, (Synchronize pods cs ch).1 = ch ++ take k (sync_messages pods cs ∅) ∧
       length (Synchronize pods cs ch).1 <= chanSize ∧
       ((Synchronize pods cs ch).2 = None ↔
        length ch + length (sync_messages pods cs ∅) <= chanSize) ∧
       ((Synchronize pods cs ch).2 = None → length (sync_messages pods cs ∅) <= k).
Proof. apply synchronize_loop_spec. Qed.
End collectors.

(** ** Concrete instances *)

Section witnesses.
#[local] Existing Instance list_range.

(** A socket whose total counter wraps around in the two seconds between its
    stamps, and whose local one advances by 8 MB in four. *)
Definition counters (total : Z) (tt : string) (local : Z) (tl : string) : RawStats :=
  mkRaw 1 (Some {["00" := mkRawMB total tt local tl]}) None None 0.
Definition counters_before : RawStats :=
  counters (2 ^ 64 - 1) "2024-05-01 10:00:00" 1000000 "2024-05-01 10:00:00".
Definition counters_after : RawStats :=
  counters 1999999 "2024-05-01 10:00:02" 9000000 "2024-05-01 10:00:04".

Lemma processStats_sockets_witness :
  match processStats counters_before counters_after with
  | inr p => ∃ m q, p_MemoryBandwidth p = Some m ∧ m !! "00" = Some q ∧
      TotalMBps q = mbps 2000000 2 ∧ LocalMBps q = mbps 8000000 4
  | inl _ => False
  end.
Proof.
  pose proof (processStats_sockets counters_before counters_after
    {["00" := mkRawMB (2 ^ 64 - 1) "2024-05-01 10:00:00" 1000000 "2024-05-01 10:00:00"]}
    {["00" := mkRawMB 1999999 "2024-05-01 10:00:02" 9000000 "2024-05-01 10:00:04"]}
    eq_refl eq_refl) as P.
  destruct (processStats _ _) as [e|p] eqn:E; [vm_compute in E; discriminate E|].
  destruct P as (m & order & Hm & Hd & Hr & _).
  destruct (Hr "00" _ eq_refl) as (o & q & Ho & Hq & (t & t' & E1 & E2 & Ht) & (l & l' & E3 & E4 & Hl)).
  injection Ho as <-. vm_compute in E1, E2, E3, E4.
  injection E1 as <-. injection E2 as <-. injection E3 as <-. injection E4 as <-.
  exists m, q. split; [exact Hm|]. split; [exact Hq|]. split.
  - refine (Ht 2000000%Z _ _ _); simpl; [lia|vm_compute; reflexivity|lia].
  - refine (Hl 8000000%Z _ _ _); simpl; [lia|vm_compute; reflexivity|lia].
Defined.

Lemma rate_of_counter_witness :
  rate (u64 (2 ^ 64 - 1)) (u64 (2 ^ 64 - 1 + 2000000)) 10 12 = f64_div (bytesToMB 2000000) (f64_of_Z (12 - 10)) ∧
  f64_finite (rate (u64 (2 ^ 64 - 1)) (u64 (2 ^ 64 - 1 + 2000000)) 10 10) = false.
Proof. apply (rate_of_counter (2 ^ 64 - 1) 2000000 10 12); lia. Defined.

(** A file system whose files all hold the given ids, written without errors. *)
Definition tasks_file (pids : list nat) : snapshot :=
  mkSnapshot (λ p, inr (task_lines (Z.of_nat <$> pids))) (λ p, None) (λ p, true) (λ p, None)
    (λ p, inr []) (λ p, "").
Definition willing : tasks_fs := mkTasksFs (λ p, None) (λ p id, None).

Lemma tasks_roundtrip_witness :
  readCPUTasks (tasks_file [1; 4242; 32768]) "/mon/tasks" = inr (Z.of_nat <$> [1; 4242; 32768]).
Proof.
  apply (tasks_roundtrip willing (tasks_file [1; 4242; 32768]) "/mon/tasks"
    (task_lines (Z.of_nat <$> [1; 4242; 32768])) [1; 4242; 32768]);
    [done|reflexivity|reflexivity|]. repeat constructor; vm_compute; done.
Defined.

Definition tracked : ContainerInfo := mkInfo 1 "app" "id1" "pod" "default" "/cg" "/mon".

(** A collector that has received one container of each kind. *)
Definition after_messages : containerCollector :=
  (processContainerData (mkGroupFs (λ _, IsDir) (λ _, None))
     (<["id1" := tracked]> {["id2" := mkInfo 1 "sys" "id2" "pod" "kube-system" "/cg2" "/mon2"]})
     (NewContainerCollector "kube-system,calico" "cpu" 10)).1.

(** A file system whose files cannot be read. *)
Definition unreadable : snapshot :=
  mkSnapshot (λ p, inl "input/output error") (λ p, Some "permission denied") (λ p, true) (λ p, None) (λ p, inr []) (λ p, "").

Lemma failed_reading_freezes_container_witness :
  ∃ c', cc_step after_messages (Timer 0 unreadable) = Done c' ∧
    running c' = [] ∧ statsCache c' = statsCache after_messages ∧
    cc_Update c' = cc_Update after_messages.
Proof.
  assert (cc_step after_messages (Timer 0 unreadable) =
    Done (set_running after_messages [])) as E by (vm_compute; reflexivity).
  exists (set_running after_messages []). split; [exact E|].
  apply (failed_reading_freezes_container 0 unreadable "id1" after_messages
    (set_running after_messages []) "permission denied"); [reflexivity|reflexivity| |exact E].
  vm_compute. reflexivity.
Defined.

Definition demo_pods : list sandbox := [mkSandbox "p" "pod" "default" ∅ "/kubepods"].

Lemma synchronize_queues_prefix_witness :
  ∃ k, (Synchronize demo_pods [mkNri "c1" "app" "p" ∅ [] 0; mkNri "c1" "app" "p" ∅ [] 0; mkNri "c2" "db" "q" ∅ [] 0] []).1
         = [] ++ take k (sync_messages demo_pods
             [mkNri "c1" "app" "p" ∅ [] 0; mkNri "c1" "app" "p" ∅ [] 0; mkNri "c2" "db" "q" ∅ [] 0] ∅) ∧
    length (Synchronize demo_pods
      [mkNri "c1" "app" "p" ∅ [] 0; mkNri "c1" "app" "p" ∅ [] 0; mkNri "c2" "db" "q" ∅ [] 0] []).1 <= chanSize ∧
    ((Synchronize demo_pods
      [mkNri "c1" "app" "p" ∅ [] 0; mkNri "c1" "app" "p" ∅ [] 0; mkNri "c2" "db" "q" ∅ [] 0] []).2 = None ↔
     0 + length (sync_messages demo_pods
       [mkNri "c1" "app" "p" ∅ [] 0; mkNri "c1" "app" "p" ∅ [] 0; mkNri "c2" "db" "q" ∅ [] 0] ∅) <= chanSize) ∧
    ((Synchronize demo_pods
      [mkNri "c1" "app" "p" ∅ [] 0; mkNri "c1" "app" "p" ∅ [] 0; mkNri "c2" "db" "q" ∅ [] 0] []).2 = None →
     length (sync_messages demo_pods
       [mkNri "c1" "app" "p" ∅ [] 0; mkNri "c1" "app" "p" ∅ [] 0; mkNri "c2" "db" "q" ∅ [] 0] ∅) <= k).
Proof.
  apply (synchronize_queues_prefix demo_pods
    [mkNri "c1" "app" "p" ∅ [] 0; mkNri "c1" "app" "p" ∅ [] 0; mkNri "c2" "db" "q" ∅ [] 0] []).
  simpl. unfold chanSize. lia.
Defined.
End witnesses.
