(* ===== verification/MetricsTheorems.v ===== *)
(** * The metrics of a scrape

    Every metric a scrape sends has as many labels as its description (so that
    [MustNewConstMetric] does not panic), and no two have the same name and the
    same labels (so that the registry accepts them all). *)

From Stdlib Require Import Ascii.
From S2P Require Import Prelude GoStrings Float64 ExporterStats Metrics Collectors Registry.

(** ** Descriptions and uniqueness *)

Definition metric_key (m : metric) : string * list string := (m_name m, m_labels m).

Definition unique (ms : list metric) : Prop := NoDup (metric_key <$> ms).

Definition described (ds : list desc) (m : metric) : Prop :=
  ∃ d, d ∈ ds ∧ m_name m = d_fqName d ∧ length (m_labels m) = length (d_variableLabels d).

(** A list of metrics of the given descriptions, all different. *)
Definition block (ds : list desc) (ms : list metric) : Prop :=
  unique ms ∧ Forall (described ds) ms.

(** Two groups of descriptions without a common name. *)
Definition apart (ds1 ds2 : list desc) : Prop :=
  Forall (λ d1, Forall (λ d2, d_fqName d1 ≠ d_fqName d2) ds2) ds1.
#[global] Instance apart_dec ds1 ds2 : Decision (apart ds1 ds2).
Proof. unfold apart. apply _. Defined.

Lemma described_mono ds ds' m : ds ⊆ ds' → described ds m → described ds' m.
Proof. intros Hs (d & Hd & ?). exists d. split; [by apply Hs|done]. Qed.

Lemma block_mono ds ds' ms : ds ⊆ ds' → block ds ms → block ds' ms.
Proof. intros Hs [Hu Hd]. split; [done|]. eapply Forall_impl; [exact Hd|]. intros m. by apply described_mono. Qed.

Lemma block_nil ds : block ds [].
Proof. split; constructor. Qed.

Lemma described_apart ds1 ds2 m1 m2 :
  apart ds1 ds2 → described ds1 m1 → described ds2 m2 → metric_key m1 ≠ metric_key m2.
Proof.
  unfold apart. rewrite Forall_forall. intros Ha (d1 & Hd1 & E1 & _) (d2 & Hd2 & E2 & _) [= En _].
  specialize (Ha d1 Hd1). rewrite Forall_forall in Ha. apply (Ha d2 Hd2). congruence.
Qed.

Lemma block_app ds1 ds2 ms1 ms2 :
  apart ds1 ds2 → block ds1 ms1 → block ds2 ms2 → block (ds1 ++ ds2) (ms1 ++ ms2).
Proof.
  intros Ha [Hu1 Hd1] [Hu2 Hd2]. split.
  - unfold unique. rewrite fmap_app. apply NoDup_app. split; [done|]. split; [|done].
    intros k (m1 & -> & Hm1)%list_elem_of_fmap (m2 & Ek & Hm2)%list_elem_of_fmap.
    rewrite Forall_forall in Hd1, Hd2. by apply (described_apart ds1 ds2 m1 m2); [|apply Hd1|apply Hd2|].
  - apply Forall_app. split; (eapply Forall_impl; [done|]); intros m; apply described_mono; set_solver.
Qed.

Lemma block_one d v ls : length ls = length (d_variableLabels d) → block [d] [const_metric d v ls].
Proof.
  intros Hl. split; [apply NoDup_singleton|]. constructor; [|constructor].
  exists d. split; [by left|done].
Qed.

Lemma block_cons d ds v ls ms :
  length ls = length (d_variableLabels d) → apart [d] ds → block ds ms →
  block (d :: ds) (const_metric d v ls :: ms).
Proof. intros Hl Ha Hb. by apply (block_app [d] ds [_]); [|apply block_one|]. Qed.

Lemma block_if ds (b : bool) ms : block ds ms → block ds (if b then ms else []).
Proof. intros Hb. destruct b; [done|apply block_nil]. Qed.

(** Metrics of which the key tells the entry they were made for. *)
Lemma unique_bind {A} (owner : string * list string → option string) (own : A → string)
    (f : A → list metric) (es : list A) :
  (∀ x m, x ∈ es → m ∈ f x → owner (metric_key m) = Some (own x)) →
  (∀ x, x ∈ es → unique (f x)) → NoDup (own <$> es) → unique (es ≫= f).
Proof.
  unfold unique. induction es as [|x es IH]; intros Ho Hu Hnd; csimpl; [constructor|].
  apply NoDup_cons in Hnd as [Hx Hnd]. rewrite fmap_app. apply NoDup_app. split_and!.
  - apply Hu. by left.
  - intros k (m1 & -> & Hm1)%list_elem_of_fmap (m2 & Ek & Hm2)%list_elem_of_fmap.
    apply list_elem_of_bind in Hm2 as (y & Hm2 & Hy). apply Hx.
    assert (own x = own y) as ->; [|by apply list_elem_of_fmap_2].
    apply (inj Some). rewrite <- (Ho x m1), <- (Ho y m2) by (done || by left || by right).
    by rewrite Ek.
  - apply IH; [intros y m Hy; apply Ho; by right|intros y Hy; apply Hu; by right|done].
Qed.

Lemma Forall_bind {A} (P : metric → Prop) (f : A → list metric) es :
  (∀ x, x ∈ es → Forall P (f x)) → Forall P (es ≫= f).
Proof.
  intros Hf. apply Forall_forall. intros m (x & Hm & Hx)%list_elem_of_bind.
  specialize (Hf x Hx). rewrite Forall_forall in Hf. by apply Hf.
Qed.

Lemma block_bind {A} ds owner (own : A → string) (f : A → list metric) (es : list A) :
  (∀ x m, x ∈ es → m ∈ f x → owner (metric_key m) = Some (own x)) →
  (∀ x, x ∈ es → block ds (f x)) → NoDup (own <$> es) → block ds (es ≫= f).
Proof.
  intros Ho Hb Hnd. split.
  - apply (unique_bind owner own); [done| |done]. intros x Hx. by apply Hb.
  - apply Forall_bind. intros x Hx. by apply Hb.
Qed.

(** ** The metrics of each collector *)

Section collectors.
Context `{GoRange}.

Lemma range_keys {V} (m : gmap string V) : NoDup (fst <$> range m).
Proof. rewrite range_perm. apply NoDup_fst_map_to_list. Qed.

(** Metrics per socket, whose first label is the socket. *)
Lemma block_sockets {V} ds (m : gmap string V) (f : string * V → list metric) :
  (∀ kv x, x ∈ f kv → head (m_labels x) = Some kv.1) → (∀ kv, block ds (f kv)) →
  block ds (range m ≫= f).
Proof.
  intros Hh Hb. apply (block_bind ds (λ k, head k.2) fst); [|auto|apply range_keys].
  intros kv x _ Hx. by apply Hh.
Qed.

Lemma block_sockets_one {V} d (m : gmap string V) (v : string * V → float64) ls :
  S (length ls) = length (d_variableLabels d) →
  block [d] ((λ kv, const_metric d (v kv) (kv.1 :: ls)) <$> range m).
Proof.
  intros Hl.
  assert (((λ kv, const_metric d (v kv) (kv.1 :: ls)) <$> range m) =
          (range m ≫= λ kv, [const_metric d (v kv) (kv.1 :: ls)])) as ->.
  { induction (range m) as [|kv l IH]; csimpl; [done|]. by rewrite IH. }
  apply block_sockets; [|intros kv; by apply block_one].
  intros kv x ->%list_elem_of_singleton. done.
Qed.

Lemma block_sockets_two {V} d1 d2 (m : gmap string V) (v1 v2 : string * V → float64) ls :
  apart [d1] [d2] → S (length ls) = length (d_variableLabels d1) →
  S (length ls) = length (d_variableLabels d2) →
  block [d1; d2] (range m ≫= λ kv, [const_metric d1 (v1 kv) (kv.1 :: ls);
                                    const_metric d2 (v2 kv) (kv.1 :: ls)]).
Proof.
  intros Ha H1 H2. apply block_sockets.
  - intros kv x [->| ->%list_elem_of_singleton]%elem_of_cons; done.
  - intros kv. by apply block_cons, block_one.
Qed.

#[local] Ltac apart_by := by apply (bool_decide_unpack _); vm_compute.

Lemma container_metrics_block c cid s :
  block container_descs (container_metrics c cid s).
Proof.
  unfold container_metrics. set (p := processedStats s).
  set (labels := [cid; ContainerName (info_of c cid); PodName (info_of c cid); NameSpace (info_of c cid)]).
  apply (block_app [sumTotalMemoryBandwidthDesc; sumLocalMemoryBandwidthDesc;
    totalMemoryBandwidthDesc; localMemoryBandwidthDesc; sumLLCacheDesc; llcacheDesc]
    [cpuUtilizationDesc; memoryDesc]); [apart_by| |].
  - apply block_if, (block_app [sumTotalMemoryBandwidthDesc; sumLocalMemoryBandwidthDesc;
      totalMemoryBandwidthDesc; localMemoryBandwidthDesc] [sumLLCacheDesc; llcacheDesc]); [apart_by| |].
    + destruct (p_MemoryBandwidth p) as [mb|]; [|apply block_nil].
      apply block_cons; [done|apart_by|]. apply block_cons; [done|apart_by|].
      by apply block_sockets_two; [apart_by|..].
    + destruct (p_Cache p) as [cache|]; [|apply block_nil].
      apply block_cons; [done|apart_by|]. by apply (block_sockets_one llcacheDesc).
  - apply (block_app [cpuUtilizationDesc] [memoryDesc]); [apart_by| |];
      (apply block_if, block_one; done).
Qed.

(** The container of a metric: its fourth label from the end. *)
Lemma container_metrics_owner c cid s m :
  m ∈ container_metrics c cid s → reverse (m_labels m) !! 3 = Some cid.
Proof.
  unfold container_metrics. set (p := processedStats s).
  set (labels := [cid; ContainerName (info_of c cid); PodName (info_of c cid); NameSpace (info_of c cid)]).
  rewrite !elem_of_app. intros [Hm|[Hm|Hm]]; (case_match; [|by apply elem_of_nil in Hm]); revert Hm;
    [|by intros ->%list_elem_of_singleton..].
  rewrite elem_of_app. intros [Hm|Hm]; (case_match; [|by apply elem_of_nil in Hm]); revert Hm.
  - rewrite !elem_of_cons, list_elem_of_bind. intros [->|[->|(kv & Hkv & _)]]; [done..|].
    by apply elem_of_cons in Hkv as [->| ->%list_elem_of_singleton].
  - rewrite elem_of_cons, list_elem_of_fmap. by intros [->|(kv & -> & _)].
Qed.

Lemma container_block c : block container_descs (cc_Update c).
Proof.
  unfold cc_Update. apply (block_bind _ (λ k, reverse k.2 !! 3) fst); [|by intros; apply container_metrics_block|].
  - intros kv m _. apply container_metrics_owner.
  - apply range_keys.
Qed.

Lemma class_metric_list_block node cid p : block class_descs (class_metric_list node cid p).
Proof.
  unfold class_metric_list. do 3 (apply block_cons; [done|apart_by|]).
  apply (block_app [socketClassTotalMemoryBandwidthDesc; socketClassLocalMemoryBandwidthDesc]
    [socketClassLLCacheDesc]); [apart_by| |].
  - by apply block_sockets_two; [apart_by|..].
  - by apply (block_sockets_one socketClassLLCacheDesc).
Qed.

Lemma class_metric_list_owner node cid p m :
  m ∈ class_metric_list node cid p → reverse (m_labels m) !! 1 = Some cid.
Proof.
  unfold class_metric_list. rewrite !elem_of_cons, elem_of_app, list_elem_of_bind, list_elem_of_fmap.
  intros [->|[->|[->|[(kv & Hkv & _)|(kv & -> & _)]]]]; [done..| |done].
  by apply elem_of_cons in Hkv as [->| ->%list_elem_of_singleton].
Qed.

Lemma class_update_list_bind node es ms :
  class_update_list node es = Done ms →
  ms = es ≫= λ e, from_option (λ s, class_metric_list node e.1 (processedStats s)) [] e.2.
Proof.
  revert ms. induction es as [|[cid [s|]] es IH]; intros ms; csimpl; [by intros [= <-]| |done].
  destruct (class_update_list node es) as [ms'|m|]; [|done..]. intros [= <-]. by rewrite (IH ms').
Qed.

Lemma class_block c ms : class_Update c = Done ms → block class_descs ms.
Proof.
  unfold class_Update. destruct (isNeedCollectMbLLc _); [|intros [= <-]; apply block_nil].
  intros ->%class_update_list_bind.
  apply (block_bind _ (λ k, reverse k.2 !! 1) fst); [| |apply range_keys].
  - intros [cid [s|]] m _; simpl; [apply class_metric_list_owner|by intros ?%elem_of_nil].
  - intros [cid [s|]] _; simpl; [apply class_metric_list_block|apply block_nil].
Qed.

Lemma node_block c : block node_descs (node_Update c).
Proof.
  unfold node_Update. destruct (node_statsCache c) as [s|]; [|apply block_nil]. apply block_if.
  apply (block_mono [nodeTotalMemoryBandwidthDesc; nodeLocalMemoryBandwidthDesc; nodeLLCacheDesc;
    socketLLCacheDesc; socketTotalMemoryBandwidthDesc; socketLocalMemoryBandwidthDesc]); [set_solver|].
  do 3 (apply block_cons; [done|apart_by|]).
  apply (block_app [socketLLCacheDesc] [socketTotalMemoryBandwidthDesc; socketLocalMemoryBandwidthDesc]);
    [apart_by| |].
  - by apply (block_sockets_one socketLLCacheDesc).
  - by apply block_sockets_two; [apart_by|..].
Qed.
End collectors.

(** ** The objects of the registry are of the kind of their name *)

Section scrapes.
Context `{GoRange}.

Definition kind_of (c : any_collector) : string :=
  match c with
  | AContainer _ => containerCollectorSubsystem
  | AClass _ => classCollectorSubsystem
  | ANode _ => nodeCollectorSubsystem
  end.

Definition kinds_ok (r : registry) : Prop := Forall (λ o, kind_of o.2 = o.1) (objects r).

Definition kinds_kept (r r' : registry) : Prop := kinds_ok r → kinds_ok r'.
#[local] Instance kinds_kept_preorder : PreOrder kinds_kept.
Proof. unfold kinds_kept. split; [by intros r|]. intros r1 r2 r3. auto. Qed.

Lemma factory_kind fl key c : factory fl key = Done (inr c) → kind_of c = key.
Proof.
  unfold factory. repeat case_decide; try done; (destruct (_ fl); [|done]); intros [= <-]; by subst.
Qed.

Lemma new_object_kinds fl key : keeps kinds_kept (new_object fl key).
Proof.
  intros r Hr. unfold new_object, mbind, prog_bind, lift_outcome.
  destruct (factory fl key) as [[e|c]|m|] eqn:E; try done. simpl.
  apply Forall_app. split; [done|]. constructor; [|constructor]. by apply factory_kind in E.
Qed.

Lemma collect_keys_kinds fl f entries cs : keeps kinds_kept (collect_keys fl f entries cs).
Proof.
  revert cs. induction entries as [|[key enabled] entries IH]; intros cs; cbn [collect_keys].
  { apply keeps_ret, _. }
  case_decide; [apply IH|]. apply keeps_bind; [apply _|by intros r Hr|]. intros i.
  destruct (i !! key); [apply IH|]. apply keeps_bind; [apply _|apply new_object_kinds|].
  intros [e|n]; [apply keeps_ret, _|]. apply keeps_bind; [apply _|by intros r Hr|]. intros _. apply IH.
Qed.

Lemma NewCollector_kinds fl filters : keeps kinds_kept (NewCollector fl filters).
Proof.
  apply keeps_bind; [apply _|by intros r Hr|]. intros r. destruct (check_filters r filters ∅).
  - apply keeps_ret, _.
  - apply collect_keys_kinds.
Qed.

Lemma object_step_kind c c' : object_step c c' → kind_of c' = kind_of c.
Proof. by destruct 1. Qed.

Lemma reachable_kinds fl r : reg_reachable fl r → kinds_ok r.
Proof.
  induction 1 as [|r filters r' o _ IH E|r n key c c' _ IH En Hs].
  - destruct (parsed_state fl) as (_ & _ & Ho). unfold kinds_ok. rewrite Ho. constructor.
  - pose proof (NewCollector_kinds fl filters r IH) as Hk. by rewrite E in Hk.
  - unfold kinds_ok in *. simpl. apply Forall_insert; [done|]. simpl.
    rewrite (object_step_kind _ _ Hs). by apply (Forall_lookup_1 _ _ _ _ IH En).
Qed.

(** ** The metrics of a scrape *)

(** The descriptions of a collector's metrics, by its name. *)
Definition descs_of (key : string) : list desc :=
  if decide (key = containerCollectorSubsystem) then container_descs
  else if decide (key = classCollectorSubsystem) then class_descs
  else if decide (key = nodeCollectorSubsystem) then node_descs else [].

Definition all_descs : list desc := container_descs ++ class_descs ++ node_descs ++ [scrapeSuccessDesc].

(** The collector a metric comes from, from its name and labels. *)
Definition source_of (k : string * list string) : option string :=
  if decide (k.1 ∈ d_fqName <$> container_descs) then Some containerCollectorSubsystem
  else if decide (k.1 ∈ d_fqName <$> class_descs) then Some classCollectorSubsystem
  else if decide (k.1 ∈ d_fqName <$> node_descs) then Some nodeCollectorSubsystem
  else head k.2.

Lemma source_of_desc key d ls :
  d ∈ descs_of key → source_of (d_fqName d, ls) = Some key.
Proof.
  unfold descs_of. repeat case_decide; subst; try (by intros ?%elem_of_nil);
    unfold container_descs, class_descs, node_descs; rewrite !elem_of_cons, elem_of_nil;
    intros Hd; repeat (destruct Hd as [->|Hd]; [by vm_compute|]); done.
Qed.

Lemma update_block c ms e : Update c = Done (ms, e) → block (descs_of (kind_of c)) ms.
Proof.
  destruct c as [c|c|c]; simpl.
  - intros [= <- _]. apply container_block.
  - cbv [Update any_Collector class_Collector]. destruct (class_Update c) eqn:E; [|done..].
    intros [= <- _]. by apply class_block with c.
  - intros [= <- _]. apply node_block.
Qed.

Lemma descs_of_all key : apart (descs_of key) [scrapeSuccessDesc] ∧ descs_of key ⊆ all_descs.
Proof.
  unfold descs_of, all_descs.
  split; [repeat case_decide; apply (bool_decide_unpack _); vm_compute; exact I|].
  repeat case_decide; set_solver.
Qed.

(** The metrics of one collector of a scrape. *)
Lemma execute_block key c ms :
  kind_of c = key → execute key c = Done ms →
  block all_descs ms ∧ ∀ m, m ∈ ms → source_of (metric_key m) = Some key.
Proof.
  intros <-. unfold execute. destruct (Update c) as [[us e]|m|] eqn:E; [|done..]. intros [= <-].
  apply update_block in E as [Hu Hd]. destruct (descs_of_all (kind_of c)) as [Ha Hs]. split.
  - apply (block_mono (descs_of (kind_of c) ++ [scrapeSuccessDesc])).
    { intros d. rewrite elem_of_app. intros [Hx|Hx]; [by apply Hs|]. unfold all_descs. set_solver. }
    by apply block_app; [|split|apply block_one].
  - intros m [Hm|Hm]%elem_of_app.
    + rewrite Forall_forall in Hd. destruct (Hd m Hm) as (d & Hin & En & _).
      unfold metric_key. rewrite En. by apply source_of_desc.
    + apply list_elem_of_singleton in Hm as ->. by vm_compute.
Qed.

Lemma collect_all_block r es ms :
  kinds_ok r → (∀ key n, (key, n) ∈ es → (objects r).*1 !! n = Some key) → NoDup es.*1 →
  collect_all r es = Done ms →
  block all_descs ms ∧ ∀ m, m ∈ ms → ∃ key, key ∈ es.*1 ∧ source_of (metric_key m) = Some key.
Proof.
  intros Hk. revert ms. induction es as [|[key n] es IH]; intros ms Hes Hnd; csimpl.
  { intros [= <-]. split; [apply block_nil|]. by intros m ?%elem_of_nil. }
  apply NoDup_cons in Hnd as [Hnew Hnd].
  destruct (objects r !! n) as [[k c]|] eqn:En; [|done].
  pose proof (Hes key n ltac:(left)) as E. rewrite list_lookup_fmap, En in E. simpl in E.
  injection E as ->. pose proof (Forall_lookup_1 _ _ _ _ Hk En) as Hkind. simpl in Hkind.
  destruct (execute key c) as [ms1|m|] eqn:Ex; [|done..].
  destruct (collect_all r es) as [ms2|m|]; [|done..]. intros [= <-].
  destruct (execute_block key c ms1 Hkind Ex) as [[Hu1 Hd1] Hs1].
  destruct (IH ms2 ltac:(intros; apply Hes; by right) Hnd eq_refl) as [[Hu2 Hd2] Hs2].
  split; [split|].
  - unfold unique. rewrite fmap_app. apply NoDup_app. split; [done|]. split; [|done].
    intros x (m1 & -> & Hm1)%list_elem_of_fmap (m2 & Ek & Hm2)%list_elem_of_fmap.
    destruct (Hs2 m2 Hm2) as (key2 & Hin & E2). rewrite <- Ek, (Hs1 m1 Hm1) in E2.
    injection E2 as <-. done.
  - by apply Forall_app.
  - intros m [Hm|Hm]%elem_of_app.
    + exists key. split; [by left|auto].
    + destruct (Hs2 m Hm) as (key2 & ? & ?). exists key2. split; [by right|done].
Qed.

(** C30: every metric that a scrape collects, whatever the flags, the filters and what
    the collectors' goroutines did before, fits one of the descriptions of
    info.go: it has its name and as many labels, so that building it does not
    panic.  No two metrics of a scrape have the same name and the same labels,
    so that the registry accepts them. *)
Theorem scrape_metrics_described fl r filters r' cs ms :
  reg_reachable fl r → NewCollector fl filters r = (r', Done (inr cs)) → Collect cs r' = Done ms →
  Forall (described all_descs) ms ∧ unique ms.
Proof.
  intros Hr E Hc. assert (reg_reachable fl r') as Hr' by (by eapply reg_new).
  destruct (NewCollector_ok fl filters r (reachable_ok fl r Hr)) as [_ Hn]. rewrite E in Hn.
  destruct Hn as (_ & _ & Hrefs & _).
  destruct (collect_all_block r' (range cs) ms) as [[Hu Hd] _]; [by eapply reachable_kinds| | |done|done].
  - intros key n Hin. apply Hrefs. by apply elem_of_range.
  - rewrite range_perm. apply NoDup_fst_map_to_list.
Qed.
End scrapes.

(** ** A concrete scrape *)

Section witnesses.
#[local] Existing Instance list_range.

(** Readings of two sockets at a time. *)
Definition sockets (n t : string) : snapshot :=
  mkSnapshot (λ p, inr n) (λ p, None) (λ p, true) (λ p, None)
    (λ p, inr ["/sys/fs/resctrl/mon_data/mon_L3_00"; "/sys/fs/resctrl/mon_data/mon_L3_01"]) (λ p, t).

(** The node collector of the sample registry, after two readings. *)
Definition node_at_start : nodeCollector := NewNodeCollector "node1" "mb".
Definition node_once : nodeCollector :=
  (node_updateStats (sockets "1000000" "2024-05-01 10:00:00") node_at_start).1.
Definition node_twice : nodeCollector :=
  (node_updateStats (sockets "9000000" "2024-05-01 10:00:02") node_once).1.

Definition node_index : nat := default 0 (initiatedCollectors scraped !! "node").
Definition read_registry : registry :=
  set_object node_index "node" (ANode node_twice)
    (set_object node_index "node" (ANode node_once) scraped).

Lemma read_registry_reachable : reg_reachable demo_flags read_registry.
Proof.
  apply (reg_step _ _ _ _ (ANode node_once)); [|by vm_compute|apply step_node].
  apply (reg_step _ _ _ _ (ANode node_at_start)); [|by vm_compute|apply step_node].
  eapply (reg_new _ _ []); [apply reg_parsed|apply surjective_pairing].
Qed.

Definition scrape_of (r : registry) : list metric :=
  match NewCollector demo_flags [] r with
  | (r', Done (inr cs)) => match Collect cs r' with Done ms => ms | _ => [] end
  | _ => []
  end.

Lemma scrape_length : length (scrape_of read_registry) = 11.
Proof. vm_compute. reflexivity. Qed.

(** Three metrics of the node, three per socket, the success of two collectors. *)
Lemma scrape_metrics_described_witness :
  length (scrape_of read_registry) = 11 ∧
  Forall (described all_descs) (scrape_of read_registry) ∧ unique (scrape_of read_registry).
Proof.
  split; [exact scrape_length|]. pose proof scrape_length as El. unfold scrape_of in *.
  destruct (NewCollector demo_flags [] read_registry) as [r' [[e|cs]|m|]] eqn:E; try discriminate El.
  destruct (Collect cs r') as [ms|m|] eqn:Ec; try discriminate El.
  apply (scrape_metrics_described demo_flags read_registry [] r' cs ms read_registry_reachable E Ec).
Defined.
End witnesses.
