(* ===== verification/CollectorRounds.v ===== *)
(** * The class and the node collector's goroutines, access by access

    collector/{class,node}_collector.go: [Start] of the class collector runs a
    scan for classes and a round of readings side by side, that of the node
    collector a round of readings, each again and again; a scrape's [Update]
    comes at any time.  The class collector's goroutines share the map
    [statsCache], without a lock; those of the node collector share the pointer
    [statsCache], which a scrape follows once for every kind of metric.  Here
    these goroutines are programs of accesses (Accesses.v): run alone they are
    the steps of Collectors, and run together a class can be added while it is
    read, and the metrics of one scrape of the node come from several rounds. *)

From stdpp Require Import relations sorting.
From S2P Require Import Prelude GoStrings Float64 ExporterStats Metrics Collectors Accesses Goroutines.
From S2P Require Import ExporterTheorems MetricsTheorems.

(** ** The class collector *)

Inductive class_var := ClassStatsCacheMap.
Abbreviation class_goroutine := (goroutine classCollector class_var).

Definition GetClass {A} (class : string) (k : option (option stats) → class_goroutine A)
    : class_goroutine A := Read ClassStatsCacheMap (λ c, class_statsCache c !! class) k.
Definition SetClass {A} (class : string) (s : option stats) (k : class_goroutine A)
    : class_goroutine A :=
  Write ClassStatsCacheMap (λ c, set_classes c (<[class := s]> (class_statsCache c))) k.
Definition RangeClasses {A} (k : gmap string (option stats) → class_goroutine A)
    : class_goroutine A := Read ClassStatsCacheMap class_statsCache k.

Fixpoint go_add_classes (files : list (string * bool)) : class_goroutine (option error) :=
  match files with
  | [] => Return None
  | (dirName, isDir) :: rest =>
      if isDir then
        GetClass dirName (λ old,
          if decide (dirName ∉ excludeDirs ∧ old = None)
          then SetClass dirName None (go_add_classes rest) else go_add_classes rest)
      else go_add_classes rest
  end.

Definition go_updateClasses (ReadDir : error + list (string * bool)) : class_goroutine (option error) :=
  match ReadDir with
  | inl err => Return (Some err)
  | inr files => go_add_classes files
  end.

Section class.
Context `{GoRange}.
Context (mets : metrics) (node : string).

(** [c.statsCache[class]] is read to test it, and again for its [oldStats]. *)
Fixpoint go_update_classes (fs : snapshot) (classes : list string)
    : class_goroutine (outcome (option error)) :=
  match classes with
  | [] => Return (Done None)
  | class :: rest =>
      match read_class fs mets class with
      | inl e => Return (Done (Some e))
      | inr newStats =>
          GetClass class (λ old, match mjoin old with
            | Some _ =>
                GetClass class (λ old, match mjoin old with
                  | None => Return (Panic nil_deref)
                  | Some s =>
                      match processStats (oldStats s) newStats with
                      | inl e => Return (Done (Some e))
                      | inr pStats =>
                          SetClass class (Some (mkStats newStats pStats)) (go_update_classes fs rest)
                      end
                  end)
            | None =>
                SetClass class (Some (mkStats newStats zero_ProcessedStats)) (go_update_classes fs rest)
            end)
      end
  end.

Definition go_class_updateStats (fs : snapshot) : class_goroutine (outcome (option error)) :=
  RangeClasses (λ m, go_update_classes fs (range m).*1).

(** A scrape: the length of the cache, then its entries, whose statistics are
    not changed once they are stored. *)
Definition go_class_Update : class_goroutine (outcome (list metric)) :=
  RangeClasses (λ m,
    if decide (size m = 0) then Return (Done [])
    else if isNeedCollectMbLLc mets
         then RangeClasses (λ m, Return (class_update_list node (range m))) else Return (Done [])).
End class.

(** ** The node collector *)

Inductive node_var := NodeStatsCache.
Abbreviation node_goroutine := (goroutine nodeCollector node_var).

Definition GetNodeStats {A} (k : option stats → node_goroutine A) : node_goroutine A :=
  Read NodeStatsCache node_statsCache k.
Definition SetNodeStats {A} (s : stats) (k : node_goroutine A) : node_goroutine A :=
  Write NodeStatsCache (λ c, set_node_stats c s) k.

(** [c.statsCache.f], which follows the pointer. *)
Definition follow {A} (k : stats → node_goroutine (outcome A)) : node_goroutine (outcome A) :=
  GetNodeStats (λ o, match o with Some s => k s | None => Return (Panic nil_deref) end).

Section node.
Context `{GoRange}.
Context (mets : metrics) (path node : string).

Definition go_node_store (s : stats) : node_goroutine (outcome (option error)) :=
  SetNodeStats s (Return (Done None)).

Definition go_node_process (newStats : RawStats) : node_goroutine (outcome (option error)) :=
  follow (λ s, match processStats (oldStats s) newStats with
               | inl e => Return (Done (Some e))
               | inr pStats => go_node_store (mkStats newStats pStats)
               end).

Definition go_node_updateStats (fs : snapshot) : node_goroutine (outcome (option error)) :=
  match read_group fs mets path with
  | inl e => Return (Done (Some e))
  | inr newStats =>
      GetNodeStats (λ o, match o with
        | Some _ => go_node_process newStats
        | None => go_node_store (mkStats newStats zero_ProcessedStats)
        end)
  end.

(** The metrics of a scrape, in the pieces for which [c.statsCache] is read
    once. *)
Definition node_pieces : list (ProcessedStats → list metric) :=
  [λ p, [const_metric nodeTotalMemoryBandwidthDesc (TotalMBps (SumMemoryBandwidth p)) [node]];
   λ p, [const_metric nodeLocalMemoryBandwidthDesc (LocalMBps (SumMemoryBandwidth p)) [node]];
   λ p, [const_metric nodeLLCacheDesc (SumCache p) [node]];
   λ p, (λ kv, const_metric socketLLCacheDesc kv.2 [kv.1; node]) <$> range (default ∅ (p_Cache p));
   λ p, range (default ∅ (p_MemoryBandwidth p)) ≫= λ kv,
          [const_metric socketTotalMemoryBandwidthDesc (TotalMBps kv.2) [kv.1; node];
           const_metric socketLocalMemoryBandwidthDesc (LocalMBps kv.2) [kv.1; node]]].

Fixpoint go_pieces (pieces : list (ProcessedStats → list metric)) (acc : list metric)
    : node_goroutine (outcome (list metric)) :=
  match pieces with
  | [] => Return (Done acc)
  | f :: rest => follow (λ s, go_pieces rest (acc ++ f (processedStats s)))
  end.

Definition go_node_Update : node_goroutine (outcome (list metric)) :=
  GetNodeStats (λ o, match o with
    | None => Return (Done [])
    | Some _ => if isNeedCollectMbLLc mets then go_pieces node_pieces [] else Return (Done [])
    end).

(** The collector, its goroutine, a scrape, and the statistics the collector
    has held since the scrape began.  The goroutine goes on to another round
    when it has slept; scrapes only read, so one at a time shows what any
    number of them can see. *)
Record node_system := mkNS {
  ns_collector : nodeCollector;
  ns_round : node_goroutine (outcome (option error));
  ns_scrape : node_goroutine (outcome (list metric));
  ns_held : list stats
}.

Inductive node_move : node_system → node_system → Prop :=
  | round_begins fs c o g held :
      node_move (mkNS c (Return (Done o)) g held) (mkNS c (go_node_updateStats fs) g held)
  | round_moves c c' g g' h held :
      go_step g c = Some (g', c') →
      node_move (mkNS c g h held)
        (mkNS c' g' h (match next_access g with
                       | Some (_, true) => held ++ option_list (node_statsCache c')
                       | _ => held
                       end))
  | scrape_begins c g o held :
      node_move (mkNS c g (Return o) held) (mkNS c g go_node_Update (option_list (node_statsCache c)))
  | scrape_moves c g h h' c' held :
      go_step h c = Some (h', c') → node_move (mkNS c g h held) (mkNS c' g h' held).
End node.

(** ** Run alone, they are the steps of Collectors *)

Section alone.
Context `{GoRange}.

(** The result of a round that does not panic. *)
Definition done_result {C A} (r : C * A) : C * outcome A := (r.1, Done r.2).

Lemma set_classes_same c : set_classes c (class_statsCache c) = c.
Proof. by destruct c. Qed.

Lemma run_updateClasses ReadDir c : run_alone (go_updateClasses ReadDir) c = updateClasses ReadDir c.
Proof.
  destruct ReadDir as [e|files]; [done|]. simpl.
  revert c. induction files as [|[dirName []] files IH]; intros c; simpl;
    [by rewrite set_classes_same| |apply IH].
  case_decide; simpl; apply IH.
Qed.

Lemma run_class_updateStats fs c :
  run_alone (go_class_updateStats (class_metrics c) fs) c = done_result (class_updateStats fs c).
Proof.
  unfold class_updateStats. simpl. generalize (range (class_statsCache c)).*1. intros classes.
  revert c. induction classes as [|class classes IH]; intros c; simpl; [done|].
  destruct (read_class _ _ _) as [e|new]; [done|]. simpl.
  destruct (mjoin (class_statsCache c !! class)) as [s|] eqn:E; simpl; [|apply (IH (set_classes c _))].
  rewrite E. destruct (processStats _ _); [done|apply (IH (set_classes c _))].
Qed.

Lemma class_Update_empty c : size (class_statsCache c) = 0 → class_Update c = Done [].
Proof.
  intros E%map_size_empty_iff. unfold class_Update. rewrite E, range_empty. by destruct (isNeedCollectMbLLc _).
Qed.

Lemma run_class_Update c :
  run_alone (go_class_Update (class_metrics c) (class_nodeName c)) c = (c, class_Update c).
Proof.
  simpl. case_decide as E; [by rewrite (class_Update_empty c E)|].
  unfold class_Update. by destruct (isNeedCollectMbLLc _).
Qed.

Lemma run_node_updateStats fs c :
  run_alone (go_node_updateStats (node_metrics c) (monGroupPath c) fs) c =
    done_result (node_updateStats fs c).
Proof.
  unfold go_node_updateStats, node_updateStats. destruct (read_group _ _ _); [done|]. simpl.
  destruct (node_statsCache c) as [s|] eqn:E; simpl; [|done]. rewrite E. by destruct (processStats _ _).
Qed.

(** A scrape of the node from one reading per piece. *)
Definition pieces_of (pieces : list (ProcessedStats → list metric)) (ss : list stats) : list metric :=
  mjoin (zip_with (λ f s, f (processedStats s)) pieces ss).

Lemma node_Update_pieces c s :
  node_statsCache c = Some s → isNeedCollectMbLLc (node_metrics c) = true →
  node_Update c = pieces_of (node_pieces (node_nodeName c)) (replicate 5 s).
Proof.
  intros E Hm. unfold node_Update, pieces_of. rewrite E, Hm. cbn. by rewrite app_nil_r.
Qed.

Lemma run_pieces pieces acc c s :
  node_statsCache c = Some s →
  run_alone (go_pieces pieces acc) c =
    (c, Done (acc ++ pieces_of pieces (replicate (length pieces) s))).
Proof.
  intros E. revert acc. induction pieces as [|f pieces IH]; intros acc; simpl.
  - by rewrite app_nil_r.
  - rewrite E. rewrite IH. unfold pieces_of. simpl. by rewrite <- app_assoc.
Qed.

Lemma run_node_Update c :
  run_alone (go_node_Update (node_metrics c) (node_nodeName c)) c = done_result (c, node_Update c).
Proof.
  unfold go_node_Update, GetNodeStats. cbn [run_alone].
  destruct (node_statsCache c) as [s|] eqn:E; [|by unfold node_Update; rewrite E].
  destruct (isNeedCollectMbLLc _) eqn:Em; [|unfold node_Update; by rewrite E, Em].
  by rewrite (run_pieces _ _ _ s), (node_Update_pieces c s).
Qed.
End alone.

Section atomic.
Context `{GoRange}.

(** The model of the three collectors is their goroutines run one event at a
    time: alone, each access-by-access program gives the collector and the result
    of the corresponding operation; in particular no second reading of an entry
    or of the pointer finds nil. *)
Lemma events_are_atomic_runs c k n fs gfs we id rounds data ReadDir :
  (run_alone (go_housekeeping (cc_metrics c) fs id) c = tick_result (housekeeping fs id c) c ∧
   run_alone (go_processContainerData (cc_metrics c) (namespaceWhiteList c) (monTimes c) gfs data) c
     = processContainerData gfs data c ∧
   run_alone (go_updatePids fs we id rounds) c =
     match updatePids fs we id rounds c with
     | Some (c', rounds) => (c', Some rounds)
     | None => (c, None)
     end ∧
   run_alone (go_Update (cc_metrics c)) c = (c, cc_Update c)) ∧
  (run_alone (go_updateClasses ReadDir) k = updateClasses ReadDir k ∧
   run_alone (go_class_updateStats (class_metrics k) fs) k = done_result (class_updateStats fs k) ∧
   run_alone (go_class_Update (class_metrics k) (class_nodeName k)) k = (k, class_Update k)) ∧
  (run_alone (go_node_updateStats (node_metrics n) (monGroupPath n) fs) n
     = done_result (node_updateStats fs n) ∧
   run_alone (go_node_Update (node_metrics n) (node_nodeName n)) n = done_result (n, node_Update n)).
Proof.
  split_and!; [apply run_housekeeping|apply run_entries|apply run_updatePids|apply run_Update
    |apply run_updateClasses|apply run_class_updateStats|apply run_class_Update
    |apply run_node_updateStats|apply run_node_Update].
Qed.
End atomic.

(** ** Run together: the class collector *)

Section class_races.
Context `{GoRange}.

(** A directory that is not yet a class. *)
Definition new_class (c : classCollector) (files : list (string * bool)) (dirName : string) : Prop :=
  (dirName, true) ∈ files ∧ dirName ∉ excludeDirs ∧ class_statsCache c !! dirName = None.

Lemma advance_scan c files dirName :
  new_class c files dirName →
  ∃ f k, advance (go_updateClasses (inr files)) c = Write ClassStatsCacheMap f k.
Proof.
  simpl. intros (Hin & Hx & Hn). induction files as [|[d b] files IH]; [by apply elem_of_nil in Hin|].
  apply elem_of_cons in Hin. destruct b; simpl.
  - case_decide as Hd; [by eexists _, _|]. apply IH.
    destruct Hin as [[= ->]|?]; [tauto|done].
  - apply IH. by destruct Hin as [[=]|?].
Qed.

Lemma scan_keeps files m dirName v :
  m !! dirName = Some v → foldl add_class m files !! dirName = Some v.
Proof.
  revert m. induction files as [|[d []] files IH]; intros m Hm; simpl; [done| |by apply IH].
  apply IH. case_decide as Hd; [|done]. rewrite lookup_insert_ne; [done|]. intros ->. naive_solver.
Qed.

(** After the scan it is a class without statistics. *)
Lemma scanned_class c files dirName :
  new_class c files dirName →
  class_statsCache (updateClasses (inr files) c).1 !! dirName = Some None.
Proof.
  intros (Hin & Hx & Hn). simpl. revert Hin Hn. generalize (class_statsCache c).
  induction files as [|[d b] files IH]; intros m Hin Hn; [by apply elem_of_nil in Hin|].
  destruct (decide (d = dirName)) as [->|Hd].
  - destruct b; simpl; [rewrite decide_True by done; apply scan_keeps, lookup_insert_eq|].
    apply IH; [|done]. by apply elem_of_cons in Hin as [[=]|?].
  - apply elem_of_cons in Hin as [[= <- <-]|Hin]; [done|]. simpl. apply IH; [done|].
    destruct b; [|done]. case_decide; [by rewrite lookup_insert_ne|done].
Qed.

(** A round that stores the statistics of every class, of which there is at
    least one. *)
Definition class_round_stores (fs : snapshot) (c : classCollector) : Prop :=
  class_statsCache c ≠ ∅ ∧ (class_updateStats fs c).2 = None.

Lemma advance_class_round fs c :
  class_round_stores fs c →
  ∃ f k, advance (go_class_updateStats (class_metrics c) fs) c = Write ClassStatsCacheMap f k.
Proof.
  unfold class_round_stores, class_updateStats. intros [(class & s & Hs)%map_choose Hu]. simpl.
  apply elem_of_range in Hs. destruct (range (class_statsCache c)) as [|[cl s'] es].
  { by apply elem_of_nil in Hs. }
  clear Hs. simpl in *. destruct (read_class _ _ _) as [e|new]; [done|]. simpl.
  destruct (mjoin (class_statsCache c !! cl)) as [old|] eqn:E; simpl; [|by eexists _, _].
  rewrite E. simpl in Hu. destruct (processStats _ _); [done|by eexists _, _].
Qed.

Definition class_scan (files : list (string * bool)) : thread classCollector class_var :=
  Thread (go_updateClasses (inr files)).
Definition class_round (fs : snapshot) (c : classCollector) : thread classCollector class_var :=
  Thread (go_class_updateStats (class_metrics c) fs).
Definition class_scrape (c : classCollector) : thread classCollector class_var :=
  Thread (go_class_Update (class_metrics c) (class_nodeName c)).

(** C26: nothing orders the accesses of the goroutines to the collectors' maps. In the container collector, when the timers of two containers have fired and both rounds would store their statistics, the two goroutines can be about to write statsCache at the same time; a scrape can be reading it when a round is about to write it; and the arrival of a container is a write of containerInfos while any round is reading it. In the class collector the scan that has found a new class, the round that stores a reading and a scrape can meet in the same way, two by two. The Go runtime ends the process when it sees such a pair. Even without a collision, a scrape between the scan that found a class and its first reading dereferences nil. *)
Theorem collector_maps_race c k fs id files dirName :
  ((∀ id2 c1 c2, housekeeping fs id c = Done (c1, true) → housekeeping fs id2 c = Done (c2, true) →
      ∃ p, rtc pool_step (c, [tick fs id c; tick fs id2 c]) p ∧ race p) ∧
   (∀ c1, housekeeping fs id c = Done (c1, true) →
      ∃ p, rtc pool_step (c, [tick fs id c; Thread (go_Update (cc_metrics c))]) p ∧ race p) ∧
   (∀ gfs id2 i, namespaceWhiteList c = [] → Operation i = 1%Z →
      race (c, [tick fs id c; Thread (go_processContainerData (cc_metrics c) (namespaceWhiteList c)
                                        (monTimes c) gfs {[id2 := i]})]))) ∧
  ((new_class k files dirName → class_round_stores fs k →
      ∃ p, rtc pool_step (k, [class_scan files; class_round fs k]) p ∧ race p) ∧
   (class_round_stores fs k →
      ∃ p, rtc pool_step (k, [class_round fs k; class_scrape k]) p ∧ race p) ∧
   (new_class k files dirName →
      ∃ p, rtc pool_step (k, [class_scan files; class_scrape k]) p ∧ race p) ∧
   (new_class k files dirName → isNeedCollectMbLLc (class_metrics k) = true →
      class_Update (updateClasses (inr files) k).1 = Panic nil_deref)).
Proof.
  split_and!.
  - apply rounds_race.
  - apply round_scrape_race.
  - apply arrival_race.
  - intros (f1 & k1 & E1)%advance_scan (f2 & k2 & E2)%advance_class_round.
    exact (write_write_race _ _ _ _ _ _ _ _ E1 E2).
  - intros (f1 & k1 & E1)%advance_class_round. by apply (write_read_race _ _ _ _ _ _ E1).
  - intros (f1 & k1 & E1)%advance_scan. by apply (write_read_race _ _ _ _ _ _ E1).
  - intros Hnew Hm. apply class_scrape_panics_iff. split; [done|].
    exists dirName. by apply scanned_class.
Qed.
End class_races.

(** ** Run together: the node collector *)

Section node_rounds.
Context `{GoRange}.
Context (mets : metrics) (path node : string).

(** Readings of [held], in the order in which it got them. *)
Definition in_order (held ss : list stats) : Prop :=
  ∃ js, StronglySorted le js ∧ Forall2 (λ j s, held !! j = Some s) js ss.

(** A scrape whose pieces come, in order, from statistics of [held]. *)
Definition pieces_from (pieces : list (ProcessedStats → list metric)) (held : list stats)
    (ms : list metric) : Prop :=
  ∃ ss, length ss = length pieces ∧ in_order held ss ∧ ms = pieces_of pieces ss.

(** Where the round can be. *)
Inductive round_at (c : nodeCollector) : node_goroutine (outcome (option error)) → Prop :=
  | at_end o : round_at c (Return (Done o))
  | at_test new :
      round_at c (GetNodeStats (λ o, match o with
        | Some _ => go_node_process new
        | None => go_node_store (mkStats new zero_ProcessedStats)
        end))
  | at_process new : is_Some (node_statsCache c) → round_at c (go_node_process new)
  | at_store s : round_at c (go_node_store s).

(** Where the scrape can be. *)
Inductive scrape_at (c : nodeCollector) (held : list stats)
    : node_goroutine (outcome (list metric)) → Prop :=
  | scrape_nothing : scrape_at c held (Return (Done []))
  | scrape_begun : scrape_at c held (go_node_Update mets node)
  | scrape_piece before rest acc :
      is_Some (node_statsCache c) → node_pieces node = before ++ rest →
      pieces_from before held acc → scrape_at c held (go_pieces rest acc).

Record node_inv (s : node_system) : Prop := {
  inv_round : round_at (ns_collector s) (ns_round s);
  inv_scrape : scrape_at (ns_collector s) (ns_held s) (ns_scrape s);
  inv_held : last (ns_held s) = node_statsCache (ns_collector s);
  inv_metrics : node_metrics (ns_collector s) = mets;
  inv_path : monGroupPath (ns_collector s) = path
}.

Lemma round_at_start c fs : round_at c (go_node_updateStats mets path fs).
Proof. unfold go_node_updateStats. destruct (read_group _ _ _); constructor. Qed.

Lemma pieces_from_grows pieces held held' ms :
  held `prefix_of` held' → pieces_from pieces held ms → pieces_from pieces held' ms.
Proof.
  intros Hp (ss & Hl & (js & Hs & Hf) & ->). exists ss. split_and!; [done| |done].
  exists js. split; [done|]. eapply Forall2_impl; [exact Hf|]. intros j s Hj. simpl in *.
  by eapply prefix_lookup_Some.
Qed.

Lemma pieces_of_snoc pieces ss f s :
  length ss = length pieces →
  pieces_of (pieces ++ [f]) (ss ++ [s]) = pieces_of pieces ss ++ f (processedStats s).
Proof.
  intros Hl. unfold pieces_of. rewrite zip_with_app by done. simpl.
  rewrite join_app. simpl. by rewrite app_nil_r.
Qed.

Lemma pieces_from_snoc pieces held acc f s :
  pieces_from pieces held acc → last held = Some s →
  pieces_from (pieces ++ [f]) held (acc ++ f (processedStats s)).
Proof.
  intros (ss & Hl & (js & Hs & Hf) & ->) Hlast. exists (ss ++ [s]).
  split_and!; [rewrite !length_app; simpl; lia| |by rewrite pieces_of_snoc].
  exists (js ++ [Nat.pred (length held)]). split.
  - apply StronglySorted_app. split_and!; [|done|by repeat constructor].
    intros j n Hj ->%list_elem_of_singleton.
    apply list_elem_of_lookup in Hj as [b Hb].
    destruct (Forall2_lookup_l _ _ _ _ _ Hf Hb) as (s' & _ & Hl'). apply lookup_lt_Some in Hl'. lia.
  - apply Forall2_app; [done|]. constructor; [|done]. by rewrite <- last_lookup.
Qed.

Lemma scrape_at_grows c c' held held' h :
  held `prefix_of` held' → (is_Some (node_statsCache c) → is_Some (node_statsCache c')) →
  scrape_at c held h → scrape_at c' held' h.
Proof.
  intros Hp Hc [| |before rest acc Hs Hn Ha]; [constructor..|].
  apply (scrape_piece _ _ before); eauto using pieces_from_grows.
Qed.

(** The moves keep everything in its place. *)
Lemma round_step c g g' c' :
  round_at c g → go_step g c = Some (g', c') →
  round_at c' g' ∧
  ((∃ s, g = go_node_store s ∧ c' = set_node_stats c s) ∨ (∀ m, next_access g ≠ Some (m, true)) ∧ c' = c).
Proof.
  intros [o|new|new [s Hs]|s]; simpl; [done| | |].
  - intros [= <- <-]. split; [|by right].
    destruct (node_statsCache c) eqn:E; [|constructor]. constructor. by rewrite E.
  - intros [= <- <-]. rewrite Hs. split; [|by right]. destruct (processStats _ _); constructor.
  - intros [= <- <-]. split; [constructor|]. left. by exists s.
Qed.

Lemma scrape_step c held h h' c' :
  last held = node_statsCache c → scrape_at c held h → go_step h c = Some (h', c') →
  scrape_at c held h' ∧ c' = c.
Proof.
  intros Hl [| |before rest acc [s Hs] Hn Ha]; [done| |].
  - unfold go_node_Update, GetNodeStats. cbn [go_step]. intros [= <- <-]. split; [|done]. destruct (node_statsCache c) as [s|] eqn:E; [|constructor].
    destruct (isNeedCollectMbLLc mets); [|constructor].
    apply (scrape_piece _ _ [] (node_pieces node) []); [by rewrite E|done|]. exists []. split_and!; [done| |done].
    exists []. split; constructor.
  - destruct rest as [|f rest]; [done|]. simpl. intros [= <- <-]. rewrite Hs. split; [|done].
    apply (scrape_piece _ _ (before ++ [f])); [by rewrite Hs|by rewrite <- app_assoc|].
    apply pieces_from_snoc; [done|]. by rewrite Hl.
Qed.

Lemma node_move_inv s s' : node_move mets path node s s' → node_inv s → node_inv s'.
Proof.
  intros Hm [Hr Hs Hl Em Ep].
  destruct Hm as [fs c o h held|c c' g g' h held Hg|c g o held|c g h h' c' held Hh]; simpl in *.
  - split; try done. simpl. apply round_at_start.
  - destruct (round_step c g g' c' Hr Hg) as [Hr' [(s & -> & ->)|[Hn ->]]].
    + split; simpl; try done; [|by rewrite last_snoc].
      eapply scrape_at_grows; [| |exact Hs]; [by apply prefix_app_r|done].
    + assert (match next_access g with Some (_, true) => held ++ option_list (node_statsCache c) | _ => held end
        = held) as ->; [|by split]. specialize (Hn NodeStatsCache).
      by destruct (next_access g) as [[[] []]|].
  - split; simpl; try done; [constructor|by destruct (node_statsCache c)].
  - destruct (scrape_step c held h h' c' Hl Hs Hh) as [Hs' ->]. by split.
Qed.

(** What is left of a round or of a scrape ends, alone. *)
Lemma round_ends c g : round_at c g → ∃ o, (run_alone g c).2 = Done o.
Proof.
  revert c. induction g as [a|m X f k IH|m f k IH|f k IH]; intros c Hg; simpl.
  - inversion Hg; subst; eauto.
  - apply IH. by apply (round_step c _ _ c Hg).
  - apply IH. by apply (round_step c _ _ (f c) Hg).
  - apply IH. by apply (round_step c _ _ (f c) Hg).
Qed.

Lemma scrape_ends c held h :
  last held = node_statsCache c → scrape_at c held h →
  ∃ ms, (run_alone h c).2 = Done ms ∧ (ms = [] ∨ pieces_from (node_pieces node) held ms).
Proof.
  intros Hl. revert c Hl. induction h as [o|m X f k IH|m f k IH|f k IH]; intros c Hl Hh; simpl.
  - inversion Hh as [E|E|before rest acc Hs Hn Ha E]; subst; [by eexists; auto|].
    destruct rest as [|r rest]; [|done]. injection E as <-. rewrite app_nil_r in Hn. subst. eauto.
  - apply IH; [done|]. by apply (scrape_step c held _ _ c Hl Hh).
  - destruct (scrape_step c held _ k (f c) Hl Hh eq_refl) as [Hk E]. rewrite E in *. by apply IH.
  - destruct (scrape_step c held _ k (f c) Hl Hh eq_refl) as [Hk E]. rewrite E in *. by apply IH.
Qed.

(** Moves of the round alone, and of the scrape alone. *)
Lemma round_runs g c h held :
  ∃ held', rtc (node_move mets path node) (mkNS c g h held)
    (mkNS (run_alone g c).1 (Return (run_alone g c).2) h held').
Proof.
  revert c held. induction g as [a|m X f k IH|m f k IH|f k IH]; intros c held; simpl; [by exists held|..].
  - destruct (IH (f c) c held) as [held' Hk]. exists held'. eapply rtc_l; [|exact Hk].
    by apply round_moves.
  - destruct (IH (f c) (held ++ option_list (node_statsCache (f c)))) as [held' Hk]. exists held'.
    eapply rtc_l; [|exact Hk]. by apply (round_moves _ _ _ c (f c) (Write m f k)).
  - destruct (IH (f c) held) as [held' Hk]. exists held'. eapply rtc_l; [|exact Hk].
    by apply (round_moves _ _ _ c (f c) (Local f k)).
Qed.

Lemma scrape_runs h c g held :
  rtc (node_move mets path node) (mkNS c g h held)
    (mkNS (run_alone h c).1 g (Return (run_alone h c).2) held).
Proof.
  revert c. induction h as [a|m X f k IH|m f k IH|f k IH]; intros c; simpl; [done|..];
    (eapply rtc_l; [by apply scrape_moves|apply IH]).
Qed.

(** The first pieces of a scrape. *)
Lemma scrape_first_pieces i pieces acc c g held s :
  node_statsCache c = Some s → i <= length pieces →
  rtc (node_move mets path node) (mkNS c g (go_pieces pieces acc) held)
    (mkNS c g (go_pieces (drop i pieces) (acc ++ pieces_of (take i pieces) (replicate i s))) held).
Proof.
  intros Hs. revert pieces acc. induction i as [|i IH]; intros [|f pieces] acc Hi; simpl in *;
    try (by rewrite app_nil_r || lia).
  eapply rtc_l; [by apply scrape_moves|]. rewrite Hs.
  etrans; [apply IH; lia|]. unfold pieces_of. simpl. by rewrite <- app_assoc.
Qed.

(** A scrape during which a round replaces the statistics. *)
Lemma scrape_mixes fs c g old new c' o o' held i :
  node_metrics c = mets → monGroupPath c = path →
  isNeedCollectMbLLc mets = true → node_statsCache c = Some old →
  node_updateStats fs c = (c', None) → node_statsCache c' = Some new → i <= 5 →
  g = Return (Done o) →
  ∃ s', rtc (node_move mets path node) (mkNS c g (Return o') held) s' ∧
    ns_scrape s' = Return (Done (pieces_of (node_pieces node) (replicate i old ++ replicate (5 - i) new))).
Proof.
  intros Em Ep Hn Ho Hu Hc Hi ->.
  pose proof (run_node_updateStats fs c) as Hrun. rewrite Em, Ep, Hu in Hrun.
  destruct (round_runs (go_node_updateStats mets path fs) c (go_pieces (drop i (node_pieces node))
    (pieces_of (take i (node_pieces node)) (replicate i old))) (option_list (node_statsCache c)))
    as [held' Hround]. rewrite Hrun in Hround.
  eexists. split.
  - eapply rtc_l; [apply scrape_begins|]. eapply rtc_l; [by apply scrape_moves|].
    cbn beta. rewrite Ho, Hn.
    etrans; [exact (scrape_first_pieces i (node_pieces node) [] c _ _ old Ho Hi)|].
    eapply rtc_l; [apply (round_begins _ _ _ fs)|]. rewrite Ho in Hround.
    etrans; [exact Hround|]. apply scrape_runs.
  - cbn [ns_scrape]. rewrite (run_pieces _ _ _ new Hc). cbn [snd]. do 2 f_equal.
    rewrite length_drop. unfold pieces_of. rewrite <- join_app, <- zip_with_app.
    + by rewrite take_drop.
    + by rewrite length_take, length_replicate, Nat.min_l.
Qed.
End node_rounds.

Section node_scrapes.
Context `{GoRange}.

(** The node collector from its creation with the given flags on. *)
Definition node_start (node flag : string) : node_system :=
  mkNS (NewNodeCollector node flag) (Return (Done None)) (Return (Done [])) [].
Definition node_moves (node flag : string) : node_system → node_system → Prop :=
  node_move (node_metrics (NewNodeCollector node flag)) rootResctrlPath node.

Lemma node_reachable_inv node flag s :
  rtc (node_moves node flag) (node_start node flag) s →
  node_inv (node_metrics (NewNodeCollector node flag)) rootResctrlPath node s.
Proof.
  apply rtc_ind_r; [by repeat constructor|]. intros s1 s2 _ Hm. by apply node_move_inv.
Qed.

(** C27: rounds and scrapes of the node collector, interleaved access by access from the start of the collector: neither a round nor a scrape ever follows a nil pointer, what is left of them always ends, and a scrape ends with no metrics or with all of them, each piece computed from statistics the collector held since the scrape began, in that order. Nothing more holds: whenever a reading replaces another one during a scrape, the scrape can give any first part of its metrics from the old reading and the rest from the new one, for instance the total bandwidth of one round with the local bandwidth of another. *)
Theorem node_scrape_mixes_rounds node flag s :
  rtc (node_moves node flag) (node_start node flag) s →
  let c := ns_collector s in
  (∃ o, (run_alone (ns_round s) c).2 = Done o) ∧
  (∃ ms, (run_alone (ns_scrape s) c).2 = Done ms ∧
         (ms = [] ∨ pieces_from (node_pieces node) (ns_held s) ms)) ∧
  (∀ fs old new c' o o' i,
     ns_round s = Return (Done o) → ns_scrape s = Return o' →
     isNeedCollectMbLLc (node_metrics c) = true → node_statsCache c = Some old →
     node_updateStats fs c = (c', None) → node_statsCache c' = Some new → i <= 5 →
     ∃ s', rtc (node_moves node flag) s s' ∧
       ns_scrape s' = Return (Done (pieces_of (node_pieces node)
                                      (replicate i old ++ replicate (5 - i) new)))).
Proof.
  intros Hr c. destruct (node_reachable_inv node flag s Hr) as [Hg Hh Hl Em Ep]. subst c.
  split_and!; [by apply round_ends|by eapply scrape_ends|].
  destruct s as [c g h held]. cbn [ns_collector ns_round ns_scrape] in *.
  intros fs old new c' o o' i Eg -> Hn Ho Hu Hc Hi. rewrite Em in Hn. by eapply scrape_mixes.
Qed.
End node_scrapes.

(** ** Concrete goroutines *)

Section witnesses.
#[local] Existing Instance list_range.

(** Two containers whose memory is measured. *)
Definition memory_files : snapshot :=
  mkSnapshot (λ p, inr "4096") (λ p, None) (λ p, true) (λ p, None) (λ p, inr []) (λ p, "").
Definition demo_container (id : string) : ContainerInfo :=
  mkInfo 1 "app" id "pod" "ns" ("/sys/fs/cgroup/" +:+ id) ("/sys/fs/resctrl/mon_groups/" +:+ id).
Definition two_containers : containerCollector :=
  (processContainerData (mkGroupFs (λ p, IsDir) (λ p, None))
     {["c1" := demo_container "c1"; "c2" := demo_container "c2"]}
     (NewContainerCollector "" "memory" 1)).1.

(** A class that has been read once, and the scan that finds another one. *)
Definition one_class : classCollector :=
  (class_updateStats (sockets "1000000" "2024-05-01 10:00:00")
     (updateClasses (inr [("info", true); ("gold", true)]) (NewClassCollector "node1" "mb")).1).1.
Definition class_files : list (string * bool) :=
  [("info", true); ("schemata", false); ("gold", true); ("silver", true)].
Definition later_files : snapshot := sockets "9000000" "2024-05-01 10:00:02".

Lemma silver_is_new : new_class one_class class_files "silver".
Proof. split_and!; [apply list_elem_of_lookup; by exists 3|by apply (bool_decide_unpack _)|by vm_compute]. Qed.

Lemma one_class_stores : class_round_stores later_files one_class.
Proof. split; [|by vm_compute]. intros E. apply (f_equal size) in E. by vm_compute in E. Qed.

Lemma collector_maps_race_witness :
  (∃ p, rtc pool_step (two_containers, [tick memory_files "c1" two_containers;
                                        tick memory_files "c2" two_containers]) p ∧ race p) ∧
  (∃ p, rtc pool_step (two_containers, [tick memory_files "c1" two_containers;
                                        Thread (go_Update (cc_metrics two_containers))]) p ∧ race p) ∧
  (∃ p, rtc pool_step (one_class, [class_scan class_files; class_round later_files one_class]) p ∧ race p) ∧
  class_Update (updateClasses (inr class_files) one_class).1 = Panic nil_deref.
Proof.
  destruct (housekeeping memory_files "c1" two_containers) as [[c1 [|]]|m|] eqn:E1;
    [|by vm_compute in E1..].
  destruct (housekeeping memory_files "c2" two_containers) as [[c2 [|]]|m|] eqn:E2;
    [|by vm_compute in E2..].
  destruct (collector_maps_race two_containers one_class memory_files "c1" class_files "silver")
    as [(H2 & H3 & _) (_ & _ & _ & H7)].
  destruct (collector_maps_race two_containers one_class later_files "c1" class_files "silver")
    as [_ (H4 & _)].
  split; [exact (H2 "c2" c1 c2 E1 E2)|]. split; [exact (H3 c1 E1)|].
  split; [exact (H4 silver_is_new one_class_stores)|]. exact (H7 silver_is_new eq_refl).
Defined.

(** The node's collector after its first round. *)
Definition first_reading : stats := default (mkStats zero_RawStats zero_ProcessedStats)
  (node_statsCache node_once).
Definition second_reading : stats := default (mkStats zero_RawStats zero_ProcessedStats)
  (node_statsCache node_twice).

Lemma after_one_round : ∃ held,
  rtc (node_moves "node1" "mb") (node_start "node1" "mb")
    (mkNS node_once (Return (Done None)) (Return (Done [])) held).
Proof.
  destruct (round_runs (node_metrics node_at_start) rootResctrlPath "node1"
    (go_node_updateStats (node_metrics node_at_start) rootResctrlPath
       (sockets "1000000" "2024-05-01 10:00:00")) node_at_start (Return (Done [])) []) as [held Hr].
  exists held. eapply rtc_l; [apply (round_begins _ _ _ (sockets "1000000" "2024-05-01 10:00:00"))|].
  pose proof (run_node_updateStats (sockets "1000000" "2024-05-01 10:00:00") node_at_start) as E.
  change (monGroupPath node_at_start) with rootResctrlPath in E. rewrite E in Hr. exact Hr.
Qed.

(** The sum of the total bandwidth of the first round, 0, and that of the local
    bandwidth of the second one, 8. *)
Lemma mixed_values :
  take 2 (m_value <$> pieces_of (node_pieces "node1") (replicate 1 first_reading ++ replicate 4 second_reading))
  = [f64_of_Z 0; f64_of_Z 8].
Proof. vm_compute. reflexivity. Qed.

Lemma node_scrape_mixes_rounds_witness :
  ∃ s' ms, rtc (node_moves "node1" "mb") (node_start "node1" "mb") s' ∧
    ns_scrape s' = Return (Done ms) ∧ take 2 (m_value <$> ms) = [f64_of_Z 0; f64_of_Z 8].
Proof.
  destruct after_one_round as [held Hr].
  destruct (node_scrape_mixes_rounds "node1" "mb" _ Hr) as (_ & _ & Hmix).
  destruct (Hmix (sockets "9000000" "2024-05-01 10:00:02") first_reading second_reading node_twice
    None (Done []) 1) as (s' & Hs' & Es'); try reflexivity; [by vm_compute..|lia|].
  exists s', (pieces_of (node_pieces "node1") (replicate 1 first_reading ++ replicate 4 second_reading)).
  split; [by etrans|]. split; [exact Es'|]. exact mixed_values.
Defined.
End witnesses.
