(* ===== verification/ExporterMain.v ===== *)
(** * The exporter's entry point

    cmd/main.go and the plugin's [Run] (plugin/hook-injector.go): the handler of
    the metrics path, which serves the prepared handler of all collectors or
    builds one for the filters of the request, and how [main] puts the flags,
    the plugin and the server together.  A running exporter is a system of
    scrapes: each reads its collectors one by one, in any order, while the
    collectors' goroutines and other requests go on; promhttp counts the scrapes
    of a handler that are running and refuses more than its limit.  One reading
    of a collector is one step here: what happens when its accesses overlap those
    of the collector's goroutines is in CollectorRounds and ContainerRounds.  The
    libraries (prometheus, promhttp, the NRI stub and its hook manager, the web
    toolkit) are parameters; log lines and the version are left out. *)

From Stdlib Require Import Ascii.
From S2P Require Import Prelude GoStrings Float64 ExporterStats Metrics Collectors Registry.
From S2P Require Import ExporterTheorems HttpWriter.

#[local] Open Scope prog_scope.

(** ** The handler *)

(** What [promhttp.HandlerFor] is given: the collectors of the [MBCollector] its
    registry holds, whether the exporter's own metrics are added, the limit. *)
Record prom_handler := mkProm {
  ph_collectors : gmap string nat;
  ph_exporter_metrics : bool;
  ph_maxRequests : Z
}.

Record handler := mkHandler {
  unfilteredHandler : prom_handler;
  includeExporterMetrics : bool;
  maxRequests : Z
}.

(** Code outside the repository: the error of registering a collector with
    given descriptions in a new registry, how a promhttp handler answers with the
    metrics collected and when its limit of requests is running. *)
Class PromEnv := {
  register_error : list desc → option error;
  prom_serve : prom_handler → list metric → writer → writer;
  prom_busy : prom_handler → writer → writer
}.

Section handlers.
Context `{GoRange} `{PromEnv}.

Definition innerHandler (fl : flags) (include : bool) (max : Z) (filters : list string)
    : prog registry (error + prom_handler) :=
  nc ←? NewCollector fl filters wrapped (λ e, "couldn't create collector: " +:+ e);
  mret (match register_error Describe with
        | Some err => inl ("couldn't register collector: " +:+ err)
        | None => inr (mkProm nc include max)
        end).

Definition newHandler (fl : flags) (include : bool) (max : Z) : prog registry handler :=
  inner ← innerHandler fl include max [];
  match inner with
  | inl err => lift_outcome (Panic ("Couldn't create metrics handler: " +:+ err))
  | inr h => mret (mkHandler h include max)
  end.

(** What becomes of a request: an answer, or a scrape of the collectors of a
    promhttp handler. *)
Inductive request_plan := Answered (w : writer) | Scrapes (ph : prom_handler).

(** A promhttp handler of which [inFlight] requests are running. *)
Definition prom_ServeHTTP (ph : prom_handler) (inFlight : Z) (w : writer) : request_plan :=
  if decide (0 < ph_maxRequests ph <= inFlight)%Z then Answered (prom_busy ph w) else Scrapes ph.

(** [ServeHTTP], from the values of the query's [collect[]] and the number of
    running requests of the unfiltered handler; a filtered handler is new. *)
Definition ServeHTTP (fl : flags) (h : handler) (inFlight : Z) (filters : list string) (w : writer)
    : prog registry request_plan :=
  match filters with
  | [] => mret (prom_ServeHTTP (unfilteredHandler h) inFlight w)
  | _ =>
      inner ← innerHandler fl (includeExporterMetrics h) (maxRequests h) filters;
      match inner with
      | inl err =>
          mret (Answered
            (write_piece ("Couldn't create filtered metrics handler: " +:+ err) (write_header 400 w)))
      | inr filteredHandler => mret (prom_ServeHTTP filteredHandler 0 w)
      end
  end.
End handlers.

(** ** The plugin *)

Inductive stub_option := WithPluginName (name : string) | WithPluginIdx (idx : string).

(** The stub, the hook manager and the directories. *)
Class PluginEnv (manager : Type) := {
  stub_New : list stub_option → option error;
  hooks_New : list string → error + manager;
  OverrideDir : string;
  os_MkdirAll : string → option error;
  (** the first value [Monitor] sends *)
  monitor_sync : manager → list string → option error;
  stub_Run : manager → option error
}.

Record plugin := mkPlugin { PluginName : string; PluginIdx : string; DisableWatch : bool }.

Section run.
Context {manager : Type} `{PluginEnv manager}.

(** The package variable [isNeedMakeMonitorGroup] and the plugin's manager. *)
Record plugin_state := mkPS { ps_need : bool; ps_Mgr : option manager }.

Fixpoint make_dirs (dirs : list string) : option error :=
  match dirs with
  | [] => None
  | dir :: rest =>
      match os_MkdirAll dir with
      | Some err => Some ("failed to create directory " +:+ go_quote dir +:+ ": " +:+ err)
      | None => make_dirs rest
      end
  end.

Definition start_watch (p : plugin) (mgr : manager) (dirs : list string) : option error :=
  if DisableWatch p then None
  else
    match make_dirs dirs with
    | Some err => Some err
    | None =>
        match monitor_sync mgr dirs with
        | Some err => Some ("failed to monitor hook directories: " +:+ err)
        | None => None
        end
    end.

Definition plugin_options (p : plugin) : list stub_option :=
  (if decide (PluginName p = "") then [] else [WithPluginName (PluginName p)]) ++
  (if decide (PluginIdx p = "") then [] else [WithPluginIdx (PluginIdx p)]).

Definition Run (p : plugin) (isNeed : bool) (st : plugin_state) : plugin_state * option error :=
  let st := mkPS isNeed (ps_Mgr st) in
  match stub_New (plugin_options p) with
  | Some err => (st, Some ("failed to create plugin stub: " +:+ err))
  | None =>
      let dirs := [OverrideDir] in
      match hooks_New dirs with
      | inl err => (st, Some ("failed to set up hook manager: " +:+ err))
      | inr mgr =>
          let st := mkPS isNeed (Some mgr) in
          match start_watch p mgr dirs with
          | Some err => (st, Some err)
          | None =>
              match stub_Run mgr with
              | Some err => (st, Some ("plugin exited with error " +:+ err))
              | None => (st, None)
              end
          end
      end
  end.
End run.

(** ** main *)

(** The values of the flags of main.go, and of the collectors' flags. *)
Record main_flags := mkMain {
  metricsPath : string;
  disableExporterMetrics : bool;
  maxRequestsFlag : Z;
  maxProcs : Z;
  pluginName : string;
  pluginIdx : string;
  disableWatch : bool;
  collector_flags : flags
}.

Inductive route := MetricsRoute (h : handler) | LandingRoute (link : string).

(** Their defaults (those of the collectors' flags are in common.go). *)
Definition default_main_flags : main_flags :=
  mkMain "/metrics" true 40 1 "mb-nri-plugin" "11" false
    (mkFlags (Some "all") (Some "none") (Some "none") "" 10 "").

(** The process: the collectors, the routes of the default mux, the call of
    [Run] in its own goroutine, whose error is only logged. *)
Record process := mkProcess {
  p_GOMAXPROCS : Z;
  p_registry : registry;
  p_mux : list (string * route);
  p_plugin : option (plugin * bool)
}.

Definition new_process (procs : Z) : process := mkProcess procs init_registry [] None.

(** [runtime.GOMAXPROCS(n)]: no change below 1. *)
Definition GOMAXPROCS (n : Z) : prog process unit :=
  modify (λ s, mkProcess (if decide (n < 1)%Z then p_GOMAXPROCS s else n)
                 (p_registry s) (p_mux s) (p_plugin s)).

(** The web toolkit: the error of the landing page, and what the server ends
    with. *)
Class ServerEnv := { landing_error : option error; listen_error : option error }.

(** [os.Exit(1)] before the server starts, or the end of the server (with an
    error: [os.Exit(1)]). *)
Inductive exporter_end := Exit1 | Listened (err : option error).

Definition in_registry {A} (p : prog registry A) : prog process A := λ s,
  let '(r, o) := p (p_registry s) in (mkProcess (p_GOMAXPROCS s) r (p_mux s) (p_plugin s), o).

(** [http.Handle] on a pattern without method, blanks or wildcards. *)
Definition http_Handle (pattern : string) (rt : route) : prog process unit := λ s,
  if decide (pattern = "") then (s, Panic "http: invalid pattern")
  else if str_contains pattern "/" then
    if decide (pattern ∈ (p_mux s).*1) then (s, Panic "http: pattern conflicts")
    else (mkProcess (p_GOMAXPROCS s) (p_registry s) (p_mux s ++ [(pattern, rt)]) (p_plugin s), Done tt)
  else (s, Panic "http: invalid pattern").

Section main.
Context `{GoRange} `{PromEnv} `{ServerEnv}.

Definition exporter_main (mf : main_flags) : prog process exporter_end :=
  let fl := collector_flags mf in
  _ ← GOMAXPROCS (maxProcs mf);
  isNeedMakeMonitorGroup ← in_registry (λ r,
    let '(r, b) := ParseCollectorMetrics fl r in (r, Done b));
  _ ← modify (λ s, mkProcess (p_GOMAXPROCS s) (p_registry s) (p_mux s)
        (Some (mkPlugin (pluginName mf) (pluginIdx mf) (disableWatch mf), isNeedMakeMonitorGroup)));
  h ← in_registry (newHandler fl (negb (disableExporterMetrics mf)) (maxRequestsFlag mf));
  _ ← http_Handle (metricsPath mf) (MetricsRoute h);
  if decide (metricsPath mf = "/") then mret (Listened listen_error)
  else
    match landing_error with
    | Some _ => mret Exit1
    | None =>
        _ ← http_Handle "/" (LandingRoute (metricsPath mf));
        mret (Listened listen_error)
    end.

End main.

(** ** A running exporter *)

(** A scrape: its request, the handler, the collectors it has still to read and
    the metrics it has collected. *)
Record scrape := mkScrape {
  sc_filters : list string;
  sc_writer : writer;
  sc_handler : prom_handler;
  sc_left : list (string * nat);
  sc_metrics : list metric
}.

(** The collectors, the running scrapes, and the requests that were answered:
    their filters, their writer before and after. *)
Record server := mkServer {
  sv_registry : registry;
  sv_scrapes : list scrape;
  sv_answers : list (list string * writer * writer)
}.

(** The running requests of the unfiltered handler. *)
Definition in_flight (s : server) : Z :=
  Z.of_nat (length (filter (λ sc, sc_filters sc = []) (sv_scrapes s))).

Section serving.
Context `{GoRange} `{PromEnv} `{ServerEnv}.

(** A request comes; a scrape reads one of its collectors, or has read them all
    and is answered; a goroutine of a collector makes a step.  A reading that
    panics ends the process. *)
Inductive server_step (fl : flags) (h : handler) : server → server → Prop :=
  | request_answered s filters w r' w' :
      rw_sent w = None →
      ServeHTTP fl h (in_flight s) filters w (sv_registry s) = (r', Done (Answered w')) →
      server_step fl h s (mkServer r' (sv_scrapes s) (sv_answers s ++ [(filters, w, w')]))
  | request_scrapes s filters w r' ph :
      rw_sent w = None →
      ServeHTTP fl h (in_flight s) filters w (sv_registry s) = (r', Done (Scrapes ph)) →
      server_step fl h s
        (mkServer r' (sv_scrapes s ++ [mkScrape filters w ph (range (ph_collectors ph)) []]) (sv_answers s))
  | scrape_reads s i sc before after name n key c ms :
      sv_scrapes s !! i = Some sc → sc_left sc = before ++ (name, n) :: after →
      objects (sv_registry s) !! n = Some (key, c) → execute name c = Done ms →
      server_step fl h s
        (mkServer (sv_registry s)
           (<[i := mkScrape (sc_filters sc) (sc_writer sc) (sc_handler sc) (before ++ after)
                     (sc_metrics sc ++ ms)]> (sv_scrapes s)) (sv_answers s))
  | scrape_ends s i sc :
      sv_scrapes s !! i = Some sc → sc_left sc = [] →
      server_step fl h s
        (mkServer (sv_registry s) (delete i (sv_scrapes s))
           (sv_answers s ++
             [(sc_filters sc, sc_writer sc, prom_serve (sc_handler sc) (sc_metrics sc) (sc_writer sc))]))
  | collector_moves s n key c c' :
      objects (sv_registry s) !! n = Some (key, c) → object_step c c' →
      server_step fl h s (mkServer (set_object n key c' (sv_registry s)) (sv_scrapes s) (sv_answers s)).

(** From the moment [main] listens, with its metrics handler. *)
Inductive serving (mf : main_flags) (h : handler) : server → Prop :=
  | serving_main procs p err :
      exporter_main mf (new_process procs) = (p, Done (Listened err)) →
      (metricsPath mf, MetricsRoute h) ∈ p_mux p → serving mf h (mkServer (p_registry p) [] [])
  | serving_step s s' : serving mf h s → server_step (collector_flags mf) h s s' → serving mf h s'.
End serving.


(** ** Scrapes *)

Section scrapes.
Context `{GoRange} `{PromEnv} `{ServerEnv}.
Implicit Types (r : registry) (h : handler).

(** A class that has been listed and not yet read. *)
Definition unread_class r : Prop :=
  ∃ n key c class, objects r !! n = Some (key, AClass c) ∧ class_statsCache c !! class = Some None.

Definition success_of (key : string) : metric :=
  const_metric scrapeSuccessDesc (f64_of_Z 1) [key].

Lemma class_Update_outcome c :
  match class_Update c with
  | Done _ => True
  | Panic m => ∃ class, class_statsCache c !! class = Some None
  | OutOfFuel => False
  end.
Proof.
  assert (∀ node es, class_update_list node es = Panic nil_deref ∨
            ∃ ms, class_update_list node es = Done ms) as Hl.
  { intros node es. induction es as [|[cid [s|]] es [IH|[ms IH]]]; csimpl; rewrite ?IH; eauto. }
  assert (class_Update c = Panic nil_deref ∨ ∃ ms, class_Update c = Done ms) as [E|[ms ->]];
    [|rewrite E|done].
  - unfold class_Update. destruct (isNeedCollectMbLLc _); eauto.
  - by apply class_scrape_panics_iff in E as [_ ?].
Qed.

Lemma execute_outcome key c :
  match execute key c with
  | Done ms => success_of key ∈ ms
  | Panic _ => ∃ k class, c = AClass k ∧ class_statsCache k !! class = Some None
  | OutOfFuel => False
  end.
Proof.
  assert (∀ ms : list metric, success_of key ∈ ms ++ [success_of key]) as Hlast.
  { intros ms. apply elem_of_app. right. by left. }
  unfold execute. destruct c as [c|c|c]; [apply Hlast| |apply Hlast].
  pose proof (class_Update_outcome c) as Hc.
  change (Update (AClass c)) with (match class_Update c with
    | Done ms => Done (ms, None) | Panic m => Panic m | OutOfFuel => OutOfFuel end
    : outcome (list metric * option error)).
  destruct (class_Update c) as [ms|m|]; [apply Hlast| |done].
  destruct Hc as [class Hc]. by exists c, class.
Qed.

(** Registering an [MBCollector], which describes one metric, in a new registry
    does not fail. *)
Definition registers : Prop := register_error Describe = None.

(** The collectors a handler is made for. *)
Definition selects fl (filters : list string) (cs : gmap string nat) : Prop :=
  ∀ k, is_Some (cs !! k) ↔ flag_enables fl k = true ∧ (filters = [] ∨ k ∈ filters).

Lemma innerHandler_ok fl include max filters r :
  registers → registry_ok fl r →
  registry_ok fl (innerHandler fl include max filters r).1 ∧
  match innerHandler fl include max filters r with
  | (r', Done (inl _)) => r' = r ∧ ∃ k, k ∈ filters ∧ flag_enables fl k = false
  | (r', Done (inr ph)) =>
      Forall (λ k, flag_enables fl k = true) filters ∧ selects fl filters (ph_collectors ph) ∧
      refs_ok r' (ph_collectors ph) ∧ objects r `prefix_of` objects r' ∧ ph_maxRequests ph = max
  | _ => False
  end.
Proof.
  intros Hreg Hok. destruct (NewCollector_ok fl filters r Hok) as [Hok' Hn].
  unfold innerHandler, try_bind, mbind, prog_bind. rewrite Hreg.
  destruct (NewCollector fl filters r) as [r' [[e|cs]|m|]]; [done| |done|done].
  destruct Hn as (? & ? & ? & ?). by split_and!.
Qed.

Definition handler_ok fl r h : Prop :=
  registry_ok fl r ∧ selects fl [] (ph_collectors (unfilteredHandler h)) ∧
  refs_ok r (ph_collectors (unfilteredHandler h)).

Lemma refs_ok_prefix r r' cs : objects r `prefix_of` objects r' → refs_ok r cs → refs_ok r' cs.
Proof. intros [l E] Hr k n Hn. rewrite E, fmap_app. by apply lookup_app_l_Some, Hr. Qed.

Definition enabled fl (filters : list string) : Prop := Forall (λ k, flag_enables fl k = true) filters.

(** A request: it is refused for its filters, or by promhttp, or it is a scrape
    of the selected collectors. *)
Lemma ServeHTTP_ok fl h inFlight filters w r :
  registers → handler_ok fl r h → (0 <= inFlight)%Z →
  match ServeHTTP fl h inFlight filters w r with
  | (r', Done (Answered w')) =>
      r' = r ∧
      ((¬ enabled fl filters ∧ ∃ msg, w' = write_piece msg (write_header 400 w)) ∨
       (filters = [] ∧ (0 < ph_maxRequests (unfilteredHandler h) <= inFlight)%Z ∧
        w' = prom_busy (unfilteredHandler h) w))
  | (r', Done (Scrapes ph)) =>
      registry_ok fl r' ∧ objects r `prefix_of` objects r' ∧ enabled fl filters ∧
      selects fl filters (ph_collectors ph) ∧ refs_ok r' (ph_collectors ph) ∧
      (filters = [] → ph = unfilteredHandler h ∧
         ¬ (0 < ph_maxRequests (unfilteredHandler h) <= inFlight)%Z)
  | _ => False
  end.
Proof.
  intros Hreg (Hok & Hsel & Hrefs) Hf. unfold ServeHTTP. destruct filters as [|f fs].
  - unfold prom_ServeHTTP. simpl. case_decide as Hl; [split; [done|by right]|].
    split_and!; try done. by constructor.
  - pose proof (innerHandler_ok fl (includeExporterMetrics h) (maxRequests h) (f :: fs) r Hreg Hok)
      as [Hok' Hi].
    unfold mbind, prog_bind.
    destruct (innerHandler fl _ _ (f :: fs) r) as [r' [[e|ph]|m|]]; [| |done|done].
    + destruct Hi as [-> (k & Hk & Hd)]. split; [done|]. left. split.
      * unfold enabled. rewrite Forall_forall. intros Hall. specialize (Hall k Hk). congruence.
      * by exists ("Couldn't create filtered metrics handler: " +:+ e).
    + destruct Hi as (Hall & Hs & Hr & Hp & _). unfold prom_ServeHTTP. simpl.
      rewrite decide_False by lia. split_and!; try done.
Qed.

Lemma parsed_ok fl : registry_ok fl (ParseCollectorMetrics fl init_registry).1.
Proof. apply (reachable_ok fl), reg_parsed. Qed.

(** What the goroutine of the plugin is called with. *)
Definition plugin_call (mf : main_flags) : plugin * bool :=
  (mkPlugin (pluginName mf) (pluginIdx mf) (disableWatch mf),
   (ParseCollectorMetrics (collector_flags mf) init_registry).2).

(** [main] up to its routes. *)
Lemma exporter_main_prepares mf procs :
  registers →
  ∃ r h, handler_ok (collector_flags mf) r h ∧ ph_maxRequests (unfilteredHandler h) = maxRequestsFlag mf ∧
    exporter_main mf (new_process procs) =
      (_ ← http_Handle (metricsPath mf) (MetricsRoute h);
       if decide (metricsPath mf = "/") then mret (Listened listen_error)
       else match landing_error with
            | Some _ => mret Exit1
            | None => _ ← http_Handle "/" (LandingRoute (metricsPath mf)); mret (Listened listen_error)
            end) (mkProcess (if decide (maxProcs mf < 1)%Z then procs else maxProcs mf) r []
         (Some (plugin_call mf))).
Proof.
  intros Hreg. set (fl := collector_flags mf).
  pose proof (innerHandler_ok fl (negb (disableExporterMetrics mf)) (maxRequestsFlag mf) [] _ Hreg
    (parsed_ok fl)) as [Hok Hi].
  unfold exporter_main, newHandler, in_registry, plugin_call, GOMAXPROCS, mbind, prog_bind, modify. fold fl. simpl.
  destruct (ParseCollectorMetrics fl init_registry) as [r0 need]. simpl in *.
  destruct (innerHandler fl _ _ [] r0) as [r [[e|ph]|m|]]; [|simpl|done|done].
  { destruct Hi as [_ (k & []%elem_of_nil & _)]. }
  exists r, (mkHandler ph (negb (disableExporterMetrics mf)) (maxRequestsFlag mf)).
  destruct Hi as (_ & Hs & Hr & _ & Hmax). split; [done|]. split; [done|]. unfold http_Handle. simpl.
  repeat case_match; simplify_eq/=; done.
Qed.

(** The routes [main] registers. *)
Lemma http_Handle_mux pattern rt s s' o :
  http_Handle pattern rt s = (s', o) →
  p_registry s' = p_registry s ∧ p_plugin s' = p_plugin s ∧
  p_mux s' = p_mux s ++ (match o with Done _ => [(pattern, rt)] | _ => [] end).
Proof.
  unfold http_Handle. repeat case_match; intros [= <- <-]; simpl; by rewrite ?app_nil_r.
Qed.

(** A running scrape: of the collectors the flags enable and the filters name,
    each of which it has read or still has to read. *)
Definition scrape_ok fl h r (sc : scrape) : Prop :=
  enabled fl (sc_filters sc) ∧ selects fl (sc_filters sc) (ph_collectors (sc_handler sc)) ∧
  (sc_filters sc = [] → sc_handler sc = unfilteredHandler h) ∧
  Forall (λ e, (objects r).*1 !! e.2 = Some e.1) (sc_left sc) ∧
  ∀ key, is_Some (ph_collectors (sc_handler sc) !! key) →
    success_of key ∈ sc_metrics sc ∨ ∃ n, (key, n) ∈ sc_left sc.

(** The answer to a request: with status 400 for a filter that is not enabled,
    promhttp's refusal, or the metrics of the selected collectors. *)
Definition answer_ok fl h (a : list string * writer * writer) : Prop :=
  let '(filters, w, w') := a in
  if decide (Forall (λ k, flag_enables fl k = true) filters) then
    (filters = [] ∧ (0 < ph_maxRequests (unfilteredHandler h))%Z ∧ w' = prom_busy (unfilteredHandler h) w) ∨
    ∃ ph ms, selects fl filters (ph_collectors ph) ∧ w' = prom_serve ph ms w ∧
             ∀ key, is_Some (ph_collectors ph !! key) → success_of key ∈ ms
  else rw_sent w' = Some (400%Z, rw_header w).

(** The limit of parallel scrapes, if any, holds for the unfiltered ones. *)
Definition limit_ok h (s : server) : Prop :=
  (0 < ph_maxRequests (unfilteredHandler h) → in_flight s <= ph_maxRequests (unfilteredHandler h))%Z.

Record server_ok fl h (s : server) : Prop := {
  ok_handler : handler_ok fl (sv_registry s) h;
  ok_scrapes : Forall (scrape_ok fl h (sv_registry s)) (sv_scrapes s);
  ok_answers : Forall (answer_ok fl h) (sv_answers s);
  ok_limit : limit_ok h s
}.

Lemma scrape_ok_names fl h r r' sc :
  (objects r).*1 `prefix_of` (objects r').*1 → scrape_ok fl h r sc → scrape_ok fl h r' sc.
Proof.
  intros [l E] (Hen & Hsel & Hun & Hleft & Hread). split_and!; try done.
  eapply Forall_impl; [exact Hleft|]. intros [k n] Hn. rewrite E. by apply lookup_app_l_Some.
Qed.

Lemma handler_ok_names fl h r r' :
  registry_ok fl r' → (objects r).*1 `prefix_of` (objects r').*1 → handler_ok fl r h → handler_ok fl r' h.
Proof.
  intros Hok [l E] (_ & Hs & Hr). split_and!; [done|done|].
  intros k n Hn. rewrite E. by apply lookup_app_l_Some, Hr.
Qed.

Lemma prefix_names r r' : objects r `prefix_of` objects r' → (objects r).*1 `prefix_of` (objects r').*1.
Proof. intros [l ->]. rewrite fmap_app. by exists l.*1. Qed.

Lemma set_object_names r n key c c' :
  objects r !! n = Some (key, c) → (objects (set_object n key c' r)).*1 = (objects r).*1.
Proof.
  intros En. unfold set_object. simpl. rewrite list_fmap_insert. apply list_insert_id.
  by rewrite list_lookup_fmap, En.
Qed.

Lemma refused_sent filters fl h w w' inFlight :
  rw_sent w = None →
  (¬ enabled fl filters ∧ ∃ msg, w' = write_piece msg (write_header 400 w)) ∨
  (filters = [] ∧ (0 < ph_maxRequests (unfilteredHandler h) <= inFlight)%Z ∧
   w' = prom_busy (unfilteredHandler h) w) →
  answer_ok fl h (filters, w, w').
Proof.
  intros Hw [[Hn [msg ->]]|(-> & Hl & ->)]; unfold answer_ok.
  - rewrite decide_False by done. unfold write_piece, write_header. by rewrite Hw.
  - rewrite decide_True by constructor. left. split; [done|]. split; [lia|done].
Qed.

Lemma in_flight_app r scs sc ans :
  in_flight (mkServer r (scs ++ [sc]) ans) =
    (in_flight (mkServer r scs ans) + if decide (sc_filters sc = []) then 1 else 0)%Z.
Proof.
  unfold in_flight. simpl. rewrite filter_app, length_app, filter_cons, filter_nil.
  case_decide; simpl; lia.
Qed.

Lemma in_flight_delete r r' scs i sc ans ans' :
  scs !! i = Some sc → (in_flight (mkServer r (delete i scs) ans) <= in_flight (mkServer r' scs ans'))%Z.
Proof.
  intros Hi%delete_Permutation. unfold in_flight. cbn [sv_scrapes]. rewrite Hi at 2.
  rewrite filter_cons. case_decide; simpl; lia.
Qed.

Lemma in_flight_insert r r' scs i sc sc' ans ans' :
  scs !! i = Some sc → sc_filters sc' = sc_filters sc →
  in_flight (mkServer r (<[i := sc']> scs) ans) = in_flight (mkServer r' scs ans').
Proof.
  intros Hi Hf. unfold in_flight. cbn [sv_scrapes]. f_equal.
  revert i Hi. induction scs as [|x scs IH]; intros [|i] Hi; [done|done| |]; simpl.
  - injection Hi as ->. rewrite !filter_cons, Hf. by case_decide.
  - rewrite !filter_cons. case_decide; simpl; [f_equal|]; by apply (IH i).
Qed.

Lemma server_ok_step fl h s s' : registers → server_ok fl h s → server_step fl h s s' → server_ok fl h s'.
Proof.
  intros Hreg [Hh Hsc Ha Hl] Hstep.
  assert (0 <= in_flight s)%Z as Hpos by (unfold in_flight; lia).
  destruct Hstep as [s filters w r' w' Hw E|s filters w r' ph Hw E|s i sc bef aft name n key c ms Hi El Eo Ex
    |s i sc Hi El|s n key c c' En _].
  - pose proof (ServeHTTP_ok fl h (in_flight s) filters w (sv_registry s) Hreg Hh Hpos) as P.
    rewrite E in P. destruct P as [-> P]. split; [done|done| |done].
    apply Forall_app. split; [done|]. apply Forall_singleton. by eapply refused_sent.
  - pose proof (ServeHTTP_ok fl h (in_flight s) filters w (sv_registry s) Hreg Hh Hpos) as P.
    rewrite E in P. destruct P as (Hok & Hp & Hen & Hsel & Hrefs & Hun). apply prefix_names in Hp.
    split; simpl; [by eapply handler_ok_names| |done|].
    + apply Forall_app. split.
      * eapply Forall_impl; [exact Hsc|]. intros sc. by apply scrape_ok_names.
      * apply Forall_singleton. split_and!; [done|done|intros Hf; by apply Hun| |].
        -- apply Forall_forall. intros [k n] Hin%elem_of_range. by apply Hrefs.
        -- intros key [n Hn]. right. exists n. by apply elem_of_range.
    + unfold limit_ok in *. rewrite in_flight_app.
      change (in_flight (mkServer r' (sv_scrapes s) (sv_answers s))) with (in_flight s). simpl.
      case_decide as Hf; [|lia]. destruct (Hun Hf) as [_ Hlim]. lia.
  - split; simpl; [done| |done|].
    + apply Forall_insert; [done|]. rewrite Forall_lookup in Hsc.
      destruct (Hsc i sc Hi) as (Hen & Hsel & Hun & Hleft & Hread). rewrite El in Hleft, Hread.
      rewrite Forall_app, Forall_cons in Hleft. destruct Hleft as (Hleft & Hn & Hleft2).
      split_and!; [done|done|done|simpl; rewrite Forall_app; done|]. intros key' Hk. simpl.
      simpl in Hn. rewrite list_lookup_fmap, Eo in Hn. simpl in Hn. injection Hn as ->.
      destruct (Hread key' Hk) as [Hm|[n' Hin]]; [left; rewrite elem_of_app; by left|].
      apply elem_of_app in Hin as [Hin|[[= -> ->]|Hin]%elem_of_cons].
      * right. exists n'. rewrite elem_of_app. by left.
      * left. rewrite elem_of_app. right. pose proof (execute_outcome name c) as Hx. by rewrite Ex in Hx.
      * right. exists n'. rewrite elem_of_app. by right.
    + unfold limit_ok in *. by rewrite (in_flight_insert _ (sv_registry s) _ i sc _ _ (sv_answers s)).
  - assert (scrape_ok fl h (sv_registry s) sc) as (Hen & Hsel & Hun & Hleft & Hread)
      by (rewrite Forall_lookup in Hsc; eauto).
    split; simpl; [done|by apply Forall_delete| |].
    + apply Forall_app. split; [done|]. apply Forall_singleton. unfold answer_ok. rewrite decide_True by done.
      right. exists (sc_handler sc), (sc_metrics sc). split_and!; [done|done|].
      intros key Hk. destruct (Hread key Hk) as [?|[n Hn]]; [done|]. rewrite El in Hn. by apply elem_of_nil in Hn.
    + unfold limit_ok in *. intros Hp. specialize (Hl Hp). etrans; [exact (in_flight_delete _ (sv_registry s) _ _ _ _ (sv_answers s) Hi)|exact Hl].
  - pose proof (set_object_names (sv_registry s) n key c c' En) as Eo.
    assert ((objects (sv_registry s)).*1 `prefix_of` (objects (set_object n key c' (sv_registry s))).*1)
      as Hp by by rewrite Eo.
    split; simpl; [|eapply Forall_impl; [exact Hsc|]; intros sc; by apply scrape_ok_names|done|done].
    apply handler_ok_names with (sv_registry s); [|done|done].
    destruct Hh as ((Hst & Hin & Hnd) & _). unfold registry_ok. by rewrite Eo.
Qed.

Lemma server_ok_main mf procs p err h :
  registers → exporter_main mf (new_process procs) = (p, Done (Listened err)) →
  (metricsPath mf, MetricsRoute h) ∈ p_mux p → server_ok (collector_flags mf) h (mkServer (p_registry p) [] []).
Proof.
  intros Hreg Hm Hin. destruct (exporter_main_prepares mf procs Hreg) as (r & h' & Hok & _ & E).
  rewrite E in Hm. apply run_bind_inv in Hm as (s1 & [] & E1 & Hm).
  apply http_Handle_mux in E1 as (Hr & _ & Hx).
  assert (p_registry p = r ∧ ∃ l, p_mux p = (metricsPath mf, MetricsRoute h') :: l ∧
            ∀ path h, (path, MetricsRoute h) ∉ l) as (-> & l & El & Hl).
  { revert Hm. case_decide; [intros [= <- _]; split; [done|]; exists []; split;
      [done|intros ? ? []%elem_of_nil]|].
    case_match; [done|]. intros (s2 & [] & E2 & [= <- _])%run_bind_inv.
    apply http_Handle_mux in E2 as (Hr2 & _ & Hx2). split; [by rewrite Hr2|].
    rewrite Hx2, Hx. eexists. split; [done|].
    intros path h0 [[=]|[]%elem_of_nil]%elem_of_cons. }
  rewrite El, elem_of_cons in Hin. destruct Hin as [[= ->]|Hin]; [|by apply Hl in Hin].
  split; simpl; [done|constructor|constructor|]. unfold limit_ok, in_flight. simpl. lia.
Qed.

Lemma serving_ok mf h s : registers → serving mf h s → server_ok (collector_flags mf) h s.
Proof.
  intros Hreg. induction 1 as [procs p err Hm Hin|s s' _ IH Hs].
  - by eapply server_ok_main.
  - by eapply server_ok_step.
Qed.

(** C29: a running exporter, whose scrapes read their collectors one by one, in
    any order, while the collectors' goroutines and other requests go on.  A
    request whose filters name a collector the flags do not enable is answered
    with status 400 and changes nothing; one without filters is refused by
    promhttp when as many unfiltered scrapes as the limit are running, and there
    are never more; any other request starts a scrape of exactly the enabled
    collectors that its filters name (all of them without filters), however many
    filtered ones are running.  Every answer is one of these refusals or what
    promhttp makes of the metrics of exactly those collectors, each with the gauge
    of its success, and the objects of the store stay one per name.  A running
    scrape can always read any collector it has left, or be answered when it has
    none left; when a reading ends the process, the cause is a class without
    statistics.  (A reading of a collector is one step: the races of its accesses
    with those of the collector's goroutines, C26, end the process as well.) *)
Theorem scrape_answers mf h s :
  registers → serving mf h s →
  let fl := collector_flags mf in
  NoDup (objects (sv_registry s)).*1 ∧
  (0 < ph_maxRequests (unfilteredHandler h) → in_flight s <= ph_maxRequests (unfilteredHandler h))%Z ∧
  Forall (answer_ok fl h) (sv_answers s) ∧
  (∀ filters w,
     match ServeHTTP fl h (in_flight s) filters w (sv_registry s) with
     | (r', Done (Answered w')) => r' = sv_registry s ∧
         ((∃ k, k ∈ filters ∧ flag_enables fl k = false) ∨
          (filters = [] ∧ in_flight s = ph_maxRequests (unfilteredHandler h)))
     | (r', Done (Scrapes ph)) =>
         Forall (λ k, flag_enables fl k = true) filters ∧ selects fl filters (ph_collectors ph) ∧
         (filters = [] → ph = unfilteredHandler h)
     | _ => False
     end) ∧
  (∀ i sc, sv_scrapes s !! i = Some sc →
     (sc_left sc = [] → ∃ s', server_step fl h s s' ∧
        sv_answers s' = sv_answers s ++
          [(sc_filters sc, sc_writer sc, prom_serve (sc_handler sc) (sc_metrics sc) (sc_writer sc))]) ∧
     ∀ name n, (name, n) ∈ sc_left sc →
       ∃ key c, objects (sv_registry s) !! n = Some (key, c) ∧
         match execute name c with
         | Done ms => success_of name ∈ ms ∧
             ∃ s' sc', server_step fl h s s' ∧ sv_scrapes s' !! i = Some sc' ∧
               length (sc_left sc) = S (length (sc_left sc')) ∧ sc_metrics sc' = sc_metrics sc ++ ms
         | Panic _ => unread_class (sv_registry s)
         | OutOfFuel => False
         end).
Proof.
  intros Hreg Hs fl. destruct (serving_ok mf h s Hreg Hs) as [Hh Hsc Ha Hl]. fold fl in Hh, Hsc, Ha.
  split; [apply Hh|]. split; [exact Hl|]. split; [exact Ha|]. split.
  - intros filters w. pose proof (ServeHTTP_ok fl h (in_flight s) filters w (sv_registry s) Hreg Hh) as P.
    destruct (ServeHTTP fl h _ filters w _) as [r' [[w'|ph]|m|]].
    + destruct P as [-> [[Hn _]|(-> & Hlim & _)]]; [unfold in_flight; lia|split; [done|]..].
      * left. apply not_Forall_Exists in Hn; [|apply _]. apply Exists_exists in Hn as (k & Hk & Hd).
        exists k. split; [done|]. by apply not_true_is_false.
      * right. split; [done|]. unfold limit_ok in Hl. lia.
    + destruct P as (_ & _ & Hen & Hsel & _ & Hun); [unfold in_flight; lia|].
      split_and!; [done|done|]. intros Hf. by apply Hun.
    + apply P. unfold in_flight. lia.
    + apply P. unfold in_flight. lia.
  - intros i sc Hi. assert (scrape_ok fl h (sv_registry s) sc) as (_ & _ & _ & Hleft & _)
      by (rewrite Forall_lookup in Hsc; eauto).
    split; [intros El; eexists; split; [by apply (scrape_ends _ _ s i sc)|done]|].
    intros name n Hin. rewrite Forall_forall in Hleft. pose proof (Hleft _ Hin) as Hn. simpl in Hn.
    rewrite list_lookup_fmap in Hn. destruct (objects (sv_registry s) !! n) as [[key c]|] eqn:Eo; [|done].
    exists key, c. split; [done|]. pose proof (execute_outcome name c) as Hx.
    destruct (execute name c) as [ms|m|] eqn:Ex; [|by destruct Hx as (k & class & -> & Hc); by exists n, key, k, class|done].
    split; [done|]. apply list_elem_of_split in Hin as (bef & aft & El).
    eexists _, _. split; [by eapply scrape_reads|]. simpl. split; [by apply list_lookup_insert_eq; eapply lookup_lt_Some|].
    simpl. rewrite El, !length_app. simpl. split; [lia|done].
Qed.
End scrapes.

(** ** The plugin's hooks *)

Section hooks.
Context `{GoRange} `{PromEnv} `{ServerEnv}.

Lemma parse_needs_nri fl :
  (ParseCollectorMetrics fl init_registry).2 = needs_nri (containerCollectorMetrics fl).
Proof.
  assert (∀ ks r b, (foldl (parse_key fl) (r, b) ks).2 =
    b || (bool_decide (containerCollectorSubsystem ∈ ks) && needs_nri (containerCollectorMetrics fl))) as Hf.
  { induction ks as [|k ks IH]; intros r b; cbn [foldl].
    - by rewrite bool_decide_false, orb_false_r by apply not_elem_of_nil.
    - destruct (parse_key fl (r, b) k) as [r1 b1] eqn:E. rewrite IH.
      unfold parse_key in E. rewrite (bool_decide_ext _ _ (elem_of_cons _ _ _)).
      destruct (decide (k = containerCollectorSubsystem)) as [->|Hk].
      + injection E as _ <-. rewrite (bool_decide_true (_ = _ ∨ _)) by by left.
        destruct b, (needs_nri _), (bool_decide _); done.
      + injection E as _ <-. rewrite (bool_decide_ext (_ = _ ∨ _) (containerCollectorSubsystem ∈ ks));
          [done|naive_solver]. }
  unfold ParseCollectorMetrics. rewrite Hf, bool_decide_true; [done|].
  apply list_elem_of_fmap. exists (containerCollectorSubsystem, true). split; [done|].
  by apply elem_of_range.
Qed.

(** The collector reads the monitor groups only if the flag asks for them. *)
Lemma collects_needs_nri wl f times :
  isNeedCollectMbLLc (cc_metrics (NewContainerCollector wl f times)) = true →
  needs_nri (Some f) = true.
Proof.
  unfold isNeedCollectMbLLc, needs_nri, NewContainerCollector, select_metrics. simpl.
  destruct (decide (f = allMetrics)); [by rewrite (bool_decide_true (f = allMetrics))|].
  destruct (decide (f = noMetrics)); [by rewrite !bool_decide_false by set_solver|].
  rewrite !orb_true_iff, !bool_decide_eq_true, !elem_of_list_to_set.
  intros [Hs|Hs]; apply split_contains in Hs; [tauto|done|tauto|done].
Qed.

Lemma exporter_main_plugin mf procs p o :
  registers → exporter_main mf (new_process procs) = (p, o) → p_plugin p = Some (plugin_call mf).
Proof.
  intros Hreg. destruct (exporter_main_prepares mf procs Hreg) as (r & h & _ & _ & ->).
  unfold mbind, prog_bind. intros Hm.
  destruct (http_Handle (metricsPath mf) _ _) as [s1 o1] eqn:E1.
  apply http_Handle_mux in E1 as (_ & E1 & _). simpl in E1.
  destruct o1 as [[]|m|]; [|by injection Hm as <- <-..].
  case_decide; [by injection Hm as <- <-|]. case_match; [by injection Hm as <- <-|].
  destruct (http_Handle "/" _ s1) as [s2 o2] eqn:E2. apply http_Handle_mux in E2 as (_ & E2 & _).
  destruct o2 as [[]|m|]; injection Hm as <- <-; congruence.
Qed.

(** C40: the plugin [main] starts gives every new container, except those of pods
    with their own RDT group, the hooks that make its monitor group, as soon as
    the container collector reads those groups; for metrics that mention neither
    bandwidth nor cache it gives none. *)
Theorem monitor_groups_as_needed {manager hooks} `{!PluginEnv manager}
    (Mgr_Hooks : manager → list string → gmap string string → bool → error + option hooks)
    mf procs p o pl isNeed f st mgr wl times pod c :
  registers → exporter_main mf (new_process procs) = (p, o) →
  p_plugin p = Some (pl, isNeed) → containerCollectorMetrics (collector_flags mf) = Some f →
  has_rdt pod = false →
  let need := ps_need (Run pl isNeed st).1 in
  let created := CreateContainer (Mgr_Hooks mgr) need pod c in
  (isNeedCollectMbLLc (cc_metrics (NewContainerCollector wl f times)) = true →
   created = match Mgr_Hooks mgr (nri_Args c) (pod_Annotations pod ∪ nri_Annotations c)
                     (bool_decide (0 < nri_Mounts c)) with
             | inl err => inl ("hook generation failed: " +:+ err)
             | inr hs => inr hs
             end) ∧
  (f ≠ allMetrics → str_contains f "mb" = false → str_contains f "llc" = false → created = inr None).
Proof.
  intros Hreg Hm Hp Hf Hrdt need created.
  rewrite (exporter_main_plugin mf procs p o Hreg Hm) in Hp. injection Hp as _ Eneed.
  assert (need = needs_nri (Some f)) as En.
  { rewrite parse_needs_nri, Hf in Eneed. rewrite Eneed. unfold need, Run. by repeat case_match. }
  unfold created, CreateContainer. rewrite En, Hrdt. split.
  - intros Hc. by rewrite (collects_needs_nri wl f times Hc).
  - intros Hall Hmb Hllc. unfold needs_nri. by rewrite bool_decide_false, Hmb, Hllc by done.
Qed.
End hooks.

(** ** A concrete exporter *)

Section witnesses.
#[local] Existing Instance list_range.
(** A promhttp handler that writes the names of the metrics. *)
#[local] Instance demo_prom : PromEnv :=
  {| register_error ds := None; prom_serve ph ms w := write_piece (join (m_name <$> ms) " ") w;
     prom_busy ph w := write_piece "Limit of concurrent requests reached" (write_header 503 w) |}.
#[local] Instance demo_server : ServerEnv := {| landing_error := None; listen_error := Some "closed" |}.
#[local] Instance demo_plugin_env : PluginEnv unit :=
  {| stub_New _ := None; hooks_New _ := inr (); OverrideDir := "/etc/containers/oci/hooks.d";
     os_MkdirAll _ := None; monitor_sync _ _ := None; stub_Run _ := None |}.

Definition demo_main : main_flags := mkMain "/metrics" true 1 1 "mb-nri-plugin" "11" false demo_flags.

Definition demo_process : process := (exporter_main demo_main (new_process 8)).1.
Definition demo_handler : handler :=
  match p_mux demo_process with
  | (_, MetricsRoute h) :: _ => h
  | _ => mkHandler (mkProm ∅ false 0) false 0
  end.

Lemma demo_serving : serving demo_main demo_handler (mkServer (p_registry demo_process) [] []).
Proof.
  apply (serving_main _ _ 8 _ (Some "closed")); [by vm_compute|]. by left.
Qed.

(** An unfiltered scrape of the container collector is running. *)
Definition scraping : server :=
  mkServer (p_registry demo_process)
    [mkScrape [] fresh_writer (unfilteredHandler demo_handler)
       (range (ph_collectors (unfilteredHandler demo_handler))) []] [].

Lemma demo_scraping : serving demo_main demo_handler scraping.
Proof.
  eapply serving_step; [exact demo_serving|].
  apply (request_scrapes _ _ (mkServer (p_registry demo_process) [] []) [] fresh_writer); by vm_compute.
Qed.

(** What a request gets now: a scrape, or the status of its answer. *)
Definition demo_request (filters : list string) : outcome (option (option Z)) :=
  match (ServeHTTP demo_flags demo_handler (in_flight scraping) filters fresh_writer (p_registry demo_process)).2 with
  | Done (Answered w) => Done (Some (fst <$> rw_sent w))
  | Done (Scrapes _) => Done None
  | Panic m => Panic m
  | OutOfFuel => OutOfFuel
  end.

Lemma scrape_answers_witness :
  in_flight scraping = 1%Z ∧
  demo_request ["rdtClass"] = Done (Some (Some 400%Z)) ∧ demo_request ["node"] = Done None ∧
  (0 < ph_maxRequests (unfilteredHandler demo_handler))%Z ∧
  demo_request [] = Done (Some (Some 503%Z)) ∧
  ∀ name n, (name, n) ∈ range (ph_collectors (unfilteredHandler demo_handler)) →
    ∃ key c, objects (p_registry demo_process) !! n = Some (key, c) ∧
      match execute name c with
      | Done ms => success_of name ∈ ms ∧
          ∃ s' sc', server_step demo_flags demo_handler scraping s' ∧ sv_scrapes s' !! 0 = Some sc' ∧
            length (range (ph_collectors (unfilteredHandler demo_handler))) = S (length (sc_left sc')) ∧
            sc_metrics sc' = [] ++ ms
      | Panic _ => unread_class (p_registry demo_process)
      | OutOfFuel => False
      end.
Proof.
  split; [by vm_compute|]. split; [by vm_compute|]. split; [by vm_compute|]. split; [by vm_compute|].
  split; [by vm_compute|].
  destruct (scrape_answers demo_main demo_handler scraping (eq_refl : @registers demo_prom) demo_scraping)
    as (_ & _ & _ & _ & Hread). exact (proj2 (Hread 0 _ eq_refl)).
Defined.

(** The hooks of this manager are the names of the process's arguments. *)
Lemma monitor_groups_as_needed_witness :
  CreateContainer (λ args _ _, inr (Some args)) (ps_need (Run (plugin_call demo_main).1 true (mkPS false None)).1)
    (mkSandbox "p" "pod" "default" ∅ "/kubepods") (mkNri "c" "app" "p" ∅ ["/bin/app"] 0)
  = inr (Some ["/bin/app"]).
Proof.
  assert (exporter_main demo_main (new_process 8) = (demo_process, Done (Listened (Some "closed"))))
    as Em by by vm_compute.
  assert (p_plugin demo_process = Some ((plugin_call demo_main).1, true)) as Ep by by vm_compute.
  eapply (monitor_groups_as_needed (λ (_ : unit) args _ _, inr (Some args)) demo_main 8 demo_process
    _ (plugin_call demo_main).1 true "all" (mkPS false None) ()
    "" 10 (mkSandbox "p" "pod" "default" ∅ "/kubepods") (mkNri "c" "app" "p" ∅ ["/bin/app"] 0)
    (eq_refl : @registers demo_prom) Em Ep eq_refl ltac:(by vm_compute)).
  by vm_compute.
Defined.
End witnesses.
